(* ===== verification/_CoqProject ===== *)
-Q . S2P
Prelude.v
Config.v
Optik.v
Layout.v
City.v
Mica.v
MicaLog.v
Cache.v
CacheSpec.v
Interleave.v
Network.v
ScProtocol.v
LinSpec.v
LinProtocol.v
Packets.v
LockedHandlers.v
Flow.v
FlowSpec.v
FlowRound.v
FlowSystem.v
Signaling.v
Remotes.v
LinRound.v
LinContent.v
LinServe.v
LinTrack.v
LinClients.v
ColdRequests.v
Trace.v
TraceFile.v
ClientLoop.v
ColdPath.v
ClientRound.v
ScSystem.v
LinLoop.v
LinSystem.v
LinComplete.v
Latency.v
Locals.v
Startup.v
CacheStats.v
