(* ===== verification/Prelude.v ===== *)
(** * ccKVS: a verification development

    ccKVS is a replicated key-value store: every machine keeps an identical
    cache of the hottest keys (symmetric caching) in front of a store that is
    partitioned over the machines.  Clients read their requests from a trace,
    probe the local cache with a batch, broadcast the hot writes to the other
    machines' caches under one of two coherence protocols, and send what missed
    to the worker of the key's home machine.  This library translates the C
    sources into Rocq definitions and proves the properties that make the parts
    correct, alone and together.

    ** Files and what they model

    - [Prelude]: results of C code ([outcome]: returned, assertion failed,
      waiting for another thread), machine integers, byte memory, little-endian
      integers, tactics and hints.
    - [Config]: the macros of include/ccKVS/main.h, include/libhrd/hrd.h and
      hrd_sizes.h, include/mica/mica.h and include/ccKVS/cache.h.
    - [Optik]: include/optik/optik_mod.h, the version lock in every cached
      object, and the timestamp order its comparisons decide.
    - [Layout]: struct cache_op / mica_op, mica_resp, key_home, trace_command,
      and their bytes.
    - [City]: src/mica/city.c, the hash of the keys.
    - [Mica], [MicaLog]: src/mica/mica.c, the lossy hash index over a circular
      log; [MicaLog] is its specification as a lossy map and the refinement.
    - [Cache], [CacheSpec]: src/ccKVS/cache.c, the handlers of the SC and LIN
      batch functions on an object, the batch functions over index and log, the
      multi-writer store of the workers, and the population; [CacheSpec] gives
      each handler as a transition on timestamps (class [HandlerOk] is what the
      batch machinery asks of a handler) and the refinement of the batch
      functions to an abstract map of objects.
    - [Interleave], [LockedHandlers]: the same handlers as programs of single
      memory accesses (lock byte, version, state, value byte by byte) that the
      threads of a machine interleave on one object, with a simulation of every
      interleaving by the atomic handlers.
    - [Network]: the coherence messages of src/ccKVS/client-lin.c and
      include/ccKVS/inline_util.h; the network is a bag that delivers in any
      order.
    - [ScProtocol], [ScSystem]: sequential consistency.  [ScProtocol] is the
      argument for one object, over any network; [ScSystem] the hot path of the
      SC clients of all machines (probe, [perform_broadcasts_SC],
      [broadcast_cache_ops], [req_cache], [cache_response]) on the bytes of the
      caches and packets.
    - [LinSpec], [LinProtocol]: one object on all machines under
      linearizability: an abstract invalidation machine with its invariant, and
      the refinement of the handlers to it.
    - [Flow], [FlowSpec], [FlowRound], [FlowSystem]: the coherence part of a
      round of src/ccKVS/client-lin.c over unreliable datagrams (functions of
      inline_util.h with [_LIN] in their name, the bookkeeping after the cache,
      acknowledgements, credits, receives and completions); what each function
      does to the queues it moves messages between; the composed round; all
      machines with their messages and credits on the wire.
    - [Signaling]: the selective signaling of RDMA sends in inline_util.h: which
      sends ask for a completion, the polls, the depth of the send queues.
    - [Remotes]: [refill_recvs] and [poll_and_send_remotes], the receives for the
      answers to remote requests; [setup_the_buffer_space] of util.c.
    - [LinRound], [LinContent], [LinServe], [LinTrack], [LinClients]: the same
      round with the batch functions of [Cache] called on the machine's cache;
      which protocol messages a buffer, a queue or a batch stands for; what the
      cache answers a batch; that each step of a round is a run of the protocol
      for every key; and all client threads of all machines, of which
      [LinProtocol] is the specification.
    - [LinLoop], [LinSystem]: the loop of [run_client] in client-lin.c, from the
      swap of the arrays to the pass over the batch, and all threads running it
      on their traces; it refines [LinClients].
    - [LinComplete]: the same loop with its posts: receives for answers, the
      sends of the round through their queues, and the remote requests.
    - [Packets]: the eRPC packets of src/ccKVS/client-sc.c and
      src/ccKVS/worker.c: hot writes, cold requests, the worker's answers.
    - [ColdRequests]: the pass of the client over its batch
      ([handle_cold_requests] and its helpers in inline_util.h).
    - [Trace]: [batch_from_trace_to_cache] with the merging of hot reads.
    - [TraceFile]: [parse_trace] of src/ccKVS/util.c.
    - [ClientLoop], [ClientRound]: the loop of [run_client] in client-sc.c: the
      outstanding packets, and the composition of all parts of an iteration.
    - [ColdPath]: all clients and workers with the sessions between them: the
      packets of cold requests, the loop of [run_worker] in worker.c, the stores
      the workers of a machine share, the answers; and the service they
      implement.
    - [Latency]: the latency measurement of cache.h, inline_util.h, client-sc.c
      and stats.c, with clock readings: the one measurement a client has open,
      the histograms and the report.
    - [Locals]: [issue_locals] and [serve_local_reqs] of inline_util.h, requests
      to the own machine through windows of shared memory.
    - [Startup]: the checks of src/ccKVS/main.c and the placement of threads.
    - [CacheStats]: the counters of cache.c and of [window_stats] in stats.c.

    ** What the theorems show

    - Protocols.  LIN: every run of the handlers on all machines, with messages
      in any order, is a run of the abstract protocol; once an object was
      readable at a timestamp, later reads anywhere return at least it and later
      writes exceed it; readable replicas agree; delivering the messages makes
      every replica readable.  SC, for the keys all of whose writes are the first
      of their packets: writes propagate, and the caches agree on the newest one
      when nothing is under way.
    - The LIN client as a whole.  The caches of all machines and everything that
      is on a wire or in a buffer of a client are, key by key, a state of the
      protocol: the real-time guarantee and the agreement of readable replicas
      hold for the bytes in the caches, rounds return, and a key with no
      message left is readable everywhere.  The loops of the clients, fed from
      their traces, only run such rounds, and lose or repeat no command; an
      iteration returns, waits for answers that are on their way, or fails for
      one of three reasons: a read that would stand for more than 256 reads, a
      full queue of remote requests, or a full send queue.
    - Threads.  Any interleaving of the accesses of operations on an object is
      linearizable to the handlers, and every operation can finish.
    - Flow control.  Credits are conserved for every pair of machines and
      channel, so that no message finds its receive missing, every round ends
      without a failed assertion, and an idle receiver leaves credits to send.
      The polls for send completions never wait for a send that is not posted;
      every answer to a remote request finds a receive.
    - Cache and stores.  The batch functions complete on sound stores and
      implement maps (of objects; lossy for MICA); invariants of every handler;
      initialisation; round trips of insertion and lookup.
    - Client.  The batch stands for the trace key by key; every request has one
      fate in a pass; over many rounds no command of the trace is lost or
      repeated; rounds, with updates and answers arriving in their event loop,
      keep the invariant that ties refill, cache, broadcasts, pass and sending
      together, or fail for one of two stated reasons; packets are cut where they
      were put together.
    - Cold requests.  For GETs of any keys and PUTs of keys the home store holds,
      clients and workers of all machines together are an atomic map from keys to
      values that executes the requests of a packet in order and answers each; no
      assertion fails, the worker's arrays are never exceeded, and every client
      can be answered.
    - Local requests.  However clients and workers interleave, each request in
      the shared windows is executed exactly once and not overwritten before.
    - Latency.  The histograms and the report count exactly the measurements that
      a reference reads off the calls and their clock readings; the handlers with
      the clock agree with those of the other files without it.
    - Limits of the code, as theorems: the second update of a packet is read at
      the wrong offset; the update after the last acknowledgement carries stale
      bytes; an insertion is not seen by later requests of its batch; the log of
      MICA is overrun after the first wrap; the wait for outstanding packets can be skipped; merged
      reads overflow an assertion; local requests overtake each other; a remote
      latency is measured with the answer to an older packet; the send queue of
      acknowledgements is too short.

    ** Modelling decisions

    Machine integers are [Z] with the reductions the C types perform.  Memory
    that the code reads as bytes is a function from addresses.  [assert] is live
    (the Makefiles do not set NDEBUG) and an outcome.  Loops with a bound in the
    data are structural; the others have fuel: CityHash (length of the input),
    the refill loop (256 commands per slot of the batch, from the 255 merges a
    request admits), the pass over the batch (its length), the packet parser
    (its size), the broadcast loop (batch and queue length), each with a theorem
    that the fuel suffices; the redrawing loop of the trace parser has a theorem
    for all large enough fuel.  Handlers are atomic on their object, which
    [LockedHandlers] justifies; a wait for another thread is the outcome [Spin].
    In [FlowSystem] a round is one step and deliveries happen between rounds;
    the network card uses posted receives in order and drops a message that
    finds none.  The answers of the cache to a round are a parameter there, with
    the hypothesis that sender and kind of a message are kept; the batch
    functions of [Cache] are shown to satisfy it.  In [LinClients] the caches
    are the real ones; the batch of a round is any batch that carries over the
    writes whose invalidation was not sent, and a run is considered as long as
    the 32-bit version of no object wraps around.  In [ColdPath]
    the threads interleave between requests, eRPC delivers each packet once, at
    any time, and a worker's receive buffers keep their contents until it has
    answered; PUTs are for keys their home machine has (an insertion is not
    atomic), GETs for any.  In [LinSystem] and [LinComplete] the queues for remote
    requests have any contents at each iteration, and the polls and posts of a
    round are run after it.  In [ScSystem] and [ClientRound] the structures
    [req_cache] reads behind the first update of a packet are taken to have keys
    that are not cached, and [update_resp] not to hold the type that is skipped;
    in [ScSystem] no 32-bit version wraps around.  The refinement of the MICA
    store to a map is for entries inside the allocation.  [LinSystem] assumes of the
    traces what the parser gives ([TraceFile]) and that the keys a client tracks
    are cached.  In [Locals] the threads interleave between requests, and
    [DISABLE_LOCALS], which is 1 in main.h, is a parameter.  In [Latency] a clock
    reading is an argument, and readings lie within 2147 seconds, the range of
    the microseconds in an [int].  In [Signaling] the card completes the sends
    of a queue in order.  Allocation and printing are left out.

    ** Not modelled

    The contents of RDMA work requests (those of the LIN client's remote requests
    are no longer filled) and multicast; the RDMA variants of the SC broadcasts
    ([poll_coherence_SC], [create_credits_SC], [forge_bcast_wrs_SC]) and of the
    worker ([poll_remote_region], [request_bookkeeping] and their helpers), which
    have no caller, so that there is no composition to verify (their signaling
    is in [Signaling]); coalescing ([vector_read]) and multi-batching
    ([find_responses_to_enable_multi_batching]), which the configuration switches
    off; [print_stats] and [dump_stats_2_file], which average in floating point
    and print; the CRC variants of CityHash; the set-up of devices, connections
    and memory in util.c and libhrd, which is input/output; eRPC itself, a
    library the sources call; and the superseded clients backup.c and
    client-backup.c, which are not built. *)
From stdpp Require Export base tactics numbers list.
From Stdlib Require Export ZArith Lia.
#[global] Open Scope Z_scope.

(** ** Results of C code

    [Done a]: the code returned [a].  [AssertFailed]: an [assert] of the
    source evaluated to false, which aborts the process ([NDEBUG] is not set
    by the Makefiles).  [Spin]: control is in a busy-wait loop whose exit
    condition no step of this thread can make true. *)
Inductive outcome (A : Type) : Type :=
| Done (a : A)
| AssertFailed
| Spin.
Arguments Done {A} a.
Arguments AssertFailed {A}.
Arguments Spin {A}.

Definition obind {A B} (o : outcome A) (k : A -> outcome B) : outcome B :=
  match o with
  | Done a => k a
  | AssertFailed => AssertFailed
  | Spin => Spin
  end.

(** [assert(b)] *)
Definition c_assert (b : bool) : outcome unit :=
  if b then Done tt else AssertFailed.

Declare Scope c_scope.
Delimit Scope c_scope with c.
Notation "'let*' p := e 'in' k" := (obind e (fun p => k))
  (at level 10, p pattern, e at level 100, k at level 200) : c_scope.
#[global] Open Scope c_scope.

Lemma obind_Done_inv {A B} (o : outcome A) (k : A -> outcome B) b :
  obind o k = Done b -> exists a, o = Done a /\ k a = Done b.
Proof. destruct o; simpl; intros; try discriminate; eauto. Qed.

Lemma c_assert_Done b u : c_assert b = Done u -> b = true.
Proof. destruct b; [done | discriminate]. Qed.

(** The result, for evaluating on concrete inputs. *)
Definition done_or {A} (o : outcome A) (d : A) : A :=
  match o with Done a => a | _ => d end.

(** ** Machine integers: a w-bit unsigned integer is a [Z] reduced mod 2^w. *)
Definition u8 (z : Z) : Z := z mod 2 ^ 8.
Definition u16 (z : Z) : Z := z mod 2 ^ 16.
Definition u32 (z : Z) : Z := z mod 2 ^ 32.
Definition u64 (z : Z) : Z := z mod 2 ^ 64.

Definition is_u8 (z : Z) : Prop := 0 <= z < 2 ^ 8.
Definition is_u16 (z : Z) : Prop := 0 <= z < 2 ^ 16.
Definition is_u32 (z : Z) : Prop := 0 <= z < 2 ^ 32.
Definition is_u64 (z : Z) : Prop := 0 <= z < 2 ^ 64.

#[export] Instance is_u8_dec z : Decision (is_u8 z).
Proof. unfold is_u8; apply _. Defined.

Create HintDb ccKVS.
Create Rewrite HintDb uint.

Lemma u8_small z : is_u8 z -> u8 z = z.
Proof. apply Z.mod_small. Qed.
Lemma u16_small z : is_u16 z -> u16 z = z.
Proof. apply Z.mod_small. Qed.
Lemma u32_small z : is_u32 z -> u32 z = z.
Proof. apply Z.mod_small. Qed.
Lemma u64_small z : is_u64 z -> u64 z = z.
Proof. apply Z.mod_small. Qed.

Lemma u8_range z : is_u8 (u8 z).
Proof. apply Z.mod_pos_bound; lia. Qed.
Lemma u16_range z : is_u16 (u16 z).
Proof. apply Z.mod_pos_bound; lia. Qed.
Lemma u32_range z : is_u32 (u32 z).
Proof. apply Z.mod_pos_bound; lia. Qed.
Lemma u64_range z : is_u64 (u64 z).
Proof. apply Z.mod_pos_bound; lia. Qed.
#[export] Hint Resolve u8_range u16_range u32_range u64_range : ccKVS.

(** Linear arithmetic modulo the widths. *)
Ltac uint_lia :=
  unfold is_u8, is_u16, is_u32, is_u64, u8, u16, u32, u64 in *;
  Z.div_mod_to_equations; lia.

(** Case analysis on the first boolean comparison of integers in the goal,
    keeping the corresponding fact about [Z]. *)
Ltac zcase :=
  match goal with
  | |- context [Z.eqb ?a ?b] => destruct (Z.eqb_spec a b)
  | |- context [Z.ltb ?a ?b] => destruct (Z.ltb_spec a b)
  | |- context [Z.leb ?a ?b] => destruct (Z.leb_spec a b)
  end.

(** The same on a hypothesis. *)
Ltac zcase_in H :=
  match type of H with
  | context [Z.eqb ?a ?b] => destruct (Z.eqb_spec a b)
  | context [Z.ltb ?a ?b] => destruct (Z.ltb_spec a b)
  | context [Z.leb ?a ?b] => destruct (Z.leb_spec a b)
  end.

(** Peel the binds of a completed computation in [H]. *)
Ltac inv_done H :=
  repeat match type of H with
  | obind _ _ = Done _ =>
      let a := fresh "a" in let E := fresh "E" in
      apply obind_Done_inv in H as (a & E & H)
  | Done _ = Done _ => injection H as H; subst
  | AssertFailed = Done _ => discriminate H
  | Spin = Done _ => discriminate H
  end.

(** ** Little-endian integers *)
Fixpoint le_split (n : nat) (z : Z) : list Z :=
  match n with
  | O => []
  | S n => z mod 256 :: le_split n (z / 256)
  end.

Fixpoint le_combine (bs : list Z) : Z :=
  match bs with
  | [] => 0
  | b :: bs => b + 256 * le_combine bs
  end.

Lemma length_le_split n z : length (le_split n z) = n.
Proof. revert z; induction n; intros; simpl; auto. Qed.

Lemma le_split_bytes n z : Forall is_u8 (le_split n z).
Proof.
  revert z; induction n; intros; simpl; constructor; auto.
  apply Z.mod_pos_bound; lia.
Qed.

Lemma le_combine_split n z :
  0 <= z < 256 ^ Z.of_nat n -> le_combine (le_split n z) = z.
Proof.
  revert z; induction n as [|n IH]; intros z Hz; simpl.
  - change (Z.of_nat 0) with 0 in Hz. lia.
  - rewrite Nat2Z.inj_succ, Z.pow_succ_r in Hz by lia.
    rewrite IH; [|split; [apply Z.div_pos; lia|apply Z.div_lt_upper_bound; lia]].
    pose proof (Z.div_mod z 256). lia.
Qed.

Lemma le_combine_bound bs :
  Forall is_u8 bs -> 0 <= le_combine bs < 256 ^ Z.of_nat (length bs).
Proof.
  induction 1 as [|b bs Hb _ IH]; [simpl; lia|].
  cbn [le_combine length]. rewrite Nat2Z.inj_succ, Z.pow_succ_r by lia.
  unfold is_u8 in Hb. lia.
Qed.

Lemma le_split_combine bs :
  Forall is_u8 bs -> le_split (length bs) (le_combine bs) = bs.
Proof.
  induction 1 as [|b bs Hb _ IH]; [done|].
  cbn [le_combine length le_split]. unfold is_u8 in Hb.
  rewrite Z.mul_comm, Z_mod_plus_full, Z.mod_small by lia.
  replace ((b + le_combine bs * 256) / 256) with (le_combine bs)
    by (symmetry; rewrite Z.div_add, Z.div_small by lia; lia).
  by rewrite IH.
Qed.

Lemma le_combine_inj bs1 bs2 :
  Forall is_u8 bs1 -> Forall is_u8 bs2 -> length bs1 = length bs2 ->
  le_combine bs1 = le_combine bs2 -> bs1 = bs2.
Proof.
  intros H1 H2 Hl He. rewrite <- (le_split_combine bs1), <- (le_split_combine bs2) by done.
  by rewrite Hl, He.
Qed.

(** ** Byte-addressed memory *)
Definition mem := Z -> Z.

(** The [n] bytes at [p]. *)
Definition load_bytes (m : mem) (p : Z) (n : nat) : list Z :=
  (fun i => m (p + Z.of_nat i)) <$> seq 0 n.

(** [memcpy(p, bs, length bs)]. *)
Definition store_bytes (m : mem) (p : Z) (bs : list Z) : mem :=
  fun a => if (p <=? a) && (a <? p + Z.of_nat (length bs))
           then nth (Z.to_nat (a - p)) bs 0 else m a.

Lemma length_load_bytes m p n : length (load_bytes m p n) = n.
Proof. unfold load_bytes. by rewrite length_fmap, length_seq. Qed.

Lemma lookup_load_bytes m p n i :
  (i < n)%nat -> load_bytes m p n !! i = Some (m (p + Z.of_nat i)).
Proof.
  intros Hi. unfold load_bytes. rewrite list_lookup_fmap, lookup_seq_lt by done. done.
Qed.

Lemma load_bytes_ext m m' p p' n :
  (forall i, 0 <= i < Z.of_nat n -> m (p + i) = m' (p' + i)) ->
  load_bytes m p n = load_bytes m' p' n.
Proof.
  intros H. apply list_fmap_ext. intros i x Hx.
  apply lookup_seq in Hx as [-> Hlt]. apply H. lia.
Qed.

Lemma store_bytes_out m p bs a :
  a < p \/ p + Z.of_nat (length bs) <= a -> store_bytes m p bs a = m a.
Proof. intros H. unfold store_bytes. repeat zcase; simpl; try done; lia. Qed.

Lemma store_bytes_in m p bs i :
  0 <= i < Z.of_nat (length bs) ->
  store_bytes m p bs (p + i) = nth (Z.to_nat i) bs 0.
Proof.
  intros H. unfold store_bytes. repeat zcase; simpl; try lia.
  f_equal. lia.
Qed.

Lemma load_store_sub m p bs k n :
  0 <= k -> k + Z.of_nat n <= Z.of_nat (length bs) ->
  load_bytes (store_bytes m p bs) (p + k) n = take n (drop (Z.to_nat k) bs).
Proof.
  intros Hk Hn. apply list_eq. intros i.
  destruct (decide (i < n)%nat) as [Hi|Hi].
  - rewrite lookup_load_bytes by done.
    rewrite lookup_take_lt, lookup_drop by done.
    rewrite <- Z.add_assoc, store_bytes_in by lia.
    replace (Z.to_nat (k + Z.of_nat i)) with (Z.to_nat k + i)%nat by lia.
    destruct (lookup_lt_is_Some_2 bs (Z.to_nat k + i)) as [x Hx]; [lia|].
    rewrite Hx. f_equal. by apply nth_lookup_Some.
  - rewrite !lookup_ge_None_2; [done| |]; rewrite ?length_take, ?length_load_bytes; lia.
Qed.

Lemma load_store_same m p bs :
  load_bytes (store_bytes m p bs) p (length bs) = bs.
Proof.
  rewrite <- (Z.add_0_r p) at 2. rewrite load_store_sub by lia.
  change (Z.to_nat 0) with 0%nat. rewrite drop_0. by apply firstn_all.
Qed.

Lemma load_store_disjoint m p bs q n :
  q + Z.of_nat n <= p \/ p + Z.of_nat (length bs) <= q ->
  load_bytes (store_bytes m p bs) q n = load_bytes m q n.
Proof.
  intros H. apply load_bytes_ext. intros i Hi. apply store_bytes_out. lia.
Qed.

Lemma load_bytes_app m p a b :
  load_bytes m p (a + b) = load_bytes m p a ++ load_bytes m (p + Z.of_nat a) b.
Proof.
  unfold load_bytes. rewrite seq_app, fmap_app. f_equal.
  simpl. rewrite <- (Nat.add_0_r a) at 1. rewrite <- fmap_add_seq, <- list_fmap_compose.
  apply list_fmap_ext. intros; simpl. f_equal. lia.
Qed.

Lemma store_bytes_bytes m p bs :
  (forall a, is_u8 (m a)) -> Forall is_u8 bs -> forall a, is_u8 (store_bytes m p bs a).
Proof.
  intros Hm Hb a. unfold store_bytes. destruct (_ && _); [|done].
  destruct (nth_in_or_default (Z.to_nat (a - p)) bs 0) as [Hin| ->].
  - rewrite Forall_forall in Hb. apply Hb. by apply list_elem_of_In.
  - unfold is_u8; lia.
Qed.

Lemma load_bytes_bytes m p n :
  (forall a, is_u8 (m a)) -> Forall is_u8 (load_bytes m p n).
Proof. intros Hm. apply Forall_fmap, Forall_true. intros; simpl; auto. Qed.

Lemma store_bytes_store m p bs1 bs2 :
  length bs1 = length bs2 -> forall a,
  store_bytes (store_bytes m p bs1) p bs2 a = store_bytes m p bs2 a.
Proof.
  intros Hl a. unfold store_bytes. rewrite Hl. repeat zcase; simpl; try done; lia.
Qed.

(** ** Functions updated at one point (arrays indexed by an integer) *)
Definition fupd {A} (f : Z -> A) (k : Z) (v : A) : Z -> A :=
  fun i => if i =? k then v else f i.

Lemma fupd_eq {A} (f : Z -> A) k v : fupd f k v k = v.
Proof. unfold fupd. by rewrite Z.eqb_refl. Qed.

Lemma fupd_ne {A} (f : Z -> A) k v i : i <> k -> fupd f k v i = f i.
Proof. intros. unfold fupd. by zcase. Qed.

Lemma lookup_lt_total {A} (l : list A) (d : A) i :
  (i < length l)%nat -> l !! i = Some (nth i l d).
Proof.
  intros Hi. destruct (lookup_lt_is_Some_2 l i Hi) as [x Hx].
  rewrite Hx. f_equal. symmetry. by apply nth_lookup_Some.
Qed.

(** ** Counting with booleans, division by steps, integer ranges *)
Definition zb (b : bool) : Z := if b then 1 else 0.

Lemma zb_range b : 0 <= zb b <= 1.
Proof. destruct b; simpl; lia. Qed.

Lemma div_succ B t : 0 < B -> 0 <= t -> (t + 1) / B = t / B + zb (t mod B =? B - 1).
Proof.
  intros HB Ht. pose proof (Z.div_mod t B ltac:(lia)) as E. pose proof (Z.mod_pos_bound t B HB).
  destruct (Z.eqb_spec (t mod B) (B - 1)); cbn [zb]; symmetry;
    [apply (Z.div_unique _ _ _ 0)|apply (Z.div_unique _ _ _ (t mod B + 1))]; nia.
Qed.

Lemma seqZ_snoc m n : 0 <= n -> seqZ m (n + 1) = seqZ m n ++ [m + n].
Proof. intros Hn. rewrite (seqZ_app m n 1) by lia. f_equal. Qed.
