(* ===== verification/Config.v ===== *)
(** * Compile-time configuration

    The macros of [include/ccKVS/main.h], [include/libhrd/hrd.h],
    [include/ccKVS/cache.h] and [include/mica/mica.h] that the modelled code
    uses, each with the expression it has in the header (a conditional
    expression stays one).  The assertions of [src/ccKVS/main.c] over them are
    in [Startup]. *)
From S2P Require Import Prelude.

(** ** include/libhrd/hrd_sizes.h *)
Definition K_32 : Z := 32768.
Definition K_64 : Z := 65536.
Definition M_1 : Z := 1048576.
Definition M_16 : Z := 16777216.
Definition M_256 : Z := 268435456.
Definition M_1024 : Z := 1073741824.

(** ** include/libhrd/hrd.h *)
Definition USE_BIG_OBJECTS : Z := 0.
Definition EXTRA_CACHE_LINES : Z := 1.
Definition BASE_VALUE_SIZE : Z := 32.
Definition SHIFT_BITS : Z := if USE_BIG_OBJECTS =? 1 then 3 else 0.
Definition HERD_NUM_BKTS : Z :=
  if USE_BIG_OBJECTS =? 1 then 128 * 1024 else 2 * 1024 * 1024.
Definition HERD_LOG_CAP : Z := 1024 * 1024 * 1024.
Definition HERD_NUM_KEYS : Z :=
  if USE_BIG_OBJECTS =? 1 then 512 * 1024 else 4 * 1024 * 1024.
Definition HERD_VALUE_SIZE : Z :=
  if USE_BIG_OBJECTS =? 1 then EXTRA_CACHE_LINES * 64 + BASE_VALUE_SIZE
  else BASE_VALUE_SIZE.
Definition KEY_SIZE : Z := 16.
Definition HERD_GET_REQ_SIZE : Z := KEY_SIZE + 1.
Definition HERD_PUT_REQ_SIZE : Z := KEY_SIZE + 1 + 1 + HERD_VALUE_SIZE.
Definition GRH_SIZE : Z := 40.
Definition MICA_OP_SIZE : Z :=
  if USE_BIG_OBJECTS =? 1 then 64 + EXTRA_CACHE_LINES * 64 else 64.
Definition UD_REQ_SIZE : Z := MICA_OP_SIZE + GRH_SIZE.
Definition ENABLE_COALESCING : Z := 0.
Definition ENABLE_WORKER_COALESCING_ : Z := if USE_BIG_OBJECTS =? 0 then 1 else 0.
Definition ENABLE_WORKER_COALESCING : Z :=
  if ENABLE_COALESCING =? 1 then ENABLE_WORKER_COALESCING_ else 0.
Definition DESIRED_COALESCING_FACTOR : Z := 32.
Definition WRKR_COALESCING_BUF_SLOT_SIZE_ : Z :=
  DESIRED_COALESCING_FACTOR * HERD_VALUE_SIZE.
Definition WRKR_COALESCING_BUF_SLOT_SIZE : Z :=
  if ENABLE_WORKER_COALESCING =? 1 then WRKR_COALESCING_BUF_SLOT_SIZE_
  else HERD_VALUE_SIZE.
Definition MINIMUM_WORKER_REQ_SIZE : Z :=
  DESIRED_COALESCING_FACTOR * HERD_GET_REQ_SIZE + 1 + GRH_SIZE.
Definition EXTRA_WORKER_REQ_BYTES_ : Z :=
  if MINIMUM_WORKER_REQ_SIZE <=? UD_REQ_SIZE then 0
  else MINIMUM_WORKER_REQ_SIZE - UD_REQ_SIZE.
Definition EXTRA_WORKER_REQ_BYTES : Z :=
  if ENABLE_COALESCING =? 1 then EXTRA_WORKER_REQ_BYTES_ else 0.

(** [HRD_MOD_ADD(x, N)]: increment with reset at [N].  [MOD_ADD_WITH_BASE]
    is the same with a base [B]. *)
Definition HRD_MOD_ADD (x N : Z) : Z := let x := x + 1 in if x =? N then 0 else x.
Definition MOD_ADD_WITH_BASE (x N B : Z) : Z :=
  let x := x + 1 in if x =? B + N then B else x.
(** [CEILING(x,y)] on non-negative operands. *)
Definition CEILING (x y : Z) : Z := (x + y - 1) / y.
Definition MAX (x y : Z) : Z := if y <? x then x else y.

(** ** include/mica/mica.h *)
Definition MICA_OP_GET : Z := 111.
Definition MICA_OP_PUT : Z := 112.
Definition MICA_OP_MULTI_GET : Z := 117.
Definition MICA_MAX_BATCH_SIZE : Z := 512.
Definition MICA_RESP_GET_SUCCESS : Z := 113.
Definition MICA_RESP_PUT_SUCCESS : Z := 114.
Definition MICA_RESP_GET_FAIL : Z := 115.
(** [sizeof(struct mica_key)]: two words of metadata, one of bucket, one of
    server and tag. *)
Definition sizeof_mica_key : Z := 16.
Definition MICA_OP_METADATA : Z := sizeof_mica_key + 1 + 1.
Definition MICA_MIN_VALUE : Z := 64 - MICA_OP_METADATA.
Definition MICA_MAX_VALUE : Z :=
  if USE_BIG_OBJECTS =? 1 then MICA_MIN_VALUE + EXTRA_CACHE_LINES * 64
  else MICA_MIN_VALUE.
Definition MICA_LOG_BITS : Z := 40.

(** ** include/ccKVS/cache.h *)
Definition CACHE_NUM_BKTS : Z := 64 * 1024.
Definition CACHE_NUM_KEYS : Z := 250 * 1000.
Definition WRITE_RATIO : Z := 10.
Definition CACHE_BATCH_SIZE : Z := 600.
Definition VALID_STATE : Z := 1.
Definition INVALID_STATE : Z := 2.
Definition INVALID_REPLAY_STATE : Z := 3.
Definition WRITE_STATE : Z := 4.
Definition WRITE_REPLAY_STATE : Z := 5.
Definition CACHE_OP_GET : Z := 111.
Definition CACHE_OP_PUT : Z := 112.
Definition CACHE_OP_UPD : Z := 113.
Definition CACHE_OP_INV : Z := 114.
Definition CACHE_OP_ACK : Z := 115.
Definition CACHE_OP_BRC : Z := 116.
Definition EMPTY : Z := 120.
Definition CACHE_GET_SUCCESS : Z := 121.
Definition CACHE_PUT_SUCCESS : Z := 122.
Definition CACHE_UPD_SUCCESS : Z := 123.
Definition CACHE_INV_SUCCESS : Z := 124.
Definition CACHE_ACK_SUCCESS : Z := 125.
Definition CACHE_LAST_ACK_SUCCESS : Z := 126.
Definition RETRY : Z := 127.
Definition CACHE_MISS : Z := 130.
Definition CACHE_GET_STALL : Z := 131.
Definition CACHE_PUT_STALL : Z := 132.
Definition CACHE_UPD_FAIL : Z := 133.
Definition CACHE_INV_FAIL : Z := 134.
Definition CACHE_ACK_FAIL : Z := 135.
Definition CACHE_GET_FAIL : Z := 136.
Definition CACHE_PUT_FAIL : Z := 137.
Definition UNSERVED_CACHE_MISS : Z := 140.

(** ** include/ccKVS/main.h *)
Definition TOTAL_CORES : Z := 40.
Definition TOTAL_CORES_ : Z := TOTAL_CORES - 1.
Definition PHYSICAL_CORES_PER_SOCKET : Z := 10.
Definition PHYSICAL_CORE_DISTANCE : Z := 4.
Definition VIRTUAL_CORES_PER_SOCKET : Z := 20.
Definition WORKER_HYPERTHREADING : Z := 1.
Definition WORKERS_PER_MACHINE : Z := 20.
Definition CLIENTS_PER_MACHINE : Z := 20.
Definition MACHINE_NUM : Z := 4.
Definition CACHE_SOCKET : Z := 0.
Definition CLIENT_NUM : Z := CLIENTS_PER_MACHINE * MACHINE_NUM.
Definition WORKER_NUM : Z := WORKERS_PER_MACHINE * MACHINE_NUM.
Definition WORKER_NUM_UD_QPS : Z := 1.
Definition REMOTE_UD_QP_ID : Z := 0.
Definition BROADCAST_UD_QP_ID : Z := 1.
Definition FC_UD_QP_ID : Z := 2.
Definition CLIENT_UD_QPS : Z := 3.
Definition ENABLE_WORKERS_CRCW : Z := 1.
Definition ENABLE_STATIC_LOCAL_ALLOCATION : Z := 1.
Definition DISABLE_LOCALS : Z := 1.
Definition ENABLE_LOCAL_WORKERS_ : Z := 0.
Definition ENABLE_LOCAL_WORKERS : Z :=
  if (ENABLE_WORKERS_CRCW =? 1) && (DISABLE_LOCALS =? 0) then ENABLE_LOCAL_WORKERS_ else 0.
Definition LOCAL_WORKERS : Z := 1.
Definition ACTIVE_WORKERS_PER_MACHINE : Z :=
  if (ENABLE_LOCAL_WORKERS =? 1) && (DISABLE_LOCALS =? 0)
  then WORKERS_PER_MACHINE - LOCAL_WORKERS else WORKERS_PER_MACHINE.
Definition ENABLE_CACHE_STATS : Z := 0.
Definition SEQUENTIAL_CONSISTENCY : Z := 1.
Definition LINEARIZABILITY : Z := 2.
Definition ENABLE_MULTIPLE_SESSIONS : Z := 1.
Definition SESSIONS_PER_CLIENT : Z := 6.
Definition ENABLE_THREAD_PARTITIONING_C_TO_W_ : Z := 1.
Definition ENABLE_THREAD_PARTITIONING_C_TO_W : Z :=
  if ENABLE_WORKERS_CRCW =? 1 then ENABLE_THREAD_PARTITIONING_C_TO_W_ else 0.
Definition BALANCE_REQS_ : Z := 0.
Definition BALANCE_REQS : Z :=
  if (ENABLE_WORKERS_CRCW =? 1) && (ENABLE_THREAD_PARTITIONING_C_TO_W =? 0)
  then BALANCE_REQS_ else 0.
Definition WINDOW_SIZE : Z := 512.
Definition KVS_BATCH : Z := 100.
Definition LOCAL_WINDOW : Z := 66.
Definition LOCAL_REGIONS : Z := 3.
Definition LOCAL_REGION_SIZE : Z := LOCAL_WINDOW / LOCAL_REGIONS.
Definition WS_PER_WORKER : Z :=
  if ENABLE_THREAD_PARTITIONING_C_TO_W =? 1 then KVS_BATCH else 20.
Definition MAX_OUTSTANDING_REQS : Z := WS_PER_WORKER * (WORKER_NUM - WORKERS_PER_MACHINE).
Definition ENABLE_MULTI_BATCHES : Z := 0.
Definition MAX_REMOTE_RECV_WCS : Z :=
  if ENABLE_MULTI_BATCHES =? 1 then MAX MAX_OUTSTANDING_REQS WINDOW_SIZE else WINDOW_SIZE.
Definition MINIMUM_BATCH_ABILITY : Z := 16.
Definition MIN_EMPTY_PERCENTAGE : Z := 5.
Definition FINISH_BATCH_ON_MISSING_CREDIT : Z := 0.
Definition WORKER_REQ_SIZE : Z :=
  if ENABLE_COALESCING =? 1 then UD_REQ_SIZE + EXTRA_WORKER_REQ_BYTES else UD_REQ_SIZE.
Definition WORKER_NET_REQ_SIZE : Z := WORKER_REQ_SIZE - GRH_SIZE.
Definition MULTIGET_AVAILABLE_SIZE : Z := WORKER_NET_REQ_SIZE.
Definition MAX_COALESCE_PER_MACH : Z := (MULTIGET_AVAILABLE_SIZE - 1) / HERD_GET_REQ_SIZE.
Definition MAXIMUM_INLINE_SIZE : Z := 188.
Definition ENABLE_KVS_BATCHING : Z := 1.
Definition WORKER_MAX_BATCH : Z := KVS_BATCH * MACHINE_NUM.
Definition CLIENT_ENABLE_INLINING : Z :=
  if (USE_BIG_OBJECTS =? 1) || (MAXIMUM_INLINE_SIZE <? MULTIGET_AVAILABLE_SIZE) then 0 else 1.
Definition WORKER_RESPONSE_MAX_SIZE : Z :=
  if ENABLE_WORKER_COALESCING =? 1 then MAX_COALESCE_PER_MACH * HERD_VALUE_SIZE
  else HERD_VALUE_SIZE.
Definition WORKER_ENABLE_INLINING : Z :=
  if (USE_BIG_OBJECTS =? 1) || (MAXIMUM_INLINE_SIZE <? WORKER_RESPONSE_MAX_SIZE) then 0 else 1.
Definition ENABLE_HOT_KEY_TRACKING : Z := 1.
Definition HOTTEST_KEYS_TO_TRACK : Z := 20.
Definition ENABLE_ASSERTIONS : Z := 1.
Definition ENABLE_STAT_COUNTING : Z := 1.
Definition MEASURE_LATENCY : Z := 1.
Definition ENABLE_WAKE_UP : Z := 0.
Definition STALLING_DEBUG_LIN : Z := 0.
Definition DO_ONLY_LOCALS : Z := 0.
Definition USE_A_SINGLE_KEY : Z := 0.
Definition ONLY_CACHE_HITS : Z := 0.
Definition SEND_ONLY_TO_ONE_MACHINE : Z := 0.
Definition SEND_ONLY_TO_NEXT_MACHINE : Z := 0.
Definition BALANCE_REQS_IN_CHUNKS : Z := 0.
Definition CHUNK_NUM : Z := 0.
Definition BALANCE_HOT_REQS : Z := 0.
Definition BALANCE_HOT_WRITES : Z := 0.
Definition ENABLE_HOT_REQ_GROUPING : Z := 0.
Definition NUM_OF_KEYS_TO_GROUP : Z := 10.
Definition GROUP_SIZE : Z := 50.
Definition RANDOM_MACHINE : Z := 0.
Definition DISABLE_CACHE : Z := 0.
Definition LOAD_BALANCE : Z := 1.
Definition EMULATING_CREW : Z := 1.
Definition ENABLE_MULTICAST : Z := 0.
Definition MAX_BCAST_BATCH : Z := if ENABLE_MULTICAST =? 1 then 4 else 4.
Definition MESSAGES_IN_BCAST : Z := if ENABLE_MULTICAST =? 1 then 1 else MACHINE_NUM - 1.
Definition MESSAGES_IN_BCAST_BATCH : Z := MAX_BCAST_BATCH * MESSAGES_IN_BCAST.
Definition BCAST_TO_CACHE_BATCH : Z := 500.
Definition SC_CREDITS : Z := 30.
Definition SC_CREDIT_DIVIDER : Z := 2.
Definition SC_CREDITS_IN_MESSAGE : Z := SC_CREDITS / SC_CREDIT_DIVIDER.
Definition SC_MAX_CREDIT_WRS : Z := (SC_CREDITS / SC_CREDITS_IN_MESSAGE) * (MACHINE_NUM - 1).
Definition SC_MAX_COH_MESSAGES : Z := SC_CREDITS * (MACHINE_NUM - 1).
Definition SC_MAX_COH_RECEIVES : Z := SC_CREDITS * (MACHINE_NUM - 1).
Definition SC_MAX_CREDIT_RECVS : Z := CEILING SC_MAX_COH_MESSAGES SC_CREDITS_IN_MESSAGE.
Definition SC_VIRTUAL_CHANNELS : Z := 1.
Definition SC_UPD_VC : Z := 0.
Definition CREDITS_FOR_EACH_CLIENT : Z := 60.
Definition UPD_CREDITS : Z := CREDITS_FOR_EACH_CLIENT.
Definition ACK_CREDITS : Z := CREDITS_FOR_EACH_CLIENT.
Definition INV_CREDITS : Z := CREDITS_FOR_EACH_CLIENT.
Definition BROADCAST_CREDITS : Z := UPD_CREDITS + ACK_CREDITS + INV_CREDITS.
Definition VIRTUAL_CHANNELS : Z := 3.
Definition ACK_VC : Z := 0.
Definition INV_VC : Z := 1.
Definition UPD_VC : Z := 2.
Definition LIN_CREDIT_DIVIDER : Z := 2.
Definition CREDITS_IN_MESSAGE : Z := CREDITS_FOR_EACH_CLIENT / LIN_CREDIT_DIVIDER.
Definition MAX_CREDIT_WRS : Z := (BROADCAST_CREDITS / CREDITS_IN_MESSAGE) * (MACHINE_NUM - 1).
Definition MAX_COH_MESSAGES : Z := (MACHINE_NUM - 1) * BROADCAST_CREDITS.
Definition LIN_MAX_COH_RECEIVES : Z := (MACHINE_NUM - 1) * BROADCAST_CREDITS.
Definition MAX_CREDIT_RECVS_FOR_BCASTS : Z :=
  (MACHINE_NUM - 1) * CEILING MAX_BCAST_BATCH CREDITS_IN_MESSAGE.
Definition MAX_CREDIT_RECVS_FOR_ACKS : Z := CEILING BCAST_TO_CACHE_BATCH CREDITS_IN_MESSAGE.
Definition MAX_CREDIT_RECVS : Z :=
  MAX MAX_CREDIT_RECVS_FOR_BCASTS MAX_CREDIT_RECVS_FOR_ACKS.
Definition MIN_SS_BATCH : Z := 127.
Definition CREDIT_SS_BATCH : Z := MAX MIN_SS_BATCH (MAX_CREDIT_WRS + 1).
Definition CREDIT_SS_BATCH_ : Z := CREDIT_SS_BATCH - 1.
Definition SC_CREDIT_SS_BATCH : Z := MAX MIN_SS_BATCH (SC_MAX_CREDIT_WRS + 1).
Definition WORKER_SS_BATCH : Z := MAX MIN_SS_BATCH (WORKER_MAX_BATCH + 1).
Definition CLIENT_SS_BATCH : Z := MAX MIN_SS_BATCH (WINDOW_SIZE + 1).
Definition BROADCAST_SS_BATCH : Z :=
  MAX (MIN_SS_BATCH / (MACHINE_NUM - 1)) (MAX_BCAST_BATCH + 2).
Definition ACK_SS_BATCH : Z := MAX MIN_SS_BATCH (BCAST_TO_CACHE_BATCH + 1).
Definition LIN_CLT_BUF_SIZE : Z := UD_REQ_SIZE * (MACHINE_NUM - 1) * BROADCAST_CREDITS.
Definition SC_CLT_BUF_SIZE : Z := UD_REQ_SIZE * (MACHINE_NUM - 1) * SC_CREDITS.
Definition LIN_CLT_BUF_SLOTS : Z := (MACHINE_NUM - 1) * BROADCAST_CREDITS.
Definition SC_CLT_BUF_SLOTS : Z := SC_CLT_BUF_SIZE / UD_REQ_SIZE.
Definition OPS_BUFS_NUM : Z := if CLIENT_ENABLE_INLINING =? 1 then 2 else 3.
Definition COH_BUF_SIZE : Z :=
  if CLIENT_ENABLE_INLINING =? 1 then MAX_BCAST_BATCH * MICA_OP_SIZE
  else BROADCAST_SS_BATCH * MICA_OP_SIZE.
Definition COH_BUF_SLOTS : Z :=
  if CLIENT_ENABLE_INLINING =? 1 then MAX_BCAST_BATCH else BROADCAST_SS_BATCH.
Definition WORKER_RECV_Q_DEPTH : Z :=
  (MACHINE_NUM - 1) * CEILING CLIENTS_PER_MACHINE WORKER_NUM_UD_QPS * WS_PER_WORKER + 3.
Definition CLIENT_RECV_REM_Q_DEPTH : Z :=
  (if ENABLE_MULTI_BATCHES =? 1 then MAX_OUTSTANDING_REQS else 2 * CLIENT_SS_BATCH) + 3.
Definition SC_CLIENT_RECV_BR_Q_DEPTH : Z := SC_MAX_COH_RECEIVES + 3.
Definition LIN_CLIENT_RECV_BR_Q_DEPTH : Z := LIN_MAX_COH_RECEIVES + 3.
Definition SC_CLIENT_RECV_CR_Q_DEPTH : Z := SC_MAX_CREDIT_RECVS + 3.
Definition LIN_CLIENT_RECV_CR_Q_DEPTH : Z := MAX_COH_MESSAGES + 8.
Definition WORKER_SEND_Q_DEPTH : Z := WORKER_MAX_BATCH + 3.
Definition CLIENT_SEND_REM_Q_DEPTH : Z :=
  (if ENABLE_MULTI_BATCHES =? 1 then MAX_OUTSTANDING_REQS else CLIENT_SS_BATCH) + 3.
Definition SC_CLIENT_SEND_BR_Q_DEPTH : Z :=
  MAX ((MACHINE_NUM - 1) * BROADCAST_SS_BATCH) (SC_MAX_COH_MESSAGES + 14) + 3.
Definition LIN_CLIENT_SEND_BR_Q_DEPTH : Z :=
  MAX MAX_COH_MESSAGES (BROADCAST_SS_BATCH * (MACHINE_NUM - 1) + ACK_SS_BATCH) + 13.
Definition SC_CLIENT_SEND_CR_Q_DEPTH : Z := 2 * SC_CREDIT_SS_BATCH + 3.
Definition LIN_CLIENT_SEND_CR_Q_DEPTH : Z := 2 * CREDIT_SS_BATCH + 13.
Definition MAX_LATENCY : Z := 400.
Definition LATENCY_BUCKETS : Z := 200.
Definition NOP : Z := 0.
Definition HOT_WRITE : Z := 1.
Definition HOT_READ : Z := 2.
Definition REMOTE_WRITE : Z := 3.
Definition REMOTE_READ : Z := 4.
Definition LOCAL_WRITE : Z := 5.
Definition LOCAL_READ : Z := 6.
Definition IS_READ (x : Z) : bool := (x =? HOT_READ) || (x =? LOCAL_READ) || (x =? REMOTE_READ).
Definition IS_WRITE (x : Z) : bool := (x =? HOT_WRITE) || (x =? LOCAL_WRITE) || (x =? REMOTE_WRITE).
Definition IS_HOT (x : Z) : bool := (x =? HOT_WRITE) || (x =? HOT_READ).
Definition IS_LOCAL (x : Z) : bool := (x =? LOCAL_WRITE) || (x =? LOCAL_READ).
Definition IS_REMOTE (x : Z) : bool := (x =? REMOTE_WRITE) || (x =? REMOTE_READ).
(** [OFFSET(wn, cn, ws)]: slot of the local request region. *)
Definition OFFSET (wn cn ws : Z) : Z :=
  wn * CLIENTS_PER_MACHINE * LOCAL_WINDOW + cn * LOCAL_WINDOW + ws.

(** ** Rounding helpers

    [pow2roundup] is the rounding function of [include/optik/utils.h]; [main]
    uses it in its checks ([Startup]). *)
Definition pow2roundup (x : Z) : Z :=
  if x =? 0 then 1 else
  let x := u32 (x - 1) in
  let x := Z.lor x (Z.shiftr x 1) in
  let x := Z.lor x (Z.shiftr x 2) in
  let x := Z.lor x (Z.shiftr x 4) in
  let x := Z.lor x (Z.shiftr x 8) in
  let x := Z.lor x (Z.shiftr x 16) in
  u32 (x + 1).

(** [hrd_is_power_of_2] of [include/libhrd/hrd.h]. *)
Definition hrd_is_power_of_2 (n : Z) : bool :=
  negb (n =? 0) && (Z.land n (u32 (n - 1)) =? 0).
