(* ===== verification/Optik.v ===== *)
(** * OPTIK versioned locks (include/optik/optik_mod.h)

    The 8-byte [cache_meta] that every cached object carries, the lock and
    unlock primitives on it, and the version comparisons the coherence
    protocols take their decisions with.  A version is even while the object
    is unlocked; [optik_lock] makes it odd.  The primitives here are what one
    thread does to the metadata while no other thread holds the object. *)
From S2P Require Import Prelude.

Definition OPTIK_LOCKED : Z := 1.
Definition OPTIK_FREE : Z := 0.

(** [typedef struct { ... } cache_meta]: four bytes and a 32-bit version. *)
Record cache_meta := mkMeta {
  state : Z;
  pending_acks : Z;
  cid : Z;
  lock : Z;
  version : Z
}.

#[export] Instance cache_meta_eq_dec : EqDecision cache_meta.
Proof. solve_decision. Defined.

Definition set_state (s : Z) (m : cache_meta) : cache_meta :=
  mkMeta s (pending_acks m) (cid m) (lock m) (version m).
Definition set_pending_acks (n : Z) (m : cache_meta) : cache_meta :=
  mkMeta (state m) n (cid m) (lock m) (version m).
Definition set_cid (c : Z) (m : cache_meta) : cache_meta :=
  mkMeta (state m) (pending_acks m) c (lock m) (version m).
Definition set_lock (l : Z) (m : cache_meta) : cache_meta :=
  mkMeta (state m) (pending_acks m) (cid m) l (version m).
Definition set_version (v : Z) (m : cache_meta) : cache_meta :=
  mkMeta (state m) (pending_acks m) (cid m) (lock m) v.

Definition optik_is_locked (ol : cache_meta) : bool := lock ol =? OPTIK_LOCKED.
Definition optik_get_version (ol : cache_meta) : Z := version ol.
Definition optik_get_cid (ol : cache_meta) : Z := cid ol.

Definition optik_init (ol : cache_meta) : cache_meta :=
  set_lock OPTIK_FREE (set_version 0 (set_cid 0 ol)).

(** With no other thread running, a lock that is held stays held: the inner
    loop spins.  [CAS_U8(&ol->lock, 0, 1)] succeeds only on a zero byte. *)
Definition optik_lock (ol : cache_meta) : outcome cache_meta :=
  if optik_is_locked ol then Spin
  else if lock ol =? OPTIK_FREE
  then Done (set_version (u32 (version ol + 1)) (set_lock OPTIK_LOCKED ol))
  else Spin.

Definition optik_is_same_version_plus_one (v1 v2 : cache_meta) : bool :=
  (version v1 =? u32 (version v2 + 1)) && (cid v1 =? cid v2).

Definition optik_is_same_version_and_valid (v1 v2 : cache_meta) : bool :=
  (version v1 =? version v2) && (cid v1 =? cid v2) && (version v1 mod 2 =? 0).

Definition optik_is_greater_version (curr receiv : cache_meta) : bool :=
  (version curr <? version receiv) ||
  ((u32 (version curr - 1) =? version receiv) && (cid curr <? cid receiv)).

(** Used when [cid] holds a session id: the local machine id stands in for it. *)
Definition optik_is_greater_version_session
    (curr receiv : cache_meta) (machine_id : Z) : bool :=
  (version curr <? version receiv) ||
  ((u32 (version curr - 1) =? version receiv) && (machine_id <? cid receiv)).

(** The second component is [*resp_version]. *)
Definition optik_unlock_write (ol : cache_meta) (c : Z) : cache_meta * Z :=
  let ol := set_cid c ol in
  let ol := set_version (u32 (version ol + 1)) ol in
  (set_lock OPTIK_FREE ol, version ol).

Definition optik_unlock_decrement_version (ol : cache_meta) : outcome cache_meta :=
  let ol := set_version (u32 (version ol - 1)) ol in
  let* _ := c_assert (version ol mod 2 =? 0) in
  Done (set_lock OPTIK_FREE ol).

Definition optik_unlock (ol : cache_meta) (c v : Z) : outcome cache_meta :=
  let* _ := c_assert (v mod 2 =? 0) in
  Done (set_lock OPTIK_FREE (set_version v (set_cid c ol))).

(** ** Well-formed metadata at rest *)
Record meta_ok (m : cache_meta) : Prop := {
  mo_state : is_u8 (state m);
  mo_acks : is_u8 (pending_acks m);
  mo_cid : is_u8 (cid m);
  mo_lock : lock m = OPTIK_FREE;
  mo_version : is_u32 (version m);
  mo_even : version m mod 2 = 0
}.

(** The metadata while [optik_lock] is held. *)
Definition locked_meta (m : cache_meta) : cache_meta :=
  set_version (version m + 1) (set_lock OPTIK_LOCKED m).

Lemma even_u32_max v : is_u32 v -> v mod 2 = 0 -> v + 1 < 2 ^ 32.
Proof. unfold is_u32. intros. assert (v <> 2 ^ 32 - 1) by (intros ->; discriminate). lia. Qed.

Lemma optik_lock_ok m : meta_ok m -> optik_lock m = Done (locked_meta m).
Proof.
  intros [_ _ _ Hl Hv He]. unfold optik_lock, optik_is_locked. rewrite Hl. simpl.
  unfold locked_meta. rewrite u32_small; [done|].
  pose proof (even_u32_max _ Hv He). unfold is_u32 in *. lia.
Qed.

Lemma optik_unlock_decrement_locked m :
  meta_ok m -> optik_unlock_decrement_version (locked_meta m) = Done m.
Proof.
  intros [_ _ _ Hl Hv He]. unfold optik_unlock_decrement_version, locked_meta. simpl.
  rewrite Z.add_simpl_r, u32_small, He by done. simpl.
  destruct m; simpl in *; subst. done.
Qed.

(** ** Timestamps: the (version, cid) pairs ordered lexicographically *)
Definition ts : Type := Z * Z.

Definition ts_ltb (a b : ts) : bool :=
  (a.1 <? b.1) || ((a.1 =? b.1) && (a.2 <? b.2)).
Definition ts_lt (a b : ts) : Prop := a.1 < b.1 \/ (a.1 = b.1 /\ a.2 < b.2).
Definition ts_le (a b : ts) : Prop := ts_lt a b \/ a = b.

Definition ts_of (m : cache_meta) : ts := (version m, cid m).

Lemma ts_ltb_lt a b : ts_ltb a b = true <-> ts_lt a b.
Proof.
  unfold ts_ltb, ts_lt. rewrite orb_true_iff, andb_true_iff, !Z.ltb_lt, Z.eqb_eq. done.
Qed.

Lemma ts_ltb_spec a b : reflect (ts_lt a b) (ts_ltb a b).
Proof. apply iff_reflect. symmetry. apply ts_ltb_lt. Qed.

#[export] Instance ts_lt_dec a b : Decision (ts_lt a b) :=
  match ts_ltb_spec a b with ReflectT _ H => left H | ReflectF _ H => right H end.

Lemma ts_lt_irrefl a : ~ ts_lt a a.
Proof. unfold ts_lt. lia. Qed.
Lemma ts_lt_trans a b c : ts_lt a b -> ts_lt b c -> ts_lt a c.
Proof. unfold ts_lt. lia. Qed.
Lemma ts_le_refl a : ts_le a a.
Proof. by right. Qed.
Lemma ts_lt_le a b : ts_lt a b -> ts_le a b.
Proof. by left. Qed.
Lemma ts_le_trans a b c : ts_le a b -> ts_le b c -> ts_le a c.
Proof.
  intros [H1| ->] [H2| ->]; unfold ts_le; eauto using ts_lt_trans.
Qed.
Lemma ts_le_lt_trans a b c : ts_le a b -> ts_lt b c -> ts_lt a c.
Proof. intros [H1| ->] H2; eauto using ts_lt_trans. Qed.
Lemma ts_lt_le_trans a b c : ts_lt a b -> ts_le b c -> ts_lt a c.
Proof. intros H1 [H2| <-]; eauto using ts_lt_trans. Qed.
Lemma ts_not_lt a b : ~ ts_lt a b -> ts_le b a.
Proof.
  destruct a as [a1 a2], b as [b1 b2]. unfold ts_le, ts_lt. simpl. intros.
  destruct (Z.eq_dec a1 b1), (Z.eq_dec a2 b2); subst; [by right|left; lia..].
Qed.
Lemma ts_le_antisym a b : ts_le a b -> ts_le b a -> a = b.
Proof.
  intros [H1| ->] [H2|H2]; try done.
  exfalso. eapply ts_lt_irrefl, ts_lt_trans; eauto.
Qed.
#[export] Hint Resolve ts_le_refl ts_lt_le ts_lt_trans ts_le_trans
  ts_le_lt_trans ts_lt_le_trans : ccKVS.

(** ** The comparisons decide the timestamp order

    While the object is locked its version is one more than the stored even
    one; the comparisons undo that.  Two timestamps of distinct writes on the
    same key are then compared lexicographically. *)
Lemma greater_version_ts m r :
  meta_ok m -> is_u32 (version r) -> version r mod 2 = 0 ->
  optik_is_greater_version (locked_meta m) r = ts_ltb (ts_of m) (ts_of r).
Proof.
  intros [_ _ _ _ Hv He] Hr Hre.
  unfold optik_is_greater_version, ts_ltb, locked_meta, ts_of. simpl.
  rewrite Z.add_simpl_r, (u32_small (version m)) by done.
  destruct (Z.eqb_spec (version m + 1) (version r)).
  { exfalso. revert He Hre. rewrite <- e. clear. intros. Z.div_mod_to_equations. lia. }
  repeat zcase; simpl; try done; lia.
Qed.

Lemma greater_version_session_ts m r mid :
  meta_ok m -> is_u32 (version r) -> version r mod 2 = 0 ->
  optik_is_greater_version_session (locked_meta m) r mid
  = ts_ltb (version m, mid) (ts_of r).
Proof.
  intros [_ _ _ _ Hv He] Hr Hre.
  unfold optik_is_greater_version_session, ts_ltb, locked_meta, ts_of. simpl.
  rewrite Z.add_simpl_r, (u32_small (version m)) by done.
  destruct (Z.eqb_spec (version m + 1) (version r)).
  { exfalso. revert He Hre. rewrite <- e. clear. intros. Z.div_mod_to_equations. lia. }
  repeat zcase; simpl; try done; lia.
Qed.

Lemma same_version_plus_one_ts m r :
  meta_ok m -> is_u32 (version r) -> version r mod 2 = 0 ->
  optik_is_same_version_plus_one (locked_meta m) r = true <-> ts_of m = ts_of r.
Proof.
  intros [_ _ _ _ Hv He] Hr Hre.
  unfold optik_is_same_version_plus_one, locked_meta, ts_of. simpl.
  rewrite u32_small by (pose proof (even_u32_max _ Hr Hre); unfold is_u32 in *; lia).
  rewrite andb_true_iff, !Z.eqb_eq. split.
  - intros [? ->]. f_equal. lia.
  - intros [= -> ->]. lia.
Qed.

(** A write moves the version on by two. *)
Lemma unlock_write_locked m c :
  meta_ok m ->
  optik_unlock_write (locked_meta m) c
  = (set_cid c (set_version (u32 (version m + 2)) m), u32 (version m + 2)).
Proof.
  intros [_ _ _ Hl _ _]. unfold optik_unlock_write, locked_meta. simpl.
  rewrite <- Z.add_assoc. unfold set_lock, set_version, set_cid. simpl. by rewrite Hl.
Qed.
