(* ===== verification/Layout.v ===== *)
(** * Structures and their bytes

    [struct cache_op] (include/ccKVS/cache.h) and [struct mica_op]
    (include/mica/mica.h) have the same 64-byte layout and the code casts one
    into the other; both are the record [cache_op] here.  A log entry is read
    through such a pointer into a byte array, so the module also gives the
    encoding into bytes and the decoding from memory (x86-64: little endian,
    bit-fields allocated from the low bits). *)
From S2P Require Import Prelude Config Optik.

(** [struct cache_key] is [meta], [bkt], [server], [tag]. *)
Record cache_op := mkOp {
  meta : cache_meta;
  bkt : Z;
  server : Z;
  tag : Z;
  opcode : Z;
  val_len : Z;
  value : list Z
}.

#[export] Instance cache_op_eq_dec : EqDecision cache_op.
Proof. solve_decision. Defined.

Definition set_meta (m : cache_meta) (o : cache_op) : cache_op :=
  mkOp m (bkt o) (server o) (tag o) (opcode o) (val_len o) (value o).
Definition set_opcode (c : Z) (o : cache_op) : cache_op :=
  mkOp (meta o) (bkt o) (server o) (tag o) c (val_len o) (value o).
Definition set_val_len (n : Z) (o : cache_op) : cache_op :=
  mkOp (meta o) (bkt o) (server o) (tag o) (opcode o) n (value o).
Definition set_value (v : list Z) (o : cache_op) : cache_op :=
  mkOp (meta o) (bkt o) (server o) (tag o) (opcode o) (val_len o) v.

(** [struct remote_meta]: the client id of a request shares its bytes with
    [meta.version]. *)
Definition clt_gid (o : cache_op) : Z := version (meta o).
Definition set_clt_gid (g : Z) (o : cache_op) : cache_op :=
  set_meta (set_version g (meta o)) o.

(** [struct mica_resp]; a pointer is an offset in the log it points into. *)
Record mica_resp := mkResp {
  resp_type : Z;
  resp_val_len : Z;
  val_ptr : option Z
}.
Definition set_type (t : Z) (r : mica_resp) : mica_resp :=
  mkResp t (resp_val_len r) (val_ptr r).

#[export] Instance mica_resp_eq_dec : EqDecision mica_resp.
Proof. solve_decision. Defined.

(** [struct key_home]. *)
Record key_home := mkHome { kh_machine : Z; kh_worker : Z }.

(** [struct trace_command]; [key_hash] is the pair of 64-bit words. *)
Record trace_command := mkCmd {
  tc_opcode : Z;
  home_machine_id : Z;
  home_worker_id : Z;
  key_id : Z;
  key_hash : Z * Z
}.

(** ** Encoding *)
Definition encode_meta (m : cache_meta) : list Z :=
  [state m; pending_acks m; cid m; lock m] ++ le_split 4 (version m).

(** The second 8-byte word of a key: [bkt], then [server] and [tag]. *)
Definition encode_key_word (o : cache_op) : list Z :=
  le_split 4 (bkt o) ++ le_split 2 (server o) ++ le_split 2 (tag o).

Definition encode_op (o : cache_op) : list Z :=
  encode_meta (meta o) ++ encode_key_word o ++ [opcode o; val_len o] ++ value o.

(** The key as the code compares it: the operation read as an array of 64-bit
    words, at index 1. *)
Definition key_word (o : cache_op) : Z := le_combine (encode_key_word o).

(** Offset of [value] in the structure, and [MICA_MAX_VALUE] as a length. *)
Definition VALUE_OFF : Z := 18.
Definition max_value_len : nat := Z.to_nat MICA_MAX_VALUE.

(** ** Decoding from memory *)
Definition load_u16 (m : mem) (p : Z) : Z := le_combine (load_bytes m p 2).
Definition load_u32 (m : mem) (p : Z) : Z := le_combine (load_bytes m p 4).
Definition load_u64 (m : mem) (p : Z) : Z := le_combine (load_bytes m p 8).

Definition load_meta (m : mem) (p : Z) : cache_meta :=
  mkMeta (m p) (m (p + 1)) (m (p + 2)) (m (p + 3)) (load_u32 m (p + 4)).

Definition load_op (m : mem) (p : Z) : cache_op :=
  mkOp (load_meta m p) (load_u32 m (p + 8)) (load_u16 m (p + 12)) (load_u16 m (p + 14))
       (m (p + 16)) (m (p + 17)) (load_bytes m (p + VALUE_OFF) max_value_len).

Definition store_meta (m : mem) (p : Z) (x : cache_meta) : mem :=
  store_bytes m p (encode_meta x).

(** ** Well-formed structures: every field fits its width *)
Record meta_fits (m : cache_meta) : Prop := {
  mf_state : is_u8 (state m);
  mf_acks : is_u8 (pending_acks m);
  mf_cid : is_u8 (cid m);
  mf_lock : is_u8 (lock m);
  mf_version : is_u32 (version m)
}.

Record op_fits (o : cache_op) : Prop := {
  of_meta : meta_fits (meta o);
  of_bkt : is_u32 (bkt o);
  of_server : is_u16 (server o);
  of_tag : is_u16 (tag o);
  of_opcode : is_u8 (opcode o);
  of_val_len : is_u8 (val_len o);
  of_value : length (value o) = max_value_len;
  of_bytes : Forall is_u8 (value o)
}.

Lemma meta_ok_fits m : meta_ok m -> meta_fits m.
Proof.
  intros [? ? ? Hl ? ?]. split; try done. rewrite Hl. unfold is_u8, OPTIK_FREE. lia.
Qed.

(** ** Lemmas on the codec *)
Lemma length_encode_meta m : length (encode_meta m) = 8%nat.
Proof. reflexivity. Qed.
Lemma length_encode_key_word o : length (encode_key_word o) = 8%nat.
Proof. reflexivity. Qed.
Lemma length_encode_op o : length (encode_op o) = (18 + length (value o))%nat.
Proof. reflexivity. Qed.

Lemma le_combine_split2 z : is_u16 z -> le_combine (le_split 2 z) = z.
Proof. intros. apply le_combine_split. unfold is_u16 in *. lia. Qed.
Lemma le_combine_split4 z : is_u32 z -> le_combine (le_split 4 z) = z.
Proof. intros. apply le_combine_split. unfold is_u32 in *. lia. Qed.

Lemma encode_meta_bytes m : meta_fits m -> Forall is_u8 (encode_meta m).
Proof.
  intros []. unfold encode_meta. apply Forall_app_2, le_split_bytes.
  by rewrite !Forall_cons.
Qed.

Lemma encode_key_word_bytes o : Forall is_u8 (encode_key_word o).
Proof.
  unfold encode_key_word. rewrite !Forall_app. eauto using le_split_bytes.
Qed.

Lemma encode_op_bytes o : op_fits o -> Forall is_u8 (encode_op o).
Proof.
  intros []. unfold encode_op. rewrite !Forall_app.
  repeat split; auto using encode_meta_bytes, encode_key_word_bytes.
Qed.

Lemma take_app_exact {A} (l1 l2 : list A) n : length l1 = n -> take n (l1 ++ l2) = l1.
Proof. intros <-. by rewrite take_app_length. Qed.

(** The metadata read back after it was stored. *)
Lemma load_store_meta m p x : meta_fits x -> load_meta (store_meta m p x) p = x.
Proof.
  intros []. unfold load_meta, store_meta, load_u32.
  rewrite (load_store_sub m p (encode_meta x) 4 4) by (simpl; lia).
  change (take 4 (drop (Z.to_nat 4) (encode_meta x))) with (le_split 4 (version x)).
  rewrite le_combine_split4 by done.
  assert (Hb : forall i, 0 <= i < 8 ->
    store_bytes m p (encode_meta x) (p + i) = nth (Z.to_nat i) (encode_meta x) 0)
    by (intros; apply store_bytes_in; rewrite length_encode_meta; lia).
  rewrite !Hb by lia. pose proof (Hb 0 ltac:(lia)) as H0. rewrite Z.add_0_r in H0.
  rewrite H0. by destruct x.
Qed.

Lemma load_meta_ext m m' p p' :
  (forall i, 0 <= i < 8 -> m (p + i) = m' (p' + i)) -> load_meta m p = load_meta m' p'.
Proof.
  intros H. unfold load_meta, load_u32.
  rewrite <- (Z.add_0_r p) at 1. rewrite <- (Z.add_0_r p') at 1.
  rewrite !H by lia. f_equal. f_equal. apply load_bytes_ext. intros i Hi.
  rewrite <- !Z.add_assoc. apply H. lia.
Qed.

Lemma load_op_ext m m' p p' :
  (forall i, 0 <= i < 64 -> m (p + i) = m' (p' + i)) -> load_op m p = load_op m' p'.
Proof.
  intros H. unfold load_op, load_u16, load_u32.
  rewrite !H by lia. f_equal.
  - apply load_meta_ext. intros. apply H. lia.
  - f_equal. apply load_bytes_ext. intros i Hi. rewrite <- !Z.add_assoc. apply H. lia.
  - f_equal. apply load_bytes_ext. intros i Hi. rewrite <- !Z.add_assoc. apply H. lia.
  - f_equal. apply load_bytes_ext. intros i Hi. rewrite <- !Z.add_assoc. apply H. lia.
  - apply load_bytes_ext. intros i Hi. rewrite <- !Z.add_assoc. apply H.
    unfold VALUE_OFF. change (Z.of_nat max_value_len) with 46 in Hi. lia.
Qed.

(** A prefix of at least 18 bytes of an encoded operation, read back: the
    header is the operation's, the value holds the copied part of its value. *)
Section stored_prefix.
Context (m : mem) (p : Z) (o : cache_op) (n : nat).
Hypothesis (Hfit : op_fits o) (Hn : (n <= max_value_len)%nat).

Let bs := take (18 + n) (encode_op o).

Lemma length_stored_prefix : length bs = (18 + n)%nat.
Proof.
  unfold bs. rewrite length_take, length_encode_op, (of_value o Hfit). lia.
Qed.

Lemma stored_prefix_byte i :
  0 <= i < 18 -> store_bytes m p bs (p + i) = nth (Z.to_nat i) (encode_op o) 0.
Proof.
  intros Hi. rewrite store_bytes_in by (rewrite length_stored_prefix; lia).
  unfold bs. rewrite nth_firstn. destruct (Nat.ltb_spec (Z.to_nat i) (18 + n)); [done|lia].
Qed.

Lemma load_stored_header :
  let o' := load_op (store_bytes m p bs) p in
  meta o' = meta o /\ bkt o' = bkt o /\ server o' = server o /\ tag o' = tag o /\
  opcode o' = opcode o /\ val_len o' = val_len o.
Proof using Hfit Hn.
  simpl. destruct Hfit as [[] ? ? ? ? ? Hlen ?].
  pose proof length_stored_prefix as Hbs.
  assert (Hld : forall k c, 0 <= k -> k + Z.of_nat c <= 18 ->
    load_bytes (store_bytes m p bs) (p + k) c = take c (drop (Z.to_nat k) (encode_op o))).
  { intros k c Hk Hc. rewrite load_store_sub by (rewrite ?Hbs; lia). unfold bs.
    rewrite skipn_firstn_comm, take_take. f_equal. lia. }
  unfold load_meta, load_u32, load_u16. rewrite !Hld by lia.
  pose proof (stored_prefix_byte 0 ltac:(lia)) as H0. rewrite Z.add_0_r in H0.
  rewrite H0, !stored_prefix_byte by lia.
  change (take 4 (drop (Z.to_nat 4) (encode_op o))) with (le_split 4 (version (meta o))).
  change (take 4 (drop (Z.to_nat 8) (encode_op o))) with (le_split 4 (bkt o)).
  change (take 2 (drop (Z.to_nat 12) (encode_op o))) with (le_split 2 (server o)).
  change (take 2 (drop (Z.to_nat 14) (encode_op o))) with (le_split 2 (tag o)).
  rewrite !le_combine_split4, !le_combine_split2 by done.
  by destruct o as [[] ? ? ? ? ? ?].
Qed.

Lemma load_stored_value :
  load_bytes (store_bytes m p bs) (p + VALUE_OFF) n = take n (value o).
Proof using Hfit Hn.
  pose proof length_stored_prefix as Hbs.
  unfold VALUE_OFF. rewrite load_store_sub by (rewrite ?Hbs; lia).
  unfold bs. change (Z.to_nat 18) with 18%nat.
  rewrite skipn_firstn_comm, take_take, Nat.min_l by lia. done.
Qed.

Lemma load_stored_key_word : load_u64 (store_bytes m p bs) (p + 8) = key_word o.
Proof using Hfit Hn.
  pose proof length_stored_prefix as Hbs.
  unfold load_u64. rewrite load_store_sub by (rewrite ?Hbs; lia).
  unfold bs. rewrite skipn_firstn_comm, take_take, Nat.min_l by lia. done.
Qed.
End stored_prefix.

(** The whole structure round-trips through its 64 bytes. *)
Lemma load_store_op m p o : op_fits o -> load_op (store_bytes m p (encode_op o)) p = o.
Proof.
  intros Hf. assert (Hall : encode_op o = take (18 + max_value_len) (encode_op o)).
  { symmetry. apply take_ge. rewrite length_encode_op, (of_value o Hf). lia. }
  destruct (load_stored_header m p o max_value_len Hf) as (H1 & H2 & H3 & H4 & H5 & H6); [lia|].
  pose proof (load_stored_value m p o max_value_len Hf ltac:(lia)) as Hv.
  rewrite <- Hall in *. rewrite take_ge in Hv by (rewrite (of_value o Hf); lia).
  destruct (load_op (store_bytes m p (encode_op o)) p) eqn:E. simpl in *. subst.
  injection E as _ _ _ _ _ _ E. rewrite <- E. simpl in Hv. rewrite Hv. by destruct o.
Qed.

(** Equal key words name the same bucket, server and tag. *)
Lemma key_word_inj o1 o2 :
  is_u32 (bkt o1) -> is_u16 (server o1) -> is_u16 (tag o1) ->
  is_u32 (bkt o2) -> is_u16 (server o2) -> is_u16 (tag o2) ->
  key_word o1 = key_word o2 <->
  bkt o1 = bkt o2 /\ server o1 = server o2 /\ tag o1 = tag o2.
Proof.
  intros. split.
  - intros E. apply le_combine_inj in E; eauto using encode_key_word_bytes.
    unfold encode_key_word in E.
    apply app_inj_1 in E as [Eb E]; [|by rewrite !length_le_split].
    apply app_inj_1 in E as [Es Et]; [|by rewrite !length_le_split].
    split_and!; [rewrite <- (le_combine_split4 (bkt o1)), Eb by done
                |rewrite <- (le_combine_split2 (server o1)), Es by done
                |rewrite <- (le_combine_split2 (tag o1)), Et by done];
      [apply le_combine_split4|apply le_combine_split2..]; done.
  - intros (Eb & Es & Et). unfold key_word, encode_key_word. by rewrite Eb, Es, Et.
Qed.

(** The fields of a key word. *)
Definition kw_bkt (w : Z) : Z := w mod 2 ^ 32.
Definition kw_tag (w : Z) : Z := w / 2 ^ 48.

Lemma le_combine_app a b :
  le_combine (a ++ b) = le_combine a + 256 ^ Z.of_nat (length a) * le_combine b.
Proof.
  induction a as [|x a IH]; [simpl; lia|].
  cbn [app le_combine length]. rewrite IH, Nat2Z.inj_succ, Z.pow_succ_r by lia. lia.
Qed.

Lemma key_word_eq o :
  op_fits o -> key_word o = bkt o + 2 ^ 32 * (server o + 2 ^ 16 * tag o).
Proof.
  intros []. unfold key_word, encode_key_word. rewrite !le_combine_app, !length_le_split.
  rewrite le_combine_split4, !le_combine_split2 by done. done.
Qed.

Lemma kw_bkt_key_word o : op_fits o -> kw_bkt (key_word o) = bkt o.
Proof.
  intros Hf. rewrite key_word_eq by done. destruct Hf. unfold kw_bkt.
  rewrite Z.mul_comm, Z_mod_plus_full. by apply u32_small.
Qed.

Lemma kw_tag_key_word o : op_fits o -> kw_tag (key_word o) = tag o.
Proof.
  intros Hf. rewrite key_word_eq by done. destruct Hf. unfold kw_tag, is_u32, is_u16 in *.
  symmetry. apply Z.div_unique with (bkt o + 2 ^ 32 * server o); lia.
Qed.
