(* ===== verification/City.v ===== *)
(** * CityHash (src/mica/city.c)

    The 64- and 128-bit hash functions the key-value stores derive their keys
    with.  A [const char *] is an address of a byte memory, [size_t] and
    [uint64] are 64-bit; the byte order is little endian
    ([uint64_in_expected_order] is the identity).  A loop is given fuel and
    returns [Spin] without it; [CityHash64_window] and [CityHash128_window] show
    that the fuel given is always enough.  The [__SSE4_2__] variants (CRC
    intrinsics), which nothing in the repository calls, are not modelled. *)
From Stdlib Require Import Btauto.
From S2P Require Import Prelude Optik Layout.

(** ** Loads and mixing *)
Definition Fetch64 (m : mem) (p : Z) : Z := load_u64 m p.
Definition Fetch32 (m : mem) (p : Z) : Z := load_u32 m p.

Definition k0 : Z := 0xc3a5c85c97cb3127.
Definition k1 : Z := 0xb492b66fbe98f273.
Definition k2 : Z := 0x9ae16a3b2f90404f.
Definition k3 : Z := 0xc949d7c7509e6557.

(** [uint128]: [first] and [second]. *)
Definition uint128 : Type := Z * Z.

Definition add64 (a b : Z) : Z := u64 (a + b).
Definition sub64 (a b : Z) : Z := u64 (a - b).
Definition mul64 (a b : Z) : Z := u64 (a * b).

Definition Hash128to64 (x : uint128) : Z :=
  let kMul := 0x9ddfea08eb382d69 in
  let a := mul64 (Z.lxor x.1 x.2) kMul in
  let a := Z.lxor a (Z.shiftr a 47) in
  let b := mul64 (Z.lxor x.2 a) kMul in
  let b := Z.lxor b (Z.shiftr b 47) in
  mul64 b kMul.

Definition RotateByAtLeast1 (val shift : Z) : Z :=
  Z.lor (Z.shiftr val shift) (u64 (Z.shiftl val (64 - shift))).
Definition Rotate (val shift : Z) : Z :=
  if shift =? 0 then val
  else Z.lor (Z.shiftr val shift) (u64 (Z.shiftl val (64 - shift))).
Definition ShiftMix (val : Z) : Z := Z.lxor val (Z.shiftr val 47).
Definition HashLen16 (u v : Z) : Z := Hash128to64 (u, v).

(** ** Short inputs *)
Definition HashLen0to16 (m : mem) (s len : Z) : Z :=
  if 8 <? len then
    let a := Fetch64 m s in
    let b := Fetch64 m (s + len - 8) in
    Z.lxor (HashLen16 a (RotateByAtLeast1 (add64 b len) len)) b
  else if 4 <=? len then
    let a := Fetch32 m s in
    HashLen16 (add64 len (u64 (Z.shiftl a 3))) (Fetch32 m (s + len - 4))
  else if 0 <? len then
    let a := m s in
    let b := m (s + Z.shiftr len 1) in
    let c := m (s + len - 1) in
    let y := u32 (a + u32 (Z.shiftl b 8)) in
    let z := u32 (u32 len + u32 (Z.shiftl c 2)) in
    mul64 (ShiftMix (Z.lxor (mul64 y k2) (mul64 z k3))) k2
  else k2.

Definition HashLen17to32 (m : mem) (s len : Z) : Z :=
  let a := mul64 (Fetch64 m s) k1 in
  let b := Fetch64 m (s + 8) in
  let c := mul64 (Fetch64 m (s + len - 8)) k2 in
  let d := mul64 (Fetch64 m (s + len - 16)) k0 in
  HashLen16 (add64 (add64 (Rotate (sub64 a b) 43) (Rotate c 30)) d)
            (add64 (sub64 (add64 a (Rotate (Z.lxor b k3) 20)) c) len).

Definition WeakHashLen32WithSeeds6 (w x y z a b : Z) : uint128 :=
  let a := add64 a w in
  let b := Rotate (add64 (add64 b a) z) 21 in
  let c := a in
  let a := add64 a x in
  let a := add64 a y in
  let b := add64 b (Rotate a 44) in
  (add64 a z, add64 b c).

Definition WeakHashLen32WithSeeds (m : mem) (s a b : Z) : uint128 :=
  WeakHashLen32WithSeeds6 (Fetch64 m s) (Fetch64 m (s + 8)) (Fetch64 m (s + 16))
    (Fetch64 m (s + 24)) a b.

Definition HashLen33to64 (m : mem) (s len : Z) : Z :=
  let z := Fetch64 m (s + 24) in
  let a := add64 (Fetch64 m s) (mul64 (add64 len (Fetch64 m (s + len - 16))) k0) in
  let b := Rotate (add64 a z) 52 in
  let c := Rotate a 37 in
  let a := add64 a (Fetch64 m (s + 8)) in
  let c := add64 c (Rotate a 7) in
  let a := add64 a (Fetch64 m (s + 16)) in
  let vf := add64 a z in
  let vs := add64 (add64 b (Rotate a 31)) c in
  let a := add64 (Fetch64 m (s + 16)) (Fetch64 m (s + len - 32)) in
  let z := Fetch64 m (s + len - 8) in
  let b := Rotate (add64 a z) 52 in
  let c := Rotate a 37 in
  let a := add64 a (Fetch64 m (s + len - 24)) in
  let c := add64 c (Rotate a 7) in
  let a := add64 a (Fetch64 m (s + len - 16)) in
  let wf := add64 a z in
  let ws := add64 (add64 b (Rotate a 31)) c in
  let r := ShiftMix (add64 (mul64 (add64 vf ws) k2) (mul64 (add64 wf vs) k0)) in
  mul64 (ShiftMix (add64 (mul64 r k0) vs)) k2.

(** ** The 56 bytes of state of the long-input loops, and one 64-byte round *)
Record city_state := mkCity {
  cs_x : Z; cs_y : Z; cs_z : Z; cs_v : uint128; cs_w : uint128
}.

Definition city_round (m : mem) (s : Z) (st : city_state) : city_state :=
  let '(mkCity x y z v w) := st in
  let x := mul64 (Rotate (add64 (add64 (add64 x y) v.1) (Fetch64 m (s + 8))) 37) k1 in
  let y := mul64 (Rotate (add64 (add64 y v.2) (Fetch64 m (s + 48))) 42) k1 in
  let x := Z.lxor x w.2 in
  let y := add64 y (add64 v.1 (Fetch64 m (s + 40))) in
  let z := mul64 (Rotate (add64 z w.1) 33) k1 in
  let v := WeakHashLen32WithSeeds m s (mul64 v.2 k1) (add64 x w.1) in
  let w := WeakHashLen32WithSeeds m (s + 32) (add64 z w.2) (add64 y (Fetch64 m (s + 16))) in
  mkCity z y x v w.

(** [do { ... s += 64; len -= 64; } while (len != 0)] *)
Fixpoint city64_loop (fuel : nat) (m : mem) (s len : Z) (st : city_state)
    : outcome city_state :=
  match fuel with
  | O => Spin
  | S fuel =>
      let st := city_round m s st in
      let s := s + 64 in
      let len := sub64 len 64 in
      if len =? 0 then Done st else city64_loop fuel m s len st
  end.

Definition CityHash64 (m : mem) (s len : Z) : outcome Z :=
  if len <=? 32 then
    if len <=? 16 then Done (HashLen0to16 m s len) else Done (HashLen17to32 m s len)
  else if len <=? 64 then Done (HashLen33to64 m s len)
  else
    let x := Fetch64 m (s + len - 40) in
    let y := add64 (Fetch64 m (s + len - 16)) (Fetch64 m (s + len - 56)) in
    let z := HashLen16 (add64 (Fetch64 m (s + len - 48)) len) (Fetch64 m (s + len - 24)) in
    let v := WeakHashLen32WithSeeds m (s + len - 64) len z in
    let w := WeakHashLen32WithSeeds m (s + len - 32) (add64 y k1) x in
    let x := add64 (mul64 x k1) (Fetch64 m s) in
    let len := Z.land (len - 1) (Z.lnot 63) in
    let* (mkCity x y z v w) := city64_loop (Z.to_nat len) m s len (mkCity x y z v w) in
    Done (HashLen16 (add64 (add64 (HashLen16 v.1 w.1) (mul64 (ShiftMix y) k1)) z)
                    (add64 (HashLen16 v.2 w.2) x)).

Definition CityHash64WithSeeds (m : mem) (s len seed0 seed1 : Z) : outcome Z :=
  let* h := CityHash64 m s len in Done (HashLen16 (sub64 h seed0) seed1).
Definition CityHash64WithSeed (m : mem) (s len seed : Z) : outcome Z :=
  CityHash64WithSeeds m s len k2 seed.

(** ** 128-bit hashes *)

(** The loop of [CityMurmur]; [l] is a signed long. *)
Fixpoint murmur_loop (fuel : nat) (m : mem) (s l a b c d : Z) : outcome (Z * Z * Z * Z) :=
  match fuel with
  | O => Spin
  | S fuel =>
      let a := Z.lxor a (mul64 (ShiftMix (mul64 (Fetch64 m s) k1)) k1) in
      let a := mul64 a k1 in
      let b := Z.lxor b a in
      let c := Z.lxor c (mul64 (ShiftMix (mul64 (Fetch64 m (s + 8)) k1)) k1) in
      let c := mul64 c k1 in
      let d := Z.lxor d c in
      let s := s + 16 in
      let l := l - 16 in
      if 0 <? l then murmur_loop fuel m s l a b c d else Done (a, b, c, d)
  end.

(** [(signed long) z] for a [size_t] [z]. *)
Definition to_signed_long (z : Z) : Z := if z <? 2 ^ 63 then z else z - 2 ^ 64.

Definition CityMurmur (m : mem) (s len : Z) (seed : uint128) : outcome uint128 :=
  let a := seed.1 in
  let b := seed.2 in
  let l := to_signed_long (sub64 len 16) in
  let* (a, b, c, d) :=
    if l <=? 0 then
      let a := mul64 (ShiftMix (mul64 a k1)) k1 in
      let c := add64 (mul64 b k1) (HashLen0to16 m s len) in
      let d := ShiftMix (add64 a (if 8 <=? len then Fetch64 m s else c)) in
      Done (a, b, c, d)
    else
      let c := HashLen16 (add64 (Fetch64 m (s + len - 8)) k1) a in
      let d := HashLen16 (add64 b len) (add64 c (Fetch64 m (s + len - 16))) in
      let a := add64 a d in
      murmur_loop (Z.to_nat l) m s l a b c d
  in
  let a := HashLen16 a c in
  let b := HashLen16 d b in
  Done (Z.lxor a b, HashLen16 b a).

(** The manually unrolled main loop: two rounds, [while (len >= 128)]; returns
    the state, the advanced pointer and the bytes left. *)
Fixpoint city128_loop (fuel : nat) (m : mem) (s len : Z) (st : city_state)
    : outcome (city_state * Z * Z) :=
  match fuel with
  | O => Spin
  | S fuel =>
      let st := city_round m s st in
      let s := s + 64 in
      let st := city_round m s st in
      let s := s + 64 in
      let len := sub64 len 128 in
      if 128 <=? len then city128_loop fuel m s len st else Done (st, s, len)
  end.

(** The tail loop: chunks of 32 bytes from the end of [s]. *)
Fixpoint city128_tail (fuel : nat) (m : mem) (s len tail_done : Z) (st : city_state)
    : outcome city_state :=
  if tail_done <? len then
    match fuel with
    | O => Spin
    | S fuel =>
        let '(mkCity x y z v w) := st in
        let tail_done := tail_done + 32 in
        let y := add64 (mul64 (Rotate (add64 x y) 42) k0) v.2 in
        let w1 := add64 w.1 (Fetch64 m (s + len - tail_done + 16)) in
        let x := add64 (mul64 x k0) w1 in
        let z := add64 z (add64 w.2 (Fetch64 m (s + len - tail_done))) in
        let w2 := add64 w.2 v.1 in
        let v := WeakHashLen32WithSeeds m (s + len - tail_done) (add64 v.1 z) v.2 in
        city128_tail fuel m s len tail_done (mkCity x y z v (w1, w2))
    end
  else Done st.

(** Initial state of the long path of [CityHash128WithSeed]. *)
Definition city128_init (m : mem) (s len : Z) (seed : uint128) : city_state :=
  let x := seed.1 in
  let y := seed.2 in
  let z := mul64 len k1 in
  let v1 := add64 (mul64 (Rotate (Z.lxor y k1) 49) k1) (Fetch64 m s) in
  let v2 := add64 (mul64 (Rotate v1 42) k1) (Fetch64 m (s + 8)) in
  let w1 := add64 (mul64 (Rotate (add64 y z) 35) k1) x in
  let w2 := mul64 (Rotate (add64 x (Fetch64 m (s + 88))) 53) k1 in
  mkCity x y z (v1, v2) (w1, w2).

Definition CityHash128WithSeed (m : mem) (s len : Z) (seed : uint128) : outcome uint128 :=
  if len <? 128 then CityMurmur m s len seed
  else
    let* (st, s, len) := city128_loop (Z.to_nat len) m s len (city128_init m s len seed) in
    let '(mkCity x y z v w) := st in
    let x := add64 x (mul64 (Rotate (add64 v.1 z) 49) k0) in
    let z := add64 z (mul64 (Rotate w.1 37) k0) in
    let* (mkCity x y z v w) := city128_tail (Z.to_nat len) m s len 0 (mkCity x y z v w) in
    let x := HashLen16 x v.1 in
    let y := HashLen16 (add64 y z) w.1 in
    Done (add64 (HashLen16 (add64 x v.2) w.2) y, HashLen16 (add64 x w.2) (add64 y v.2)).

(** [NULL] is address 0; the callee does not read through it. *)
Definition CityHash128 (m : mem) (s len : Z) : outcome uint128 :=
  if 16 <=? len then
    CityHash128WithSeed m (s + 16) (len - 16) (Z.lxor (Fetch64 m s) k3, Fetch64 m (s + 8))
  else if 8 <=? len then
    CityHash128WithSeed m 0 0
      (Z.lxor (Fetch64 m s) (mul64 len k0), Z.lxor (Fetch64 m (s + len - 8)) k1)
  else CityHash128WithSeed m s len (k0, k1).

(** ** Bits *)
Lemma u64_land z : u64 z = Z.land z (Z.ones 64).
Proof. unfold u64. by rewrite Z.land_ones by lia. Qed.

Lemma lxor_u64 a b : is_u64 a -> is_u64 b -> is_u64 (Z.lxor a b).
Proof.
  intros Ha Hb. enough (Z.lxor a b = u64 (Z.lxor a b)) as -> by apply u64_range.
  rewrite <- (u64_small a), <- (u64_small b), !u64_land by done.
  apply Z.bits_inj'. intros n Hn. rewrite !Z.land_spec, !Z.lxor_spec, !Z.land_spec.
  destruct (Z.testbit (Z.ones 64) n); btauto.
Qed.

Lemma land_lnot_63 z : Z.land z (Z.lnot 63) = 64 * (z / 64).
Proof.
  change 63 with (Z.ones 6). rewrite <- Z.ldiff_land, Z.ldiff_ones_r by lia.
  rewrite Z.shiftl_mul_pow2, Z.shiftr_div_pow2 by lia. apply Z.mul_comm.
Qed.

Lemma HashLen16_u64 u v : is_u64 (HashLen16 u v).
Proof. apply u64_range. Qed.
#[export] Hint Resolve lxor_u64 HashLen16_u64 : ccKVS.

(** ** What a hash may read

    Two memories agree on a window; every load inside the window gives the
    same word, and so does everything computed from such loads. *)
Definition agree (m m' : mem) (lo hi : Z) : Prop :=
  forall a, lo <= a < hi -> m a = m' a.

Section window.
Context (m m' : mem) (lo hi : Z).
Hypothesis Hagree : agree m m' lo hi.

Lemma Fetch64_agree p : lo <= p -> p + 8 <= hi -> Fetch64 m p = Fetch64 m' p.
Proof using Hagree.
  intros. unfold Fetch64, load_u64. f_equal. apply load_bytes_ext. intros. apply Hagree. lia.
Qed.

Lemma Fetch32_agree p : lo <= p -> p + 4 <= hi -> Fetch32 m p = Fetch32 m' p.
Proof using Hagree.
  intros. unfold Fetch32, load_u32. f_equal. apply load_bytes_ext. intros. apply Hagree. lia.
Qed.

Lemma WeakHash_agree p a b :
  lo <= p -> p + 32 <= hi ->
  WeakHashLen32WithSeeds m p a b = WeakHashLen32WithSeeds m' p a b.
Proof using Hagree.
  intros. unfold WeakHashLen32WithSeeds. by rewrite !Fetch64_agree by lia.
Qed.

Lemma city_round_agree p st : lo <= p -> p + 64 <= hi -> city_round m p st = city_round m' p st.
Proof using Hagree.
  intros. destruct st. unfold city_round. by rewrite !Fetch64_agree, !WeakHash_agree by lia.
Qed.

Lemma HashLen0to16_agree len :
  0 <= len <= hi - lo -> HashLen0to16 m lo len = HashLen0to16 m' lo len.
Proof using Hagree.
  intros Hlen. unfold HashLen0to16.
  destruct (Z.ltb_spec 8 len); [by rewrite !Fetch64_agree by lia|].
  destruct (Z.leb_spec 4 len); [by rewrite !Fetch32_agree by lia|].
  destruct (Z.ltb_spec 0 len); [|done].
  assert (0 <= Z.shiftr len 1 < len).
  { rewrite Z.shiftr_div_pow2 by lia. Z.div_mod_to_equations; lia. }
  by rewrite !Hagree by lia.
Qed.

Lemma city64_loop_agree fuel n p st :
  (n <= fuel)%nat -> (0 < n)%nat -> 64 * Z.of_nat n < 2 ^ 64 ->
  lo <= p -> p + 64 * Z.of_nat n <= hi ->
  exists st', city64_loop fuel m p (64 * Z.of_nat n) st = Done st' /\
              city64_loop fuel m' p (64 * Z.of_nat n) st = Done st'.
Proof using Hagree.
  revert n p st. induction fuel as [|fuel IH]; intros n p st Hf Hn Hb Hlo Hhi; [lia|].
  cbn [city64_loop]. rewrite <- city_round_agree by lia.
  replace (sub64 (64 * Z.of_nat n) 64) with (64 * Z.of_nat (n - 1)%nat)
    by (unfold sub64; rewrite u64_small by (unfold is_u64; lia); lia).
  destruct (Z.eqb_spec (64 * Z.of_nat (n - 1)) 0) as [E|E]; [eauto|].
  apply IH; lia.
Qed.

Lemma murmur_loop_agree fuel p l a b c d :
  0 < l <= Z.of_nat fuel -> lo <= p -> p + l + 15 <= hi ->
  exists r, murmur_loop fuel m p l a b c d = Done r /\
            murmur_loop fuel m' p l a b c d = Done r.
Proof using Hagree.
  revert p l a b c d. induction fuel as [|fuel IH]; intros p l a b c d Hf Hlo Hhi; [lia|].
  cbn [murmur_loop]. rewrite !Fetch64_agree by lia.
  destruct (Z.ltb_spec 0 (l - 16)); [apply IH; lia|eauto].
Qed.

Lemma city128_loop_agree fuel p len st :
  128 <= len <= Z.of_nat fuel -> len < 2 ^ 64 -> lo <= p -> p + len <= hi ->
  exists st' p' len',
    city128_loop fuel m p len st = Done (st', p', len') /\
    city128_loop fuel m' p len st = Done (st', p', len') /\
    p + 128 <= p' /\ 0 <= len' < 128 /\ p' + len' = p + len.
Proof using Hagree.
  revert p len st. induction fuel as [|fuel IH]; intros p len st Hf Hb Hlo Hhi; [lia|].
  cbn [city128_loop]. rewrite <- !city_round_agree by lia.
  replace (sub64 len 128) with (len - 128)
    by (unfold sub64; rewrite u64_small by (unfold is_u64; lia); lia).
  destruct (Z.leb_spec 128 (len - 128)).
  - destruct (IH (p + 64 + 64) (len - 128) (city_round m (p + 64) (city_round m p st)))
      as (st' & p' & len' & E1 & E2 & ? & ? & ?); [lia..|].
    exists st', p', len'. split_and!; try done; lia.
  - eexists _, _, _. split_and!; try done; lia.
Qed.

Lemma city128_tail_agree fuel p len td st :
  0 <= td -> (td < len -> len - td <= 32 * Z.of_nat fuel) -> lo + 32 <= p -> p + len <= hi ->
  exists st', city128_tail fuel m p len td st = Done st' /\
              city128_tail fuel m' p len td st = Done st'.
Proof using Hagree.
  revert td st. induction fuel as [|fuel IH]; intros td st Htd Hf Hlo Hhi; cbn [city128_tail].
  - destruct (Z.ltb_spec td len); [lia|eauto].
  - destruct (Z.ltb_spec td len); [|eauto]. destruct st.
    rewrite !Fetch64_agree, !WeakHash_agree by lia. apply IH; lia.
Qed.
End window.

(** ** Totality, range and the bytes the result depends on *)
Definition hashes_to (f g : outcome Z) : Prop := exists h, is_u64 h /\ f = Done h /\ g = Done h.
Definition hashes_to2 (f g : outcome uint128) : Prop :=
  exists h1 h2, is_u64 h1 /\ is_u64 h2 /\ f = Done (h1, h2) /\ g = Done (h1, h2).

Lemma hashes_to2_intro f g h1 h2 :
  f = Done (h1, h2) -> g = Done (h1, h2) -> is_u64 h1 -> is_u64 h2 -> hashes_to2 f g.
Proof. intros. by exists h1, h2. Qed.

Ltac solve_hash2 :=
  eapply hashes_to2_intro; [reflexivity | reflexivity | |];
  first [apply HashLen16_u64 | apply lxor_u64; apply HashLen16_u64 | apply u64_range].

Lemma Fetch64_u64 m p : (forall a, is_u8 (m a)) -> is_u64 (Fetch64 m p).
Proof.
  intros Hm. unfold Fetch64, load_u64, is_u64.
  pose proof (le_combine_bound (load_bytes m p 8) (load_bytes_bytes m p 8 Hm)) as H.
  rewrite length_load_bytes in H. change (256 ^ Z.of_nat 8) with (2 ^ 64) in H. lia.
Qed.

Lemma HashLen0to16_u64 m s len : (forall a, is_u8 (m a)) -> is_u64 (HashLen0to16 m s len).
Proof.
  intros Hm. unfold HashLen0to16. repeat zcase;
    auto using lxor_u64, HashLen16_u64, Fetch64_u64.
  - apply u64_range.
  - unfold is_u64, k2. lia.
Qed.

(** [CityHash64] returns, on every input length, a 64-bit hash that
    depends on the bytes [s[0..len-1]] only: the overlapping loads from the
    end of the input and the 64-byte rounds never use a byte outside it. *)
Theorem CityHash64_window m m' s len :
  is_u64 len -> (forall a, is_u8 (m a)) -> agree m m' s (s + len) ->
  hashes_to (CityHash64 m s len) (CityHash64 m' s len).
Proof.
  intros Hlen Hm Ha. unfold CityHash64, hashes_to. unfold is_u64 in Hlen.
  destruct (Z.leb_spec len 32).
  { destruct (Z.leb_spec len 16).
    - rewrite <- (HashLen0to16_agree m m' s (s + len)) by (done || lia).
      eauto using HashLen0to16_u64.
    - unfold HashLen17to32. rewrite !(Fetch64_agree m m' s (s + len)) by (done || lia).
      eauto using HashLen16_u64. }
  destruct (Z.leb_spec len 64).
  { unfold HashLen33to64. rewrite !(Fetch64_agree m m' s (s + len)) by (done || lia).
    eexists. split; [apply u64_range|done]. }
  rewrite !(Fetch64_agree m m' s (s + len)), !(WeakHash_agree m m' s (s + len)) by (done || lia).
  rewrite land_lnot_63.
  replace ((len - 1) / 64) with (Z.of_nat (Z.to_nat ((len - 1) / 64)))
    by (Z.div_mod_to_equations; lia).
  match goal with |- context [city64_loop ?f _ ?p ?l ?st] =>
    destruct (city64_loop_agree m m' s (s + len) Ha f (Z.to_nat ((len - 1) / 64)) p st)
      as ([] & -> & ->) end; try (Z.div_mod_to_equations; lia).
  simpl. eauto using HashLen16_u64.
Qed.

Lemma CityMurmur_agree m m' lo hi s len seed :
  agree m m' lo hi -> lo <= s -> s + len <= hi ->
  0 <= len < 2 ^ 63 -> (forall a, is_u8 (m a)) ->
  hashes_to2 (CityMurmur m s len seed) (CityMurmur m' s len seed).
Proof.
  intros Ha' Hlo Hhi Hlen Hm.
  assert (Ha : agree m m' s (s + len)) by (intros a ?; apply Ha'; lia).
  unfold CityMurmur, to_signed_long, sub64.
  destruct (Z.leb_spec len 16).
  - assert (Hneg : (if u64 (len - 16) <? 2 ^ 63 then u64 (len - 16)
                    else u64 (len - 16) - 2 ^ 64) <= 0).
    { destruct (Z.eq_dec len 16) as [->|]; [done|].
      replace (u64 (len - 16)) with (len - 16 + 2 ^ 64) by uint_lia. zcase; lia. }
    destruct (Z.leb_spec (if u64 (len - 16) <? 2 ^ 63 then u64 (len - 16)
                          else u64 (len - 16) - 2 ^ 64) 0); [|lia].
    rewrite <- (HashLen0to16_agree m m' s (s + len)) by (done || lia).
    destruct (Z.leb_spec 8 len);
      [rewrite (Fetch64_agree m m' s (s + len)) by (done || lia)|];
      simpl; solve_hash2.
  - rewrite u64_small by (unfold is_u64; lia).
    destruct (Z.ltb_spec (len - 16) (2 ^ 63)); [|lia].
    destruct (Z.leb_spec (len - 16) 0); [lia|].
    rewrite !(Fetch64_agree m m' s (s + len)) by (done || lia).
    match goal with |- context [murmur_loop ?f m ?p ?l ?a ?b ?c ?d] =>
      destruct (murmur_loop_agree m m' s (s + len) Ha f p l a b c d)
        as ([[[? ?] ?] ?] & -> & ->); try lia end.
    simpl. solve_hash2.
Qed.

Lemma CityHash128WithSeed_agree m m' lo hi s len seed :
  agree m m' lo hi -> lo <= s -> s + len <= hi ->
  0 <= len < 2 ^ 64 -> (forall a, is_u8 (m a)) ->
  hashes_to2 (CityHash128WithSeed m s len seed) (CityHash128WithSeed m' s len seed).
Proof.
  intros Ha Hlo Hhi Hlen Hm. unfold CityHash128WithSeed.
  destruct (Z.ltb_spec len 128); [eapply CityMurmur_agree; eauto; lia|].
  assert (E : city128_init m s len seed = city128_init m' s len seed).
  { unfold city128_init. by rewrite !(Fetch64_agree m m' lo hi) by (done || lia). }
  rewrite <- E.
  destruct (city128_loop_agree m m' lo hi Ha (Z.to_nat len) s len (city128_init m s len seed))
    as ([] & p' & len' & -> & -> & ? & ? & ?); [lia..|]. cbn [obind].
  match goal with |- context [city128_tail ?f m ?p ?l ?t ?st] =>
    destruct (city128_tail_agree m m' lo hi Ha f p l t st) as ([] & -> & ->); try lia end.
  cbn [obind]. solve_hash2.
Qed.

Lemma CityHash128_agree m m' s len :
  is_u64 len -> (forall a, is_u8 (m a)) -> agree m m' s (s + len) ->
  hashes_to2 (CityHash128 m s len) (CityHash128 m' s len).
Proof.
  intros Hlen Hm Ha. unfold is_u64 in Hlen. unfold CityHash128.
  destruct (Z.leb_spec 16 len).
  - rewrite !(Fetch64_agree m m' s (s + len)) by (done || lia).
    eapply CityHash128WithSeed_agree; eauto; lia.
  - destruct (Z.leb_spec 8 len).
    + rewrite !(Fetch64_agree m m' s (s + len)) by (done || lia).
      apply (CityHash128WithSeed_agree m m' 0 0); try lia; [|done].
      intros a ?; lia.
    + eapply CityHash128WithSeed_agree; eauto; lia.
Qed.

(** C31: [CityHash128], which names every key of both stores, returns on every
    input length two 64-bit words that depend on the bytes [s[0..len-1]] only;
    the tail loop of [CityHash128WithSeed], which reads up to 31 bytes before
    its own argument, stays inside the caller's input. *)
Theorem CityHash128_window m m' s len :
  is_u64 len -> (forall a, is_u8 (m a)) -> agree m m' s (s + len) ->
  hashes_to2 (CityHash128 m s len) (CityHash128 m' s len).
Proof. apply CityHash128_agree. Qed.

Lemma CityHash64_window_witness :
  hashes_to (CityHash64 (fun _ => 7) 0 70) (CityHash64 (fun a => if a <? 70 then 7 else 1) 0 70).
Proof.
  apply (CityHash64_window (fun _ => 7) (fun a => if a <? 70 then 7 else 1) 0 70).
  - unfold is_u64. lia.
  - intros _. unfold is_u8. lia.
  - intros a Ha. destruct (Z.ltb_spec a 70); [reflexivity | lia].
Defined.

Lemma CityHash128_window_witness :
  hashes_to2 (CityHash128 (fun _ => 7) 0 150)
             (CityHash128 (fun a => if a <? 150 then 7 else 1) 0 150).
Proof.
  apply (CityHash128_window (fun _ => 7) (fun a => if a <? 150 then 7 else 1) 0 150).
  - unfold is_u64. lia.
  - intros _. unfold is_u8. lia.
  - intros a Ha. destruct (Z.ltb_spec a 150); [reflexivity | lia].
Defined.
