(* ===== verification/Mica.v ===== *)
(** * The MICA key-value store (src/mica/mica.c, include/mica/mica.h)

    A lossy hash index of 8-slot buckets over a circular log.  The store is
    the record [mica_kv]; [mica_insert_one], [mica_batch_op] and
    [mica_populate_fixed_len] are the operations.  The log is a byte memory
    whose addresses are offsets from [ht_log]: an address at or beyond
    [log_cap] is the memory after the allocation. *)
From S2P Require Import Prelude Config Optik Layout City.

Record mica_slot := mkSlot { in_use : Z; slot_tag : Z; offset : Z }.

#[export] Instance mica_slot_eq_dec : EqDecision mica_slot.
Proof. solve_decision. Defined.

(** [struct mica_bkt]: [slots[8]]. *)
Definition mica_bkt : Type := list mica_slot.

Record mica_kv := mkKv {
  ht_index : Z -> mica_bkt;
  ht_log : mem;
  instance_id : Z;
  node_id : Z;
  num_bkts : Z;
  bkt_mask : Z;
  log_cap : Z;
  log_mask : Z;
  log_head : Z;
  num_get_op : Z;
  num_put_op : Z;
  num_get_fail : Z;
  num_put_fail : Z;
  num_insert_op : Z;
  num_index_evictions : Z
}.

Definition set_index (f : Z -> mica_bkt) (kv : mica_kv) : mica_kv :=
  mkKv f (ht_log kv) (instance_id kv) (node_id kv) (num_bkts kv) (bkt_mask kv) (log_cap kv)
    (log_mask kv) (log_head kv) (num_get_op kv) (num_put_op kv) (num_get_fail kv)
    (num_put_fail kv) (num_insert_op kv) (num_index_evictions kv).
Definition set_log (m : mem) (kv : mica_kv) : mica_kv :=
  mkKv (ht_index kv) m (instance_id kv) (node_id kv) (num_bkts kv) (bkt_mask kv) (log_cap kv)
    (log_mask kv) (log_head kv) (num_get_op kv) (num_put_op kv) (num_get_fail kv)
    (num_put_fail kv) (num_insert_op kv) (num_index_evictions kv).
Definition set_head (h : Z) (kv : mica_kv) : mica_kv :=
  mkKv (ht_index kv) (ht_log kv) (instance_id kv) (node_id kv) (num_bkts kv) (bkt_mask kv)
    (log_cap kv) (log_mask kv) h (num_get_op kv) (num_put_op kv) (num_get_fail kv)
    (num_put_fail kv) (num_insert_op kv) (num_index_evictions kv).
(** [get], [put], [get_fail], [insert] and [evict] are added to the counters. *)
Definition count (get put get_fail insert evict : Z) (kv : mica_kv) : mica_kv :=
  mkKv (ht_index kv) (ht_log kv) (instance_id kv) (node_id kv) (num_bkts kv) (bkt_mask kv)
    (log_cap kv) (log_mask kv) (log_head kv) (num_get_op kv + get) (num_put_op kv + put)
    (num_get_fail kv + get_fail) (num_put_fail kv) (num_insert_op kv + insert)
    (num_index_evictions kv + evict).

Definition is_power_of_2 (x : Z) : bool :=
  existsb (Z.eqb x)
    [1; 2; 4; 8; 16; 32; 64; 128; 256; 512; 1024; 2048; 4096; 8192; 16384; 32768; 65536;
     131072; 262144; 524288; 1048576; 2097152; 4194304; 8388608; 16777216; 33554432;
     67108864; 134217728; 268435456; 536870912; 1073741824].

(** ** mica_init

    [shm_index] and [shm_log] are the memory returned by the two calls of
    [hrd_malloc_socket]; the index is then marked unused slot by slot. *)
Definition mica_init (shm_index : Z -> mica_bkt) (shm_log : mem)
    (instance node bkts cap : Z) : outcome mica_kv :=
  let* _ := c_assert ((node =? 0) || (node =? 1)) in
  let* _ := c_assert (is_power_of_2 bkts && (bkts <=? M_16)) in
  let* _ := c_assert (24 <=? MICA_LOG_BITS) in
  let unused := fun s => mkSlot 0 (slot_tag s) (offset s) in
  let index := fun i => if (0 <=? i) && (i <? bkts) then unused <$> shm_index i
                        else shm_index i in
  Done (mkKv index shm_log instance node bkts (bkts - 1) cap (u64 (cap - 1)) 0 0 0 0 0 0 0).

(** ** mica_insert_one *)

(** The slot-selection loop: no [break], so the last match stands. *)
Fixpoint slot_loop (b : mica_bkt) (t i slot_to_use : Z) : Z :=
  match b with
  | [] => slot_to_use
  | s :: b =>
      slot_loop b t (i + 1) (if (slot_tag s =? t) || (in_use s =? 0) then i else slot_to_use)
  end.

Definition slot_to_use (b : mica_bkt) (t : Z) : Z := slot_loop b t 0 (-1).

(** Data copied: key, opcode, val_len, value. *)
Definition len_to_copy : Z := sizeof_mica_key + 1 + 1 + HERD_VALUE_SIZE.

(** The head after an entry of [len] bytes: advanced, aligned to 8 bytes, and
    moved to the next multiple of the capacity when the remaining space is
    small. *)
Definition next_head (len cap mask head : Z) : Z :=
  let head := u64 (head + len) in
  let head := Z.land (u64 (head + 7)) (Z.lnot 7) in
  if u64 (cap - head) <=? MICA_MAX_VALUE + 32
  then Z.land (u64 (head + cap)) (Z.lnot mask) else head.

(** The insertion of the first [len] bytes of [op]: slot, log entry, head. *)
Definition insert_entry (len : Z) (kv : mica_kv) (op : cache_op) : outcome mica_kv :=
  let b := Z.land (bkt op) (bkt_mask kv) in
  let bkt_ptr := ht_index kv b in
  let t := tag op in
  let kv := count 0 0 0 1 0 kv in
  let s := slot_to_use bkt_ptr t in
  let '(s, kv) := if s =? -1 then (Z.land t 7, count 0 0 0 0 1 kv) else (s, kv) in
  let kv := set_index (fupd (ht_index kv) b
              (<[Z.to_nat s := mkSlot 1 t (log_head kv mod 2 ^ MICA_LOG_BITS)]> bkt_ptr)) kv in
  let log_ptr := Z.land (log_head kv) (log_mask kv) in
  let* _ := c_assert (len + 8 <? u64 (2 ^ MICA_LOG_BITS - log_head kv)) in
  let kv := set_log (store_bytes (ht_log kv) log_ptr (take (Z.to_nat len) (encode_op op))) kv in
  Done (set_head (next_head len (log_cap kv) (log_mask kv) (log_head kv)) kv).

Definition mica_insert_one (kv : mica_kv) (op : cache_op) : outcome mica_kv :=
  insert_entry len_to_copy kv op.

(** ** mica_batch_op *)

(** The first slot in use with the tag: the lookup loop breaks on it. *)
Definition find_tag (b : mica_bkt) (t : Z) : option mica_slot :=
  head (filter (fun s => in_use s = 1 /\ slot_tag s = t) b).

(** The two lookup loops, for one operation: [kv_ptr[I]]. *)
Definition kv_ptr (kv : mica_kv) (op : cache_op) : option Z :=
  match find_tag (ht_index kv (Z.land (bkt op) (bkt_mask kv))) (tag op) with
  | Some s =>
      if log_cap kv <=? u64 (log_head kv - offset s) then None
      else Some (Z.land (offset s) (log_mask kv))
  | None => None
  end.

(** The third loop, for one operation. *)
Definition mica_exec_one (kv : mica_kv) (op : cache_op) (ptr : option Z)
    : outcome (mica_kv * mica_resp) :=
  let miss :=
    if opcode op =? MICA_OP_GET then
      Done (count 0 0 1 0 0 kv, mkResp MICA_RESP_GET_FAIL 0 None)
    else
      let* kv := mica_insert_one kv op in
      Done (kv, mkResp MICA_RESP_PUT_SUCCESS 0 None) in
  match ptr with
  | Some p =>
      if load_u64 (ht_log kv) (p + 8) =? key_word op then
        let log_val_len := ht_log kv (p + 17) in
        if opcode op =? MICA_OP_GET then
          Done (count 1 0 0 0 0 kv,
                mkResp MICA_RESP_GET_SUCCESS log_val_len (Some (p + VALUE_OFF)))
        else if opcode op =? MICA_OP_PUT then
          let kv := count 0 1 0 0 0 kv in
          let* _ := c_assert (val_len op =? log_val_len) in
          Done (set_log (store_bytes (ht_log kv) (p + VALUE_OFF)
                          (take (Z.to_nat log_val_len) (value op))) kv,
                mkResp MICA_RESP_PUT_SUCCESS 0 None)
        else AssertFailed
      else miss
  | None => miss
  end.

Fixpoint mica_exec (kv : mica_kv) (l : list (cache_op * option Z))
    : outcome (mica_kv * list mica_resp) :=
  match l with
  | [] => Done (kv, [])
  | (op, ptr) :: l =>
      let* (kv, r) := mica_exec_one kv op ptr in
      let* (kv, rs) := mica_exec kv l in
      Done (kv, r :: rs)
  end.

(** All pointers are looked up before the first operation is executed. *)
Definition mica_batch_op (kv : mica_kv) (ops : list cache_op)
    : outcome (mica_kv * list mica_resp) :=
  mica_exec kv ((fun op => (op, kv_ptr kv op)) <$> ops).

(** ** mica_gen_keys and mica_populate_fixed_len *)

(** [key_arr[i]] is [CityHash128] of the four bytes of [i], for [n] indices from
    [i]. *)
Fixpoint gen_keys_loop (n : nat) (i : Z) : outcome (list uint128) :=
  match n with
  | O => Done []
  | S n =>
      let* k := CityHash128 (store_bytes (fun _ => 0) 0 (le_split 4 i)) 0 4 in
      let* ks := gen_keys_loop n (i + 1) in
      Done (k :: ks)
  end.

Definition mica_gen_keys (n : Z) : outcome (list uint128) :=
  let* _ := c_assert ((0 <? n) && (n <=? M_1024 / 16)) in
  gen_keys_loop (Z.to_nat n) 0.

(** [op_key[0] = first; op_key[1] = second] on an operation. *)
Definition set_op_key (k : uint128) (op : cache_op) : cache_op :=
  mkOp (mkMeta (k.1 mod 2 ^ 8) (Z.shiftr k.1 8 mod 2 ^ 8) (Z.shiftr k.1 16 mod 2 ^ 8)
         (Z.shiftr k.1 24 mod 2 ^ 8) (Z.shiftr k.1 32))
       (u32 k.2) (u16 (Z.shiftr k.2 32)) (Z.shiftr k.2 48)
       (opcode op) (val_len op) (value op).

(** One iteration of the population loop up to the insertion; [op] is the
    operation on the stack, reused by every iteration. *)
Definition populate_op (k : uint128) (n_val : Z) (op : cache_op) : cache_op :=
  let op := set_opcode MICA_OP_PUT (set_op_key k op) in
  let op := set_val_len (u8 (Z.shiftr n_val SHIFT_BITS)) op in
  let val := Z.land k.2 0xff in
  set_value (replicate (Z.to_nat n_val) val ++ drop (Z.to_nat n_val) (value op)) op.

Fixpoint populate_loop (kv : mica_kv) (n_val : Z) (op : cache_op) (ks : list uint128)
    : outcome mica_kv :=
  match ks with
  | [] => Done kv
  | k :: ks =>
      let op := populate_op k n_val op in
      let* kv := mica_insert_one kv op in
      populate_loop kv n_val op ks
  end.

(** [op] is the uninitialised operation on the stack. *)
Definition mica_populate_fixed_len (op : cache_op) (kv : mica_kv) (n n_val : Z)
    : outcome mica_kv :=
  let* _ := c_assert (0 <? n) in
  let* _ := c_assert ((0 <? n_val) && (n_val <=? MICA_MAX_VALUE)) in
  let* _ := c_assert ((num_insert_op kv =? 0) && (num_index_evictions kv =? 0)) in
  let* keys := mica_gen_keys n in
  let* kv := populate_loop kv n_val op keys in
  let* _ := c_assert (num_insert_op kv =? n) in
  Done kv.

(** ** The index: used slots fill a bucket from its end, with distinct tags *)
Record bkt_ok (b : mica_bkt) : Prop := {
  bo_length : length b = 8%nat;
  bo_bit : forall j s, b !! j = Some s -> in_use s = 0 \/ in_use s = 1;
  bo_suffix : forall i j s s', b !! i = Some s -> b !! j = Some s' -> (i < j)%nat ->
    in_use s = 1 -> in_use s' = 1;
  bo_distinct : forall i j s s', b !! i = Some s -> b !! j = Some s' ->
    in_use s = 1 -> in_use s' = 1 -> slot_tag s = slot_tag s' -> i = j
}.

Lemma slot_loop_spec b t i acc :
  (slot_loop b t i acc = acc /\
   forall k s, b !! k = Some s -> slot_tag s <> t /\ in_use s <> 0) \/
  (exists j s, b !! j = Some s /\ (slot_tag s = t \/ in_use s = 0) /\
     slot_loop b t i acc = i + Z.of_nat j /\
     forall k s', (j < k)%nat -> b !! k = Some s' -> slot_tag s' <> t /\ in_use s' <> 0).
Proof.
  revert i acc. induction b as [|s b IH]; intros i acc; [left; split; [done|]; intros [|] ? [=]|].
  cbn [slot_loop].
  destruct (IH (i + 1) (if (slot_tag s =? t) || (in_use s =? 0) then i else acc))
    as [[-> Hno]|(j & s' & Hj & Hm & -> & Hlast)].
  - destruct ((slot_tag s =? t) || (in_use s =? 0)) eqn:E.
    + rewrite orb_true_iff, !Z.eqb_eq in E. right. exists 0%nat, s. split_and!; [done|done|lia|].
      intros [|k] s' ? Hk; [lia|eauto].
    + rewrite orb_false_iff, !Z.eqb_neq in E. left. split; [done|].
      intros [|k] s' Hk; simplify_eq/=; eauto.
  - right. exists (S j), s'. split_and!; [done|done|lia|].
    intros [|k] s2 Hk E; [lia|]. eapply Hlast; [|done]. lia.
Qed.

(** The slot an insertion of tag [t] writes. *)
Definition chosen (b : mica_bkt) (t : Z) : nat :=
  Z.to_nat (if slot_to_use b t =? -1 then Z.land t 7 else slot_to_use b t).

Lemma chosen_spec b t :
  bkt_ok b -> 0 <= t ->
  (chosen b t < 8)%nat /\
  (forall k s, b !! k = Some s -> in_use s = 1 -> slot_tag s = t -> k = chosen b t) /\
  (forall k s, b !! k = Some s -> (chosen b t < k)%nat -> in_use s = 1).
Proof.
  intros [Hl Hbit Hsuf Hdis] Ht. unfold chosen, slot_to_use.
  destruct (slot_loop_spec b t 0 (-1)) as [[-> Hno]|(j & s & Hj & Hm & -> & Hlast)].
  - rewrite Z.eqb_refl. change 7 with (Z.ones 3). rewrite Z.land_ones by lia.
    pose proof (Z.mod_pos_bound t (2 ^ 3) ltac:(lia)). split_and!; [lia| |].
    + intros k s Hk _ E. by destruct (Hno k s Hk).
    + intros k s Hk _. destruct (Hno k s Hk), (Hbit k s Hk); done.
  - destruct (Z.eqb_spec (0 + Z.of_nat j) (-1)); [lia|].
    replace (Z.to_nat (0 + Z.of_nat j)) with j by lia.
    split_and!; [apply lookup_lt_Some in Hj; lia| |].
    + intros k s' Hk Hu E. destruct (lt_eq_lt_dec k j) as [[Hlt|]|Hgt]; [|done|].
      * pose proof (Hsuf _ _ _ _ Hk Hj Hlt Hu).
        destruct Hm as [Hm|Hm]; [apply (Hdis _ _ _ _ Hk Hj Hu); congruence|congruence].
      * by destruct (Hlast k s' Hgt Hk).
    + intros k s' Hk Hgt. destruct (Hlast k s' Hgt Hk), (Hbit k s' Hk); done.
Qed.

Lemma bkt_ok_insert b t o :
  bkt_ok b -> 0 <= t -> bkt_ok (<[chosen b t := mkSlot 1 t o]> b).
Proof.
  intros Hb Ht. destruct (chosen_spec b t Hb Ht) as (Hlt & Huniq & Hsufc).
  destruct Hb as [Hl Hbit Hsuf Hdis]. split.
  - unfold mica_bkt in *. by rewrite length_insert.
  - intros j s [(_ & <- & _)|[_ H]]%list_lookup_insert_Some; [by right|eauto].
  - intros i j s s' [(<- & <- & _)|[Hi H1]]%list_lookup_insert_Some
      [(<- & <- & _)|[Hj H2]]%list_lookup_insert_Some; simpl; intros; eauto.
  - intros i j s s' [(<- & <- & _)|[Hi H1]]%list_lookup_insert_Some
      [(<- & <- & _)|[Hj H2]]%list_lookup_insert_Some; simpl; intros; eauto.
    symmetry. eauto.
Qed.

(** The first matching slot of a well-formed bucket is the only one. *)
Lemma find_tag_Some b t s :
  find_tag b t = Some s -> exists j, b !! j = Some s /\ in_use s = 1 /\ slot_tag s = t.
Proof.
  unfold find_tag. intros H. assert (Hin : s ∈ filter (fun s => in_use s = 1 /\ slot_tag s = t) b).
  { destruct (filter _ b); simplify_eq/=. by left. }
  apply list_elem_of_filter in Hin as [[? ?] Hin].
  apply list_elem_of_lookup in Hin as [j Hj]. eauto.
Qed.

Lemma find_tag_hit b t j s :
  bkt_ok b -> b !! j = Some s -> in_use s = 1 -> slot_tag s = t -> find_tag b t = Some s.
Proof.
  intros Hb Hj Hu Ht. unfold find_tag.
  assert (Hin : s ∈ filter (fun s => in_use s = 1 /\ slot_tag s = t) b).
  { apply list_elem_of_filter. split; [done|]. eapply list_elem_of_lookup_2; eauto. }
  destruct (filter _ b) as [|s' l] eqn:E; [by apply not_elem_of_nil in Hin|].
  assert (Hs' : s' ∈ filter (fun s => in_use s = 1 /\ slot_tag s = t) b) by (rewrite E; left).
  apply list_elem_of_filter in Hs' as [[Hu' Ht'] Hs'].
  apply list_elem_of_lookup in Hs' as [j' Hj'].
  assert (j' = j) as -> by (apply (bo_distinct b Hb j' j s' s); first [eassumption | congruence]).
  unfold mica_bkt in *. simpl. congruence.
Qed.
