(* ===== verification/MicaLog.v ===== *)
(** * What the MICA store promises: a lossy map

    The abstract store is a partial map from key words to values.  An entry of
    the index that the lookup accepts always holds the latest value written
    under its key, although keys may be lost (evicted slots, tag collisions,
    a log that has gone all the way round).  The invariant [store_ok] ties a
    [mica_kv] to such a map; insertion and the batch operation preserve it and
    answer according to it.  That the entries lie inside the allocation is a
    separate condition, [entries_within]: operations keep it while an insertion
    has room before the end of the log, which the code does not ensure after the
    first wrap ([mica_log_overrun]). *)
From S2P Require Import Prelude Config Optik Layout City Mica.

(** ** Geometry and the virtual head *)
Record geometry_ok (kv : mica_kv) : Prop := {
  go_cap : exists k, 10 <= k <= 38 /\ log_cap kv = 2 ^ k;
  go_mask : log_mask kv = log_cap kv - 1;
  go_bkts : exists k, 0 <= k <= 24 /\ num_bkts kv = 2 ^ k;
  go_bmask : bkt_mask kv = num_bkts kv - 1;
  go_head : 0 <= log_head kv <= 2 ^ 40;
  go_align : log_head kv mod 8 = 0;
  go_lap : log_head kv < log_cap kv -> log_head kv mod 56 = 0
}.

Lemma land_pred_pow2 z c k : 0 <= k -> c = 2 ^ k -> Z.land z (c - 1) = z mod c.
Proof. intros Hk ->. rewrite <- Z.land_ones by done. f_equal. rewrite Z.ones_equiv. lia. Qed.

Lemma land_lnot_pred_pow2 z c k :
  0 <= k -> c = 2 ^ k -> Z.land z (Z.lnot (c - 1)) = c * (z / c).
Proof.
  intros Hk ->. replace (2 ^ k - 1) with (Z.ones k) by (rewrite Z.ones_equiv; lia).
  rewrite <- Z.ldiff_land, Z.ldiff_ones_r by lia.
  rewrite Z.shiftl_mul_pow2, Z.shiftr_div_pow2 by lia. apply Z.mul_comm.
Qed.

(** A capacity is not a multiple of the 56 bytes of an entry. *)
Lemma pow2_mod7 k : 0 <= k -> 2 ^ k mod 7 <> 0.
Proof.
  intros Hk. enough (H : 2 ^ k mod 7 = 1 \/ 2 ^ k mod 7 = 2 \/ 2 ^ k mod 7 = 4) by lia.
  revert k Hk. apply natlike_ind; [by left|]. intros k Hk IH.
  rewrite Z.pow_succ_r, Z.mul_mod by lia. destruct IH as [E | [E | E]]; rewrite E; vm_compute; tauto.
Qed.

Lemma cap_bounds kv : geometry_ok kv -> 1024 <= log_cap kv <= 2 ^ 38 /\ log_cap kv mod 8 = 0.
Proof.
  intros [(k & Hk & ->) _ _ _ _ _ _].
  pose proof (Z.pow_le_mono_r 2 10 k). pose proof (Z.pow_le_mono_r 2 k 38).
  split; [lia|]. replace k with (3 + (k - 3)) by lia.
  rewrite Z.pow_add_r by lia. change (2 ^ 3) with 8. rewrite Z.mul_comm. apply Z_mod_mult.
Qed.

Lemma log_land kv z : geometry_ok kv -> Z.land z (log_mask kv) = z mod log_cap kv.
Proof.
  intros [(k & Hk & Hc) -> _ _ _ _ _]. apply (land_pred_pow2 z _ k); [lia|done].
Qed.

Lemma bkt_land kv z : geometry_ok kv -> Z.land z (bkt_mask kv) = z mod num_bkts kv.
Proof.
  intros [_ _ (k & Hk & Hc) -> _ _ _]. apply (land_pred_pow2 z _ k); [lia|done].
Qed.

Lemma bkt_land_range kv z : geometry_ok kv -> 0 <= Z.land z (bkt_mask kv) < num_bkts kv.
Proof.
  intros Hg. rewrite bkt_land by done. destruct Hg as [_ _ (k & Hk & ->) _ _ _ _].
  apply Z.mod_pos_bound. apply Z.pow_pos_nonneg; lia.
Qed.

(** An entry takes 56 bytes of the virtual log.  The physical end of the log
    is only looked at while the virtual head is below the capacity. *)
Lemma next_head_eq kv :
  geometry_ok kv -> log_head kv + 58 < 2 ^ 40 ->
  next_head len_to_copy (log_cap kv) (log_mask kv) (log_head kv)
  = let h := log_head kv + 56 in
    if (log_cap kv - 78 <=? h) && (h <=? log_cap kv)
    then log_cap kv * ((h + log_cap kv) / log_cap kv) else h.
Proof.
  intros Hg Hroom. pose proof (cap_bounds kv Hg) as [Hcap _].
  pose proof Hg as [(k & Hk & Hc) Hm _ _ Hh Ha _]. unfold next_head.
  change len_to_copy with 50. change (MICA_MAX_VALUE + 32) with 78.
  rewrite (u64_small (log_head kv + 50)) by (unfold is_u64; lia).
  rewrite (u64_small (log_head kv + 50 + 7)) by (unfold is_u64; lia).
  replace (Z.land (log_head kv + 50 + 7) (Z.lnot 7)) with (log_head kv + 56).
  2:{ change 7 with (8 - 1) at 2. rewrite (land_lnot_pred_pow2 _ 8 3) by done.
      Z.div_mod_to_equations. lia. }
  rewrite Hm, (u64_small (log_head kv + 56 + log_cap kv)) by (unfold is_u64; lia).
  rewrite (land_lnot_pred_pow2 _ _ k) by (lia || done). cbv zeta.
  destruct (Z.leb_spec (log_head kv + 56) (log_cap kv)).
  - rewrite u64_small by (unfold is_u64; lia). rewrite andb_true_r.
    repeat zcase; done || lia.
  - rewrite andb_false_r. unfold u64.
    replace (log_cap kv - (log_head kv + 56))
      with (log_cap kv - (log_head kv + 56) + 2 ^ 64 + (-1) * 2 ^ 64) by lia.
    rewrite Z_mod_plus_full, Z.mod_small by lia. zcase; done || lia.
Qed.

Lemma next_head_bounds kv :
  geometry_ok kv -> log_head kv + 58 < 2 ^ 40 ->
  let h := next_head len_to_copy (log_cap kv) (log_mask kv) (log_head kv) in
  log_head kv + 56 <= h <= 2 ^ 40 /\ h mod 8 = 0.
Proof.
  intros Hg Hroom. pose proof (cap_bounds kv Hg) as [Hcap Hc8].
  cbv zeta. rewrite next_head_eq by done. cbv zeta. destruct Hg as [_ _ _ _ Hh Ha _].
  destruct (Z.leb_spec (log_cap kv - 78) (log_head kv + 56)); simpl;
    [|split; [lia|by rewrite Z.add_mod, Ha]].
  destruct (Z.leb_spec (log_head kv + 56) (log_cap kv)); simpl;
    [|split; [lia|by rewrite Z.add_mod, Ha]].
  pose proof (Z.div_mod (log_head kv + 56 + log_cap kv) (log_cap kv) ltac:(lia)).
  pose proof (Z.mod_pos_bound (log_head kv + 56 + log_cap kv) (log_cap kv) ltac:(lia)).
  split; [lia|]. by rewrite Z.mul_mod, Hc8.
Qed.

Lemma head_not_end kv : geometry_ok kv -> log_head kv + 56 <> log_cap kv.
Proof.
  intros [(k & Hk & Hc) _ _ _ _ _ Hlap] E. apply (pow2_mod7 k); [lia|].
  rewrite <- Hc, <- E. specialize (Hlap ltac:(lia)). Z.div_mod_to_equations. lia.
Qed.

Lemma next_head_wrap kv :
  geometry_ok kv -> log_cap kv - 78 <= log_head kv + 56 <= log_cap kv ->
  next_head len_to_copy (log_cap kv) (log_mask kv) (log_head kv) = log_cap kv.
Proof.
  intros Hg Hh. pose proof (cap_bounds kv Hg) as [Hcap _]. pose proof (head_not_end kv Hg).
  rewrite next_head_eq by (done || lia). cbv zeta.
  destruct (Z.leb_spec (log_cap kv - 78) (log_head kv + 56)); [|lia].
  destruct (Z.leb_spec (log_head kv + 56) (log_cap kv)); [|lia]. simpl.
  replace ((log_head kv + 56 + log_cap kv) / log_cap kv) with 1
    by (apply Z.div_unique with (log_head kv + 56); lia). lia.
Qed.

Lemma next_head_lap kv :
  geometry_ok kv -> log_head kv + 58 < 2 ^ 40 ->
  let h := next_head len_to_copy (log_cap kv) (log_mask kv) (log_head kv) in
  (h = log_head kv + 56 \/ (h = log_cap kv /\ log_cap kv - log_head kv <= 134)) /\
  (h < log_cap kv -> h mod 56 = 0).
Proof.
  intros Hg Hroom. pose proof (cap_bounds kv Hg) as [Hcap _]. pose proof (head_not_end kv Hg).
  cbv zeta. destruct (decide (log_cap kv - 78 <= log_head kv + 56 <= log_cap kv)) as [Hw|Hw].
  - rewrite next_head_wrap by done. split; [right; lia|lia].
  - rewrite next_head_eq by done. cbv zeta.
    rewrite (proj2 (andb_false_iff _ _)) by (rewrite !Z.leb_gt; lia).
    destruct Hg as [_ _ _ _ Hh _ Hlap].
    split; [by left|]. intros. specialize (Hlap ltac:(lia)). Z.div_mod_to_equations; lia.
Qed.

(** The store after a successful insertion, field by field. *)
Lemma mica_insert_one_eq kv op :
  geometry_ok kv -> log_head kv + 58 < 2 ^ 40 ->
  let b := Z.land (bkt op) (bkt_mask kv) in
  exists kv', mica_insert_one kv op = Done kv' /\
    ht_index kv' = fupd (ht_index kv) b
      (<[chosen (ht_index kv b) (tag op) := mkSlot 1 (tag op) (log_head kv)]> (ht_index kv b)) /\
    ht_log kv' = store_bytes (ht_log kv) (log_head kv mod log_cap kv) (take 50 (encode_op op)) /\
    log_head kv' = next_head len_to_copy (log_cap kv) (log_mask kv) (log_head kv) /\
    num_bkts kv' = num_bkts kv /\ bkt_mask kv' = bkt_mask kv /\
    log_cap kv' = log_cap kv /\ log_mask kv' = log_mask kv /\
    num_insert_op kv' = num_insert_op kv + 1.
Proof.
  intros Hg Hroom. cbv zeta. pose proof (go_head kv Hg).
  unfold mica_insert_one, insert_entry, chosen. change MICA_LOG_BITS with 40.
  assert (Hassert : (len_to_copy + 8 <? u64 (2 ^ 40 - log_head kv)) = true).
  { apply Z.ltb_lt. change len_to_copy with 50. rewrite u64_small by (unfold is_u64; lia). lia. }
  assert (Hoff : log_head kv mod 2 ^ 40 = log_head kv) by (apply Z.mod_small; lia).
  destruct (slot_to_use _ _ =? -1); simpl; rewrite Hassert, Hoff, log_land by done; simpl;
    eexists; (split; [reflexivity|]); simpl; split_and!; try done; lia.
Qed.

(** ** The invariant *)
Definition kvmap : Type := Z -> option (list Z).

(** Slot [j] of bucket [b]. *)
Definition in_index (kv : mica_kv) (b : Z) (j : nat) (s : mica_slot) : Prop :=
  0 <= b < num_bkts kv /\ ht_index kv b !! j = Some s.

(** A used slot the lookup accepts. *)
Definition live (kv : mica_kv) (s : mica_slot) : Prop :=
  in_use s = 1 /\ log_head kv - offset s < log_cap kv.

(** The log entry at physical offset [p] and the key stored in it. *)
Definition entry_key (m : mem) (p : Z) : Z := load_u64 m (p + 8).
Definition entry_val (m : mem) (p : Z) : list Z :=
  load_bytes m (p + VALUE_OFF) (Z.to_nat (m (p + 17))).

Record entry_ok (A : kvmap) (kv : mica_kv) (b : Z) (s : mica_slot) : Prop := {
  eo_align : offset s mod 8 = 0;
  eo_below : 0 <= offset s /\ offset s + 56 <= log_head kv;
  eo_tag : kw_tag (entry_key (ht_log kv) (offset s mod log_cap kv)) = slot_tag s;
  eo_bkt : Z.land (kw_bkt (entry_key (ht_log kv) (offset s mod log_cap kv))) (bkt_mask kv) = b;
  eo_len : 0 <= ht_log kv (offset s mod log_cap kv + 17) <= HERD_VALUE_SIZE;
  eo_val : A (entry_key (ht_log kv) (offset s mod log_cap kv))
           = Some (entry_val (ht_log kv) (offset s mod log_cap kv))
}.

Record store_ok (A : kvmap) (kv : mica_kv) : Prop := {
  so_geometry : geometry_ok kv;
  so_bkts : forall b, 0 <= b < num_bkts kv -> bkt_ok (ht_index kv b);
  so_offsets : forall b j s, in_index kv b j s -> in_use s = 1 -> 0 <= offset s <= log_head kv;
  so_entries : forall b j s, in_index kv b j s -> live kv s -> entry_ok A kv b s;
  so_apart : forall b1 j1 s1 b2 j2 s2,
    in_index kv b1 j1 s1 -> in_index kv b2 j2 s2 -> live kv s1 -> live kv s2 ->
    (b1 = b2 /\ j1 = j2) \/ 56 <= Z.abs (offset s1 - offset s2)
}.

Definition put_map (A : kvmap) (op : cache_op) : kvmap :=
  fun k => if k =? key_word op then Some (take (Z.to_nat (val_len op)) (value op)) else A k.

(** Offsets at least 56 apart, and less than a lap minus 56, are at least 56
    bytes apart in the physical log. *)
Lemma phys_apart c o1 o2 :
  56 < c -> 0 <= o1 -> 0 <= o2 -> 56 <= Z.abs (o1 - o2) <= c - 56 ->
  56 <= Z.abs (o1 mod c - o2 mod c).
Proof.
  intros Hc H1 H2 H.
  pose proof (Z.div_mod o1 c ltac:(lia)). pose proof (Z.div_mod o2 c ltac:(lia)).
  pose proof (Z.mod_pos_bound o1 c ltac:(lia)). pose proof (Z.mod_pos_bound o2 c ltac:(lia)).
  assert (o1 / c - o2 / c = 0 \/ o1 / c - o2 / c = 1 \/ o1 / c - o2 / c = -1) as [E|[E|E]] by nia;
    [replace (o1 / c) with (o2 / c) in * by lia
    |replace (o1 / c) with (o2 / c + 1) in * by lia
    |replace (o2 / c) with (o1 / c + 1) in * by lia]; lia.
Qed.

(** An entry depends on the 50 bytes at its offset only. *)
Lemma entry_ok_frame A A' kv kv' b s :
  let p := offset s mod log_cap kv in
  entry_ok A kv b s ->
  log_cap kv' = log_cap kv -> bkt_mask kv' = bkt_mask kv -> log_head kv <= log_head kv' ->
  (forall i, 0 <= i < 50 -> ht_log kv' (p + i) = ht_log kv (p + i)) ->
  A' (entry_key (ht_log kv) p) = A (entry_key (ht_log kv) p) ->
  entry_ok A' kv' b s.
Proof.
  intros p [Ha Hb Ht Hk Hl Hv] Hc Hm Hh Hsame HA.
  assert (Ek : entry_key (ht_log kv') p = entry_key (ht_log kv) p).
  { unfold entry_key, load_u64. f_equal. apply load_bytes_ext. intros i Hi.
    rewrite <- !Z.add_assoc. apply Hsame. lia. }
  split; rewrite ?Hc, ?Hm; fold p; fold p in Ht, Hk, Hl, Hv;
    rewrite ?Ek, ?Hsame by lia; try done; [lia|].
  rewrite HA, Hv. f_equal. unfold entry_val. rewrite Hsame by lia.
  apply load_bytes_ext. intros i Hi. rewrite <- !Z.add_assoc. symmetry. apply Hsame.
  unfold VALUE_OFF, HERD_VALUE_SIZE, BASE_VALUE_SIZE in *. simpl in Hl. lia.
Qed.

(** The entry an insertion writes. *)
Lemma stored_entry m p op :
  op_fits op -> val_len op <= HERD_VALUE_SIZE ->
  let m' := store_bytes m p (take 50 (encode_op op)) in
  entry_key m' p = key_word op /\ m' (p + 17) = val_len op /\
  entry_val m' p = take (Z.to_nat (val_len op)) (value op).
Proof.
  intros Hf Hv m'. change HERD_VALUE_SIZE with 32 in Hv.
  assert (Hn : (32 <= max_value_len)%nat) by (change max_value_len with 46%nat; lia).
  assert (El : m' (p + 17) = val_len op).
  { destruct (load_stored_header m p op 32 Hf Hn) as (_ & _ & _ & _ & _ & E). apply E. }
  split_and!; [apply (load_stored_key_word m p op 32 Hf Hn)|done|].
  unfold entry_val. rewrite El.
  pose proof (load_stored_value m p op 32 Hf Hn) as E32.
  change (18 + 32)%nat with 50%nat in E32. fold m' in E32. apply (f_equal (take (Z.to_nat (val_len op)))) in E32. rewrite take_take in E32.
  rewrite Nat.min_l in E32 by lia. rewrite <- E32.
  replace 32%nat with (Z.to_nat (val_len op) + (32 - Z.to_nat (val_len op)))%nat by lia.
  rewrite load_bytes_app, take_app_exact; [done|apply length_load_bytes].
Qed.

(** The slots after an insertion: the new one, and the others as they were. *)
Lemma in_index_insert kv kv' b0 j0 s0 b j s :
  ht_index kv' = fupd (ht_index kv) b0 (<[j0 := s0]> (ht_index kv b0)) ->
  num_bkts kv' = num_bkts kv ->
  in_index kv' b j s ->
  (b = b0 /\ j = j0 /\ s = s0) \/ (in_index kv b j s /\ ~ (b = b0 /\ j = j0)).
Proof.
  intros Hi Hn [Hb Hs]. rewrite Hn in Hb. rewrite Hi in Hs. unfold fupd in Hs.
  destruct (Z.eqb_spec b b0) as [->|Hne].
  - apply list_lookup_insert_Some in Hs as [(<- & <- & _)|[Hj Hs]]; [by left|].
    right. split; [by split|intros [_ ?]; done].
  - right. split; [by split|intros [? _]; done].
Qed.

Section insert.
Context (A : kvmap) (kv kv' : mica_kv) (op : cache_op).
Hypothesis Hok : store_ok A kv.
Hypothesis Hfits : op_fits op.
Hypothesis Hval : val_len op <= HERD_VALUE_SIZE.
Hypothesis Hroom : log_head kv + 58 < 2 ^ 40.
Hypothesis Hins : mica_insert_one kv op = Done kv'.

Let b0 := Z.land (bkt op) (bkt_mask kv).
Let j0 := chosen (ht_index kv b0) (tag op).
Let s0 := mkSlot 1 (tag op) (log_head kv).

Lemma insert_fields :
  ht_index kv' = fupd (ht_index kv) b0 (<[j0 := s0]> (ht_index kv b0)) /\
  ht_log kv' = store_bytes (ht_log kv) (log_head kv mod log_cap kv) (take 50 (encode_op op)) /\
  log_head kv' = next_head len_to_copy (log_cap kv) (log_mask kv) (log_head kv) /\
  num_bkts kv' = num_bkts kv /\ bkt_mask kv' = bkt_mask kv /\
  log_cap kv' = log_cap kv /\ log_mask kv' = log_mask kv.
Proof using Hok Hroom Hins.
  destruct (mica_insert_one_eq kv op (so_geometry _ _ Hok) Hroom)
    as (kv2 & E & ? & ? & ? & ? & ? & ? & ? & _).
  rewrite Hins in E. injection E as <-. done.
Qed.

Lemma insert_head : log_head kv + 56 <= log_head kv' <= 2 ^ 40 /\ log_head kv' mod 8 = 0.
Proof using Hok Hroom Hins.
  destruct insert_fields as (_ & _ & -> & _).
  apply next_head_bounds; [apply Hok|done].
Qed.

Lemma insert_geometry : geometry_ok kv'.
Proof using Hok Hroom Hins.
  destruct insert_fields as (_ & _ & Eh & En & Em & Ec & Ek), insert_head as [? ?].
  destruct (so_geometry _ _ Hok). split; rewrite ?En, ?Em, ?Ec, ?Ek; try done; [lia|].
  rewrite Eh. by apply next_head_lap; [apply Hok|].
Qed.

Lemma insert_b0 : 0 <= b0 < num_bkts kv /\ bkt_ok (ht_index kv b0).
Proof using Hok.
  pose proof (bkt_land_range kv (bkt op) (so_geometry _ _ Hok)). split; [done|].
  by apply (so_bkts _ _ Hok).
Qed.

(** An old slot that is still live after the insertion. *)
Lemma insert_old_live s : live kv' s -> live kv s /\ log_head kv + 56 - offset s < log_cap kv.
Proof using Hok Hroom Hins.
  intros [Hu Hl]. destruct insert_fields as (_ & _ & _ & _ & _ & -> & _) in Hl.
  destruct insert_fields as (_ & _ & _ & _ & _ & Ec & _), insert_head as [? _].
  rewrite ?Ec in Hl. unfold live. split; [split; [done|]|]; lia.
Qed.

Lemma insert_old_bytes b j s :
  in_index kv b j s -> live kv' s -> forall i, 0 <= i < 50 ->
  ht_log kv' (offset s mod log_cap kv + i) = ht_log kv (offset s mod log_cap kv + i).
Proof using All.
  intros Hin Hl i Hi. destruct (insert_old_live s Hl) as [Hlive Hlap].
  pose proof (eo_below _ _ _ _ (so_entries _ _ Hok b j s Hin Hlive)).
  destruct insert_fields as (_ & El & _).
  pose proof (cap_bounds kv (so_geometry _ _ Hok)) as [Hcap _].
  rewrite El. apply store_bytes_out.
  pose proof (phys_apart (log_cap kv) (offset s) (log_head kv)).
  rewrite length_take, length_encode_op, (of_value _ Hfits).
  change (50 `min` (18 + max_value_len))%nat with 50%nat. lia.
Qed.

Lemma insert_old_entry b j s :
  in_index kv b j s -> ~ (b = b0 /\ j = j0) -> live kv' s -> entry_ok (put_map A op) kv' b s.
Proof using All.
  intros Hin Hne Hl. destruct (insert_old_live s Hl) as [Hlive Hlap].
  pose proof (so_entries _ _ Hok b j s Hin Hlive) as He.
  destruct insert_fields as (Ei & El & Eh & En & Em & Ec & Ek), insert_head as [Hh _].
  eapply entry_ok_frame; try done; [lia|by apply (insert_old_bytes b j)|].
  unfold put_map. zcase; [|done]. exfalso. apply Hne.
  pose proof (eo_tag _ _ _ _ He) as Ht. pose proof (eo_bkt _ _ _ _ He) as Hb.
  rewrite e in Ht, Hb. rewrite kw_tag_key_word in Ht by done.
  rewrite kw_bkt_key_word in Hb by done. fold b0 in Hb. subst b. split; [done|].
  destruct insert_b0 as [_ Hbk].
  apply (chosen_spec _ (tag op) Hbk (proj1 (of_tag _ Hfits))) with s; [apply Hin|apply Hlive|done].
Qed.

Lemma insert_new_entry : entry_ok (put_map A op) kv' b0 s0.
Proof using All.
  destruct insert_fields as (Ei & El & Eh & En & Em & Ec & Ek), insert_head as [Hh _].
  pose proof (go_head _ (so_geometry _ _ Hok)). pose proof (go_align _ (so_geometry _ _ Hok)).
  destruct (stored_entry (ht_log kv) (log_head kv mod log_cap kv) op Hfits Hval)
    as (E1 & E2 & E3).
  split; simpl; rewrite ?Ec, ?Em, ?El, ?E1, ?E2, ?E3; try done; [lia|..].
  - by apply kw_tag_key_word.
  - by rewrite kw_bkt_key_word.
  - destruct (of_val_len _ Hfits). lia.
  - unfold put_map. by rewrite Z.eqb_refl.
Qed.

Lemma store_ok_insert : store_ok (put_map A op) kv'.
Proof using All.
  destruct insert_fields as (Ei & El & Eh & En & Em & Ec & Ek), insert_head as [Hh _].
  destruct insert_b0 as [Hb0 Hbk]. pose proof (go_head _ (so_geometry _ _ Hok)).
  pose proof (in_index_insert kv kv' b0 j0 s0) as Hcase. split.
  - apply insert_geometry.
  - intros b Hb. rewrite En in Hb. rewrite Ei. unfold fupd. zcase.
    + by apply bkt_ok_insert; [|apply (of_tag _ Hfits)].
    + by apply (so_bkts _ _ Hok).
  - intros b j s Hin Hu. destruct (Hcase b j s Ei En Hin) as [(-> & -> & ->)|[Hold _]].
    + simpl. lia.
    + pose proof (so_offsets _ _ Hok b j s Hold Hu). lia.
  - intros b j s Hin Hl. destruct (Hcase b j s Ei En Hin) as [(-> & -> & ->)|[Hold Hne]].
    + apply insert_new_entry.
    + eauto using insert_old_entry.
  - intros b1 j1 s1 b2 j2 s2 H1 H2 L1 L2.
    destruct (Hcase _ _ _ Ei En H1) as [(-> & -> & ->)|[O1 N1]],
      (Hcase _ _ _ Ei En H2) as [(-> & -> & ->)|[O2 N2]]; [by left| | |];
      repeat match goal with
      | O : in_index kv _ _ ?s, L : live kv' ?s |- _ =>
          destruct (insert_old_live s L) as [? _];
          pose proof (eo_below _ _ _ _ (so_entries _ _ Hok _ _ _ O ltac:(done))); clear L
      end.
    + right. simpl. lia.
    + right. simpl. lia.
    + eapply (so_apart _ _ Hok); eauto.
Qed.

(** The key just written is found again. *)
Lemma insert_found : kv_ptr kv' op = Some (log_head kv mod log_cap kv).
Proof using All.
  destruct insert_fields as (Ei & El & Eh & En & Em & Ec & Ek).
  destruct insert_b0 as [Hb0 Hbk].
  pose proof (bkt_ok_insert _ (tag op) (log_head kv) Hbk (proj1 (of_tag _ Hfits))) as Hbk'.
  destruct (chosen_spec _ (tag op) Hbk (proj1 (of_tag _ Hfits))) as [Hj0 _].
  unfold kv_ptr. rewrite Em, Ei. fold b0. rewrite fupd_eq.
  rewrite (find_tag_hit _ (tag op) j0 s0) by
    (done || apply list_lookup_insert_eq; rewrite (bo_length _ Hbk); done).
  rewrite Ec, Ek. simpl. rewrite log_land by apply Hok.
  pose proof (cap_bounds kv (so_geometry _ _ Hok)) as [Hcap _].
  pose proof (go_head _ (so_geometry _ _ Hok)).
  assert (Hdist : 0 <= log_head kv' - log_head kv < log_cap kv).
  { pose proof insert_head. rewrite Eh in *.
    destruct (next_head_lap kv (so_geometry _ _ Hok) Hroom) as [[?|[? ?]] _]; lia. }
  rewrite u64_small by (unfold is_u64; lia). zcase; [lia|done].
Qed.
End insert.

(** ** Lookups and updates in place *)
Lemma kv_ptr_Some A kv op p :
  store_ok A kv -> kv_ptr kv op = Some p ->
  exists j s, in_index kv (Z.land (bkt op) (bkt_mask kv)) j s /\ live kv s /\
    slot_tag s = tag op /\ p = offset s mod log_cap kv /\
    entry_ok A kv (Z.land (bkt op) (bkt_mask kv)) s.
Proof.
  intros Hok. unfold kv_ptr. destruct (find_tag _ _) as [s|] eqn:Hf; [|done].
  apply find_tag_Some in Hf as (j & Hj & Hu & Ht).
  destruct (Z.leb_spec (log_cap kv) (u64 (log_head kv - offset s))) as [|Hlt]; [done|].
  intros [= <-]. rewrite log_land by apply Hok.
  assert (Hin : in_index kv (Z.land (bkt op) (bkt_mask kv)) j s).
  { split; [apply bkt_land_range, Hok|done]. }
  pose proof (so_offsets _ _ Hok _ _ _ Hin Hu). pose proof (go_head _ (so_geometry _ _ Hok)).
  rewrite u64_small in Hlt by (unfold is_u64; lia).
  exists j, s. split_and!; try done. by apply (so_entries _ _ Hok _ j).
Qed.

(** The entry that a lookup found is rewritten in place by any memory [m']
    that differs inside the entry only and keeps its key and length. *)
Section rewrite.
Context (A : kvmap) (kv : mica_kv) (op : cache_op) (p : Z) (m' : mem).
Hypothesis Hok : store_ok A kv.
Hypothesis Hfits : op_fits op.
Hypothesis Hptr : kv_ptr kv op = Some p.
Hypothesis Hkey : entry_key (ht_log kv) p = key_word op.
Hypothesis Hout : forall a, a < p \/ p + 50 <= a -> m' a = ht_log kv a.
Hypothesis Hkeep : forall i, 8 <= i < 16 \/ i = 17 -> m' (p + i) = ht_log kv (p + i).

Lemma rewrite_key : entry_key m' p = key_word op.
Proof using All.
  rewrite <- Hkey. unfold entry_key, load_u64. f_equal. apply load_bytes_ext.
  intros i Hi. rewrite <- !Z.add_assoc. apply Hkeep. lia.
Qed.

(** Entries of other slots are not touched and carry other keys. *)
Lemma rewrite_other A' j s b' j' s' :
  in_index kv (Z.land (bkt op) (bkt_mask kv)) j s -> live kv s ->
  slot_tag s = tag op -> p = offset s mod log_cap kv ->
  in_index kv b' j' s' -> live kv s' ->
  ~ (b' = Z.land (bkt op) (bkt_mask kv) /\ j' = j) ->
  (forall k, k <> key_word op -> A' k = A k) ->
  entry_ok A' (set_log m' kv) b' s'.
Proof using All.
  intros Hin Hl Ht Hp Hin' Hl' Hne HA.
  pose proof (so_entries _ _ Hok _ _ _ Hin' Hl') as He'.
  pose proof (so_entries _ _ Hok _ _ _ Hin Hl) as He.
  pose proof (eo_below _ _ _ _ He). pose proof (eo_below _ _ _ _ He').
  pose proof (cap_bounds kv (so_geometry _ _ Hok)) as [Hcap _].
  apply (entry_ok_frame A A' kv (set_log m' kv) b' s' He'); try done.
  - intros i Hi. apply Hout. rewrite Hp.
    destruct (so_apart _ _ Hok _ _ _ _ _ _ Hin' Hin Hl' Hl) as [?|Hap]; [tauto|].
    destruct Hl as [_ Hl], Hl' as [_ Hl'].
    pose proof (phys_apart (log_cap kv) (offset s') (offset s)). lia.
  - apply HA. intros e. apply Hne.
    pose proof (eo_tag _ _ _ _ He') as Ht'. pose proof (eo_bkt _ _ _ _ He') as Hb'.
    rewrite e in Ht', Hb'. rewrite kw_tag_key_word in Ht' by done.
    rewrite kw_bkt_key_word in Hb' by done. subst b'. split; [done|].
    destruct Hin as [Hb Hj], Hin' as [_ Hj'].
    apply (bo_distinct _ (so_bkts _ _ Hok _ Hb) _ _ _ _ Hj' Hj); [apply Hl'|apply Hl|congruence].
Qed.

Lemma store_ok_rewrite :
  store_ok (fun k => if k =? key_word op then Some (entry_val m' p) else A k) (set_log m' kv).
Proof using All.
  destruct (kv_ptr_Some _ _ _ _ Hok Hptr) as (j & s & Hin & Hl & Ht & Hp & He).
  split; [by destruct (so_geometry _ _ Hok)|apply Hok|apply Hok| |apply Hok].
  intros b' j' s' Hin' Hl'.
  destruct (decide (b' = Z.land (bkt op) (bkt_mask kv) /\ j' = j)) as [[-> ->]|Hne].
  2:{ eapply rewrite_other; eauto. intros k Hk. by zcase. }
  assert (s' = s) as -> by (destruct Hin as [_ E1], Hin' as [_ E2]; simpl in *; congruence).
  destruct He as [? ? Het Heb Hel Hev]. rewrite <- Hp in *.
  split; simpl log_cap; rewrite <- ?Hp; simpl bkt_mask; simpl ht_log; try done;
    rewrite ?rewrite_key, <- ?Hkey; try done.
  - rewrite Hkeep by lia. done.
  - by rewrite Z.eqb_refl.
Qed.

(** Keys of the other entries found are kept. *)
Lemma rewrite_keeps_keys o q :
  kv_ptr kv o = Some q -> entry_key m' q = entry_key (ht_log kv) q.
Proof using All.
  intros Hq.
  destruct (kv_ptr_Some _ _ _ _ Hok Hptr) as (j & s & Hin & Hl & _ & Hps & He).
  destruct (kv_ptr_Some _ _ _ _ Hok Hq) as (j' & s' & Hin' & Hl' & _ & Hps' & He').
  unfold entry_key, load_u64. f_equal. apply load_bytes_ext. intros i Hi.
  destruct (so_apart _ _ Hok _ _ _ _ _ _ Hin Hin' Hl Hl') as [[Eb Ej]|Hap].
  - assert (s = s') as ->
      by (destruct Hin as [_ E1], Hin' as [_ E2]; rewrite Eb, Ej in E1; congruence).
    subst q p. rewrite <- !Z.add_assoc. apply Hkeep. lia.
  - apply Hout.
    pose proof (eo_below _ _ _ _ He). pose proof (eo_below _ _ _ _ He').
    pose proof (cap_bounds kv (so_geometry _ _ Hok)) as [Hcap _].
    destruct Hl as [_ Hl], Hl' as [_ Hl'].
    pose proof (phys_apart (log_cap kv) (offset s) (offset s')). lia.
Qed.

(** Entries of other keys are kept. *)
Lemma rewrite_keeps_entry o q :
  kv_ptr kv o = Some q -> entry_key (ht_log kv) q <> key_word op ->
  forall i, 0 <= i < 50 -> m' (q + i) = ht_log kv (q + i).
Proof using All.
  intros Hq Hne i Hi.
  destruct (kv_ptr_Some _ _ _ _ Hok Hptr) as (j & s & Hin & Hl & _ & Hps & He).
  destruct (kv_ptr_Some _ _ _ _ Hok Hq) as (j' & s' & Hin' & Hl' & _ & Hps' & He').
  destruct (so_apart _ _ Hok _ _ _ _ _ _ Hin Hin' Hl Hl') as [[Eb Ej]|Hap].
  - exfalso. apply Hne. rewrite <- Hkey. f_equal.
    assert (s = s') as ->
      by (destruct Hin as [_ E1], Hin' as [_ E2]; rewrite Eb, Ej in E1; congruence).
    congruence.
  - apply Hout.
    pose proof (eo_below _ _ _ _ He). pose proof (eo_below _ _ _ _ He').
    pose proof (cap_bounds kv (so_geometry _ _ Hok)) as [Hcap _].
    destruct Hl as [_ Hl], Hl' as [_ Hl'].
    pose proof (phys_apart (log_cap kv) (offset s) (offset s')). lia.
Qed.
End rewrite.

(** The value of a found entry is overwritten, as a PUT does. *)
Section update.
Context (A : kvmap) (kv : mica_kv) (op : cache_op) (p : Z).
Hypothesis Hok : store_ok A kv.
Hypothesis Hfits : op_fits op.
Hypothesis Hptr : kv_ptr kv op = Some p.
Hypothesis Hkey : entry_key (ht_log kv) p = key_word op.
Hypothesis Hlen : val_len op = ht_log kv (p + 17).

Definition updated_log : mem :=
  store_bytes (ht_log kv) (p + VALUE_OFF)
    (take (Z.to_nat (ht_log kv (p + 17))) (value op)).

Lemma update_vlen : 0 <= ht_log kv (p + 17) <= 32.
Proof using Hok Hptr.
  clear Hlen Hkey Hfits.
  destruct (kv_ptr_Some _ _ _ _ Hok Hptr) as (j & s & _ & _ & _ & -> & He).
  exact (eo_len _ _ _ _ He).
Qed.

Lemma update_out a : a < p + 18 \/ p + 50 <= a -> updated_log a = ht_log kv a.
Proof using All.
  intros Ha. pose proof update_vlen. apply store_bytes_out.
  rewrite length_take, (of_value _ Hfits). unfold VALUE_OFF. lia.
Qed.

Lemma update_val : entry_val updated_log p = take (Z.to_nat (val_len op)) (value op).
Proof using All.
  unfold entry_val. rewrite update_out by lia. rewrite Hlen. pose proof update_vlen.
  set (bs := take _ (value op)).
  assert (Hbs : length bs = Z.to_nat (ht_log kv (p + 17))).
  { unfold bs. rewrite length_take, (of_value _ Hfits). change max_value_len with 46%nat. lia. }
  rewrite <- Hbs. apply load_store_same.
Qed.

Lemma store_ok_update : store_ok (put_map A op) (set_log updated_log kv).
Proof using All.
  unfold put_map. rewrite <- update_val.
  apply store_ok_rewrite; try done; intros; apply update_out; lia.
Qed.

Lemma update_keeps_keys o q :
  kv_ptr kv o = Some q -> entry_key updated_log q = entry_key (ht_log kv) q.
Proof using All.
  intros Hq. apply (rewrite_keeps_keys A kv op p updated_log) with o; try done;
    intros; apply update_out; lia.
Qed.
End update.

(** ** One operation against the abstract map *)
Definition map_step (A : kvmap) (op : cache_op) : kvmap :=
  if opcode op =? MICA_OP_GET then A else put_map A op.

(** The key of [op] is present. *)
Definition hit (kv : mica_kv) (op : cache_op) : Prop :=
  exists p, kv_ptr kv op = Some p /\ entry_key (ht_log kv) p = key_word op.

(** What a response says: a hit carries the current value, which lies in the
    log, and a PUT is accepted. *)
Definition answers (A : kvmap) (kv : mica_kv) (op : cache_op) (r : mica_resp) : Prop :=
  if opcode op =? MICA_OP_GET then
    r = mkResp MICA_RESP_GET_FAIL 0 None \/
    exists p n, r = mkResp MICA_RESP_GET_SUCCESS n (Some p) /\ 0 <= p /\ p + n <= log_cap kv /\
      A (key_word op) = Some (load_bytes (ht_log kv) p (Z.to_nat n))
  else r = mkResp MICA_RESP_PUT_SUCCESS 0 None.

(** A request of a store whose values all have length [L]; the length field of
    a GET is never read. *)
Definition request_ok (L : Z) (op : cache_op) : Prop :=
  op_fits op /\ (opcode op = MICA_OP_GET \/ opcode op = MICA_OP_PUT /\ val_len op = L).

(** Every entry the index names lies inside the allocation, and so will the
    entry of an insertion. *)
Definition entries_within (kv : mica_kv) : Prop :=
  forall b j s, in_index kv b j s -> in_use s = 1 -> Z.land (offset s) (log_mask kv) + len_to_copy <= log_cap kv.
Definition insert_within (kv : mica_kv) : Prop :=
  Z.land (log_head kv) (log_mask kv) + len_to_copy <= log_cap kv.
Definition uniform (L : Z) (A : kvmap) : Prop :=
  forall k v, A k = Some v -> length v = Z.to_nat L.

Lemma store_ok_count A kv a b c d e : store_ok A kv -> store_ok A (count a b c d e kv).
Proof.
  intros [Hg ? ? He ?]. split; try done; [by destruct Hg|].
  intros b' j s Hin Hl. by destruct (He b' j s Hin Hl).
Qed.

Lemma uniform_step L A op : request_ok L op -> 0 <= L <= 32 -> uniform L A -> uniform L (map_step A op).
Proof.
  intros (Hf & Hop) HL Hu k v. unfold map_step. zcase; [eauto|].
  destruct Hop as [|[_ Hv]]; [done|]. unfold put_map. zcase; [|eauto]. intros [= <-].
  rewrite length_take, (of_value _ Hf), Hv. change max_value_len with 46%nat. lia.
Qed.

Lemma entries_within_count kv a b c d e : entries_within kv -> entries_within (count a b c d e kv).
Proof. intros H b' j s Hin Hu. exact (H b' j s Hin Hu). Qed.

Lemma entries_within_insert A kv kv' op :
  store_ok A kv -> log_head kv + 58 < 2 ^ 40 -> mica_insert_one kv op = Done kv' ->
  insert_within kv -> entries_within kv -> entries_within kv'.
Proof.
  intros Hok Hroom Hins Hw He b j s Hin Hu.
  destruct (insert_fields A kv kv' op Hok Hroom Hins) as (Ei & _ & _ & En & _ & Ec & Em).
  rewrite Ec, Em. destruct (in_index_insert _ _ _ _ _ _ _ _ Ei En Hin) as [(_ & _ & ->)|[Hold _]]; [done|].
  eapply He; eauto.
Qed.

(** The entry an accepted lookup finds lies inside the allocation. *)
Lemma kv_ptr_within kv op p : geometry_ok kv -> entries_within kv -> kv_ptr kv op = Some p ->
  0 <= p /\ p + len_to_copy <= log_cap kv.
Proof.
  intros Hg He Hp. unfold kv_ptr in Hp. destruct (find_tag _ _) as [s|] eqn:Hf; [|done].
  apply find_tag_Some in Hf as (j & Hj & Hu & _). case_match; simplify_eq.
  pose proof (cap_bounds kv Hg) as [Hc _]. split.
  - rewrite log_land by done. apply Z.mod_pos_bound. lia.
  - eapply He; [split; [by apply bkt_land_range|exact Hj]|done].
Qed.

(** The branch taken when the key is absent. *)
Lemma mica_miss_ok L A kv op :
  L <= HERD_VALUE_SIZE -> store_ok A kv -> entries_within kv -> request_ok L op -> log_head kv + 58 < 2 ^ 40 ->
  (opcode op = MICA_OP_PUT -> insert_within kv) ->
  exists kv' r,
    (if opcode op =? MICA_OP_GET then Done (count 0 0 1 0 0 kv, mkResp MICA_RESP_GET_FAIL 0 None)
     else let* kv := mica_insert_one kv op in Done (kv, mkResp MICA_RESP_PUT_SUCCESS 0 None)) = Done (kv', r) /\
    store_ok (map_step A op) kv' /\ entries_within kv' /\ answers (map_step A op) kv' op r.
Proof.
  intros HL Hok Hw (Hf & Hop) Hroom Hin. unfold map_step, answers.
  zcase; [eexists _, _; split_and!; eauto using store_ok_count, entries_within_count|].
  destruct Hop as [|[Hop Hv]]; [done|].
  destruct (mica_insert_one_eq kv op (so_geometry _ _ Hok) Hroom) as (kv' & E & _).
  rewrite E. eexists _, _. split_and!; [done| |by eauto using entries_within_insert|done].
  eapply store_ok_insert; eauto; lia.
Qed.

Lemma mica_exec_one_ok L A kv op :
  0 <= L <= HERD_VALUE_SIZE -> store_ok A kv -> entries_within kv -> uniform L A -> request_ok L op ->
  log_head kv + 58 < 2 ^ 40 -> (opcode op = MICA_OP_PUT -> ~ hit kv op -> insert_within kv) ->
  exists kv' r, mica_exec_one kv op (kv_ptr kv op) = Done (kv', r) /\
    store_ok (map_step A op) kv' /\ entries_within kv' /\ answers (map_step A op) kv' op r.
Proof.
  intros HL Hok Hw Hu Hreq Hroom Hin. unfold mica_exec_one.
  assert (Hmiss := mica_miss_ok L A kv op ltac:(lia) Hok Hw Hreq Hroom).
  destruct (kv_ptr kv op) as [p|] eqn:Hp.
  2:{ apply Hmiss. intros Hput. apply Hin; [done|]. intros (q & Hq & _). congruence. }
  fold (entry_key (ht_log kv) p).
  destruct (Z.eqb_spec (entry_key (ht_log kv) p) (key_word op)) as [Hk|Hk].
  2:{ apply Hmiss. intros Hput. apply Hin; [done|]. intros (q & Hq & ?). congruence. }
  clear Hmiss. destruct Hreq as [Hf Hop]. unfold map_step, answers.
  destruct (kv_ptr_Some _ _ _ _ Hok Hp) as (j & s & _ & _ & _ & Hps & He).
  destruct (kv_ptr_within _ _ _ (so_geometry _ _ Hok) Hw Hp) as [Hp0 Hpw].
  pose proof (eo_val _ _ _ _ He) as Hval. pose proof (eo_len _ _ _ _ He) as Hlen.
  rewrite <- Hps, Hk in Hval. rewrite <- Hps in Hlen.
  destruct (Z.eqb_spec (opcode op) MICA_OP_GET) as [|Hng].
  - eexists _, _. split_and!; [done|by eauto using store_ok_count|by apply entries_within_count|]. right.
    eexists _, _. split_and!; [done| |cbn; change len_to_copy with 50 in Hpw; change HERD_VALUE_SIZE with 32 in Hlen|done];
      change VALUE_OFF with 18; lia.
  - destruct Hop as [|[Hop Hv]]; [done|]. rewrite Hop. simpl.
    assert (Hvl : val_len op = ht_log kv (p + 17)).
    { apply Hu in Hval. unfold entry_val in Hval. rewrite length_load_bytes in Hval. lia. }
    rewrite <- Hvl, Z.eqb_refl. simpl.
    eexists _, _. split_and!; [done| |exact Hw|done].
    pose proof (store_ok_update A kv op p Hok Hf Hp Hk Hvl) as Hup.
    unfold updated_log in Hup. rewrite <- Hvl in Hup.
    exact (store_ok_count _ _ 0 1 0 0 0 Hup).
Qed.

(** ** The empty store *)
Lemma is_power_of_2_spec x : is_power_of_2 x = true <-> exists k, 0 <= k <= 30 /\ x = 2 ^ k.
Proof.
  unfold is_power_of_2. rewrite existsb_exists. split.
  - intros (y & Hy & ->%Z.eqb_eq). simpl in Hy.
    repeat (destruct Hy as [<-|Hy];
      [match goal with |- exists k, _ /\ ?c = _ =>
         let l := eval vm_compute in (Z.log2 c) in exists l; split; [lia|reflexivity] end|]).
    done.
  - intros (k & Hk & ->). exists (2 ^ k). split; [|apply Z.eqb_refl].
    replace k with (Z.of_nat (Z.to_nat k)) by lia.
    assert (Hn : (Z.to_nat k <= 30)%nat) by lia. revert Hn.
    generalize (Z.to_nat k) as n. intros n Hn.
    do 31 (destruct n as [|n]; [vm_compute; tauto|]). lia.
Qed.

Lemma mica_init_ok shm_index shm_log inst node nb k :
  node = 0 \/ node = 1 -> is_power_of_2 nb = true -> nb <= M_16 -> 10 <= k <= 38 ->
  (forall i, length (shm_index i) = 8%nat) ->
  exists kv, mica_init shm_index shm_log inst node nb (2 ^ k) = Done kv /\
    store_ok (fun _ => None) kv /\ log_cap kv = 2 ^ k /\ log_head kv = 0 /\
    num_insert_op kv = 0 /\ num_index_evictions kv = 0.
Proof.
  intros Hnode Hnb Hmax Hk Hlen. unfold mica_init. rewrite Hnb.
  rewrite (proj2 (orb_true_iff _ _)) by (rewrite !Z.eqb_eq; done).
  rewrite (proj2 (Z.leb_le nb M_16)) by done. simpl.
  eexists. split; [reflexivity|]. split; [|done].
  apply is_power_of_2_spec in Hnb as (kb & Hkb & ->).
  pose proof (Z.pow_le_mono_r 2 k 38). pose proof (Z.pow_le_mono_r 2 10 k).
  assert (Hunused : forall b j s, 0 <= b < 2 ^ kb ->
    ((fun s => mkSlot 0 (slot_tag s) (offset s)) <$> shm_index b) !! j = Some s -> in_use s = 0).
  { intros b j s _ E. rewrite list_lookup_fmap in E.
    destruct (shm_index b !! j); by simplify_eq/=. }
  assert (Hix : forall b, 0 <= b < 2 ^ kb -> (0 <=? b) && (b <? 2 ^ kb) = true).
  { intros b Hb. apply andb_true_iff. rewrite Z.leb_le, Z.ltb_lt. done. }
  split; unfold in_index; simpl.
  - split; simpl; try done; [eauto| |].
    + unfold u64. rewrite Z.mod_small by lia. done.
    + exists kb. split; [|done]. split; [lia|]. apply Z.pow_le_mono_r_iff with 2; lia || done.
  - intros b Hb. rewrite Hix by done. split.
    + unfold mica_bkt. rewrite length_fmap. apply Hlen.
    + intros j s E. left. eauto.
    + intros i j s s' E _ _ Hu. apply Hunused in E; [congruence|done].
    + intros i j s s' E _ Hu. apply Hunused in E; [congruence|done].
  - intros b j s [Hb E] Hu. rewrite Hix in E by done. apply Hunused in E; [congruence|done].
  - intros b j s [Hb E] [Hu _]. rewrite Hix in E by done. apply Hunused in E; [congruence|done].
  - intros b1 j1 s1 b2 j2 s2 [Hb E] _ [Hu _] _. rewrite Hix in E by done.
    apply Hunused in E; [congruence|done].
Qed.

(** ** Properties of the store *)

(** C29: one operation on the store refines the abstract lossy map, inside the
    allocation of the log.  Started in a state that represents the map [A] and
    whose entries all lie inside the log, [mica_batch_op] completes, if an
    insertion has room for its entry before the end of the log; a GET answers
    "not found" or with exactly the value [A] holds for the key (never a stale
    or a foreign one), at a place inside the log, a PUT is accepted, and the new
    state represents [A] updated at the key and again has all its entries inside
    the log. *)
Theorem mica_batch_op_refines_map L A kv op :
  0 <= L <= HERD_VALUE_SIZE -> store_ok A kv -> entries_within kv -> uniform L A -> request_ok L op ->
  log_head kv + 58 < 2 ^ 40 -> (opcode op = MICA_OP_PUT -> ~ hit kv op -> insert_within kv) ->
  exists kv' r, mica_batch_op kv [op] = Done (kv', [r]) /\
    store_ok (map_step A op) kv' /\ entries_within kv' /\ uniform L (map_step A op) /\
    answers (map_step A op) kv' op r.
Proof.
  intros HL Hok Hw Hu Hr Hroom Hin.
  destruct (mica_exec_one_ok L A kv op HL Hok Hw Hu Hr Hroom Hin) as (kv' & r & E & H1 & H2 & H3).
  exists kv', r. unfold mica_batch_op. cbn [fmap list_fmap mica_exec]. rewrite E. simpl.
  split_and!; eauto using uniform_step.
Qed.

(** A key inserted with [mica_insert_one] is found again: a GET of the key
    right after the insertion succeeds and points at the bytes inserted,
    whatever slot was reused or evicted and wherever the log head was. *)
Theorem mica_insert_then_get A kv op kv' get :
  store_ok A kv -> op_fits op -> val_len op <= HERD_VALUE_SIZE ->
  log_head kv + 58 < 2 ^ 40 -> mica_insert_one kv op = Done kv' ->
  opcode get = MICA_OP_GET -> bkt get = bkt op -> server get = server op -> tag get = tag op ->
  exists kv2 p, mica_batch_op kv' [get]
    = Done (kv2, [mkResp MICA_RESP_GET_SUCCESS (val_len op) (Some p)]) /\
    load_bytes (ht_log kv2) p (Z.to_nat (val_len op)) = take (Z.to_nat (val_len op)) (value op).
Proof.
  intros Hok Hf Hv Hroom Hins Hget Eb Es Et.
  pose proof (insert_found A kv kv' op Hok Hf Hv Hroom Hins) as Hp.
  assert (Hp' : kv_ptr kv' get = kv_ptr kv' op) by (unfold kv_ptr; by rewrite Eb, Et).
  assert (Hk : key_word get = key_word op)
    by (unfold key_word, encode_key_word; by rewrite Eb, Es, Et).
  destruct (insert_fields A kv kv' op Hok Hroom Hins) as (_ & El & _).
  destruct (stored_entry (ht_log kv) (log_head kv mod log_cap kv) op Hf Hv) as (E1 & E2 & E3).
  rewrite <- El in E1, E2, E3. unfold entry_key in E1.
  eexists _, _. unfold mica_batch_op. cbn [fmap list_fmap mica_exec].
  rewrite Hp', Hp. unfold mica_exec_one. rewrite Hk, Hget, E1, Z.eqb_refl, E2. simpl.
  split; [reflexivity|]. unfold entry_val in E3. by rewrite E2 in E3.
Qed.

(** ** Batches *)

(** The operations one at a time, each looked up in the current store. *)
Fixpoint mica_serial (kv : mica_kv) (ops : list cache_op) : outcome (mica_kv * list mica_resp) :=
  match ops with
  | [] => Done (kv, [])
  | op :: ops =>
      let* (kv, r) := mica_exec_one kv op (kv_ptr kv op) in
      let* (kv, rs) := mica_serial kv ops in
      Done (kv, r :: rs)
  end.

(** An operation that hits leaves every lookup, and every key in the log, as
    it was. *)
Lemma mica_exec_one_hit L A kv op kv' r :
  store_ok A kv -> request_ok L op -> hit kv op ->
  mica_exec_one kv op (kv_ptr kv op) = Done (kv', r) ->
  store_ok (map_step A op) kv' /\
  (forall o, kv_ptr kv' o = kv_ptr kv o) /\
  (forall o, hit kv o -> hit kv' o).
Proof.
  intros Hok (Hf & Hop) (p & Hp & Hk). rewrite Hp. unfold mica_exec_one, map_step.
  fold (entry_key (ht_log kv) p). rewrite Hk, Z.eqb_refl.
  destruct (Z.eqb_spec (opcode op) MICA_OP_GET) as [|Hng].
  { intros [= <- <-]. eauto using store_ok_count. }
  destruct Hop as [|[Hop _]]; [done|]. rewrite Hop. simpl.
  intros (u & E & [= <- <-])%obind_Done_inv. apply c_assert_Done, Z.eqb_eq in E.
  pose proof (store_ok_update A kv op p Hok Hf Hp Hk E) as Hup.
  split; [exact (store_ok_count _ _ 0 1 0 0 0 Hup)|]. split; [done|].
  intros o (q & Hq & Hqk). exists q. split; [done|]. rewrite <- Hqk.
  by apply (update_keeps_keys A kv op p Hok Hf Hp Hk E o).
Qed.

Lemma mica_exec_serial L A kv ops l :
  store_ok A kv -> Forall (request_ok L) ops -> Forall (hit kv) ops ->
  l = (fun op => (op, kv_ptr kv op)) <$> ops -> mica_exec kv l = mica_serial kv ops.
Proof.
  revert A kv l. induction ops as [|op ops IH]; intros A kv l Hok Hr Hh ->; [done|].
  apply Forall_cons in Hr as [Hr1 Hr], Hh as [Hh1 Hh].
  cbn [fmap list_fmap mica_exec mica_serial].
  destruct (mica_exec_one kv op (kv_ptr kv op)) as [[kv' r]| |] eqn:E; try done. simpl.
  destruct (mica_exec_one_hit L A kv op kv' r Hok Hr1 Hh1 E) as (Hok' & Hptr & Hhit).
  rewrite (IH (map_step A op) kv'); [done|done|done| |].
  - eapply Forall_impl; eauto.
  - apply list_fmap_ext. intros i o _. by rewrite Hptr.
Qed.

(** Looking up all pointers before executing anything is transparent for
    the requests a populated store receives: when every key of the batch is
    present, [mica_batch_op] returns the state and the responses of executing
    the operations one at a time, each with its own lookup. *)
Theorem mica_batch_op_serial L A kv ops :
  store_ok A kv -> Forall (request_ok L) ops -> Forall (hit kv) ops ->
  mica_batch_op kv ops = mica_serial kv ops.
Proof. intros Hok Hr Hh. by apply (mica_exec_serial L A kv ops). Qed.

(** ** Runs of insertions *)
Fixpoint insert_all (kv : mica_kv) (ops : list cache_op) : outcome mica_kv :=
  match ops with
  | [] => Done kv
  | op :: ops => let* kv := mica_insert_one kv op in insert_all kv ops
  end.

Lemma insert_keeps_geometry kv op :
  geometry_ok kv -> log_head kv + 58 < 2 ^ 40 ->
  exists kv', mica_insert_one kv op = Done kv' /\ geometry_ok kv' /\
    log_cap kv' = log_cap kv /\ num_insert_op kv' = num_insert_op kv + 1 /\
    log_head kv' = next_head len_to_copy (log_cap kv) (log_mask kv) (log_head kv).
Proof.
  intros Hg Hroom. destruct (mica_insert_one_eq kv op Hg Hroom)
    as (kv' & E & _ & _ & Eh & En & Em & Ec & Ek & Ei).
  exists kv'. split_and!; try done.
  pose proof (next_head_bounds kv Hg Hroom) as [? ?].
  pose proof (next_head_lap kv Hg Hroom) as [_ ?]. cbv zeta in *.
  destruct Hg. split; rewrite ?En, ?Em, ?Ec, ?Ek, ?Eh; try done. lia.
Qed.

(** Insertions below the end of the first lap, and after the first wrap. *)
Lemma insert_all_heads kv ops :
  geometry_ok kv ->
  log_head kv + 56 * Z.of_nat (length ops) < log_cap kv - 78 \/
  (log_cap kv <= log_head kv /\ log_head kv + 56 * Z.of_nat (length ops) + 58 < 2 ^ 40) ->
  exists kv', insert_all kv ops = Done kv' /\ geometry_ok kv' /\ log_cap kv' = log_cap kv /\
    num_insert_op kv' = num_insert_op kv + Z.of_nat (length ops) /\
    log_head kv' = log_head kv + 56 * Z.of_nat (length ops).
Proof.
  revert kv. induction ops as [|op ops IH]; intros kv Hg H.
  { exists kv. split_and!; try done; simpl; lia. }
  cbn [length] in *. pose proof (cap_bounds kv Hg) as [Hcap _].
  destruct (insert_keeps_geometry kv op Hg) as (kv1 & E & Hg1 & Ec & En & Eh); [lia|].
  assert (Eh1 : log_head kv1 = log_head kv + 56).
  { rewrite Eh, next_head_eq by (done || lia). cbv zeta.
    repeat zcase; simpl; try done; lia. }
  destruct (IH kv1 Hg1) as (kv' & E' & Hg' & Ec' & En' & Eh'); [rewrite Ec, Eh1; lia|].
  exists kv'. cbn [insert_all]. rewrite E. simpl. split_and!; try done; try congruence; lia.
Qed.

Lemma insert_all_app kv l1 l2 :
  insert_all kv (l1 ++ l2) = let* kv := insert_all kv l1 in insert_all kv l2.
Proof.
  revert kv. induction l1 as [|op l1 IH]; intros kv; [done|]. cbn [app insert_all].
  destruct (mica_insert_one kv op); simpl; [apply IH|done|done].
Qed.

(** C30: the circular log overruns its allocation.  [mica_insert_one] compares
    the capacity with the virtual head, which never comes back below it after
    the first wrap; so for every capacity there is a number of insertions,
    counted from [mica_init], after which the next entry is copied past the
    end of [ht_log]. *)
Theorem mica_log_overrun shm_index shm_log inst k :
  10 <= k <= 38 -> (forall i, length (shm_index i) = 8%nat) ->
  exists kv0 n, mica_init shm_index shm_log inst 0 1024 (2 ^ k) = Done kv0 /\
    forall ops, length ops = n ->
    exists kv, insert_all kv0 ops = Done kv /\
      log_cap kv < Z.land (log_head kv) (log_mask kv) + len_to_copy.
Proof.
  intros Hk Hlen.
  destruct (mica_init_ok shm_index shm_log inst 0 1024 k) as (kv0 & E0 & Hok & Hc & Hh & _);
    [by left|done|unfold M_16; lia|done|done|].
  set (q := (2 ^ k - 78 + 55) / 56). set (j := (2 ^ k - 1) / 56).
  pose proof (so_geometry _ _ Hok) as Hg0. pose proof (cap_bounds kv0 Hg0) as [Hcap _].
  rewrite Hc in Hcap.
  assert (Hq : 56 * q - 55 <= 2 ^ k - 78 <= 56 * q) by (unfold q; Z.div_mod_to_equations; lia).
  assert (Hj : 56 * j <= 2 ^ k - 1 < 56 * j + 56) by (unfold j; Z.div_mod_to_equations; lia).
  exists kv0, (Z.to_nat (q - 1) + (1 + Z.to_nat j))%nat. split; [done|].
  intros ops Hops.
  rewrite <- (take_drop (Z.to_nat (q - 1)) ops), insert_all_app.
  destruct (insert_all_heads kv0 (take (Z.to_nat (q - 1)) ops) Hg0) as (kv1 & E1 & Hg1 & C1 & _ & H1);
    rewrite length_take, Nat.min_l in * by lia; [left; lia|].
  rewrite E1. cbn [obind].
  destruct (drop (Z.to_nat (q - 1)) ops) as [|op rest] eqn:Ed.
  { apply (f_equal length) in Ed. rewrite length_drop in Ed. simpl in Ed. lia. }
  assert (Hrest : length rest = Z.to_nat j).
  { apply (f_equal length) in Ed. rewrite length_drop in Ed. simpl in Ed. lia. }
  cbn [insert_all].
  destruct (insert_keeps_geometry kv1 op Hg1) as (kv2 & E2 & Hg2 & C2 & _ & H2); [lia|].
  assert (Hwrap : log_head kv2 = 2 ^ k).
  { rewrite H2, next_head_wrap by (done || lia). congruence. }
  rewrite E2. cbn [obind].
  destruct (insert_all_heads kv2 rest Hg2) as (kv3 & E3 & Hg3 & C3 & _ & H3); [right; lia|].
  exists kv3. split; [done|]. rewrite log_land, C3, C2, C1, Hc, H3, Hwrap, Hrest by done.
  change len_to_copy with 50.
  replace (2 ^ k + 56 * Z.of_nat (Z.to_nat j)) with (56 * j + 1 * 2 ^ k) by lia.
  rewrite Z_mod_plus_full, Z.mod_small by lia.
  (* the distance to the end is a multiple of 8, and not 56 *)
  destruct (cap_bounds kv0 Hg0) as [_ H8]. rewrite Hc in H8.
  assert (2 ^ k <> 56 * j + 56).
  { intros E. apply (pow2_mod7 k); [lia|]. rewrite E. Z.div_mod_to_equations; lia. }
  Z.div_mod_to_equations. lia.
Qed.

(** ** Population *)
Lemma gen_keys_total n i :
  0 <= i -> exists ks, gen_keys_loop n i = Done ks /\ length ks = n /\
    Forall (fun k => is_u64 k.1 /\ is_u64 k.2) ks.
Proof.
  revert i. induction n as [|n IH]; intros i Hi; [by exists []|].
  set (m := store_bytes (fun _ => 0) 0 (le_split 4 i)).
  destruct (CityHash128_agree m m 0 4) as (h1 & h2 & H1 & H2 & E & _).
  - unfold is_u64. lia.
  - apply store_bytes_bytes; [|apply le_split_bytes]. intros. unfold is_u8. lia.
  - done.
  - destruct (IH (i + 1)) as (ks & Eks & Hl & Hks); [lia|].
    exists ((h1, h2) :: ks). cbn [gen_keys_loop]. fold m. rewrite E. cbn [obind].
    rewrite Eks. simpl. split_and!; [done|by rewrite Hl|by constructor].
Qed.

Lemma shiftr_bound z a b : 0 <= a -> 0 <= b -> 0 <= z < 2 ^ (a + b) -> 0 <= Z.shiftr z a < 2 ^ b.
Proof.
  intros Ha Hb Hz. rewrite Z.shiftr_div_pow2 by lia. rewrite Z.pow_add_r in Hz by lia.
  pose proof (Z.pow_pos_nonneg 2 a).
  split; [apply Z.div_pos; lia|apply Z.div_lt_upper_bound; lia].
Qed.

Section population.
Context (k : uint128) (n_val : Z) (op : cache_op).
Hypothesis Hk : is_u64 k.1 /\ is_u64 k.2.
Hypothesis Hn : 0 < n_val <= MICA_MAX_VALUE.
Hypothesis Hop : op_fits op.

Let pop := populate_op k n_val op.

Lemma populate_op_fits : op_fits pop.
Proof using All.
  destruct Hk as [Hk1 Hk2]. change MICA_MAX_VALUE with 46 in Hn. split; simpl.
  - split; simpl; try (apply Z.mod_pos_bound; lia).
    apply (shiftr_bound (fst k) 32 32); [lia..|exact Hk1].
  - apply u32_range.
  - apply u16_range.
  - apply (shiftr_bound (snd k) 48 16); [lia..|exact Hk2].
  - unfold is_u8, MICA_OP_PUT. lia.
  - apply u8_range.
  - rewrite length_app, length_replicate, length_drop, (of_value _ Hop).
    change max_value_len with 46%nat. lia.
  - apply Forall_app. split; [apply Forall_replicate|apply Forall_drop, Hop].
    change 0xff with (Z.ones 8). rewrite Z.land_ones by lia. apply Z.mod_pos_bound. lia.
Qed.

(** The key is the second word of the hash. *)
Lemma populate_op_key : key_word pop = k.2.
Proof using All.
  rewrite key_word_eq by apply populate_op_fits. destruct Hk as [_ Hk2]. unfold pop. simpl.
  unfold u32, u16. rewrite !Z.shiftr_div_pow2 by lia. unfold is_u64 in Hk2.
  change (2 ^ 48) with (2 ^ 32 * 2 ^ 16). rewrite <- Z.div_div by lia.
  pose proof (Z.div_mod (k.2) (2 ^ 32) ltac:(lia)).
  pose proof (Z.div_mod (k.2 / 2 ^ 32) (2 ^ 16) ltac:(lia)). lia.
Qed.

Lemma populate_op_len : n_val <= HERD_VALUE_SIZE -> val_len pop = n_val.
Proof using All.
  intros. unfold pop, populate_op, SHIFT_BITS. simpl. rewrite Z.shiftr_0_r. apply u8_small.
  change MICA_MAX_VALUE with 46 in Hn. unfold is_u8. lia.
Qed.

Lemma populate_op_value : take (Z.to_nat n_val) (value pop)
  = replicate (Z.to_nat n_val) (Z.land k.2 0xff).
Proof using All. unfold pop. simpl. apply take_app_exact, length_replicate. Qed.
End population.

(** Every value is the low byte of its key, repeated. *)
Definition filled (L : Z) (A : kvmap) : Prop :=
  forall k v, A k = Some v -> v = replicate (Z.to_nat L) (Z.land k 0xff).

Lemma populate_loop_ok n_val ks A kv op :
  0 < n_val <= HERD_VALUE_SIZE -> op_fits op -> store_ok A kv -> filled n_val A ->
  Forall (fun k => is_u64 k.1 /\ is_u64 k.2) ks ->
  log_head kv + 56 * Z.of_nat (length ks) < log_cap kv - 78 ->
  exists kv' A', populate_loop kv n_val op ks = Done kv' /\ store_ok A' kv' /\ filled n_val A' /\
    log_head kv' = log_head kv + 56 * Z.of_nat (length ks) /\
    num_insert_op kv' = num_insert_op kv + Z.of_nat (length ks) /\
    Forall (fun k => is_Some (A' k.2)) ks /\ (forall k, is_Some (A k) -> is_Some (A' k)).
Proof.
  intros Hn. revert A kv op. induction ks as [|k ks IH]; intros A kv op Hop Hok Hfill Hks Hroom.
  { exists kv, A. simpl. split_and!; eauto; lia. }
  apply Forall_cons in Hks as [Hk Hks]. cbn [length] in Hroom.
  pose proof (cap_bounds kv (so_geometry _ _ Hok)) as [Hcap _].
  assert (Hn' : 0 < n_val <= MICA_MAX_VALUE)
    by (change HERD_VALUE_SIZE with 32 in Hn; change MICA_MAX_VALUE with 46; lia).
  set (op' := populate_op k n_val op).
  pose proof (populate_op_fits k n_val op Hk Hn' Hop) as Hf'.
  pose proof (populate_op_key k n_val op Hk Hn' Hop) as Hkey.
  pose proof (populate_op_len k n_val op Hk Hn' Hop ltac:(lia)) as Hlen.
  pose proof (populate_op_value k n_val op Hk Hn' Hop) as Hval.
  fold op' in Hf', Hkey, Hlen, Hval.
  destruct (insert_keeps_geometry kv op' (so_geometry _ _ Hok)) as (kv1 & E & _ & Ec & En & Eh);
    [lia|].
  pose proof (store_ok_insert A kv kv1 op' Hok Hf' ltac:(lia) ltac:(lia) E) as Hok1.
  assert (Eh1 : log_head kv1 = log_head kv + 56).
  { rewrite Eh, next_head_eq by (apply Hok || lia). cbv zeta. repeat zcase; simpl; try done; lia. }
  destruct (IH (put_map A op') kv1 op' Hf' Hok1)
    as (kv' & A' & E' & Hok' & Hf2 & Eh' & En' & HA & Hmono); [|done|lia|].
  { intros x v. unfold put_map. zcase; [|apply Hfill]. intros <-%(inj Some).
    by rewrite Hlen, e, Hkey, Hval. }
  exists kv', A'. cbn [populate_loop length]. fold op'. rewrite E. cbn [obind].
  split_and!; try done; try lia.
  - constructor; [|done]. apply Hmono. unfold put_map. rewrite Hkey, Z.eqb_refl. eauto.
  - intros x Hx. apply Hmono. unfold put_map. zcase; eauto.
Qed.

(** Populating a fresh store of the deployed log size with up to
    [HERD_NUM_KEYS] keys completes with no assertion failing and without
    wrapping the log (the head ends at 56 bytes per key); the store then
    represents a map that has every generated key, and the value of a key is
    its low byte repeated [val_len] times. *)
Theorem mica_populate_ok shm_index shm_log inst node nb n n_val op :
  node = 0 \/ node = 1 -> is_power_of_2 nb = true -> nb <= M_16 ->
  (forall i, length (shm_index i) = 8%nat) -> op_fits op ->
  0 < n <= HERD_NUM_KEYS -> 0 < n_val <= HERD_VALUE_SIZE ->
  exists kv0 kv A keys,
    mica_init shm_index shm_log inst node nb HERD_LOG_CAP = Done kv0 /\
    mica_gen_keys n = Done keys /\
    mica_populate_fixed_len op kv0 n n_val = Done kv /\
    log_head kv = 56 * n /\ store_ok A kv /\ filled n_val A /\
    Forall (fun k => is_Some (A k.2)) keys.
Proof.
  intros Hnode Hnb Hmax Hidx Hop Hn Hv. change HERD_NUM_KEYS with 4194304 in Hn.
  destruct (mica_init_ok shm_index shm_log inst node nb 30 Hnode Hnb Hmax ltac:(lia) Hidx)
    as (kv0 & E0 & Hok & Hc & Hh & Hi & He).
  destruct (gen_keys_total (Z.to_nat n) 0 ltac:(lia)) as (keys & Ek & Hkl & Hku).
  assert (Eg : mica_gen_keys n = Done keys).
  { unfold mica_gen_keys. rewrite (proj2 (andb_true_iff _ _)); [done|].
    rewrite Z.ltb_lt, Z.leb_le. change (M_1024 / 16) with 67108864. lia. }
  destruct (populate_loop_ok n_val keys (fun _ => None) kv0 op)
    as (kv & A & Ep & Hok' & Hf & Eh & En & HA & _); try done; [rewrite Hc, Hh; unfold uint128 in *; lia|]; unfold uint128 in *.
  exists kv0, kv, A, keys. split_and!; try done; [|lia].
  unfold mica_populate_fixed_len. rewrite Eg, Hi, He. cbn [obind].
  rewrite (proj2 (Z.ltb_lt 0 n)), (proj2 (Z.ltb_lt 0 n_val)), (proj2 (Z.leb_le n_val _))
    by (change HERD_VALUE_SIZE with 32 in Hv; change MICA_MAX_VALUE with 46; lia).
  simpl. rewrite Ep. cbn [obind]. rewrite (proj2 (Z.eqb_eq _ _)) by lia. done.
Qed.

(** ** Concrete instances *)
Definition demo_index : Z -> mica_bkt := fun _ => replicate 8 (mkSlot 0 0 0).
Definition demo_kv : mica_kv :=
  mkKv (fun i => if (0 <=? i) && (i <? 4) then replicate 8 (mkSlot 0 0 0) else demo_index i)
    (fun _ => 0) 0 0 4 3 1024 1023 0 0 0 0 0 0 0.
Definition demo_put : cache_op :=
  mkOp (mkMeta 0 0 0 0 0) 7 0 300 MICA_OP_PUT 32 (replicate 46 9).
Definition demo_get : cache_op := set_opcode MICA_OP_GET demo_put.
Definition demo_kv1 : mica_kv := done_or (mica_insert_one demo_kv demo_put) demo_kv.

Lemma demo_index_len i : length (demo_index i) = 8%nat.
Proof. reflexivity. Defined.

Lemma demo_store_ok : store_ok (fun _ => None) demo_kv.
Proof.
  destruct (mica_init_ok demo_index (fun _ => 0) 0 0 4 10) as (kv & E & Hok & _);
    [by left|reflexivity|unfold M_16; lia|lia|apply demo_index_len|].
  injection E as <-. exact Hok.
Qed.

Lemma demo_fits o : o = demo_put \/ o = demo_get -> op_fits o.
Proof.
  intros [-> | ->]; (split; [split| | | | | | |]; simpl;
    try (unfold is_u8, is_u16, is_u32, MICA_OP_PUT, MICA_OP_GET; lia); try reflexivity;
    apply (Forall_replicate is_u8 46 9); unfold is_u8; lia).
Qed.

Lemma demo_store1_ok : store_ok (put_map (fun _ => None) demo_put) demo_kv1.
Proof.
  apply (store_ok_insert (fun _ => None) demo_kv demo_kv1 demo_put demo_store_ok);
    [by apply demo_fits; left|vm_compute; discriminate|reflexivity|reflexivity].
Qed.

Lemma demo_within : entries_within demo_kv.
Proof.
  intros b j s [Hb Hs] Hu. exfalso. simpl in Hs.
  assert (E : s = mkSlot 0 0 0) by (destruct (_ && _); by apply (lookup_replicate_1 8 (mkSlot 0 0 0) s j) in Hs as [-> _]).
  by rewrite E in Hu.
Qed.

Lemma mica_batch_op_refines_map_witness :
  exists kv' r, mica_batch_op demo_kv [demo_put] = Done (kv', [r]) /\
    store_ok (map_step (fun _ => None) demo_put) kv' /\ entries_within kv' /\
    uniform 32 (map_step (fun _ => None) demo_put) /\
    answers (map_step (fun _ => None) demo_put) kv' demo_put r.
Proof.
  apply (mica_batch_op_refines_map 32 (fun _ => None) demo_kv demo_put).
  - change HERD_VALUE_SIZE with 32. lia.
  - apply demo_store_ok.
  - apply demo_within.
  - intros k v E. discriminate E.
  - split; [apply demo_fits; left; reflexivity|]. right. split; reflexivity.
  - reflexivity.
  - intros _ _. vm_compute. discriminate.
Defined.

Lemma mica_insert_then_get_witness :
  exists kv2 p, mica_batch_op demo_kv1 [demo_get]
    = Done (kv2, [mkResp MICA_RESP_GET_SUCCESS 32 (Some p)]) /\
    load_bytes (ht_log kv2) p 32 = replicate 32 9.
Proof.
  apply (mica_insert_then_get (fun _ => None) demo_kv demo_put demo_kv1 demo_get demo_store_ok);
    [apply demo_fits; left; reflexivity | vm_compute; discriminate | reflexivity..].
Defined.

Lemma mica_batch_op_serial_witness :
  mica_batch_op demo_kv1 [demo_put; demo_get; demo_put]
  = mica_serial demo_kv1 [demo_put; demo_get; demo_put].
Proof.
  apply (mica_batch_op_serial 32 (put_map (fun _ => None) demo_put) demo_kv1).
  - apply demo_store1_ok.
  - assert (Hr : forall o, o = demo_put \/ o = demo_get -> request_ok 32 o).
    { intros o Ho. split; [apply demo_fits; exact Ho|].
      destruct Ho as [-> | ->]; [right; split|left]; reflexivity. }
    apply Forall_forall. intros o Ho%list_elem_of_In. apply Hr.
    destruct Ho as [<- | [<- | [<- | []]]]; tauto.
  - apply Forall_forall. intros o Ho%list_elem_of_In. exists 0.
    destruct Ho as [<- | [<- | [<- | []]]]; (split; reflexivity).
Defined.

Lemma mica_log_overrun_witness :
  exists kv0 n, mica_init demo_index (fun _ => 0) 0 0 1024 (2 ^ 30) = Done kv0 /\
    forall ops, length ops = n ->
    exists kv, insert_all kv0 ops = Done kv /\
      log_cap kv < Z.land (log_head kv) (log_mask kv) + len_to_copy.
Proof. apply (mica_log_overrun demo_index (fun _ => 0) 0 30); [lia|apply demo_index_len]. Defined.

Lemma mica_populate_ok_witness :
  exists kv0 kv A keys,
    mica_init demo_index (fun _ => 0) 0 0 HERD_NUM_BKTS HERD_LOG_CAP = Done kv0 /\
    mica_gen_keys 1000 = Done keys /\
    mica_populate_fixed_len demo_put kv0 1000 32 = Done kv /\
    log_head kv = 56 * 1000 /\ store_ok A kv /\ filled 32 A /\
    Forall (fun k => is_Some (A k.2)) keys.
Proof.
  apply (mica_populate_ok demo_index (fun _ => 0) 0 0 HERD_NUM_BKTS 1000 32 demo_put).
  - left. reflexivity.
  - reflexivity.
  - vm_compute. discriminate.
  - apply demo_index_len.
  - apply demo_fits. left. reflexivity.
  - split; [lia | vm_compute; discriminate].
  - change HERD_VALUE_SIZE with 32. lia.
Defined.
