(* ===== verification/Cache.v ===== *)
(** * The cache operations (src/ccKVS/cache.c)

    A cached object is the log entry [kv_ptr[I]] of the cache's MICA store,
    with the OPTIK metadata in the first word of its key.  Each branch of the
    big batch functions is a handler on a decoded [entry]; the batch functions
    look all pointers up and then run the handler of each operation on the
    entry in the log.  [op] and [resp] are the caller's arrays, which the
    handlers update.  The code is what one thread executes when no other
    thread is inside the same object: a loop that waits for another thread is
    [Spin].  The statistics ([ENABLE_CACHE_STATS] is 0, [stalled_brces]) are
    in [CacheStats]. *)
From S2P Require Import Prelude Config Optik Layout City Mica.

(** The part of a log entry that the handlers read and write. *)
Record entry := mkEntry {
  e_meta : cache_meta;
  e_val_len : Z;
  e_value : list Z
}.

Definition load_entry (m : mem) (p : Z) : entry :=
  mkEntry (load_meta m p) (m (p + 17))
    (load_bytes m (p + VALUE_OFF) (Z.to_nat (m (p + 17)))).

Definition store_entry (m : mem) (p : Z) (e : entry) : mem :=
  store_bytes (store_meta m p (e_meta e)) (p + VALUE_OFF) (e_value e).

Definition with_meta (m : cache_meta) (e : entry) : entry :=
  mkEntry m (e_val_len e) (e_value e).

(** [memcpy(kv_ptr->value, op->value, kv_ptr->val_len)] *)
Definition memcpy_value (e : entry) (op : cache_op) : entry :=
  mkEntry (e_meta e) (e_val_len e) (take (Z.to_nat (e_val_len e)) (value op)).

(** [optik_unlock_decrement_version] on a locked entry. *)
Definition unlock_decrement (e : entry) : outcome entry :=
  let* m := optik_unlock_decrement_version (e_meta e) in Done (with_meta m e).

(** [optik_lock(&kv_ptr->key.meta)] *)
Definition lock_entry (e : entry) : outcome entry :=
  let* m := optik_lock (e_meta e) in Done (with_meta m e).

(** [optik_unlock(&kv_ptr->key.meta, op->key.meta.cid, op->key.meta.version)] *)
Definition unlock_as (e : entry) (op : cache_op) : outcome entry :=
  let* m := optik_unlock (e_meta e) (cid (meta op)) (version (meta op)) in Done (with_meta m e).

(** [optik_unlock_write(&kv_ptr->key.meta, c, &op->key.meta.version)] *)
Definition unlock_write (e : entry) (c : Z) (op : cache_op) : entry * cache_op :=
  let '(m, v) := optik_unlock_write (e_meta e) c in
  (with_meta m e, set_meta (set_version v (meta op)) op).

Arguments lock_entry : simpl never.
Arguments unlock_decrement : simpl never.
Arguments unlock_as : simpl never.
Arguments unlock_write : simpl never.

Definition result : Type := entry * cache_op * mica_resp.

Section handlers.
Context (machine_id : Z).

(** ** Sequential consistency

    [vp] is the address of the entry's value. *)
Definition sc_get (vp : Z) (e : entry) (op : cache_op) (r : mica_resp) : outcome result :=
  if optik_is_same_version_and_valid (e_meta e) (e_meta e)
  then Done (e, op, mkResp CACHE_GET_SUCCESS (e_val_len e) (Some vp))
  else Spin.

Definition sc_put (e : entry) (op : cache_op) (r : mica_resp) : outcome result :=
  let* _ := c_assert (val_len op =? e_val_len e) in
  let* e := lock_entry e in
  let e := memcpy_value e op in
  let '(e, op) := unlock_write e (u8 machine_id) op in
  let op := set_meta (set_cid (u8 machine_id) (meta op)) op in
  let op := set_opcode CACHE_OP_BRC op in
  Done (e, op, mkResp CACHE_PUT_SUCCESS 0 None).

Definition sc_upd (e : entry) (op : cache_op) (r : mica_resp) : outcome result :=
  let* _ := c_assert (val_len op =? e_val_len e) in
  let* e := lock_entry e in
  if optik_is_greater_version (e_meta e) (meta op) then
    let e := memcpy_value e op in
    let* e := unlock_as e op in
    Done (e, op, set_type CACHE_UPD_SUCCESS r)
  else
    let* e := unlock_decrement e in
    Done (e, op, set_type CACHE_UPD_FAIL r).

(** [cache_batch_op_sc], one hit. *)
Definition sc_op (vp : Z) (e : entry) (op : cache_op) (r : mica_resp) : outcome result :=
  if opcode op =? CACHE_OP_GET then sc_get vp e op r
  else if opcode op =? CACHE_OP_PUT then sc_put e op r
  else if opcode op =? CACHE_OP_UPD then sc_upd e op r
  else if opcode op =? CACHE_OP_BRC then Done (e, op, r)
  else AssertFailed.

(** [cache_batch_op_sc_with_cache_op], one hit. *)
Definition sc_with_cache_op (vp : Z) (e : entry) (op : cache_op) (r : mica_resp) : outcome result :=
  if opcode op =? CACHE_OP_UPD then sc_upd e op r
  else if opcode op =? CACHE_OP_BRC then Done (e, op, r)
  else AssertFailed.

(** ** Linearizability *)

(** The inner [switch] of a GET, under the lock. *)
Definition lin_get_locked (vp : Z) (e : entry) (r : mica_resp) : outcome (entry * mica_resp) :=
  let s := state (e_meta e) in
  if s =? VALID_STATE then Done (e, mkResp CACHE_GET_SUCCESS (e_val_len e) (Some vp))
  else if (s =? INVALID_REPLAY_STATE) || (s =? WRITE_REPLAY_STATE) then
    Done (e, set_type CACHE_GET_STALL r)
  else if s =? INVALID_STATE then
    Done (with_meta (set_state INVALID_REPLAY_STATE (e_meta e)) e, set_type CACHE_GET_STALL r)
  else if s =? WRITE_STATE then
    Done (with_meta (set_state WRITE_REPLAY_STATE (e_meta e)) e, set_type CACHE_GET_STALL r)
  else AssertFailed.

Definition lin_get (vp : Z) (e : entry) (op : cache_op) (r : mica_resp) : outcome result :=
  let prev_meta := e_meta e in
  let s := state (e_meta e) in
  let* (e, r, was_locked_read) :=
    if s =? VALID_STATE then
      Done (e, mkResp CACHE_GET_SUCCESS (e_val_len e) (Some vp), false)
    else if (s =? INVALID_REPLAY_STATE) || (s =? WRITE_REPLAY_STATE) then
      Done (e, set_type CACHE_GET_STALL r, false)
    else
      let* e := lock_entry e in
      let* (e, r) := lin_get_locked vp e r in
      let* e := unlock_decrement e in
      Done (e, r, true)
  in
  if negb (optik_is_same_version_and_valid prev_meta (e_meta e)) && negb was_locked_read
  then Spin
  else Done (e, set_meta (set_state (state (e_meta e)) (meta op)) op, r).

(** A write accepted by the state machine: the value, [MACHINE_NUM - 1]
    acknowledgements to wait for, a new version. *)
Definition lin_accept_write (e : entry) (op : cache_op) (r : mica_resp) : result :=
  let e := memcpy_value e op in
  let e := with_meta (set_pending_acks (MACHINE_NUM - 1) (e_meta e)) e in
  let '(e, op) := unlock_write e (cid (meta op)) op in
  (e, op, set_type CACHE_PUT_SUCCESS r).

Definition lin_put (e : entry) (op : cache_op) (r : mica_resp) : outcome result :=
  let* _ := c_assert (val_len op =? e_val_len e) in
  let* e := lock_entry e in
  let s := state (e_meta e) in
  let* (e, op, r) :=
    if (s =? VALID_STATE) || (s =? INVALID_STATE) then
      Done (lin_accept_write (with_meta (set_state WRITE_STATE (e_meta e)) e) op r)
    else if s =? WRITE_STATE then
      if cid (e_meta e) <=? cid (meta op) then Done (lin_accept_write e op r)
      else let* e := unlock_decrement e in Done (e, op, set_type CACHE_PUT_FAIL r)
    else if s =? INVALID_REPLAY_STATE then
      let* e := unlock_decrement e in Done (e, op, set_type CACHE_PUT_STALL r)
    else if s =? WRITE_REPLAY_STATE then
      if cid (e_meta e) <? cid (meta op) then Done (lin_accept_write e op r)
      else if cid (meta op) =? cid (e_meta e) then
        let* e := unlock_decrement e in Done (e, op, set_type CACHE_PUT_STALL r)
      else let* e := unlock_decrement e in Done (e, op, set_type CACHE_PUT_FAIL r)
    else AssertFailed
  in
  if resp_type r =? CACHE_PUT_SUCCESS then
    let op := set_meta (set_cid (u8 machine_id) (meta op)) op in
    Done (e, set_opcode CACHE_OP_BRC op, mkResp (resp_type r) 0 None)
  else Done (e, op, r).

Definition lin_upd (e : entry) (op : cache_op) (r : mica_resp) : outcome result :=
  let* _ := c_assert (val_len op =? e_val_len e) in
  let* e := lock_entry e in
  if optik_is_same_version_plus_one (e_meta e) (meta op) &&
     ((state (e_meta e) =? INVALID_STATE) || (state (e_meta e) =? INVALID_REPLAY_STATE)) then
    let e := memcpy_value e op in
    let e := with_meta (set_state VALID_STATE (e_meta e)) e in
    let* e := unlock_as e op in
    Done (e, op, set_type CACHE_UPD_SUCCESS r)
  else
    let* e := unlock_decrement e in
    Done (e, op, set_type CACHE_UPD_FAIL r).

(** One arm of the [switch] of an invalidation: [s] is the state to move to. *)
Definition lin_inv_arm (greater : bool) (s : Z) (e : entry) (op : cache_op) (r : mica_resp)
    : outcome (entry * mica_resp) :=
  if greater then
    let* e := unlock_as (with_meta (set_state s (e_meta e)) e) op in
    Done (e, set_type CACHE_INV_SUCCESS r)
  else
    let* e := unlock_decrement e in
    Done (e, set_type CACHE_INV_FAIL r).

Definition lin_inv (e : entry) (op : cache_op) (r : mica_resp) : outcome result :=
  let* e := lock_entry e in
  let s := state (e_meta e) in
  let* (e, r) :=
    if (s =? VALID_STATE) || (s =? INVALID_STATE) then
      lin_inv_arm (optik_is_greater_version (e_meta e) (meta op)) INVALID_STATE e op r
    else if s =? WRITE_STATE then
      lin_inv_arm (optik_is_greater_version_session (e_meta e) (meta op) machine_id)
        INVALID_STATE e op r
    else if s =? INVALID_REPLAY_STATE then
      lin_inv_arm (optik_is_greater_version (e_meta e) (meta op)) INVALID_REPLAY_STATE e op r
    else if s =? WRITE_REPLAY_STATE then
      lin_inv_arm (optik_is_greater_version_session (e_meta e) (meta op) machine_id)
        INVALID_REPLAY_STATE e op r
    else AssertFailed
  in
  Done (e, set_opcode CACHE_OP_ACK op, r).

Definition lin_ack (e : entry) (op : cache_op) (r : mica_resp) : outcome result :=
  let m_id := cid (meta op) in
  let op := set_meta (set_cid (u8 machine_id) (meta op)) op in
  let* e := lock_entry e in
  let s := state (e_meta e) in
  let* (e, r) :=
    if ((s =? WRITE_STATE) || (s =? WRITE_REPLAY_STATE)) &&
       (version (e_meta e) =? u32 (version (meta op) + 1)) then
      let '(e, r) :=
        if pending_acks (e_meta e) =? 1 then
          let m := set_state VALID_STATE (e_meta e) in
          let m := set_cid (u8 machine_id) m in
          let m := set_pending_acks 0 m in
          (with_meta m e, set_type CACHE_LAST_ACK_SUCCESS r)
        else
          (with_meta (set_pending_acks (u8 (pending_acks (e_meta e) - 1)) (e_meta e)) e,
           set_type CACHE_ACK_SUCCESS r) in
      let* e := unlock_decrement e in
      Done (e, r)
    else
      let* e := unlock_decrement e in
      Done (e, set_type CACHE_ACK_FAIL r)
  in
  Done (e, set_meta (set_cid m_id (meta op)) op, r).

(** [cache_batch_op_lin_non_stalling_sessions], one hit. *)
Definition lin_op (vp : Z) (e : entry) (op : cache_op) (r : mica_resp) : outcome result :=
  if opcode op =? CACHE_OP_GET then lin_get vp e op r
  else if opcode op =? CACHE_OP_PUT then lin_put e op r
  else if opcode op =? CACHE_OP_UPD then lin_upd e op r
  else if opcode op =? CACHE_OP_INV then lin_inv e op r
  else if opcode op =? CACHE_OP_ACK then lin_ack e op r
  else if opcode op =? CACHE_OP_BRC then Done (e, op, r)
  else AssertFailed.

(** [..._with_cache_op] (updates and acknowledgements), one hit. *)
Definition lin_with_cache_op (vp : Z) (e : entry) (op : cache_op) (r : mica_resp)
    : outcome result :=
  if opcode op =? CACHE_OP_UPD then lin_upd e op r
  else if opcode op =? CACHE_OP_ACK then lin_ack e op r
  else if opcode op =? CACHE_OP_BRC then Done (e, op, r)
  else AssertFailed.

(** [..._with_small_cache_op] (invalidations), one hit. *)
Definition lin_with_small_cache_op (vp : Z) (e : entry) (op : cache_op) (r : mica_resp)
    : outcome result :=
  if opcode op =? CACHE_OP_INV then lin_inv e op r else AssertFailed.

End handlers.

(** ** The batch functions *)
Definition handler : Type := Z -> entry -> cache_op -> mica_resp -> outcome result.

(** Requests the loops pass over. *)
Definition sc_skips (r : mica_resp) : bool := resp_type r =? UNSERVED_CACHE_MISS.
Definition lin_skips (r : mica_resp) : bool :=
  (resp_type r =? UNSERVED_CACHE_MISS) ||
  ((ENABLE_WAKE_UP =? 1) &&
   ((resp_type r =? CACHE_GET_STALL) || (resp_type r =? CACHE_PUT_STALL))).

(** The third loop, for one operation with pointer [ptr]. *)
Definition cache_exec_one (skips : mica_resp -> bool) (h : handler)
    (kv : mica_kv) (op : cache_op) (r : mica_resp) (ptr : option Z)
    : outcome (mica_kv * cache_op * mica_resp) :=
  if skips r then Done (kv, op, r)
  else match ptr with
  | Some p =>
      if load_u64 (ht_log kv) (p + 8) =? key_word op then
        let* (e, op, r) := h (p + VALUE_OFF) (load_entry (ht_log kv) p) op r in
        Done (set_log (store_entry (ht_log kv) p e) kv, op, r)
      else Done (kv, op, mkResp CACHE_MISS 0 None)
  | None => Done (kv, op, mkResp CACHE_MISS 0 None)
  end.

Fixpoint cache_exec (skips : mica_resp -> bool) (h : handler)
    (kv : mica_kv) (l : list (cache_op * mica_resp * option Z))
    : outcome (mica_kv * list (cache_op * mica_resp)) :=
  match l with
  | [] => Done (kv, [])
  | (op, r, ptr) :: l =>
      let* (kv, op, r) := cache_exec_one skips h kv op r ptr in
      let* (kv, rest) := cache_exec skips h kv l in
      Done (kv, (op, r) :: rest)
  end.

Definition cache_batch (skips : mica_resp -> bool) (h : handler)
    (kv : mica_kv) (l : list (cache_op * mica_resp))
    : outcome (mica_kv * list (cache_op * mica_resp)) :=
  cache_exec skips h kv ((fun x => (x.1, x.2, kv_ptr kv x.1)) <$> l).

Definition cache_batch_op_sc (machine_id : Z) :=
  cache_batch sc_skips (sc_op machine_id).
Definition cache_batch_op_sc_with_cache_op :=
  cache_batch sc_skips sc_with_cache_op.
Definition cache_batch_op_lin_non_stalling_sessions (machine_id : Z) :=
  cache_batch lin_skips (lin_op machine_id).
Definition cache_batch_op_lin_non_stalling_sessions_with_cache_op (machine_id : Z) :=
  cache_batch lin_skips (lin_with_cache_op machine_id).
Definition cache_batch_op_lin_non_stalling_sessions_with_small_cache_op (machine_id : Z) :=
  cache_batch lin_skips (lin_with_small_cache_op machine_id).

(** ** MICA with several writers (the worker threads' store)

    [kv_lock] is the global lock of insertions. *)
Definition mica_insert_one_crcw (kv : mica_kv) (kv_lock : cache_meta) (op : cache_op)
    : outcome (mica_kv * cache_meta * cache_op) :=
  let op := set_meta (set_state VALID_STATE (set_pending_acks 0 (optik_init (meta op)))) op in
  let* kv_lock := optik_lock kv_lock in
  let* kv := insert_entry (sizeof_mica_key + 1 + 1 + val_len op) kv op in
  let* kv_lock := optik_unlock_decrement_version kv_lock in
  Done (kv, kv_lock, op).

(** A hit; the version of a PUT is written into the request. *)
Definition crcw_hit (machine_id : Z) (vp : Z) (e : entry) (op : cache_op) : outcome result :=
  if opcode op =? MICA_OP_GET then
    if optik_is_same_version_and_valid (e_meta e) (e_meta e)
    then Done (e, op, mkResp MICA_RESP_GET_SUCCESS (e_val_len e) (Some vp))
    else Spin
  else if opcode op =? MICA_OP_PUT then
    let* _ := c_assert (val_len op =? e_val_len e) in
    let* e := lock_entry e in
    let e := memcpy_value e op in
    let '(e, op) := unlock_write e (u8 machine_id) op in
    Done (e, op, mkResp MICA_RESP_PUT_SUCCESS 0 None)
  else AssertFailed.

Definition crcw_exec_one (machine_id : Z) (kv : mica_kv) (kv_lock : cache_meta)
    (op : cache_op) (ptr : option Z)
    : outcome (mica_kv * cache_meta * cache_op * mica_resp) :=
  let miss :=
    if opcode op =? MICA_OP_GET then Done (kv, kv_lock, op, mkResp MICA_RESP_GET_FAIL 0 None)
    else
      let* (kv, kv_lock, op) := mica_insert_one_crcw kv kv_lock op in
      Done (kv, kv_lock, op, mkResp MICA_RESP_PUT_SUCCESS 0 None) in
  match ptr with
  | Some p =>
      if load_u64 (ht_log kv) (p + 8) =? key_word op then
        let* (e, op, r) := crcw_hit machine_id (p + VALUE_OFF) (load_entry (ht_log kv) p) op in
        Done (set_log (store_entry (ht_log kv) p e) kv, kv_lock, op, r)
      else miss
  | None => miss
  end.

Fixpoint crcw_exec (machine_id : Z) (kv : mica_kv) (kv_lock : cache_meta)
    (l : list (cache_op * option Z))
    : outcome (mica_kv * cache_meta * list (cache_op * mica_resp)) :=
  match l with
  | [] => Done (kv, kv_lock, [])
  | (op, ptr) :: l =>
      let* (kv, kv_lock, op, r) := crcw_exec_one machine_id kv kv_lock op ptr in
      let* (kv, kv_lock, rest) := crcw_exec machine_id kv kv_lock l in
      Done (kv, kv_lock, (op, r) :: rest)
  end.

Definition mica_batch_op_crcw (machine_id : Z) (kv : mica_kv) (kv_lock : cache_meta)
    (ops : list cache_op) : outcome (mica_kv * cache_meta * list (cache_op * mica_resp)) :=
  crcw_exec machine_id kv kv_lock ((fun op => (op, kv_ptr kv op)) <$> ops).

(** ** Population *)

(** One iteration: the operation on the stack is set up for key [k]. *)
Definition cache_populate_op (k : uint128) (n_val : Z) (op : cache_op) : cache_op :=
  let m := set_state VALID_STATE (set_pending_acks 0 (optik_init (meta op))) in
  let n := Z.to_nat (u8 n_val) in
  mkOp m (u32 k.2) (u16 (Z.shiftr k.2 32)) (Z.shiftr k.2 48) CACHE_OP_PUT
    (u8 (Z.shiftr n_val SHIFT_BITS)) (replicate n 97 ++ drop n (value op)).

Fixpoint cache_populate_loop (kv : mica_kv) (n_val : Z) (op : cache_op) (ks : list uint128)
    : outcome mica_kv :=
  match ks with
  | [] => Done kv
  | k :: ks =>
      let op := cache_populate_op k n_val op in
      let* kv := mica_insert_one kv op in
      cache_populate_loop kv n_val op ks
  end.

(** [for (i = n - 1; i >= 0; i--)]: the keys in reverse order. *)
Definition cache_populate_fixed_len (op : cache_op) (kv : mica_kv) (n n_val : Z)
    : outcome mica_kv :=
  let* _ := c_assert (0 <? n) in
  let* _ := c_assert ((0 <? n_val) && (n_val <=? MICA_MAX_VALUE)) in
  let* _ := c_assert ((num_insert_op kv =? 0) && (num_index_evictions kv =? 0)) in
  let* keys := mica_gen_keys n in
  let* kv := cache_populate_loop kv n_val op (reverse keys) in
  let* _ := c_assert (num_insert_op kv =? n) in
  Done kv.

(** [cache_init], for the hash table ([shm_index], [shm_log] and [op] as in
    [mica_init] and [cache_populate_fixed_len]). *)
Definition cache_init (shm_index : Z -> mica_bkt) (shm_log : mem) (op : cache_op)
    (cache_id : Z) : outcome mica_kv :=
  let* kv := mica_init shm_index shm_log cache_id CACHE_SOCKET CACHE_NUM_BKTS HERD_LOG_CAP in
  cache_populate_fixed_len op kv CACHE_NUM_KEYS HERD_VALUE_SIZE.
