(* ===== verification/CacheSpec.v ===== *)
(** * What the cache handlers do

    Under the invariant of an object at rest (lock free, even version), each
    handler of [Cache] completes and acts as a lock-free transition on
    timestamps: SC updates and LIN invalidations are decided by the
    lexicographic order of (version, machine id), LIN writes by the session
    rule.  The second half lifts this to the batch functions: the operation
    acts on the entry of its own key, in place in the log, and on nothing
    else. *)
From S2P Require Import Prelude Config Optik Layout City Mica MicaLog Cache.

(** ** Objects at rest *)
Record entry_wf (e : entry) : Prop := {
  ew_meta : meta_ok (e_meta e);
  ew_len : 0 <= e_val_len e <= HERD_VALUE_SIZE;
  ew_value : length (e_value e) = Z.to_nat (e_val_len e)
}.

Definition writing (m : cache_meta) : bool :=
  (state m =? WRITE_STATE) || (state m =? WRITE_REPLAY_STATE).
Definition invalid (m : cache_meta) : bool :=
  (state m =? INVALID_STATE) || (state m =? INVALID_REPLAY_STATE).
Definition replay (m : cache_meta) : bool :=
  (state m =? INVALID_REPLAY_STATE) || (state m =? WRITE_REPLAY_STATE).

Record lin_wf (e : entry) : Prop := {
  lw_entry : entry_wf e;
  lw_state : VALID_STATE <= state (e_meta e) <= WRITE_REPLAY_STATE;
  lw_acks : writing (e_meta e) = true -> 1 <= pending_acks (e_meta e) <= MACHINE_NUM - 1
}.

(** The timestamp an object stands for: while a local write is pending the
    [cid] byte holds its session, and the machine id takes its place. *)
Definition eff_ts (machine_id : Z) (m : cache_meta) : ts :=
  (version m, if writing m then machine_id else cid m).

(** A coherence message carries an unlocked (even) version. *)
Record msg_ok (op : cache_op) : Prop := {
  mk_fits : op_fits op;
  mk_even : version (meta op) mod 2 = 0
}.

Definition stamp (op : cache_op) (m : cache_meta) : cache_meta :=
  set_version (version (meta op)) (set_cid (cid (meta op)) m).

(** ** Locking and unlocking *)
Lemma lock_entry_ok e :
  meta_ok (e_meta e) -> lock_entry e = Done (with_meta (locked_meta (e_meta e)) e).
Proof. intros H. unfold lock_entry. by rewrite optik_lock_ok. Qed.

Lemma unlock_decrement_ok m l v :
  meta_ok m -> unlock_decrement (mkEntry (locked_meta m) l v) = Done (mkEntry m l v).
Proof. intros H. unfold unlock_decrement. simpl. by rewrite optik_unlock_decrement_locked. Qed.

Lemma unlock_as_ok m l v op :
  meta_ok m -> msg_ok op ->
  unlock_as (mkEntry (locked_meta m) l v) op = Done (mkEntry (stamp op m) l v).
Proof.
  intros Hm [_ He]. unfold unlock_as, optik_unlock. rewrite He. simpl.
  pose proof (mo_lock _ Hm) as Hl. destruct m; simpl in *. by subst.
Qed.

Lemma unlock_write_ok m l v c op :
  meta_ok m ->
  unlock_write (mkEntry (locked_meta m) l v) c op
  = (mkEntry (set_cid c (set_version (u32 (version m + 2)) m)) l v,
     set_meta (set_version (u32 (version m + 2)) (meta op)) op).
Proof. intros Hm. unfold unlock_write. simpl e_meta. by rewrite unlock_write_locked. Qed.

(** Fields kept by the setters the handlers use. *)
Lemma meta_ok_set_state s m : is_u8 s -> meta_ok m -> meta_ok (set_state s m).
Proof. intros ? []. by split. Qed.
Lemma meta_ok_set_acks n m : is_u8 n -> meta_ok m -> meta_ok (set_pending_acks n m).
Proof. intros ? []. by split. Qed.
Lemma meta_ok_set_cid c m : is_u8 c -> meta_ok m -> meta_ok (set_cid c m).
Proof. intros ? []. by split. Qed.
Lemma meta_ok_stamp op m : msg_ok op -> meta_ok m -> meta_ok (stamp op m).
Proof. intros [[[] _ _ _ _ _ _ _] ?] []. by split. Qed.
Lemma meta_ok_bump m : meta_ok m -> meta_ok (set_version (u32 (version m + 2)) m).
Proof. intros []. split; try done; [apply u32_range|]. simpl. uint_lia. Qed.
#[export] Hint Resolve meta_ok_set_state meta_ok_set_acks meta_ok_set_cid meta_ok_stamp
  meta_ok_bump : ccKVS.

Lemma entry_wf_meta m e : meta_ok m -> entry_wf e -> entry_wf (with_meta m e).
Proof. intros ? []. by split. Qed.

Lemma entry_wf_memcpy m e op :
  meta_ok m -> entry_wf e -> length (value op) = max_value_len ->
  entry_wf (mkEntry m (e_val_len e) (take (Z.to_nat (e_val_len e)) (value op))).
Proof.
  intros ? [? Hl ?] Hv. split; try done. simpl. rewrite length_take, Hv.
  change HERD_VALUE_SIZE with 32 in Hl. change max_value_len with 46%nat. lia.
Qed.
#[export] Hint Resolve entry_wf_meta entry_wf_memcpy : ccKVS.

Ltac start_handler He :=
  pose proof (ew_meta _ He); rewrite ?lock_entry_ok by done.

(** ** Sequential consistency *)
Definition copied (m : cache_meta) (e : entry) (op : cache_op) : entry :=
  mkEntry m (e_val_len e) (take (Z.to_nat (e_val_len e)) (value op)).

Lemma sc_get_eq vp e op r :
  entry_wf e -> sc_get vp e op r = Done (e, op, mkResp CACHE_GET_SUCCESS (e_val_len e) (Some vp)).
Proof.
  intros [[_ _ _ _ _ He] _ _]. unfold sc_get, optik_is_same_version_and_valid.
  by rewrite !Z.eqb_refl, He.
Qed.

Lemma sc_put_eq mid e op r :
  entry_wf e -> val_len op = e_val_len e ->
  let v := u32 (version (e_meta e) + 2) in
  sc_put mid e op r
  = Done (copied (set_cid (u8 mid) (set_version v (e_meta e))) e op,
          set_opcode CACHE_OP_BRC (set_meta (set_cid (u8 mid) (set_version v (meta op))) op),
          mkResp CACHE_PUT_SUCCESS 0 None).
Proof.
  intros He Hv. unfold sc_put. rewrite Hv, Z.eqb_refl. cbn [c_assert obind]. start_handler He.
  unfold memcpy_value, with_meta. cbn [obind e_meta e_val_len e_value]. by rewrite unlock_write_ok.
Qed.

Lemma sc_upd_eq e op r :
  entry_wf e -> msg_ok op -> val_len op = e_val_len e ->
  sc_upd e op r
  = Done (if ts_ltb (ts_of (e_meta e)) (ts_of (meta op))
          then (copied (stamp op (e_meta e)) e op, op, set_type CACHE_UPD_SUCCESS r)
          else (e, op, set_type CACHE_UPD_FAIL r)).
Proof.
  intros He Hop Hv. unfold sc_upd. rewrite Hv, Z.eqb_refl. cbn [c_assert obind]. start_handler He.
  unfold with_meta, memcpy_value. cbn [obind e_meta e_val_len e_value].
  destruct (of_meta _ (mk_fits _ Hop)). rewrite greater_version_ts by (done || apply Hop).
  destruct (ts_ltb _ _); [by rewrite unlock_as_ok|]. rewrite unlock_decrement_ok by done. by destruct e.
Qed.

(** ** Linearizability *)
Lemma lin_get_eq vp e op r :
  lin_wf e ->
  let m := e_meta e in
  let m' := if state m =? INVALID_STATE then set_state INVALID_REPLAY_STATE m
            else if state m =? WRITE_STATE then set_state WRITE_REPLAY_STATE m else m in
  lin_get vp e op r
  = Done (with_meta m' e, set_meta (set_state (state m') (meta op)) op,
          if state m =? VALID_STATE then mkResp CACHE_GET_SUCCESS (e_val_len e) (Some vp)
          else set_type CACHE_GET_STALL r).
Proof.
  intros [He Hs _]. cbv zeta. unfold lin_get, lin_get_locked. start_handler He.
  assert (Hv : optik_is_same_version_and_valid (e_meta e) (e_meta e) = true).
  { unfold optik_is_same_version_and_valid. by rewrite !Z.eqb_refl, (mo_even _ H). }
  assert (Hc : state (e_meta e) = 1 \/ state (e_meta e) = 2 \/ state (e_meta e) = 3 \/
               state (e_meta e) = 4 \/ state (e_meta e) = 5)
    by (unfold VALID_STATE, WRITE_REPLAY_STATE in Hs; lia).
  destruct e as [m l v]. simpl in *.
  destruct Hc as [E | [E | [E | [E | E]]]]; rewrite E; simpl; rewrite ?E; simpl;
    rewrite ?Hv, ?E; simpl; try done; unfold with_meta; simpl;
    match goal with |- context [set_state ?s (locked_meta m)] =>
      change (set_state s (locked_meta m)) with (locked_meta (set_state s m)) end;
    rewrite unlock_decrement_ok by (apply meta_ok_set_state; [unfold is_u8|]; done || lia);
    simpl; by rewrite andb_false_r.
Qed.

Inductive put_decision := Accept | Reject | Stall.

(** The session rule: a write is accepted over a valid or invalid object, and
    over a pending local write of the same or a lower session; with a reader
    waiting ([..._REPLAY]) only a higher session may overwrite. *)
Definition decide_put (m : cache_meta) (session : Z) : put_decision :=
  let s := state m in
  if (s =? VALID_STATE) || (s =? INVALID_STATE) then Accept
  else if s =? WRITE_STATE then if cid m <=? session then Accept else Reject
  else if s =? INVALID_REPLAY_STATE then Stall
  else if cid m <? session then Accept
  else if session =? cid m then Stall else Reject.

(** The metadata after an accepted write of [session]. *)
Definition write_meta (m : cache_meta) (session : Z) : cache_meta :=
  let s := if state m =? WRITE_REPLAY_STATE then WRITE_REPLAY_STATE else WRITE_STATE in
  mkMeta s (MACHINE_NUM - 1) session (lock m) (u32 (version m + 2)).

Lemma lin_put_eq mid e op r :
  lin_wf e -> val_len op = e_val_len e ->
  let v := u32 (version (e_meta e) + 2) in
  lin_put mid e op r
  = Done (match decide_put (e_meta e) (cid (meta op)) with
          | Accept =>
              (copied (write_meta (e_meta e) (cid (meta op))) e op,
               set_opcode CACHE_OP_BRC (set_meta (set_cid (u8 mid) (set_version v (meta op))) op),
               mkResp CACHE_PUT_SUCCESS 0 None)
          | Reject => (e, op, set_type CACHE_PUT_FAIL r)
          | Stall => (e, op, set_type CACHE_PUT_STALL r)
          end).
Proof.
  intros [He Hs _] Hv. cbv zeta. unfold lin_put, decide_put, write_meta.
  rewrite Hv, Z.eqb_refl. cbn [c_assert obind]. start_handler He.
  destruct e as [m l v]. unfold with_meta. cbn [obind e_meta e_val_len e_value] in *.
  change (state (locked_meta m)) with (state m). change (cid (locked_meta m)) with (cid m).
  assert (Hacc : forall s, is_u8 s ->
    lin_accept_write (mkEntry (set_state s (locked_meta m)) l v) op r
    = (mkEntry (mkMeta s (MACHINE_NUM - 1) (cid (meta op)) (lock m) (u32 (version m + 2))) l
         (take (Z.to_nat l) (value op)),
       set_meta (set_version (u32 (version m + 2)) (meta op)) op, set_type CACHE_PUT_SUCCESS r)).
  { intros s Hs8. unfold lin_accept_write, memcpy_value, with_meta. cbn [e_meta e_val_len e_value].
    change (set_pending_acks (MACHINE_NUM - 1) (set_state s (locked_meta m)))
      with (locked_meta (set_pending_acks (MACHINE_NUM - 1) (set_state s m))).
    rewrite unlock_write_ok; [done|].
    apply meta_ok_set_acks; [unfold is_u8, MACHINE_NUM; lia|]. by apply meta_ok_set_state. }
  assert (Hself : set_state (state m) (locked_meta m) = locked_meta m) by done.
  assert (Hs8 : is_u8 (state m)) by (unfold is_u8, VALID_STATE, WRITE_REPLAY_STATE in *; simpl in *; lia).
  pose proof (Hacc _ Hs8) as Hacc'. rewrite Hself in Hacc'.
  assert (Hc : state m = 1 \/ state m = 2 \/ state m = 3 \/ state m = 4 \/ state m = 5)
    by (unfold VALID_STATE, WRITE_REPLAY_STATE in Hs; simpl in Hs; lia).
  destruct Hc as [E | [E | [E | [E | E]]]]; rewrite E in *;
    cbn -[lin_accept_write unlock_decrement set_state locked_meta u32 u8].
  - by rewrite Hacc by (unfold is_u8, WRITE_STATE; lia).
  - by rewrite Hacc by (unfold is_u8, WRITE_STATE; lia).
  - by rewrite unlock_decrement_ok.
  - destruct (cid m <=? cid (meta op)); [by rewrite Hacc'|by rewrite unlock_decrement_ok].
  - destruct (cid m <? cid (meta op)); [by rewrite Hacc'|].
    destruct (cid (meta op) =? cid m); by rewrite unlock_decrement_ok.
Qed.

Lemma lin_upd_eq e op r :
  entry_wf e -> msg_ok op -> val_len op = e_val_len e ->
  lin_upd e op r
  = Done (if bool_decide (ts_of (e_meta e) = ts_of (meta op)) && invalid (e_meta e)
          then (copied (set_state VALID_STATE (e_meta e)) e op, op, set_type CACHE_UPD_SUCCESS r)
          else (e, op, set_type CACHE_UPD_FAIL r)).
Proof.
  intros He Hop Hv. unfold lin_upd. rewrite Hv, Z.eqb_refl. cbn [c_assert obind]. start_handler He.
  destruct e as [m l v]. unfold with_meta. cbn [obind e_meta e_val_len e_value] in *.
  change (state (locked_meta m)) with (state m). fold (invalid m).
  destruct (of_meta _ (mk_fits _ Hop)).
  pose proof (same_version_plus_one_ts m (meta op) H ltac:(done) (mk_even _ Hop)) as Hts.
  destruct (optik_is_same_version_plus_one _ _), (bool_decide_reflect (ts_of m = ts_of (meta op))) as [E|E];
    simpl; try (by rewrite unlock_decrement_ok); try (by exfalso; apply E, Hts);
    try (by apply Hts in E).
  destruct (invalid m); simpl; [|by rewrite unlock_decrement_ok].
  change (set_state VALID_STATE (locked_meta m)) with (locked_meta (set_state VALID_STATE m)).
  rewrite unlock_as_ok by (done || by apply meta_ok_set_state; [unfold is_u8, VALID_STATE; lia|]).
  simpl. injection E as E1 E2. unfold stamp. simpl. rewrite <- E1, <- E2. by destruct m.
Qed.

Definition invalidate (m : cache_meta) (op : cache_op) : cache_meta :=
  set_state (if replay m then INVALID_REPLAY_STATE else INVALID_STATE) (stamp op m).

Lemma lin_inv_eq mid e op r :
  lin_wf e -> msg_ok op ->
  lin_inv mid e op r
  = Done (if ts_ltb (eff_ts mid (e_meta e)) (ts_of (meta op))
          then (with_meta (invalidate (e_meta e) op) e, set_opcode CACHE_OP_ACK op,
                set_type CACHE_INV_SUCCESS r)
          else (e, set_opcode CACHE_OP_ACK op, set_type CACHE_INV_FAIL r)).
Proof.
  intros [He Hs _] Hop. unfold lin_inv. start_handler He.
  destruct e as [m l v]. unfold with_meta. cbn [obind e_meta e_val_len e_value] in *.
  change (state (locked_meta m)) with (state m).
  destruct (of_meta _ (mk_fits _ Hop)).
  rewrite greater_version_session_ts, greater_version_ts by (done || apply Hop).
  assert (Harm : forall g s, is_u8 s ->
    lin_inv_arm g s (mkEntry (locked_meta m) l v) op r
    = Done (if g then (mkEntry (set_state s (stamp op m)) l v, set_type CACHE_INV_SUCCESS r)
            else (mkEntry m l v, set_type CACHE_INV_FAIL r))).
  { intros g s Hs8. unfold lin_inv_arm, with_meta. simpl. destruct g.
    - change (set_state s (locked_meta m)) with (locked_meta (set_state s m)).
      rewrite unlock_as_ok; [done| |done]. by apply meta_ok_set_state.
    - by rewrite unlock_decrement_ok. }
  unfold eff_ts, invalidate, writing, replay.
  assert (Hc : state m = 1 \/ state m = 2 \/ state m = 3 \/ state m = 4 \/ state m = 5)
    by (unfold VALID_STATE, WRITE_REPLAY_STATE in Hs; simpl in Hs; lia).
  destruct Hc as [E | [E | [E | [E | E]]]]; rewrite E; simpl;
    rewrite Harm by (unfold is_u8, INVALID_STATE, INVALID_REPLAY_STATE; lia); simpl;
    unfold ts_of; destruct (ts_ltb _ _); done.
Qed.

(** An acknowledgement counts when it is for the pending version. *)
Definition ack_meta (mid : Z) (m : cache_meta) : cache_meta :=
  if pending_acks m =? 1
  then set_pending_acks 0 (set_cid (u8 mid) (set_state VALID_STATE m))
  else set_pending_acks (pending_acks m - 1) m.

Lemma lin_ack_eq mid e op r :
  lin_wf e -> msg_ok op ->
  lin_ack mid e op r
  = Done (if writing (e_meta e) && (version (e_meta e) =? version (meta op))
          then (with_meta (ack_meta mid (e_meta e)) e, op,
                set_type (if pending_acks (e_meta e) =? 1 then CACHE_LAST_ACK_SUCCESS
                          else CACHE_ACK_SUCCESS) r)
          else (e, op, set_type CACHE_ACK_FAIL r)).
Proof.
  intros [He Hs Ha] Hop. unfold lin_ack. start_handler He.
  destruct e as [m l v]. unfold with_meta. cbn [obind e_meta e_val_len e_value] in *.
  change (state (locked_meta m)) with (state m). fold (writing m).
  change (version (meta (set_meta (set_cid (u8 mid) (meta op)) op))) with (version (meta op)).
  change (version (locked_meta m)) with (version m + 1).
  destruct (of_meta _ (mk_fits _ Hop)) as [_ _ _ _ Hv].
  rewrite u32_small by (pose proof (even_u32_max _ Hv (mk_even _ Hop)); unfold is_u32 in *; lia).
  replace (version m + 1 =? version (meta op) + 1) with (version m =? version (meta op))
    by (repeat zcase; done || lia).
  destruct (writing m && (version m =? version (meta op))) eqn:E.
  - apply andb_true_iff in E as [Hw _]. specialize (Ha Hw). unfold ack_meta.
    change (pending_acks (locked_meta m)) with (pending_acks m).
    unfold MACHINE_NUM in Ha. simpl in Ha. pose proof (mo_acks _ H).
    destruct (Z.eqb_spec (pending_acks m) 1); simpl.
    + change (set_pending_acks 0 (set_cid (u8 mid) (set_state VALID_STATE (locked_meta m))))
        with (locked_meta (set_pending_acks 0 (set_cid (u8 mid) (set_state VALID_STATE m)))).
      rewrite unlock_decrement_ok; [simpl; by destruct op as [[]]|].
      apply meta_ok_set_acks; [unfold is_u8; lia|]. apply meta_ok_set_cid; [apply u8_range|].
      apply meta_ok_set_state; [unfold is_u8, VALID_STATE; lia|done].
    + rewrite u8_small by (unfold is_u8 in *; lia).
      change (set_pending_acks (pending_acks m - 1) (locked_meta m))
        with (locked_meta (set_pending_acks (pending_acks m - 1) m)).
      rewrite unlock_decrement_ok; [simpl; by destruct op as [[]]|].
      apply meta_ok_set_acks; [unfold is_u8 in *; lia|done].
  - rewrite unlock_decrement_ok by done. simpl. by destruct op as [[]].
Qed.

(** ** Handlers keep the invariant *)

(** What an operation must satisfy to be executed on an object of value length
    [n]: writes carry values of that length, coherence messages an even
    version. *)
Record legal (n : Z) (op : cache_op) : Prop := {
  lg_fits : op_fits op;
  lg_len : opcode op = CACHE_OP_PUT \/ opcode op = CACHE_OP_UPD -> val_len op = n;
  lg_even : opcode op = CACHE_OP_UPD \/ opcode op = CACHE_OP_INV \/ opcode op = CACHE_OP_ACK ->
            version (meta op) mod 2 = 0
}.

(** What the batch machinery asks of a handler for the opcodes [ops]. *)
Class HandlerOk (Inv : entry -> Prop) (ops : list Z) (h : handler) : Prop := {
  handler_wf : forall e, Inv e -> entry_wf e;
  handler_runs : forall vp e op r, Inv e -> legal (e_val_len e) op -> opcode op ∈ ops ->
    exists e' op' r', h vp e op r = Done (e', op', r') /\ Inv e' /\ e_val_len e' = e_val_len e
}.

Lemma sc_upd_runs e op r :
  entry_wf e -> legal (e_val_len e) op -> opcode op = CACHE_OP_UPD ->
  exists e' op' r', sc_upd e op r = Done (e', op', r') /\ entry_wf e' /\
    e_val_len e' = e_val_len e /\ ts_le (ts_of (e_meta e)) (ts_of (e_meta e')).
Proof.
  intros He [Hf Hl Hv] E. pose proof (ew_meta _ He).
  assert (Hm : msg_ok op) by (split; [done|apply Hv; by left]).
  rewrite sc_upd_eq by (done || apply Hl; by right). destruct (ts_ltb_spec (ts_of (e_meta e)) (ts_of (meta op)));
    eexists _, _, _; (split; [reflexivity|]); split_and!; try done.
  - apply entry_wf_memcpy; [by apply meta_ok_stamp|done|apply Hf].
  - by left.
  - by right.
Qed.

Lemma sc_op_runs mid vp e op r :
  entry_wf e -> legal (e_val_len e) op ->
  opcode op ∈ [CACHE_OP_GET; CACHE_OP_PUT; CACHE_OP_UPD; CACHE_OP_BRC] ->
  exists e' op' r', sc_op mid vp e op r = Done (e', op', r') /\ entry_wf e' /\
    e_val_len e' = e_val_len e /\
    (version (e_meta e) + 2 < 2 ^ 32 -> ts_le (ts_of (e_meta e)) (ts_of (e_meta e'))).
Proof.
  intros He Hl Hop%list_elem_of_In. pose proof (ew_meta _ He) as Hm. unfold sc_op.
  destruct Hop as [E | [E | [E | [E | []]]]]; rewrite <- E; simpl.
  - rewrite sc_get_eq by done. eexists _, _, _. split; [reflexivity|]. split_and!; try done. by right.
  - rewrite sc_put_eq by (done || apply Hl; by left). eexists _, _, _. split; [reflexivity|].
    split_and!; [|done|].
    + apply entry_wf_memcpy; [|done|apply Hl].
      apply meta_ok_set_cid; [apply u8_range|by apply meta_ok_bump].
    + intros Hv. left. left. simpl. rewrite u32_small; [lia|].
      destruct (mo_version _ Hm). unfold is_u32. lia.
  - destruct (sc_upd_runs e op r He Hl ltac:(done)) as (e' & op' & r' & E' & H1 & H2 & H3).
    exists e', op', r'. done.
  - eexists _, _, _. split; [reflexivity|]. split_and!; try done. by right.
Qed.

#[export] Instance sc_op_HandlerOk mid :
  HandlerOk entry_wf [CACHE_OP_GET; CACHE_OP_PUT; CACHE_OP_UPD; CACHE_OP_BRC] (sc_op mid).
Proof.
  split; [done|]. intros vp e op r He Hl Ho.
  destruct (sc_op_runs mid vp e op r He Hl Ho) as (e' & op' & r' & E & H1 & H2 & _). eauto 6.
Qed.

#[export] Instance sc_with_cache_op_HandlerOk :
  HandlerOk entry_wf [CACHE_OP_UPD; CACHE_OP_BRC] sc_with_cache_op.
Proof.
  split; [done|]. intros vp e op r He Hl Ho%list_elem_of_In. unfold sc_with_cache_op.
  destruct Ho as [E | [E | []]]; rewrite <- E; simpl; [|by eexists _, _, _].
  destruct (sc_upd_runs e op r He Hl ltac:(done)) as (e' & op' & r' & E' & H1 & H2 & _). eauto 6.
Qed.

(** One handler keeps the LIN invariant and never moves the timestamp back
    (unless the 32-bit version wraps). *)
Definition keeps (mid : Z) (e : entry) (o : outcome result) : Prop :=
  exists e' op' r', o = Done (e', op', r') /\ lin_wf e' /\ e_val_len e' = e_val_len e /\
    (version (e_meta e) + 2 < 2 ^ 32 -> ts_le (eff_ts mid (e_meta e)) (eff_ts mid (e_meta e'))).

Lemma keeps_refl mid e op r : lin_wf e -> keeps mid e (Done (e, op, r)).
Proof. intros. exists e, op, r. split_and!; try done. by right. Qed.

Lemma state_cases m :
  VALID_STATE <= state m <= WRITE_REPLAY_STATE ->
  state m = 1 \/ state m = 2 \/ state m = 3 \/ state m = 4 \/ state m = 5.
Proof. unfold VALID_STATE, WRITE_REPLAY_STATE. lia. Qed.

Lemma keeps_set_state mid e s op r :
  lin_wf e -> VALID_STATE <= s <= WRITE_REPLAY_STATE ->
  writing (set_state s (e_meta e)) = writing (e_meta e) ->
  keeps mid e (Done (with_meta (set_state s (e_meta e)) e, op, r)).
Proof.
  intros [He _ Ha] Hs Hwr. eexists _, _, _. split; [reflexivity|]. split_and!; [|done|].
  - split; simpl; [|done|by rewrite Hwr].
    apply entry_wf_meta; [apply meta_ok_set_state; [|apply He]|done].
    unfold is_u8, VALID_STATE, WRITE_REPLAY_STATE in *. lia.
  - right. unfold eff_ts. simpl. by rewrite Hwr.
Qed.

Lemma lin_get_keeps mid vp e op r : lin_wf e -> keeps mid e (lin_get vp e op r).
Proof.
  intros Hw. rewrite lin_get_eq by done.
  assert (Hself : with_meta (e_meta e) e = e) by (by destruct e).
  destruct (Z.eqb_spec (state (e_meta e)) INVALID_STATE) as [E|E];
    [|destruct (Z.eqb_spec (state (e_meta e)) WRITE_STATE) as [E'|E']];
    [apply keeps_set_state; try done|apply keeps_set_state; try done|].
  - unfold writing. simpl. by rewrite E.
  - unfold writing. simpl. by rewrite E'.
  - rewrite Hself. by apply keeps_refl.
Qed.

Lemma lin_put_keeps mid e op r :
  is_u8 mid -> lin_wf e -> op_fits op -> val_len op = e_val_len e -> keeps mid e (lin_put mid e op r).
Proof.
  intros Hmid Hw Hf Hv. rewrite lin_put_eq by done. pose proof (lw_entry _ Hw) as He.
  pose proof (ew_meta _ He) as Hm.
  destruct (decide_put _ _); try by apply keeps_refl.
  eexists _, _, _. split; [reflexivity|]. split_and!; [|done|].
  - assert (Hw' : meta_ok (write_meta (e_meta e) (cid (meta op)))).
    { destruct Hm. split; simpl; try done.
      - unfold is_u8, WRITE_STATE, WRITE_REPLAY_STATE. zcase; lia.
      - apply (of_meta _ Hf).
      - apply u32_range.
      - uint_lia. }
    split; simpl.
    + by apply entry_wf_memcpy; [|done|apply Hf].
    + unfold VALID_STATE, WRITE_REPLAY_STATE, WRITE_STATE. zcase; lia.
    + intros _. unfold MACHINE_NUM. lia.
  - intros Hver. left. left. simpl. rewrite u32_small; [lia|].
    destruct (mo_version _ Hm). unfold is_u32. lia.
Qed.

Lemma lin_upd_keeps mid e op r :
  lin_wf e -> msg_ok op -> val_len op = e_val_len e -> keeps mid e (lin_upd e op r).
Proof.
  intros Hw Hop Hv. pose proof (lw_entry _ Hw) as He. pose proof (ew_meta _ He) as Hm.
  rewrite lin_upd_eq by done.
  destruct (_ && invalid (e_meta e)) eqn:E; [|by apply keeps_refl].
  apply andb_true_iff in E as [_ E].
  eexists _, _, _. split; [reflexivity|]. split_and!; [|done|].
  - split; simpl.
    + apply entry_wf_memcpy; [|done|apply Hop].
      apply meta_ok_set_state; [unfold is_u8, VALID_STATE; lia|done].
    + unfold VALID_STATE, WRITE_REPLAY_STATE. lia.
    + done.
  - intros _. right. unfold eff_ts, copied. simpl.
    unfold invalid, writing in *. apply orb_true_iff in E. rewrite !Z.eqb_eq in E.
    destruct E as [E|E]; rewrite E; done.
Qed.

Lemma lin_inv_keeps mid e op r : lin_wf e -> msg_ok op -> keeps mid e (lin_inv mid e op r).
Proof.
  intros Hw Hop. pose proof (lw_entry _ Hw) as He. pose proof (ew_meta _ He) as Hm.
  rewrite lin_inv_eq by done.
  destruct (ts_ltb_spec (eff_ts mid (e_meta e)) (ts_of (meta op))); [|by apply keeps_refl].
  eexists _, _, _. split; [reflexivity|]. split_and!; [|done|].
  - split; simpl.
    + apply entry_wf_meta; [|done]. apply meta_ok_set_state; [|by apply meta_ok_stamp].
      unfold is_u8, INVALID_REPLAY_STATE, INVALID_STATE. destruct (replay _); lia.
    + unfold VALID_STATE, WRITE_REPLAY_STATE, INVALID_REPLAY_STATE, INVALID_STATE.
      destruct (replay _); lia.
    + unfold writing. simpl. by destruct (replay _).
  - intros _. left. unfold eff_ts at 2, writing. simpl. by destruct (replay _).
Qed.

Lemma lin_ack_keeps mid e op r :
  is_u8 mid -> lin_wf e -> msg_ok op -> keeps mid e (lin_ack mid e op r).
Proof.
  intros Hmid Hw Hop. pose proof (lw_entry _ Hw) as He. pose proof (ew_meta _ He) as Hm.
  rewrite lin_ack_eq by done. destruct (writing (e_meta e) && _) eqn:E; [|by apply keeps_refl].
  apply andb_true_iff in E as [Hwr _]. pose proof (lw_acks _ Hw Hwr) as Ha.
  change (MACHINE_NUM - 1) with 3 in Ha.
  eexists _, _, _. split; [reflexivity|]. unfold ack_meta.
  destruct (Z.eqb_spec (pending_acks (e_meta e)) 1) as [E1|E1].
  - split_and!; [|done|].
    + split; simpl; [|unfold VALID_STATE, WRITE_REPLAY_STATE; lia|done].
      apply entry_wf_meta; [|done]. apply meta_ok_set_acks; [unfold is_u8; lia|].
      apply meta_ok_set_cid; [apply u8_range|].
      apply meta_ok_set_state; [unfold is_u8, VALID_STATE; lia|done].
    + intros _. right. unfold eff_ts. rewrite Hwr. simpl. by rewrite u8_small.
  - split_and!; [|done|].
    + split; simpl; [|apply Hw|change (MACHINE_NUM - 1) with 3; lia].
      apply entry_wf_meta; [|done]. apply meta_ok_set_acks; [unfold is_u8; lia|done].
    + intros _. by right.
Qed.

Lemma lin_op_keeps mid vp e op r :
  is_u8 mid -> lin_wf e -> legal (e_val_len e) op ->
  opcode op ∈ [CACHE_OP_GET; CACHE_OP_PUT; CACHE_OP_UPD; CACHE_OP_INV; CACHE_OP_ACK; CACHE_OP_BRC] ->
  keeps mid e (lin_op mid vp e op r).
Proof.
  intros Hmid Hw [Hf Hl Hv] Hop%list_elem_of_In. unfold lin_op.
  destruct Hop as [E | [E | [E | [E | [E | [E | []]]]]]]; rewrite <- E; simpl; symmetry in E.
  - by apply lin_get_keeps.
  - apply lin_put_keeps; try done. apply Hl. by left.
  - apply lin_upd_keeps; [done|split; [done|]|]; [apply Hv|apply Hl]; tauto.
  - apply lin_inv_keeps; [done|split; [done|]]. apply Hv. tauto.
  - apply lin_ack_keeps; [done|done|split; [done|]]. apply Hv. tauto.
  - by apply keeps_refl.
Qed.

#[export] Instance lin_op_HandlerOk mid (Hmid : is_u8 mid) :
  HandlerOk lin_wf
    [CACHE_OP_GET; CACHE_OP_PUT; CACHE_OP_UPD; CACHE_OP_INV; CACHE_OP_ACK; CACHE_OP_BRC]
    (lin_op mid).
Proof.
  split; [apply lw_entry|]. intros vp e op r He Hl Ho.
  destruct (lin_op_keeps mid vp e op r Hmid He Hl Ho) as (e' & op' & r' & E & H1 & H2 & _). eauto 6.
Qed.

#[export] Instance lin_with_cache_op_HandlerOk mid (Hmid : is_u8 mid) :
  HandlerOk lin_wf [CACHE_OP_UPD; CACHE_OP_ACK; CACHE_OP_BRC] (lin_with_cache_op mid).
Proof.
  split; [apply lw_entry|]. intros vp e op r He [Hf Hl Hv] Ho%list_elem_of_In.
  unfold lin_with_cache_op.
  assert (Hk : keeps mid e (lin_with_cache_op mid vp e op r)).
  { unfold lin_with_cache_op.
    destruct Ho as [E | [E | [E | []]]]; rewrite <- E; simpl; symmetry in E.
    - apply lin_upd_keeps; [done|split; [done|]|]; [apply Hv|apply Hl]; tauto.
    - apply lin_ack_keeps; [done|done|split; [done|]]. apply Hv. tauto.
    - by apply keeps_refl. }
  destruct Hk as (e' & op' & r' & E & H1 & H2 & _). eauto 6.
Qed.

#[export] Instance lin_with_small_cache_op_HandlerOk mid :
  HandlerOk lin_wf [CACHE_OP_INV] (lin_with_small_cache_op mid).
Proof.
  split; [apply lw_entry|]. intros vp e op r He [Hf Hl Hv] Ho%list_elem_of_In.
  destruct Ho as [E | []]. unfold lin_with_small_cache_op. rewrite <- E. simpl. symmetry in E.
  destruct (lin_inv_keeps mid e op r He) as (e' & op' & r' & E' & H1 & H2 & _);
    [split; [done|apply Hv; tauto]|eauto 6].
Qed.

(** ** Entries in the log *)
Lemma load_entry_store m p e :
  meta_fits (e_meta e) -> length (e_value e) = Z.to_nat (e_val_len e) ->
  m (p + 17) = e_val_len e -> load_entry (store_entry m p e) p = e.
Proof.
  intros Hm Hl Hv. unfold load_entry, store_entry.
  assert (Hlen : store_bytes (store_meta m p (e_meta e)) (p + VALUE_OFF) (e_value e) (p + 17)
                 = e_val_len e).
  { rewrite <- Hv. unfold VALUE_OFF. rewrite store_bytes_out by lia. apply store_bytes_out.
    rewrite length_encode_meta. lia. }
  rewrite Hlen, <- Hl, load_store_same. destruct e as [em el ev]. simpl in *. f_equal.
  rewrite <- (load_store_meta m p em Hm) at 2. apply load_meta_ext. intros i Hi.
  apply store_bytes_out. unfold VALUE_OFF. lia.
Qed.

Lemma load_entry_ext m m' p :
  (forall i, 0 <= i < 50 -> m' (p + i) = m (p + i)) -> m (p + 17) <= 32 ->
  load_entry m' p = load_entry m p.
Proof.
  intros H Hl. unfold load_entry. rewrite (H 17) by lia. f_equal.
  - apply load_meta_ext. intros. apply H. lia.
  - apply load_bytes_ext. intros i Hi. rewrite <- !Z.add_assoc. apply H.
    unfold VALUE_OFF. lia.
Qed.

(** The cache as a map from key words to objects. *)
Definition key_op (k : Z) : cache_op :=
  mkOp (mkMeta 0 0 0 0 0) (kw_bkt k) 0 (kw_tag k) 0 0 [].

Definition cache_view (kv : mica_kv) (k : Z) : option entry :=
  match kv_ptr kv (key_op k) with
  | Some p => if entry_key (ht_log kv) p =? k then Some (load_entry (ht_log kv) p) else None
  | None => None
  end.

Lemma kv_ptr_key_op kv op : op_fits op -> kv_ptr kv (key_op (key_word op)) = kv_ptr kv op.
Proof. intros Hf. unfold kv_ptr. simpl. by rewrite kw_bkt_key_word, kw_tag_key_word. Qed.

(** The abstract batch: one object per key word, operations in order.
    [addr] gives the address of a key's value. *)
Definition view_exec_one (skips : mica_resp -> bool) (h : handler) (addr : Z -> Z)
    (F : Z -> option entry) (op : cache_op) (r : mica_resp)
    : outcome ((Z -> option entry) * cache_op * mica_resp) :=
  if skips r then Done (F, op, r)
  else match F (key_word op) with
  | Some e =>
      let* (e, op', r) := h (addr (key_word op)) e op r in
      Done (fupd F (key_word op) (Some e), op', r)
  | None => Done (F, op, mkResp CACHE_MISS 0 None)
  end.

Fixpoint view_exec (skips : mica_resp -> bool) (h : handler) (addr : Z -> Z)
    (F : Z -> option entry) (l : list (cache_op * mica_resp))
    : outcome ((Z -> option entry) * list (cache_op * mica_resp)) :=
  match l with
  | [] => Done (F, [])
  | (op, r) :: l =>
      let* (F, op, r) := view_exec_one skips h addr F op r in
      let* (F, rest) := view_exec skips h addr F l in
      Done (F, (op, r) :: rest)
  end.

Definition value_addr (kv : mica_kv) (k : Z) : Z :=
  default 0 (kv_ptr kv (key_op k)) + VALUE_OFF.

(** Coupling: the store is sound, objects satisfy [Inv], and [F] is its view
    (on the key words of well-formed operations). *)
Record coupled (Inv : entry -> Prop) (kv : mica_kv) (F : Z -> option entry) : Prop := {
  cp_store : exists A, store_ok A kv;
  cp_view : forall op, op_fits op -> cache_view kv (key_word op) = F (key_word op);
  cp_inv : forall k e, F k = Some e -> Inv e
}.

Section batch.
Context (Inv : entry -> Prop) (ops : list Z) (h : handler) `{!HandlerOk Inv ops h}.
Context (skips : mica_resp -> bool).

(** A hit rewrites the entry of its key and keeps the rest of the view. *)
Lemma coupled_write A kv F op p e :
  coupled Inv kv F -> store_ok A kv -> op_fits op ->
  kv_ptr kv op = Some p -> entry_key (ht_log kv) p = key_word op ->
  Inv e -> e_val_len e = ht_log kv (p + 17) ->
  let kv' := set_log (store_entry (ht_log kv) p e) kv in
  coupled Inv kv' (fupd F (key_word op) (Some e)) /\ (forall o, kv_ptr kv' o = kv_ptr kv o).
Proof using All.
  intros [_ Hview Hinv] Hok Hf Hp Hk He Hlen kv'. split; [|done].
  pose proof (handler_wf e He) as [Hem Hel Hev]. change HERD_VALUE_SIZE with 32 in Hel.
  assert (Hout : forall a, a < p \/ p + 50 <= a ->
    store_entry (ht_log kv) p e a = ht_log kv a).
  { intros a Ha. unfold store_entry, VALUE_OFF. rewrite store_bytes_out by lia.
    apply store_bytes_out. rewrite length_encode_meta. lia. }
  assert (Hkeep : forall i, 8 <= i < 16 \/ i = 17 ->
    store_entry (ht_log kv) p e (p + i) = ht_log kv (p + i)).
  { intros i Hi. unfold store_entry, VALUE_OFF. rewrite store_bytes_out by lia.
    apply store_bytes_out. rewrite length_encode_meta. lia. }
  split.
  - eexists. by apply (store_ok_rewrite A kv op p _ Hok Hf Hp Hk Hout Hkeep).
  - intros o Ho. unfold cache_view. rewrite kv_ptr_key_op by done.
    change (kv_ptr kv' o) with (kv_ptr kv o). unfold kv'. cbn [ht_log set_log].
    destruct (Z.eq_dec (key_word o) (key_word op)) as [E|E].
    + assert (Hpo : kv_ptr kv o = Some p).
      { by rewrite <- Hp, <- (kv_ptr_key_op kv o), <- (kv_ptr_key_op kv op), E by done. }
      rewrite Hpo, E, fupd_eq.
      rewrite (rewrite_key A kv op p _ Hok Hf Hp Hk Hout Hkeep), Z.eqb_refl. f_equal.
      apply load_entry_store; [by apply meta_ok_fits|done|done].
    + rewrite fupd_ne by done. rewrite <- Hview by done. unfold cache_view.
      rewrite kv_ptr_key_op by done. destruct (kv_ptr kv o) as [q|] eqn:Hq; [|done].
      rewrite (rewrite_keeps_keys A kv op p _ Hok Hf Hp Hk Hout Hkeep o q Hq).
      destruct (Z.eqb_spec (entry_key (ht_log kv) q) (key_word o)) as [Eq|]; [|done]. f_equal.
      apply load_entry_ext.
      * apply (rewrite_keeps_entry A kv op p _ Hok Hf Hp Hk Hout Hkeep o q Hq). congruence.
      * destruct (kv_ptr_Some _ _ _ _ Hok Hq) as (j & s & _ & _ & _ & -> & Heo).
        exact (proj2 (eo_len _ _ _ _ Heo)).
  - intros k e'. unfold fupd. zcase; [|apply Hinv]. by intros [= <-].
Qed.

Lemma cache_exec_one_view kv F op r :
  coupled Inv kv F -> op_fits op ->
  (forall e, F (key_word op) = Some e -> legal (e_val_len e) op) ->
  opcode op ∈ ops ->
  exists kv' F' op' r',
    cache_exec_one skips h kv op r (kv_ptr kv op) = Done (kv', op', r') /\
    view_exec_one skips h (value_addr kv) F op r = Done (F', op', r') /\
    coupled Inv kv' F' /\ (forall o, kv_ptr kv' o = kv_ptr kv o) /\
    (forall k, e_val_len <$> F' k = e_val_len <$> F k).
Proof using All.
  intros Hc Hf Hleg Hop. unfold cache_exec_one, view_exec_one.
  destruct (skips r); [by eexists _, _, _, _|].
  pose proof (cp_view _ _ _ Hc op Hf) as Hv. unfold cache_view in Hv.
  rewrite kv_ptr_key_op in Hv by done. unfold value_addr. rewrite kv_ptr_key_op by done.
  destruct (kv_ptr kv op) as [p|] eqn:Hp.
  2:{ rewrite <- Hv. by eexists _, _, _, _. }
  fold (entry_key (ht_log kv) p).
  destruct (Z.eqb_spec (entry_key (ht_log kv) p) (key_word op)) as [Hk|].
  2:{ rewrite <- Hv. by eexists _, _, _, _. }
  set (e := load_entry (ht_log kv) p) in *. symmetry in Hv. rewrite Hv.
  pose proof (cp_inv _ _ _ Hc _ _ Hv) as He. simpl default.
  destruct (handler_runs (p + VALUE_OFF) e op r He (Hleg e Hv) Hop)
    as (e' & op' & r' & E & He' & Hl').
  rewrite E. cbn [obind]. destruct (cp_store _ _ _ Hc) as [A HA].
  destruct (coupled_write A kv F op p e' Hc HA Hf Hp Hk He' Hl') as [Hc' Hptr].
  eexists _, _, _, _. split_and!; try done.
  intros k. unfold fupd. zcase; [|done]. subst k. rewrite Hv. simpl. by rewrite Hl'.
Qed.

Lemma cache_exec_view kv F l l0 (addr : Z -> Z) :
  coupled Inv kv F ->
  Forall (fun x => op_fits x.1 /\ opcode x.1 ∈ ops /\
    forall e, F (key_word x.1) = Some e -> legal (e_val_len e) x.1) l ->
  (forall k, addr k = value_addr kv k) ->
  l0 = (fun x => (x.1, x.2, kv_ptr kv x.1)) <$> l ->
  exists kv' F' l', cache_exec skips h kv l0 = Done (kv', l') /\
    view_exec skips h addr F l = Done (F', l') /\ coupled Inv kv' F'.
Proof using All.
  revert kv F l0. induction l as [|[op r] l IH]; intros kv F l0 Hc Hl Haddr ->.
  { by eexists _, _, _. }
  apply Forall_cons in Hl as [(Hf & Hop & Hleg) Hl]. simpl in *.
  destruct (cache_exec_one_view kv F op r Hc Hf Hleg Hop)
    as (kv1 & F1 & op1 & r1 & E1 & V1 & Hc1 & Hptr & Hlen).
  rewrite E1. cbn [obind].
  assert (V1' : view_exec_one skips h addr F op r = Done (F1, op1, r1)).
  { rewrite <- V1. unfold view_exec_one. destruct (skips r); [done|].
    destruct (F (key_word op)); [|done]. by rewrite Haddr. }
  rewrite V1'. cbn [obind].
  destruct (IH kv1 F1 ((fun x => (x.1, x.2, kv_ptr kv x.1)) <$> l) Hc1)
    as (kv' & F' & l' & E & V & Hc').
  - eapply Forall_impl; [exact Hl|]. intros [o r'] (Hf' & Hop' & Hleg'). split_and!; try done.
    simpl in *. intros e He. specialize (Hlen (key_word o)). rewrite He in Hlen. simpl in Hlen.
    destruct (F (key_word o)) as [e0|] eqn:E0; [|done]. injection Hlen as ->. by apply Hleg'.
  - intros k. rewrite Haddr. unfold value_addr. by rewrite Hptr.
  - apply list_fmap_ext. intros i x _. by rewrite Hptr.
  - exists kv', F', ((op1, r1) :: l'). rewrite V. split_and!; [|done|done].
    exact (f_equal (fun o => let* (kv, rest) := o in Done (kv, (op1, r1) :: rest)) E).
Qed.
End batch.

(** ** Population *)

(** Every entry the lookup can reach satisfies [P]. *)
Definition all_entries (P : entry -> Prop) (kv : mica_kv) : Prop :=
  forall b j s, in_index kv b j s -> live kv s ->
    P (load_entry (ht_log kv) (offset s mod log_cap kv)).

Definition fresh_meta : cache_meta := mkMeta VALID_STATE 0 0 0 0.
Definition fresh_entry : entry := mkEntry fresh_meta HERD_VALUE_SIZE (replicate 32 97).

Lemma cache_populate_op_eq k op :
  cache_populate_op k HERD_VALUE_SIZE op
  = mkOp fresh_meta (u32 k.2) (u16 (Z.shiftr k.2 32)) (Z.shiftr k.2 48) CACHE_OP_PUT 32
      (replicate 32 97 ++ drop 32 (value op)).
Proof. by destruct op as [[] ? ? ? ? ? ?]. Qed.

Lemma cache_populate_op_fits k op :
  is_u64 k.2 -> op_fits op -> op_fits (cache_populate_op k HERD_VALUE_SIZE op).
Proof.
  intros Hk Hop. rewrite cache_populate_op_eq. split; simpl.
  - split; simpl; unfold is_u8, is_u32, VALID_STATE; lia.
  - apply u32_range.
  - apply u16_range.
  - apply (shiftr_bound (snd k) 48 16); [lia..|exact Hk].
  - unfold is_u8, CACHE_OP_PUT. lia.
  - unfold is_u8. lia.
  - rewrite length_drop, (of_value _ Hop). done.
  - apply (Forall_app_2 _ (replicate 32 97)); [|apply Forall_drop, Hop].
    apply (Forall_replicate is_u8 32 97). unfold is_u8. lia.
Qed.

Lemma inserted_entry m p k op :
  is_u64 k.2 -> op_fits op ->
  load_entry (store_bytes m p (take 50 (encode_op (cache_populate_op k HERD_VALUE_SIZE op)))) p
  = fresh_entry.
Proof.
  intros Hk Hop. pose proof (cache_populate_op_fits k op Hk Hop) as Hf.
  set (op' := cache_populate_op k HERD_VALUE_SIZE op) in *.
  assert (Hm : meta op' = fresh_meta /\ val_len op' = 32 /\ take 32 (value op') = replicate 32 97).
  { unfold op'. rewrite cache_populate_op_eq. done. }
  destruct Hm as (Hm & Hl & Hv). clearbody op'. clear Hop.
  destruct (stored_entry m p op' Hf ltac:(rewrite Hl; done)) as (_ & E17 & E).
  destruct (load_stored_header m p op' 32 Hf) as (Em & _); [change max_value_len with 46%nat; lia|].
  change (18 + 32)%nat with 50%nat in Em.
  unfold load_entry, entry_val in *. cbn [meta load_op] in Em. rewrite Em, E17, Hm, Hl. rewrite E17, Hl in E.
  rewrite E. change (Z.to_nat 32) with 32%nat. by rewrite Hv.
Qed.

Lemma all_entries_insert (P : entry -> Prop) A kv kv' op :
  store_ok A kv -> op_fits op -> val_len op <= HERD_VALUE_SIZE ->
  log_head kv + 58 < 2 ^ 40 -> mica_insert_one kv op = Done kv' ->
  P (load_entry (ht_log kv') (log_head kv mod log_cap kv)) ->
  all_entries P kv -> all_entries P kv'.
Proof.
  intros Hok Hf Hv Hroom Hins Hnew Hall b j s Hin Hl.
  destruct (insert_fields A kv kv' op Hok Hroom Hins) as (Ei & _ & _ & En & _ & Ec & _).
  rewrite Ec. destruct (in_index_insert _ _ _ _ _ _ _ _ Ei En Hin) as [(-> & -> & ->)|[Hold _]].
  - exact Hnew.
  - destruct (insert_old_live A kv kv' op Hok Hroom Hins s Hl) as [Hlive _].
    rewrite (load_entry_ext (ht_log kv)); [by eapply Hall| |].
    + by apply (insert_old_bytes A kv kv' op Hok Hf Hv Hroom Hins b j).
    + exact (proj2 (eo_len _ _ _ _ (so_entries _ _ Hok _ _ _ Hold Hlive))).
Qed.

Lemma cache_populate_loop_ok ks A kv op :
  op_fits op -> store_ok A kv -> all_entries (fun e => e = fresh_entry) kv ->
  Forall (fun k => is_u64 k.1 /\ is_u64 k.2) ks ->
  log_head kv + 56 * Z.of_nat (length ks) < log_cap kv - 78 ->
  exists kv' A', cache_populate_loop kv HERD_VALUE_SIZE op ks = Done kv' /\ store_ok A' kv' /\
    all_entries (fun e => e = fresh_entry) kv' /\
    log_head kv' = log_head kv + 56 * Z.of_nat (length ks) /\
    num_insert_op kv' = num_insert_op kv + Z.of_nat (length ks).
Proof.
  revert A kv op. induction ks as [|k ks IH]; intros A kv op Hop Hok Hall Hks Hroom.
  { exists kv, A. simpl. split_and!; eauto; lia. }
  apply Forall_cons in Hks as [[_ Hk] Hks]. cbn [length] in Hroom.
  pose proof (cap_bounds kv (so_geometry _ _ Hok)) as [Hcap _].
  cbn [cache_populate_loop].
  pose proof (cache_populate_op_fits k op Hk Hop) as Hf'.
  pose proof (inserted_entry (ht_log kv) (log_head kv mod log_cap kv) k op Hk Hop) as Hins.
  assert (Hv : val_len (cache_populate_op k HERD_VALUE_SIZE op) <= HERD_VALUE_SIZE)
    by (rewrite cache_populate_op_eq; done).
  set (op' := cache_populate_op k HERD_VALUE_SIZE op) in *.
  destruct (insert_keeps_geometry kv op' (so_geometry _ _ Hok)) as (kv1 & E & _ & Ec & En & Eh);
    [lia|].
  pose proof (store_ok_insert A kv kv1 op' Hok Hf' Hv ltac:(lia) E) as Hok1.
  assert (Eh1 : log_head kv1 = log_head kv + 56).
  { rewrite Eh, next_head_eq by (apply Hok || lia). cbv zeta. repeat zcase; simpl; try done; lia. }
  destruct (insert_fields A kv kv1 op' Hok ltac:(lia) E) as (_ & El & _).
  destruct (IH (put_map A op') kv1 op' Hf' Hok1) as (kv' & A' & E' & Hok' & Hall' & Eh' & En');
    [|done|lia|].
  { apply (all_entries_insert _ A kv kv1 op'); try done; [lia|]. by rewrite El. }
  exists kv', A'. rewrite E. cbn [obind length]. split_and!; try done; lia.
Qed.

(** The view of a store whose reachable entries satisfy [Inv]. *)
Lemma coupled_view (Inv : entry -> Prop) A kv :
  store_ok A kv -> all_entries Inv kv -> coupled Inv kv (cache_view kv).
Proof.
  intros Hok Hall. split; [by exists A|done|].
  intros k e. unfold cache_view. destruct (kv_ptr kv (key_op k)) as [p|] eqn:Hp; [|done].
  destruct (kv_ptr_Some _ _ _ _ Hok Hp) as (j & s & Hin & Hl & _ & -> & _).
  zcase; [|done]. intros [= <-]. by eapply Hall.
Qed.

Lemma fresh_lin_wf : lin_wf fresh_entry.
Proof.
  split.
  - split; simpl; [|unfold HERD_VALUE_SIZE, BASE_VALUE_SIZE; simpl; lia|done].
    split; simpl; unfold is_u8, is_u32, VALID_STATE; try done; lia.
  - unfold VALID_STATE, WRITE_REPLAY_STATE. simpl. unfold VALID_STATE. lia.
  - done.
Qed.

Lemma cache_init_runs shm_index shm_log op cache_id :
  (forall i, length (shm_index i) = 8%nat) -> op_fits op ->
  exists kv A, cache_init shm_index shm_log op cache_id = Done kv /\
    log_head kv = 56 * CACHE_NUM_KEYS /\ store_ok A kv /\
    all_entries (fun e => e = fresh_entry) kv.
Proof.
  intros Hidx Hop. unfold cache_init. change HERD_LOG_CAP with (2 ^ 30).
  destruct (mica_init_ok shm_index shm_log cache_id CACHE_SOCKET CACHE_NUM_BKTS 30)
    as (kv0 & E0 & Hok & Hc & Hh & Hi & He); [by left|done|done|lia|done|].
  rewrite E0. cbn [obind]. unfold cache_populate_fixed_len.
  destruct (gen_keys_total (Z.to_nat CACHE_NUM_KEYS) 0 ltac:(lia)) as (keys & Ek & Hkl & Hku).
  assert (Eg : mica_gen_keys CACHE_NUM_KEYS = Done keys) by exact Ek.
  rewrite Eg, Hi, He. simpl.
  assert (Hlen : Z.of_nat (length (reverse keys)) = CACHE_NUM_KEYS).
  { unfold uint128 in *. rewrite length_reverse, Hkl. apply Z2Nat.id. unfold CACHE_NUM_KEYS. lia. }
  clear Ek Hkl Eg. unfold uint128 in *.
  destruct (cache_populate_loop_ok (reverse keys) (fun _ => None) kv0 op)
    as (kv & A & Ep & Hok' & Hall & Eh & En); [exact Hop|exact Hok| | | |].
  - intros b j s Hin Hl. pose proof (so_entries _ _ Hok b j s Hin Hl) as [_ _ _ _ _ [=]].
  - by apply Forall_reverse.
  - rewrite Hlen, Hc, Hh. unfold CACHE_NUM_KEYS. lia.
  - rewrite Ep. cbn [obind]. exists kv, A. rewrite Hlen in *.
    rewrite (proj2 (Z.eqb_eq _ _)) by lia. split_and!; [reflexivity|lia|exact Hok'|exact Hall].
Qed.

(** ** Properties of the cache *)

(** C27: no cache handler of the linearizable protocol ever aborts or blocks on
    an object at rest: for every state of the 5-state machine and every legal
    operation (client GET/PUT, incoming update, invalidation, acknowledgement)
    it completes, leaves the lock free, the version even, the state one of the
    five and, while a write is pending, an acknowledgement count between 1 and
    [MACHINE_NUM - 1]; and the object's timestamp never moves backwards while
    the 32-bit version does not wrap. *)
Theorem lin_op_invariant mid vp e op r :
  is_u8 mid -> lin_wf e -> legal (e_val_len e) op ->
  opcode op ∈ [CACHE_OP_GET; CACHE_OP_PUT; CACHE_OP_UPD; CACHE_OP_INV; CACHE_OP_ACK; CACHE_OP_BRC] ->
  exists e' op' r', lin_op mid vp e op r = Done (e', op', r') /\ lin_wf e' /\
    e_val_len e' = e_val_len e /\
    (version (e_meta e) + 2 < 2 ^ 32 -> ts_le (eff_ts mid (e_meta e)) (eff_ts mid (e_meta e'))).
Proof. apply lin_op_keeps. Qed.

(** The sequentially consistent handlers complete on every object at rest
    and keep it at rest; a local write takes the version to the next even
    number, an incoming update is applied exactly when its (version, machine)
    timestamp is greater than the stored one, so timestamps never move
    backwards. *)
Theorem sc_op_invariant mid vp e op r :
  entry_wf e -> legal (e_val_len e) op ->
  opcode op ∈ [CACHE_OP_GET; CACHE_OP_PUT; CACHE_OP_UPD; CACHE_OP_BRC] ->
  exists e' op' r', sc_op mid vp e op r = Done (e', op', r') /\ entry_wf e' /\
    e_val_len e' = e_val_len e /\
    (opcode op = CACHE_OP_PUT -> version (e_meta e') = u32 (version (e_meta e) + 2) /\
       cid (e_meta e') = u8 mid /\ ts_of (meta op') = ts_of (e_meta e')) /\
    (opcode op = CACHE_OP_UPD ->
       (ts_lt (ts_of (e_meta e)) (ts_of (meta op)) /\ ts_of (e_meta e') = ts_of (meta op) /\
        e_value e' = take (Z.to_nat (e_val_len e)) (value op)) \/
       (~ ts_lt (ts_of (e_meta e)) (ts_of (meta op)) /\ e' = e)) /\
    (version (e_meta e) + 2 < 2 ^ 32 -> ts_le (ts_of (e_meta e)) (ts_of (e_meta e'))).
Proof.
  intros He Hl Hop.
  destruct (sc_op_runs mid vp e op r He Hl Hop) as (e' & op' & r' & E & H1 & H2 & H3).
  exists e', op', r'. split_and!; try done.
  - intros Ho. unfold sc_op in E. rewrite Ho in E. simpl in E.
    rewrite sc_put_eq in E by (done || apply Hl; by left). injection E as <- <- _. done.
  - intros Ho. unfold sc_op in E. rewrite Ho in E. simpl in E.
    rewrite sc_upd_eq in E; [|done|split; [apply Hl|apply Hl; by left]|apply Hl; by right].
    destruct (ts_ltb_spec (ts_of (e_meta e)) (ts_of (meta op)));
      injection E as <- _ _; [by left|by right].
Qed.

(** C20: [cache_batch_op_lin_non_stalling_sessions] implements the abstract
    cache: a map from keys to objects on which the operations of the batch
    execute one after the other.  The batch completes; the responses and the
    rewritten operations are those of the abstract run, an absent key is a
    miss, and the log afterwards holds exactly the abstract objects (no
    operation touches the entry of another key). *)
Theorem cache_batch_lin_refines mid kv F l :
  is_u8 mid -> coupled lin_wf kv F ->
  Forall (fun x => op_fits x.1 /\
    opcode x.1 ∈ [CACHE_OP_GET; CACHE_OP_PUT; CACHE_OP_UPD; CACHE_OP_INV; CACHE_OP_ACK; CACHE_OP_BRC] /\
    forall e, F (key_word x.1) = Some e -> legal (e_val_len e) x.1) l ->
  exists kv' F' l', cache_batch_op_lin_non_stalling_sessions mid kv l = Done (kv', l') /\
    view_exec lin_skips (lin_op mid) (value_addr kv) F l = Done (F', l') /\
    coupled lin_wf kv' F'.
Proof.
  intros Hmid Hc Hl. pose proof (lin_op_HandlerOk mid Hmid).
  by apply (cache_exec_view lin_wf _ (lin_op mid) lin_skips kv F l _ (value_addr kv)).
Qed.

(** C21: the same for [cache_batch_op_sc]. *)
Theorem cache_batch_sc_refines mid kv F l :
  coupled entry_wf kv F ->
  Forall (fun x => op_fits x.1 /\
    opcode x.1 ∈ [CACHE_OP_GET; CACHE_OP_PUT; CACHE_OP_UPD; CACHE_OP_BRC] /\
    forall e, F (key_word x.1) = Some e -> legal (e_val_len e) x.1) l ->
  exists kv' F' l', cache_batch_op_sc mid kv l = Done (kv', l') /\
    view_exec sc_skips (sc_op mid) (value_addr kv) F l = Done (F', l') /\
    coupled entry_wf kv' F'.
Proof.
  intros Hc Hl.
  by apply (cache_exec_view entry_wf _ (sc_op mid) sc_skips kv F l _ (value_addr kv)).
Qed.

(** C28: [cache_init] completes for the deployed sizes (no assertion fails, the
    log does not wrap) and leaves a cache in which every object present is
    VALID, unlocked, at version 0, with the initial value, so that the
    protocols start from the invariant. *)
Theorem cache_init_ok shm_index shm_log op cache_id :
  (forall i, length (shm_index i) = 8%nat) -> op_fits op ->
  exists kv, cache_init shm_index shm_log op cache_id = Done kv /\
    log_head kv = 56 * CACHE_NUM_KEYS /\ coupled lin_wf kv (cache_view kv) /\
    forall k e, cache_view kv k = Some e -> e = fresh_entry.
Proof.
  intros Hidx Hop.
  destruct (cache_init_runs shm_index shm_log op cache_id Hidx Hop) as (kv & A & E & Hh & Hok & Hall).
  exists kv. split_and!; [exact E|exact Hh| |].
  - apply (coupled_view lin_wf A kv Hok). intros b j s Hin Hl. rewrite (Hall b j s Hin Hl).
    apply fresh_lin_wf.
  - apply (cp_inv _ _ _ (coupled_view (fun e => e = fresh_entry) A kv Hok Hall)).
Qed.

(** The session rule of writes: over a pending local write only a session
    at least as high (strictly higher when a reader waits) may overwrite; an
    accepted write makes the object wait for [MACHINE_NUM - 1] acknowledgements
    of the new version and turns the request into a broadcast stamped with it;
    any other write leaves object and request as they were. *)
Theorem lin_put_session_rule mid e op r :
  lin_wf e -> val_len op = e_val_len e ->
  exists e' op' r', lin_put mid e op r = Done (e', op', r') /\
    match decide_put (e_meta e) (cid (meta op)) with
    | Accept =>
        resp_type r' = CACHE_PUT_SUCCESS /\ opcode op' = CACHE_OP_BRC /\
        writing (e_meta e') = true /\ pending_acks (e_meta e') = MACHINE_NUM - 1 /\
        cid (e_meta e') = cid (meta op) /\
        ts_of (meta op') = (version (e_meta e'), u8 mid) /\
        version (e_meta e') = u32 (version (e_meta e) + 2) /\
        replay (e_meta e') = (state (e_meta e) =? WRITE_REPLAY_STATE) /\
        e_value e' = take (Z.to_nat (e_val_len e)) (value op)
    | Reject => resp_type r' = CACHE_PUT_FAIL /\ e' = e /\ op' = op
    | Stall => resp_type r' = CACHE_PUT_STALL /\ e' = e /\ op' = op
    end.
Proof.
  intros Hw Hv. rewrite lin_put_eq by done.
  destruct (decide_put _ _); eexists _, _, _; (split; [reflexivity|]); try done.
  simpl. unfold writing, replay. simpl.
  destruct (state (e_meta e) =? WRITE_REPLAY_STATE); split_and!; reflexivity.
Qed.

(** ** Concrete instances *)
Definition demo_key : uint128 := (0, key_word demo_put).
Definition demo_obj : cache_op := cache_populate_op demo_key HERD_VALUE_SIZE demo_put.
Definition demo_cache : mica_kv := done_or (mica_insert_one demo_kv demo_obj) demo_kv.
Definition demo_cput : cache_op := set_opcode CACHE_OP_PUT demo_put.
Definition demo_cget : cache_op := set_opcode CACHE_OP_GET demo_put.
Definition demo_batch : list (cache_op * mica_resp) :=
  [(demo_cput, mkResp EMPTY 0 None); (demo_cget, mkResp EMPTY 0 None)].

Lemma demo_key_u64 : is_u64 demo_key.2.
Proof. vm_compute. split; [discriminate|reflexivity]. Qed.

Lemma demo_cache_coupled : coupled (fun e => e = fresh_entry) demo_cache (cache_view demo_cache).
Proof.
  assert (Hf : op_fits demo_obj).
  { apply cache_populate_op_fits; [apply demo_key_u64|apply demo_fits; by left]. }
  assert (Hins : mica_insert_one demo_kv demo_obj = Done demo_cache) by reflexivity.
  apply (coupled_view _ (put_map (fun _ => None) demo_obj)).
  - apply (store_ok_insert (fun _ => None) demo_kv demo_cache demo_obj demo_store_ok Hf);
      [done|reflexivity|exact Hins].
  - apply (all_entries_insert _ (fun _ => None) demo_kv demo_cache demo_obj demo_store_ok Hf);
      [done|reflexivity|exact Hins| |].
    + destruct (insert_fields (fun _ => None) demo_kv demo_cache demo_obj demo_store_ok)
        as (_ & El & _); [reflexivity|exact Hins|].
      rewrite El. apply inserted_entry; [apply demo_key_u64|apply demo_fits; by left].
    + intros b j s Hin Hl. pose proof (so_entries _ _ demo_store_ok b j s Hin Hl) as [_ _ _ _ _ [=]].
Qed.

Lemma coupled_weaken (P Q : entry -> Prop) kv F :
  (forall e, P e -> Q e) -> coupled P kv F -> coupled Q kv F.
Proof. intros H [H1 H2 H3]. split; eauto. Qed.

Lemma demo_legal op :
  op = demo_cput \/ op = demo_cget -> op_fits op /\ legal HERD_VALUE_SIZE op.
Proof.
  intros Ho. assert (Hf : op_fits op).
  { destruct Ho as [-> | ->];
      [pose proof (demo_fits demo_put ltac:(by left)) as []
      |pose proof (demo_fits demo_get ltac:(by right)) as []]; by split. }
  split; [done|]. destruct Ho as [-> | ->]; (split; [done|done|]); by intros [?|[?|?]].
Qed.

Lemma demo_batch_ok (ops : list Z) :
  CACHE_OP_GET ∈ ops -> CACHE_OP_PUT ∈ ops ->
  Forall (fun x => op_fits x.1 /\ opcode x.1 ∈ ops /\
    forall e, cache_view demo_cache (key_word x.1) = Some e -> legal (e_val_len e) x.1) demo_batch.
Proof.
  intros Hg Hp. apply Forall_forall. intros x Hx%list_elem_of_In.
  assert (Hx1 : x.1 = demo_cput \/ x.1 = demo_cget) by (destruct Hx as [<- | [<- | []]]; tauto).
  destruct (demo_legal _ Hx1) as [Hf Hl]. split_and!; [done| |].
  - destruct Hx1 as [-> | ->]; done.
  - intros e He. apply (cp_inv _ _ _ demo_cache_coupled) in He. by subst.
Qed.

Lemma lin_op_invariant_witness :
  exists e' op' r', lin_op 1 0 fresh_entry demo_cput (mkResp EMPTY 0 None) = Done (e', op', r') /\
    lin_wf e' /\ e_val_len e' = 32 /\
    (version fresh_meta + 2 < 2 ^ 32 -> ts_le (eff_ts 1 fresh_meta) (eff_ts 1 (e_meta e'))).
Proof.
  apply (lin_op_invariant 1 0 fresh_entry demo_cput (mkResp EMPTY 0 None)).
  - unfold is_u8. lia.
  - apply fresh_lin_wf.
  - apply demo_legal. left. reflexivity.
  - right. left.
Defined.

Lemma sc_op_invariant_witness :
  exists e' op' r', sc_op 1 0 fresh_entry demo_cput (mkResp EMPTY 0 None) = Done (e', op', r') /\
    entry_wf e' /\ e_val_len e' = 32.
Proof.
  destruct (sc_op_invariant 1 0 fresh_entry demo_cput (mkResp EMPTY 0 None))
    as (e' & op' & r' & E & H1 & H2 & _).
  - apply fresh_lin_wf.
  - apply demo_legal. left. reflexivity.
  - right. left.
  - exists e', op', r'. split; [exact E|]. split; [exact H1|exact H2].
Defined.

Lemma cache_batch_lin_refines_witness :
  exists kv' F' l', cache_batch_op_lin_non_stalling_sessions 1 demo_cache demo_batch = Done (kv', l') /\
    view_exec lin_skips (lin_op 1) (value_addr demo_cache) (cache_view demo_cache) demo_batch
      = Done (F', l') /\ coupled lin_wf kv' F'.
Proof.
  apply (cache_batch_lin_refines 1 demo_cache (cache_view demo_cache) demo_batch).
  - unfold is_u8. lia.
  - apply (coupled_weaken (fun e => e = fresh_entry)); [|apply demo_cache_coupled].
    intros e ->. apply fresh_lin_wf.
  - apply demo_batch_ok; [left|right; left].
Defined.

Lemma cache_batch_sc_refines_witness :
  exists kv' F' l', cache_batch_op_sc 1 demo_cache demo_batch = Done (kv', l') /\
    view_exec sc_skips (sc_op 1) (value_addr demo_cache) (cache_view demo_cache) demo_batch
      = Done (F', l') /\ coupled entry_wf kv' F'.
Proof.
  apply (cache_batch_sc_refines 1 demo_cache (cache_view demo_cache) demo_batch).
  - apply (coupled_weaken (fun e => e = fresh_entry)); [|apply demo_cache_coupled].
    intros e ->. apply fresh_lin_wf.
  - apply demo_batch_ok; [left|right; left].
Defined.

Lemma cache_init_ok_witness :
  exists kv, cache_init demo_index (fun _ => 0) demo_put 0 = Done kv /\
    log_head kv = 56 * CACHE_NUM_KEYS /\ coupled lin_wf kv (cache_view kv) /\
    forall k e, cache_view kv k = Some e -> e = fresh_entry.
Proof.
  apply (cache_init_ok demo_index (fun _ => 0) demo_put 0); [apply demo_index_len|].
  apply demo_fits. left. reflexivity.
Defined.

Lemma lin_put_session_rule_witness :
  exists e' op' r', lin_put 1 fresh_entry demo_cput (mkResp EMPTY 0 None) = Done (e', op', r') /\
    resp_type r' = CACHE_PUT_SUCCESS /\ pending_acks (e_meta e') = 3.
Proof.
  destruct (lin_put_session_rule 1 fresh_entry demo_cput (mkResp EMPTY 0 None))
    as (e' & op' & r' & E & H1 & _ & _ & H2 & _); [apply fresh_lin_wf|reflexivity|].
  exists e', op', r'. split; [exact E|]. split; [exact H1|exact H2].
Defined.
