(* ===== verification/Interleave.v ===== *)
(** * Threads inside one object

    The handlers of [Cache] are atomic transitions of an object; in the program
    several client threads (or worker threads) of a machine run them at the same
    time on the same object, and only the OPTIK lock and version of
    include/optik/optik_mod.h keep them apart.  Here a handler is a program of
    single memory accesses, the accesses of the threads interleave freely, and
    the object must still behave like an atomic one: every history of calls and
    returns is a history of [atomic_step], in which a locked operation takes
    effect at one moment between its call and its return, and a lock-free read
    answers for the object as it was at such a moment.

    The accesses are the ones the C code performs: the 8-byte metadata is
    copied at once, its fields are stored one by one, values byte by byte;
    accesses take effect in program order.  The programs of the handlers, and the
    proof that they satisfy the interface [Interleaved], are in
    [LockedHandlers]. *)
From S2P Require Import Prelude Config Optik Layout City Mica MicaLog Cache CacheSpec.

(** ** Programs of memory accesses *)

(** A store to a field of the metadata or to a byte of the value. *)
Inductive store :=
| StState (s : Z)
| StAcks (n : Z)
| StCid (c : Z)
| StVersion (v : Z)
| StLock (l : Z)
| StByte (i : nat) (b : Z).

Definition do_store (s : store) (e : entry) : entry :=
  match s with
  | StState s => with_meta (set_state s (e_meta e)) e
  | StAcks n => with_meta (set_pending_acks n (e_meta e)) e
  | StCid c => with_meta (set_cid c (e_meta e)) e
  | StVersion v => with_meta (set_version v (e_meta e)) e
  | StLock l => with_meta (set_lock l (e_meta e)) e
  | StByte i b => mkEntry (e_meta e) (e_val_len e) (<[i := b]> (e_value e))
  end.

(** [Cas] is the loop of [optik_lock] around [CAS_U8(&ol->lock, 0, 1)]; [Retry]
    the next iteration of the [do ... while] of a lock-free read, with the
    response as the last iteration left it; [Crash] a failed assertion. *)
Inductive prog :=
| Ret (op : cache_op) (r : mica_resp)
| LoadMeta (k : cache_meta -> prog)
| LoadLen (k : Z -> prog)
| Store (s : store) (p : prog)
| Cas (p : prog)
| Retry (r : mica_resp)
| Crash.

Definition optik_lock_p (k : prog) : prog :=
  Cas (LoadMeta (fun m => Store (StVersion (u32 (version m + 1))) k)).

Definition optik_unlock_write_p (c : Z) (k : Z -> prog) : prog :=
  Store (StCid c) (LoadMeta (fun m =>
  let v := u32 (version m + 1) in
  Store (StVersion v) (Store (StLock OPTIK_FREE) (k v)))).

Definition optik_unlock_decrement_version_p (k : prog) : prog :=
  LoadMeta (fun m =>
  Store (StVersion (u32 (version m - 1))) (LoadMeta (fun m =>
  if version m mod 2 =? 0 then Store (StLock OPTIK_FREE) k else Crash))).

Definition optik_unlock_p (c v : Z) (k : prog) : prog :=
  if v mod 2 =? 0
  then Store (StCid c) (Store (StVersion v) (Store (StLock OPTIK_FREE) k))
  else Crash.

(** [memcpy(kv_ptr->value, op->value, kv_ptr->val_len)] *)
Fixpoint copy_bytes (i : nat) (bs : list Z) (k : prog) : prog :=
  match bs with
  | [] => k
  | b :: bs => Store (StByte i b) (copy_bytes (S i) bs k)
  end.

Definition memcpy_value_p (op : cache_op) (k : prog) : prog :=
  LoadLen (fun n => copy_bytes 0 (take (Z.to_nat n) (value op)) k).

(** What a caller observes of a returned operation: not the copy of the state
    that a GET leaves in the request for debugging, nor the pointer and length
    that a stalled GET leaves in the response from an earlier attempt. *)
Definition observed_op (op : cache_op) : cache_op := set_meta (set_state 0 (meta op)) op.
Definition observed_resp (r : mica_resp) : mica_resp :=
  if resp_type r =? CACHE_GET_STALL then mkResp CACHE_GET_STALL 0 None else r.

Inductive label :=
| Call (t : Z) (op : cache_op) (r : mica_resp)
| Return (t : Z) (op : cache_op) (r : mica_resp).

Definition returned (t : Z) (op : cache_op) (r : mica_resp) : label :=
  Return t (observed_op op) (observed_resp r).

(** Histories: the labels of a sequence of steps; [None] is an internal step. *)
Inductive history {C : Type} (step : C -> option label -> C -> Prop) : C -> list label -> C -> Prop :=
| history_nil c : history step c [] c
| history_tau c c' c'' h : step c None c' -> history step c' h c'' -> history step c h c''
| history_label c c' c'' l h :
    step c (Some l) c' -> history step c' h c'' -> history step c (l :: h) c''.

Lemma history_trans {C} (step : C -> option label -> C -> Prop) c1 c2 c3 h1 h2 :
  history step c1 h1 c2 -> history step c2 h2 c3 -> history step c1 (h1 ++ h2) c3.
Proof. induction 1; simpl; eauto using history. Qed.

Lemma history_one {C} (step : C -> option label -> C -> Prop) c l c' :
  step c l c' -> history step c (option_list l) c'.
Proof. destruct l; simpl; eauto using history. Qed.

(** A label of a step that may be internal. *)
Lemma history_cons {C} (step : C -> option label -> C -> Prop) c l c' h c'' :
  step c l c' -> history step c' h c'' -> history step c (option_list l ++ h) c''.
Proof. eauto using history_trans, history_one. Qed.

(** ** The threads of a machine on one object *)
Inductive thread :=
| Idle
| Running (op : cache_op) (r : mica_resp) (p : prog).

Record config := mkConfig { obj : entry; thr : Z -> thread }.

Section threads.
Context (ops : list Z) (h : handler) (P : cache_op -> mica_resp -> prog).
Context (vp n : Z).

(** [vp] is the address of the object's value and [n] its length. *)
Inductive thread_step : config -> option label -> config -> Prop :=
| step_call o T t op r :
    T t = Idle -> legal n op -> opcode op ∈ ops ->
    thread_step (mkConfig o T) (Some (Call t op r)) (mkConfig o (fupd T t (Running op r (P op r))))
| step_meta o T t op r k :
    T t = Running op r (LoadMeta k) ->
    thread_step (mkConfig o T) None (mkConfig o (fupd T t (Running op r (k (e_meta o)))))
| step_len o T t op r k :
    T t = Running op r (LoadLen k) ->
    thread_step (mkConfig o T) None (mkConfig o (fupd T t (Running op r (k (e_val_len o)))))
| step_store o T t op r s p :
    T t = Running op r (Store s p) ->
    thread_step (mkConfig o T) None (mkConfig (do_store s o) (fupd T t (Running op r p)))
| step_cas o T t op r p :
    T t = Running op r (Cas p) -> lock (e_meta o) = OPTIK_FREE ->
    thread_step (mkConfig o T) None
      (mkConfig (do_store (StLock OPTIK_LOCKED) o) (fupd T t (Running op r p)))
| step_spin o T t op r p :
    T t = Running op r (Cas p) -> lock (e_meta o) <> OPTIK_FREE ->
    thread_step (mkConfig o T) None (mkConfig o T)
| step_retry o T t op r r' :
    T t = Running op r (Retry r') ->
    thread_step (mkConfig o T) None (mkConfig o (fupd T t (Running op r (P op r'))))
| step_return o T t op r op' r' :
    T t = Running op r (Ret op' r') ->
    thread_step (mkConfig o T) (Some (returned t op' r')) (mkConfig o (fupd T t Idle)).

(** ** The specification: an atomic object

    A called operation remembers the objects that were current since its call.
    It either takes effect at once, or, when the handler would not change one of
    the objects it has seen, returns what the handler answers on it. *)
Inductive sthread :=
| SIdle
| SCalled (op : cache_op) (r : mica_resp) (seen : list entry)
| SDone (op : cache_op) (r : mica_resp).

Record atomic := mkAtomic { rest : entry; sthr : Z -> sthread }.

Definition observe (e : entry) (x : sthread) : sthread :=
  match x with SCalled op r seen => SCalled op r (e :: seen) | _ => x end.

Inductive atomic_step : atomic -> option label -> atomic -> Prop :=
| atomic_call e S t op r :
    S t = SIdle ->
    atomic_step (mkAtomic e S) (Some (Call t op r)) (mkAtomic e (fupd S t (SCalled op r [e])))
| atomic_commit e S t op r seen e' op' r' :
    S t = SCalled op r seen -> h vp e op r = Done (e', op', r') ->
    atomic_step (mkAtomic e S) None
      (mkAtomic e' (fupd (fun u => observe e' (S u)) t (SDone op' r')))
| atomic_return e S t op r :
    S t = SDone op r ->
    atomic_step (mkAtomic e S) (Some (returned t op r)) (mkAtomic e (fupd S t SIdle))
| atomic_read e S t op r seen x op' r' :
    S t = SCalled op r seen -> x ∈ seen -> h vp x op r = Done (x, op', r') ->
    atomic_step (mkAtomic e S) (Some (returned t op' r')) (mkAtomic e (fupd S t SIdle)).

End threads.

(** ** What a program must satisfy

    The predicates follow a program access by access.  [opening_ok] is the part
    between the compare-and-swap and the increment of the version, [storing_ok]
    the stores made while the version is odd, [published_ok] the part from the
    store that makes the version even to the release of the lock, [tail_ok] what
    follows.  [o] is the object as the holder of the lock sees it and [fin] the
    object it will publish; the state is stored with its final value only. *)
Definition same_answer (op op' : cache_op) (r r' : mica_resp) : Prop :=
  observed_op op = observed_op op' /\ observed_resp r = observed_resp r'.

Fixpoint tail_ok (p : prog) (op : cache_op) (r : mica_resp) : Prop :=
  match p with
  | Ret op' r' => same_answer op' op r' r
  | LoadMeta k => forall m, tail_ok (k m) op r
  | LoadLen k => forall l, tail_ok (k l) op r
  | _ => False
  end.

Fixpoint published_ok (p : prog) (o : entry) (op : cache_op) (r : mica_resp) : Prop :=
  match p with
  | LoadMeta k => published_ok (k (e_meta o)) o op r
  | Store s p => s = StLock OPTIK_FREE /\ tail_ok p op r
  | _ => False
  end.

Fixpoint storing_ok (p : prog) (o fin : entry) (op : cache_op) (r : mica_resp) : Prop :=
  match p with
  | LoadMeta k => storing_ok (k (e_meta o)) o fin op r
  | LoadLen k => storing_ok (k (e_val_len o)) o fin op r
  | Store s p =>
      let o' := do_store s o in
      match s with
      | StVersion _ => o' = do_store (StLock OPTIK_LOCKED) fin /\ published_ok p o' op r
      | StLock _ => False
      | StState s => s = state (e_meta fin) /\ storing_ok p o' fin op r
      | _ => storing_ok p o' fin op r
      end
  | _ => False
  end.

Fixpoint opening_ok (p : prog) (o fin : entry) (op : cache_op) (r : mica_resp) : Prop :=
  match p with
  | LoadMeta k => opening_ok (k (e_meta o)) o fin op r
  | Store (StVersion v) p => v mod 2 <> 0 /\ storing_ok p (do_store (StVersion v) o) fin op r
  | _ => False
  end.

(** The program run by the only thread on an object at rest does not go into
    another iteration of a lock-free read. *)
Fixpoint alone_ok (p : prog) (o : entry) : Prop :=
  match p with
  | LoadMeta k => alone_ok (k (e_meta o)) o
  | LoadLen k => alone_ok (k (e_val_len o)) o
  | Ret _ _ | Cas _ => True
  | _ => False
  end.

(** [seen] contains an object in state [s]. *)
Definition seen_state (seen : list entry) (s : Z) : Prop :=
  exists e, e ∈ seen /\ state (e_meta e) = s.

(** What a reader may conclude from the metadata it loaded, in this order: a
    state that was loaded no later than an even version is the state of an
    object that was current in the meantime. *)
Definition settled (obs : list cache_meta) (seen : list entry) : Prop :=
  forall (i j : nat) m m', obs !! i = Some m -> obs !! j = Some m' -> (i <= j)%nat ->
    version m' mod 2 = 0 -> seen_state seen (state m).

Section interface.
Context (Inv : entry -> Prop) (h : handler) (vp n : Z).

(** The code outside the lock: [obs] is what it has loaded so far. *)
Fixpoint unlocked_ok (op : cache_op) (r : mica_resp) (p : prog) (obs : list cache_meta) : Prop :=
  match p with
  | Ret op' r' =>
      forall seen, seen <> [] -> Forall (fun e => Inv e /\ e_val_len e = n) seen ->
        settled obs seen ->
        exists x op'' r'', x ∈ seen /\ h vp x op r = Done (x, op'', r'') /\ same_answer op' op'' r' r''
  | LoadMeta k => forall m, unlocked_ok op r (k m) (obs ++ [m])
  | LoadLen k => unlocked_ok op r (k n) obs
  | Cas p =>
      forall e, Inv e -> e_val_len e = n ->
        exists fin op' r', h vp e op r = Done (fin, op', r') /\
          opening_ok p (do_store (StLock OPTIK_LOCKED) e) fin op' r'
  | Retry _ => opcode op = CACHE_OP_GET
  | _ => False
  end.

End interface.

(** The interface between the programs and the interleaving theorems: the
    programs [P] of the opcodes [ops] implement the handler [h] on objects that
    satisfy [Inv]. *)
Class Interleaved (Inv : entry -> Prop) (ops : list Z) (h : handler)
    (P : Z -> cache_op -> mica_resp -> prog) : Prop := {
  il_handler :: HandlerOk Inv ops h;
  il_unlocked : forall vp n op r r', legal n op -> opcode op ∈ ops ->
    r' = r \/ opcode op = CACHE_OP_GET -> unlocked_ok Inv h vp n op r (P vp op r') [];
  il_alone : forall vp e op r, Inv e -> legal (e_val_len e) op -> opcode op ∈ ops ->
    alone_ok (P vp op r) e
}.

(** ** Observations *)

(** [pend] is the state about to be published, while the version is odd. *)
Definition observing (obs : list cache_meta) (seen : list entry) (pend : option Z) : Prop :=
  forall i m, obs !! i = Some m ->
    seen_state seen (state m) \/
    (pend = Some (state m) /\
     forall (j : nat) m', (i <= j)%nat -> obs !! j = Some m' -> version m' mod 2 <> 0).

Lemma observing_settled obs seen pend : observing obs seen pend -> settled obs seen.
Proof. intros H i j m m' Hi Hj Hle He. destruct (H i m Hi) as [|[_ Hodd]]; [done|]. naive_solver. Qed.

Lemma observing_nil seen pend : observing [] seen pend.
Proof. intros i m [=]. Qed.

Lemma observing_weaken obs seen pend : observing obs seen None -> observing obs seen pend.
Proof. intros H i m Hi. destruct (H i m Hi) as [|[[=] _]]. by left. Qed.

Lemma seen_state_cons e seen s : seen_state seen s -> seen_state (e :: seen) s.
Proof. intros (x & Hx & Es). exists x. split; [by right|done]. Qed.

(** The pending state becomes the current one. *)
Lemma observing_publish obs seen e :
  observing obs seen (Some (state (e_meta e))) -> observing obs (e :: seen) None.
Proof.
  intros H i m Hi. left. destruct (H i m Hi) as [|[[= E] _]]; [by apply seen_state_cons|].
  exists e. split; [by left|done].
Qed.

(** Loading the metadata once more. *)
Lemma observing_load obs seen pend m :
  observing obs seen pend ->
  seen_state seen (state m) \/ pend = Some (state m) ->
  (pend <> None -> version m mod 2 <> 0) ->
  observing (obs ++ [m]) seen pend.
Proof.
  intros H Hs Hodd i x Hx.
  assert (Hnew : pend <> None -> forall (j : nat) m', (i <= j)%nat -> (obs ++ [m]) !! j = Some m' ->
    (forall y, obs !! j = Some y -> version y mod 2 <> 0) -> version m' mod 2 <> 0).
  { intros Hp j m' _ Hj Hold. apply lookup_snoc_Some in Hj as [[_ Hj]|[_ <-]]; auto. }
  apply lookup_snoc_Some in Hx as [[Hlt Hx]|[-> <-]].
  - destruct (H i x Hx) as [|[Hp Hj]]; [by left|right]. split; [done|].
    intros j m' Hle Hj'. eapply Hnew; [by rewrite Hp|done|done|]. intros y Hy. by apply (Hj j y).
  - destruct Hs as [|Hp]; [by left|right]. split; [done|]. intros j m' Hle Hj'.
    eapply Hnew; [by rewrite Hp|done|done|]. intros y Hy%lookup_lt_Some. lia.
Qed.

(** ** The simulation *)
Lemma do_store_len s e : e_val_len (do_store s e) = e_val_len e.
Proof. by destruct s. Qed.

Lemma lock_unlock e :
  meta_ok (e_meta e) -> do_store (StLock OPTIK_FREE) (do_store (StLock OPTIK_LOCKED) e) = e.
Proof. intros H%mo_lock. destruct e as [[] ? ?]. simpl in *. unfold with_meta. simpl. by subst. Qed.

Section simulation.
Context {Inv : entry -> Prop} {ops : list Z} {h : handler}.
Context {P : Z -> cache_op -> mica_resp -> prog} {HI : Interleaved Inv ops h P}.
Context (vp n : Z).

Local Notation "'impl_step'" := (thread_step ops (P vp) n).
Local Notation "'spec_step'" := (atomic_step h vp).

Definition admissible (op : cache_op) : Prop := legal n op /\ opcode op ∈ ops.

(** The holder of the lock: [o] is the object in memory, [e] the current object
    of the specification, the last argument the state about to be published. *)
Inductive holding (o e : entry) : thread -> sthread -> option Z -> Prop :=
| hold_opening op r p seen fin op' r' :
    admissible op -> o = do_store (StLock OPTIK_LOCKED) e -> h vp e op r = Done (fin, op', r') ->
    opening_ok p o fin op' r' -> holding o e (Running op r p) (SCalled op r seen) None
| hold_storing op r p seen fin op' r' :
    admissible op -> lock (e_meta o) = OPTIK_LOCKED -> version (e_meta o) mod 2 <> 0 ->
    state (e_meta o) = state (e_meta e) \/ state (e_meta o) = state (e_meta fin) ->
    h vp e op r = Done (fin, op', r') -> storing_ok p o fin op' r' ->
    holding o e (Running op r p) (SCalled op r seen) (Some (state (e_meta fin)))
| hold_published op r p op' r' :
    o = do_store (StLock OPTIK_LOCKED) e -> published_ok p o op' r' ->
    holding o e (Running op r p) (SDone op' r') None.

(** A thread that does not hold the lock. *)
Inductive waiting (e : entry) (pend : option Z) : thread -> sthread -> Prop :=
| wait_idle : waiting e pend Idle SIdle
| wait_called op r p seen obs :
    admissible op -> unlocked_ok Inv h vp n op r p obs -> observing obs seen pend ->
    e ∈ seen -> Forall (fun x => Inv x /\ e_val_len x = n) seen ->
    waiting e pend (Running op r p) (SCalled op r seen)
| wait_done op r p op' r' : tail_ok p op' r' -> waiting e pend (Running op r p) (SDone op' r').

Record sim (c : config) (s : atomic) (hold : option Z) (pend : option Z) : Prop := {
  sim_inv : Inv (rest s);
  sim_len : e_val_len (rest s) = n;
  sim_obj : e_val_len (obj c) = n;
  sim_hold : match hold with
             | None => obj c = rest s /\ pend = None
             | Some t => holding (obj c) (rest s) (thr c t) (sthr s t) pend
             end;
  sim_wait : forall t, hold <> Some t -> waiting (rest s) pend (thr c t) (sthr s t)
}.

Lemma at_rest_meta e : Inv e -> meta_ok (e_meta e).
Proof. intros He%(handler_wf (h := h)). apply He. Qed.

(** The metadata in memory, for a thread that may not hold the lock. *)
Lemma sim_meta c s hold pend :
  sim c s hold pend ->
  (state (e_meta (obj c)) = state (e_meta (rest s)) \/ pend = Some (state (e_meta (obj c)))) /\
  (pend <> None -> version (e_meta (obj c)) mod 2 <> 0).
Proof.
  intros [_ _ _ Hh _]. destruct hold as [t|].
  - destruct Hh as [??????? _ -> _ _|??????? _ _ Hodd [->| ->] _ _|????? -> _]; simpl; auto.
  - destruct Hh as [-> ->]. split; [by left|done].
Qed.

Lemma sim_lock_free c s hold pend :
  sim c s hold pend -> lock (e_meta (obj c)) = OPTIK_FREE -> hold = None.
Proof.
  intros [_ _ _ Hh _] Hl. destruct hold as [t|]; [exfalso|done].
  destruct Hh as [??????? _ E _ _|??????? _ E _ _ _ _|????? E _]; rewrite E in Hl; done.
Qed.

(** One thread that does not hold the lock moves. *)
Lemma sim_wait_step o T e S hold pend t x S' :
  sim (mkConfig o T) (mkAtomic e S) hold pend -> hold <> Some t ->
  (forall u, u <> t -> S' u = S u) -> waiting e pend x (S' t) ->
  sim (mkConfig o (fupd T t x)) (mkAtomic e S') hold pend.
Proof.
  intros [H1 H2 H3 H4 H5] Ht HS Hw. split; simpl in *; try done.
  - destruct hold as [u|]; [|done]. rewrite fupd_ne, HS by congruence. done.
  - intros u Hu. destruct (decide (u = t)) as [->|]; [by rewrite fupd_eq|].
    rewrite fupd_ne, HS by done. by apply H5.
Qed.

(** The holder moves. *)
Lemma sim_hold_step o T e S t pend o' x e' S' pend' :
  sim (mkConfig o T) (mkAtomic e S) (Some t) pend ->
  Inv e' -> e_val_len e' = n -> e_val_len o' = n ->
  (forall u, u <> t -> waiting e pend (T u) (S u) -> waiting e' pend' (T u) (S' u)) ->
  holding o' e' x (S' t) pend' ->
  sim (mkConfig o' (fupd T t x)) (mkAtomic e' S') (Some t) pend'.
Proof.
  intros [_ _ _ _ Hw] H1 H2 H3 HS Hh. split; simpl in *; try done.
  - by rewrite fupd_eq.
  - intros u Hu. rewrite fupd_ne by congruence. apply HS; [congruence|]. by apply Hw.
Qed.

Lemma waiting_weaken e pend x y : waiting e None x y -> waiting e pend x y.
Proof. destruct 1; econstructor; eauto using observing_weaken. Qed.

(** A publication seen by the other threads. *)
Lemma waiting_publish e fin x y :
  Inv fin -> e_val_len fin = n ->
  waiting e (Some (state (e_meta fin))) x y -> waiting fin None x (observe fin y).
Proof.
  intros Hi Hl. destruct 1; simpl; econstructor; eauto using observing_publish.
  by left.
Qed.

(** *** Steps of a thread outside the lock *)
Lemma wait_meta o T e S hold pend t op r k :
  sim (mkConfig o T) (mkAtomic e S) hold pend -> hold <> Some t ->
  T t = Running op r (LoadMeta k) ->
  sim (mkConfig o (fupd T t (Running op r (k (e_meta o))))) (mkAtomic e S) hold pend.
Proof.
  intros Hs Ht E. eapply sim_wait_step; [done..|].
  pose proof (sim_meta _ _ _ _ Hs) as [Hst Hodd]. pose proof (sim_wait _ _ _ _ Hs t Ht) as Hw.
  simpl in *. rewrite E in Hw. inversion Hw as [|???? obs Ha Hu Ho Hin Hf|????? Htl]; subst.
  - apply wait_called with (obs ++ [e_meta o]); try done.
    apply observing_load; [done| |done]. destruct Hst as [->|]; [left; by exists e|by right].
  - apply wait_done. apply Htl.
Qed.

Lemma wait_len o T e S hold pend t op r k :
  sim (mkConfig o T) (mkAtomic e S) hold pend -> hold <> Some t ->
  T t = Running op r (LoadLen k) ->
  sim (mkConfig o (fupd T t (Running op r (k (e_val_len o))))) (mkAtomic e S) hold pend.
Proof.
  intros Hs Ht E. eapply sim_wait_step; [done..|].
  pose proof (sim_obj _ _ _ _ Hs) as Hn. pose proof (sim_wait _ _ _ _ Hs t Ht) as Hw.
  simpl in *. rewrite E in Hw. rewrite Hn.
  inversion Hw as [|???? obs Ha Hu Ho Hin Hf|????? Htl]; subst.
  - by apply wait_called with obs.
  - apply wait_done. apply Htl.
Qed.

Lemma wait_retry o T e S hold pend t op r r' :
  sim (mkConfig o T) (mkAtomic e S) hold pend -> hold <> Some t ->
  T t = Running op r (Retry r') ->
  sim (mkConfig o (fupd T t (Running op r (P vp op r')))) (mkAtomic e S) hold pend.
Proof.
  intros Hs Ht E. eapply sim_wait_step; [done..|].
  pose proof (sim_wait _ _ _ _ Hs t Ht) as Hw. simpl in Hw. rewrite E in Hw.
  inversion Hw as [|???? obs Ha Hu Ho Hin Hf|????? Htl]; subst; [|contradiction].
  apply wait_called with []; try done.
  apply il_unlocked; [apply Ha..|by right].
Qed.

Lemma wait_call o T e S hold pend t op r :
  sim (mkConfig o T) (mkAtomic e S) hold pend -> hold <> Some t -> admissible op ->
  sim (mkConfig o (fupd T t (Running op r (P vp op r))))
      (mkAtomic e (fupd S t (SCalled op r [e]))) hold pend.
Proof.
  intros Hs Ht Ha. eapply sim_wait_step; [done|done|intros; by rewrite fupd_ne|].
  rewrite fupd_eq. pose proof (sim_inv _ _ _ _ Hs). pose proof (sim_len _ _ _ _ Hs). simpl in *.
  apply wait_called with []; [done| |apply observing_nil|by left|by repeat constructor].
  apply il_unlocked; [apply Ha..|by left].
Qed.

(** A return is a return of the specification, of a committed operation or of a
    read that answers for one of the objects it has seen. *)
Lemma wait_return o T e S hold pend t op r op' r' :
  sim (mkConfig o T) (mkAtomic e S) hold pend -> hold <> Some t ->
  T t = Running op r (Ret op' r') ->
  spec_step (mkAtomic e S) (Some (returned t op' r')) (mkAtomic e (fupd S t SIdle)) /\
  sim (mkConfig o (fupd T t Idle)) (mkAtomic e (fupd S t SIdle)) hold pend.
Proof.
  intros Hs Ht E. split.
  - pose proof (sim_wait _ _ _ _ Hs t Ht) as Hw. simpl in Hw. rewrite E in Hw.
    inversion Hw as [|???? obs Ha Hu Ho Hin Hf Ex Ey|????? Htl Ex Ey]; subst.
    + destruct (Hu seen) as (x & op'' & r'' & Hx & Hh & Hop & Hr);
        [by intros ->; inversion Hin|done|by eapply observing_settled|].
      unfold returned. rewrite Hop, Hr. by eapply atomic_read.
    + destruct Htl as [Hop Hr]. unfold returned. rewrite Hop, Hr. by apply atomic_return.
  - eapply sim_wait_step; [done|done|intros; by rewrite fupd_ne|]. rewrite fupd_eq. constructor.
Qed.

Lemma wait_cas o T e S hold pend t op r p :
  sim (mkConfig o T) (mkAtomic e S) hold pend -> T t = Running op r (Cas p) ->
  lock (e_meta o) = OPTIK_FREE ->
  sim (mkConfig (do_store (StLock OPTIK_LOCKED) o) (fupd T t (Running op r p)))
      (mkAtomic e S) (Some t) None.
Proof.
  intros Hs E Hl. pose proof (sim_lock_free _ _ _ _ Hs Hl) as ->.
  destruct Hs as [H1 H2 H3 [H4 ->] Hw]. simpl in *. subst o.
  split; simpl; try done.
  - pose proof (Hw t ltac:(done)) as Hwt. rewrite E in Hwt. rewrite fupd_eq.
    inversion Hwt as [|???? obs Ha Hu Ho Hin Hf Ex Ey|????? Htl]; subst; [|done].
    destruct (Hu e H1 H2) as (fin & op' & r' & Hh & Hop). by eapply hold_opening.
  - intros u Hu. rewrite fupd_ne by congruence. by apply Hw.
Qed.

(** *** Steps of the holder *)
Lemma hold_meta o T e S pend t op r k :
  sim (mkConfig o T) (mkAtomic e S) (Some t) pend -> T t = Running op r (LoadMeta k) ->
  sim (mkConfig o (fupd T t (Running op r (k (e_meta o))))) (mkAtomic e S) (Some t) pend.
Proof.
  intros Hs E. eapply sim_hold_step; [done|apply Hs..|done|].
  pose proof (sim_hold _ _ _ _ Hs) as Hh. simpl in Hh. rewrite E in Hh.
  inversion Hh; subst; econstructor; eauto.
Qed.

Lemma hold_len o T e S pend t op r k :
  sim (mkConfig o T) (mkAtomic e S) (Some t) pend -> T t = Running op r (LoadLen k) ->
  sim (mkConfig o (fupd T t (Running op r (k (e_val_len o))))) (mkAtomic e S) (Some t) pend.
Proof.
  intros Hs E. eapply sim_hold_step; [done|apply Hs..|done|].
  pose proof (sim_hold _ _ _ _ Hs) as Hh. simpl in Hh. rewrite E in Hh.
  inversion Hh; subst; simpl in *; try contradiction. by eapply hold_storing.
Qed.

(** A store under an odd version, other than the one that ends it. *)
Lemma hold_write o T e S t op r s p seen fin op' r' :
  sim (mkConfig o T) (mkAtomic e S) (Some t) (Some (state (e_meta fin))) ->
  admissible op -> lock (e_meta o) = OPTIK_LOCKED -> version (e_meta o) mod 2 <> 0 ->
  state (e_meta o) = state (e_meta e) \/ state (e_meta o) = state (e_meta fin) ->
  h vp e op r = Done (fin, op', r') -> storing_ok (Store s p) o fin op' r' ->
  S t = SCalled op r seen -> (forall v, s <> StVersion v) ->
  sim (mkConfig (do_store s o) (fupd T t (Running op r p))) (mkAtomic e S) (Some t)
      (Some (state (e_meta fin))).
Proof.
  intros Hs Ha Hl Hv Hst Hh Hp E Hne.
  eapply sim_hold_step; [done|apply Hs..| |done|].
  { rewrite do_store_len. apply Hs. }
  rewrite E. destruct s; simpl in Hp; try contradiction; try (by exfalso; eapply Hne);
    eapply hold_storing; try done; try apply Hp.
  simpl. right. apply Hp.
Qed.

(** The store that makes the version even is where the operation takes effect. *)
Lemma hold_publish o T e S t op r v p seen fin op' r' :
  sim (mkConfig o T) (mkAtomic e S) (Some t) (Some (state (e_meta fin))) ->
  admissible op -> h vp e op r = Done (fin, op', r') ->
  storing_ok (Store (StVersion v) p) o fin op' r' -> S t = SCalled op r seen ->
  let S' := fupd (fun u => observe fin (S u)) t (SDone op' r') in
  spec_step (mkAtomic e S) None (mkAtomic fin S') /\
  sim (mkConfig (do_store (StVersion v) o) (fupd T t (Running op r p)))
      (mkAtomic fin S') (Some t) None.
Proof.
  intros Hs [Ha1 Ha2] Hh [Ho Hp] E S'. split; [by eapply atomic_commit|].
  pose proof (sim_inv _ _ _ _ Hs) as Hi. pose proof (sim_len _ _ _ _ Hs) as Hn. simpl in Hi, Hn.
  rewrite <- Hn in Ha1.
  destruct (handler_runs vp e op r Hi Ha1 Ha2) as (e1 & op1 & r1 & Hh1 & Hi1 & Hl1).
  rewrite Hh in Hh1. injection Hh1 as <- <- <-.
  eapply sim_hold_step; [done|done|congruence| | |].
  - rewrite do_store_len. apply Hs.
  - intros u Hu Hw. unfold S'. rewrite fupd_ne by done. apply waiting_publish with e; try done. congruence.
  - unfold S'. rewrite fupd_eq. by apply hold_published.
Qed.

Lemma hold_release o T e S t op r p op' r' :
  sim (mkConfig o T) (mkAtomic e S) (Some t) None ->
  o = do_store (StLock OPTIK_LOCKED) e -> tail_ok p op' r' -> S t = SDone op' r' ->
  sim (mkConfig (do_store (StLock OPTIK_FREE) o) (fupd T t (Running op r p))) (mkAtomic e S) None None.
Proof.
  intros Hs Ho Hp E. pose proof (sim_inv _ _ _ _ Hs) as Hi. simpl in Hi. split; simpl.
  - done.
  - apply Hs.
  - apply Hs.
  - split; [|done]. rewrite Ho. apply lock_unlock. by apply at_rest_meta.
  - intros u _. destruct (decide (u = t)) as [->|]; [rewrite fupd_eq, E; by apply wait_done|].
    rewrite fupd_ne by done. apply (sim_wait _ _ _ _ Hs). congruence.
Qed.

Lemma hold_store o T e S pend t op r s p :
  sim (mkConfig o T) (mkAtomic e S) (Some t) pend -> T t = Running op r (Store s p) ->
  exists s' hold' pend', history spec_step (mkAtomic e S) [] s' /\
    sim (mkConfig (do_store s o) (fupd T t (Running op r p))) s' hold' pend' /\
    (hold' = Some t \/ hold' = None /\ exists op' r', tail_ok p op' r').
Proof.
  intros Hs E. pose proof (sim_hold _ _ _ _ Hs) as Hh. simpl in Hh. rewrite E in Hh.
  inversion Hh as [??? seen fin op' r' Ha Ho Hd Hp Ex Ey Ep
                  |??? seen fin op' r' Ha Hl Hv Hst Hd Hp Ex Ey Ep
                  |??? op' r' Ho Hp Ex Ey Ep]; subst.
  - destruct s; simpl in Hp; try contradiction. destruct Hp as [Hodd Hp].
    eexists (mkAtomic e S), (Some t), (Some (state (e_meta fin))). split; [constructor|].
    split; [|by left]. eapply sim_hold_step; [done|apply Hs..| |]; [intros; by apply waiting_weaken|].
    rewrite <- Ey. eapply hold_storing; try done. by left.
  - assert (Hcase : (exists v, s = StVersion v) \/ forall v, s <> StVersion v)
      by (destruct s; eauto; by right).
    destruct Hcase as [[v ->]|Hne].
    + destruct (hold_publish o T e S t op r v p seen fin op' r') as [H1 H2]; try done.
      eexists _, _, _. split_and!; [by eapply history_tau, history_nil|done|by left].
    + eexists (mkAtomic e S), (Some t), (Some (state (e_meta fin))). split; [constructor|].
      split; [by eapply hold_write|by left].
  - destruct Hp as [-> Hp]. eexists (mkAtomic e S), None, None. split; [constructor|].
    split; [by eapply hold_release|eauto].
Qed.

(** The holder is inside its critical section. *)
Lemma hold_inside c s t pend :
  sim c s (Some t) pend ->
  exists op r p, thr c t = Running op r p /\
    match p with LoadMeta _ | LoadLen _ | Store _ _ => True | _ => False end.
Proof.
  intros Hs. pose proof (sim_hold _ _ _ _ Hs) as Hh. simpl in Hh.
  destruct Hh as [op r p ???? _ _ _ Hp|op r p ???? _ _ _ _ _ Hp|op r p ?? _ Hp];
    exists op, r, p; (split; [done|]); destruct p; simpl in Hp; try contradiction; done.
Qed.

Lemma sim_step c l c' s hold pend :
  sim c s hold pend -> impl_step c l c' ->
  exists s' hold' pend', history spec_step s (option_list l) s' /\ sim c' s' hold' pend'.
Proof.
  intros Hs Hstep. destruct s as [e S].
  assert (Hout : forall t op r p, hold = Some t -> thr c t = Running op r p ->
    match p with LoadMeta _ | LoadLen _ | Store _ _ => True | _ => False end).
  { intros t op r p -> E. destruct (hold_inside _ _ _ _ Hs) as (? & ? & ? & E' & Hp). rewrite E in E'.
    by injection E' as <- <- <-. }
  destruct Hstep as [o T t op r E Ha1 Ha2|o T t op r k E|o T t op r k E|o T t op r s p E|
    o T t op r p E Hl|o T t op r p E Hl|o T t op r r' E|o T t op r op' r' E]; simpl in Hout.
  - assert (hold <> Some t).
    { intros ->. destruct (hold_inside _ _ _ _ Hs) as (? & ? & ? & E' & _). simpl in E'. congruence. }
    eexists _, hold, pend. split; [|by apply wait_call]. apply history_one, atomic_call.
    pose proof (sim_wait _ _ _ _ Hs t H) as Hw. simpl in Hw. rewrite E in Hw. by inversion Hw.
  - exists (mkAtomic e S), hold, pend. split; [constructor|].
    destruct (decide (hold = Some t)) as [->|]; [by apply hold_meta|by apply wait_meta].
  - exists (mkAtomic e S), hold, pend. split; [constructor|].
    destruct (decide (hold = Some t)) as [->|]; [by apply hold_len|by apply wait_len].
  - destruct (decide (hold = Some t)) as [->|Hn]; [|exfalso].
    { destruct (hold_store _ _ _ _ _ _ _ _ _ _ Hs E) as (s' & h' & p' & H1 & H2 & _). eauto. }
    pose proof (sim_wait _ _ _ _ Hs t Hn) as Hw. simpl in Hw. rewrite E in Hw. by inversion Hw.
  - eexists (mkAtomic e S), _, _. split; [constructor|]. by eapply wait_cas.
  - exists (mkAtomic e S), hold, pend. split; [constructor|done].
  - exists (mkAtomic e S), hold, pend. split; [constructor|]. apply wait_retry; [done| |done].
    intros Hh. by apply (Hout _ _ _ _ Hh E).
  - assert (Hn : hold <> Some t) by (intros Hh; by apply (Hout _ _ _ _ Hh E)).
    destruct (wait_return o T e S hold pend t op r op' r' Hs Hn E) as [H1 H2].
    eexists _, _, _. split; [by apply history_one|done].
Qed.

Lemma sim_history c hs c' s hold pend :
  sim c s hold pend -> history impl_step c hs c' ->
  exists s' hold' pend', history spec_step s hs s' /\ sim c' s' hold' pend'.
Proof.
  intros Hs Hh. revert s hold pend Hs.
  induction Hh as [c|c c' c'' hs Hst _ IH|c c' c'' l hs Hst _ IH]; intros s hold pend Hs.
  - exists s, hold, pend. split; [constructor|done].
  - destruct (sim_step _ _ _ _ _ _ Hs Hst) as (s1 & h1 & p1 & H1 & Hs1).
    destruct (IH _ _ _ Hs1) as (s2 & h2 & p2 & H2 & Hs2).
    exists s2, h2, p2. split; [|done]. apply (history_trans _ _ _ _ _ _ H1 H2).
  - destruct (sim_step _ _ _ _ _ _ Hs Hst) as (s1 & h1 & p1 & H1 & Hs1).
    destruct (IH _ _ _ Hs1) as (s2 & h2 & p2 & H2 & Hs2).
    exists s2, h2, p2. split; [|done]. apply (history_trans _ _ _ _ _ _ H1 H2).
Qed.

Definition quiet (e : entry) : config := mkConfig e (fun _ => Idle).
Definition atomic_quiet (e : entry) : atomic := mkAtomic e (fun _ => SIdle).

Lemma sim_quiet e : Inv e -> e_val_len e = n -> sim (quiet e) (atomic_quiet e) None None.
Proof. intros. split; simpl; try done. intros. constructor. Qed.

(** ** Progress: from every reachable configuration any running operation can
    be brought to its return by steps of the holder of the lock and its own. *)
Definition can_return (c : config) (t : Z) : Prop :=
  exists c' op' r', history impl_step c [returned t op' r'] c'.

Lemma can_return_tau c c' t : history impl_step c [] c' -> can_return c' t -> can_return c t.
Proof.
  intros H (c2 & op' & r' & H2). exists c2, op', r'. apply (history_trans _ _ _ _ [] _ H H2).
Qed.

Lemma tau_step c c' : impl_step c None c' -> history impl_step c [] c'.
Proof. apply (history_one _ _ None). Qed.

Lemma tail_returns p o T t op r op' r' :
  tail_ok p op' r' -> T t = Running op r p -> can_return (mkConfig o T) t.
Proof.
  revert T. induction p as [op2 r2|k IH|k IH|s p IH|p IH|r2|]; intros T Hp E; simpl in Hp; try done.
  - eexists _, op2, r2. eapply (history_one _ _ (Some _)). by eapply step_return.
  - eapply can_return_tau; [by eapply tau_step, step_meta|]. eapply IH; [apply Hp|apply fupd_eq].
  - eapply can_return_tau; [by eapply tau_step, step_len|]. eapply IH; [apply Hp|apply fupd_eq].
Qed.

(** The holder alone reaches the release of the lock. *)
Lemma holder_releases p o T e S t pend op r :
  T t = Running op r p -> sim (mkConfig o T) (mkAtomic e S) (Some t) pend ->
  exists o' T' s' p' op' r', history impl_step (mkConfig o T) [] (mkConfig o' T') /\
    sim (mkConfig o' T') s' None None /\ T' t = Running op r p' /\ tail_ok p' op' r' /\
    (forall u, u <> t -> T' u = T u).
Proof.
  revert o T e S pend. induction p as [op2 r2|k IH|k IH|s p IH|p IH|r2|]; intros o T e S pend E Hs;
    try (destruct (hold_inside _ _ _ _ Hs) as (? & ? & ? & E' & Hp); simpl in E'; rewrite E in E';
         by injection E' as <- <- <-).
  - destruct (IH (e_meta o) o _ e S pend (fupd_eq T t _) (hold_meta _ _ _ _ _ _ _ _ _ Hs E))
      as (o' & T' & s' & p' & op' & r' & H1 & H2 & H3 & H4 & H5).
    exists o', T', s', p', op', r'. split_and!; try done.
    + eapply history_tau; [by eapply step_meta|done].
    + intros u Hu. by rewrite H5, fupd_ne.
  - destruct (IH (e_val_len o) o _ e S pend (fupd_eq T t _) (hold_len _ _ _ _ _ _ _ _ _ Hs E))
      as (o' & T' & s' & p' & op' & r' & H1 & H2 & H3 & H4 & H5).
    exists o', T', s', p', op', r'. split_and!; try done.
    + eapply history_tau; [by eapply step_len|done].
    + intros u Hu. by rewrite H5, fupd_ne.
  - destruct (hold_store _ _ _ _ _ _ _ _ _ _ Hs E) as ([e' S'] & hold' & pend' & _ & Hs' & [->|[-> Ht]]).
    + destruct (IH _ _ e' S' pend' (fupd_eq T t _) Hs')
        as (o' & T' & s' & p' & op' & r' & H1 & H2 & H3 & H4 & H5).
      exists o', T', s', p', op', r'. split_and!; try done.
      * eapply history_tau; [by eapply step_store|done].
      * intros u Hu. by rewrite H5, fupd_ne.
    + destruct Ht as (op' & r' & Ht). pose proof (proj2 (sim_hold _ _ _ _ Hs')) as ->.
      eexists _, _, _, p, op', r'. split_and!; [by eapply tau_step, step_store|done|apply fupd_eq|done|].
      intros u Hu. by rewrite fupd_ne.
Qed.

Lemma cas_returns p o T e S t op r :
  T t = Running op r (Cas p) -> sim (mkConfig o T) (mkAtomic e S) None None ->
  can_return (mkConfig o T) t.
Proof.
  intros E Hs. assert (Hl : lock (e_meta o) = OPTIK_FREE).
  { destruct (sim_hold _ _ _ _ Hs) as [Ho _]. simpl in Ho. rewrite Ho.
    apply mo_lock, at_rest_meta. apply (sim_inv _ _ _ _ Hs). }
  pose proof (wait_cas _ _ _ _ _ _ _ _ _ _ Hs E Hl) as Hs'.
  destruct (holder_releases p _ _ _ _ _ _ _ _ (fupd_eq T t _) Hs')
    as (o' & T' & s' & p' & op' & r' & H1 & _ & H3 & H4 & _).
  eapply can_return_tau; [by eapply tau_step, step_cas|]. eapply can_return_tau; [done|].
  by eapply tail_returns.
Qed.

Lemma alone_returns p o T e S t op r :
  alone_ok p o -> T t = Running op r p -> sim (mkConfig o T) (mkAtomic e S) None None ->
  can_return (mkConfig o T) t.
Proof.
  revert T. induction p as [op2 r2|k IH|k IH|s p IH|p IH|r2|]; intros T Hp E Hs; simpl in Hp; try done.
  - eexists _, op2, r2. eapply (history_one _ _ (Some _)). by eapply step_return.
  - eapply can_return_tau; [by eapply tau_step, step_meta|].
    eapply IH; [apply Hp|apply fupd_eq|by apply wait_meta].
  - eapply can_return_tau; [by eapply tau_step, step_len|].
    eapply IH; [apply Hp|apply fupd_eq|by apply wait_len].
  - by eapply cas_returns.
Qed.

Lemma unlocked_returns p o T e S t op r :
  T t = Running op r p -> sim (mkConfig o T) (mkAtomic e S) None None -> can_return (mkConfig o T) t.
Proof.
  revert T. induction p as [op2 r2|k IH|k IH|s p IH|p IH|r2|]; intros T E Hs;
    pose proof (sim_wait _ _ _ _ Hs t ltac:(done)) as Hw; simpl in Hw; rewrite E in Hw.
  - eexists _, op2, r2. eapply (history_one _ _ (Some _)). by eapply step_return.
  - eapply can_return_tau; [by eapply tau_step, step_meta|].
    eapply IH; [apply fupd_eq|by apply wait_meta].
  - eapply can_return_tau; [by eapply tau_step, step_len|].
    eapply IH; [apply fupd_eq|by apply wait_len].
  - by inversion Hw.
  - by eapply cas_returns.
  - inversion Hw as [|???? obs [Ha1 Ha2] Hu Ho Hin Hf Ex Ey|]; [|done].
    eapply can_return_tau; [by eapply tau_step, step_retry|].
    eapply alone_returns; [|apply fupd_eq|by apply wait_retry].
    destruct (sim_hold _ _ _ _ Hs) as [Hoe _]. simpl in Hoe. subst o.
    pose proof (sim_len _ _ _ _ Hs) as Hn. simpl in Hn.
    apply il_alone; [apply (sim_inv _ _ _ _ Hs)|by rewrite Hn|done].
  - by inversion Hw.
Qed.

Lemma sim_returns c s hold pend t op r p :
  sim c s hold pend -> thr c t = Running op r p -> can_return c t.
Proof.
  intros Hs E. destruct c as [o T], s as [e S]. simpl in E. destruct hold as [u|].
  - destruct (hold_inside _ _ _ _ Hs) as (op1 & r1 & p1 & E1 & _). simpl in E1.
    destruct (holder_releases p1 o T e S u pend op1 r1 E1 Hs)
      as (o' & T' & [e' S'] & p' & op' & r' & H1 & H2 & H3 & H4 & H5).
    eapply can_return_tau; [done|]. destruct (decide (t = u)) as [->|Hne].
    + by eapply tail_returns.
    + eapply unlocked_returns; [|done]. by rewrite H5.
  - pose proof (proj2 (sim_hold _ _ _ _ Hs)) as ->. by eapply unlocked_returns.
Qed.

(** The two results about all reachable configurations: the object behaves like
    the atomic one, which is in memory whenever the lock is free; and every
    operation in progress can be brought to its return. *)
Lemma interleaved_refines e hs c :
  Inv e -> e_val_len e = n -> history impl_step (quiet e) hs c ->
  exists s, history spec_step (atomic_quiet e) hs s /\ Inv (rest s) /\
    (lock (e_meta (obj c)) = OPTIK_FREE -> obj c = rest s).
Proof.
  intros Hi Hn Hh.
  destruct (sim_history _ _ _ _ _ _ (sim_quiet e Hi Hn) Hh) as (s & hold & pend & H1 & Hs).
  exists s. split_and!; [done|apply Hs|]. intros Hl.
  pose proof (sim_lock_free _ _ _ _ Hs Hl) as ->. apply (sim_hold _ _ _ _ Hs).
Qed.

Lemma interleaved_returns e hs c t op r p :
  Inv e -> e_val_len e = n -> history impl_step (quiet e) hs c ->
  thr c t = Running op r p -> can_return c t.
Proof.
  intros Hi Hn Hh E.
  destruct (sim_history _ _ _ _ _ _ (sim_quiet e Hi Hn) Hh) as (s & hold & pend & _ & Hs).
  by eapply sim_returns.
Qed.

End simulation.

(** ** Running a schedule *)
Inductive action :=
| ACall (t : Z) (op : cache_op) (r : mica_resp)
| AStep (t : Z).

Section schedules.
Context (ops : list Z) (P : cache_op -> mica_resp -> prog) (n : Z).

Definition run_action (a : action) (c : config) : option (option label * config) :=
  let '(mkConfig o T) := c in
  match a with
  | ACall t op r =>
      match T t with
      | Idle => Some (Some (Call t op r), mkConfig o (fupd T t (Running op r (P op r))))
      | _ => None
      end
  | AStep t =>
      match T t with
      | Idle => None
      | Running op r p =>
          let go o p := Some (None, mkConfig o (fupd T t (Running op r p))) in
          match p with
          | Ret op' r' => Some (Some (returned t op' r'), mkConfig o (fupd T t Idle))
          | LoadMeta k => go o (k (e_meta o))
          | LoadLen k => go o (k (e_val_len o))
          | Store s p => go (do_store s o) p
          | Cas p =>
              if lock (e_meta o) =? OPTIK_FREE then go (do_store (StLock OPTIK_LOCKED) o) p
              else Some (None, c)
          | Retry r' => go o (P op r')
          | Crash => None
          end
      end
  end.

Fixpoint run_actions (l : list action) (c : config) : option (list label * config) :=
  match l with
  | [] => Some ([], c)
  | a :: l =>
      match run_action a c with
      | Some (x, c) =>
          match run_actions l c with
          | Some (xs, c) => Some (option_list x ++ xs, c)
          | None => None
          end
      | None => None
      end
  end.

Definition callable (a : action) : Prop :=
  match a with ACall _ op _ => legal n op /\ opcode op ∈ ops | _ => True end.

Lemma run_action_step a c x c' :
  callable a -> run_action a c = Some (x, c') -> thread_step ops P n c x c'.
Proof.
  intros Ha H. destruct c as [o T]. unfold run_action in H.
  destruct a as [t op r|t]; destruct (T t) as [|op' r' p] eqn:E; try discriminate.
  - injection H as <- <-. destruct Ha. by apply step_call.
  - destruct p; try discriminate; try (injection H as <- <-; by econstructor).
    destruct (Z.eqb_spec (lock (e_meta o)) OPTIK_FREE); injection H as <- <-;
      [by eapply step_cas|by eapply step_spin].
Qed.

Lemma run_actions_history l c hs c' :
  Forall callable l -> run_actions l c = Some (hs, c') -> history (thread_step ops P n) c hs c'.
Proof.
  revert c hs. induction l as [|a l IH]; intros c hs Hl H; simpl in H.
  - injection H as <- <-. constructor.
  - apply Forall_cons in Hl as [Ha Hl]. destruct (run_action a c) as [[x c1]|] eqn:E; [|done].
    destruct (run_actions l c1) as [[xs c2]|] eqn:E2; [|done]. injection H as <- <-.
    eapply history_cons; [by eapply run_action_step|by apply IH].
Qed.

End schedules.
