(* ===== verification/Network.v ===== *)
(** * Coherence messages between machines

    What the LIN client (src/ccKVS/client-lin.c, include/ccKVS/inline_util.h)
    puts on the wire for a hot write and what it does with the buffer slot a
    message lands in.  The network itself (RDMA unreliable datagrams) is a bag
    of messages: it delivers in any order.  (The packets of the SC client are in
    [Packets].) *)
From S2P Require Import Prelude Config Optik Layout.

Definition machines : list Z := [0; 1; 2; 3].

Lemma machines_spec m : m ∈ machines <-> 0 <= m < MACHINE_NUM.
Proof.
  unfold machines, MACHINE_NUM. rewrite !elem_of_cons, elem_of_nil. lia.
Qed.

Lemma machines_u8 m : m ∈ machines -> is_u8 m.
Proof. rewrite machines_spec. unfold is_u8, MACHINE_NUM. lia. Qed.

Lemma machines_NoDup : NoDup machines.
Proof. by apply (bool_decide_unpack (NoDup machines)). Qed.

(** The remote machines of a broadcast. *)
Definition others (m : Z) : list Z := filter (fun b => b <> m) machines.

Lemma elem_of_others b m : b ∈ others m <-> b ∈ machines /\ b <> m.
Proof. unfold others. rewrite list_elem_of_filter. tauto. Qed.

Lemma others_NoDup m : NoDup (others m).
Proof. apply NoDup_filter. repeat constructor; rewrite ?elem_of_cons, ?elem_of_nil; lia. Qed.

Record msg := mkMsg { dst : Z; m_op : cache_op }.

(** [memcpy(slot, msg, HERD_PUT_REQ_SIZE)]: key, opcode, length and
    [HERD_VALUE_SIZE] bytes of value; the rest of the slot stays. *)
Definition recv_put_req (slot op : cache_op) : cache_op :=
  let n := Z.to_nat HERD_VALUE_SIZE in
  mkOp (meta op) (bkt op) (server op) (tag op) (opcode op) (val_len op)
    (take n (value op) ++ drop n (value slot)).

(** [memcpy(slot, msg, HERD_GET_REQ_SIZE)]: key and opcode only. *)
Definition recv_get_req (slot op : cache_op) : cache_op :=
  mkOp (meta op) (bkt op) (server op) (tag op) (opcode op) (val_len slot) (value slot).

(** LIN: the invalidation of an accepted write. *)
Definition forge_inv (m : Z) (op : cache_op) : cache_op :=
  set_opcode CACHE_OP_INV (set_meta (set_cid (u8 m) (meta op)) op).
Definition bcast_inv (m : Z) (op : cache_op) : list msg :=
  (fun b => mkMsg b (forge_inv m op)) <$> others m.

(** LIN: the acknowledgement of machine [b] to the invalidation [op]; it goes
    to the machine named in the invalidation and carries its own sender. *)
Definition forge_ack (b : Z) (op : cache_op) : msg :=
  mkMsg (cid (meta op)) (set_opcode CACHE_OP_ACK (set_meta (set_cid (u8 b) (meta op)) op)).

(** LIN: the update sent when the last acknowledgement [op] arrived: the
    acknowledgement's own buffer slot, with opcode, length and sender set. *)
Definition forge_upd (m : Z) (op : cache_op) : cache_op :=
  let op := set_val_len (Z.shiftr HERD_VALUE_SIZE SHIFT_BITS) op in
  set_opcode CACHE_OP_UPD (set_meta (set_cid (u8 m) (meta op)) op).
Definition bcast_upd (m : Z) (op : cache_op) : list msg :=
  (fun b => mkMsg b (forge_upd m op)) <$> others m.

(** ** The slot functions are the byte copies *)
Lemma recv_put_req_bytes m p slot op :
  op_fits slot -> op_fits op ->
  load_op (store_bytes (store_bytes m p (encode_op slot)) p
             (take (Z.to_nat HERD_PUT_REQ_SIZE) (encode_op op))) p
  = recv_put_req slot op.
Proof.
  intros Hs Ho. change (Z.to_nat HERD_PUT_REQ_SIZE) with (18 + 32)%nat.
  set (m0 := store_bytes m p (encode_op slot)).
  assert (Hn : (32 <= max_value_len)%nat) by (change max_value_len with 46%nat; lia).
  destruct (load_stored_header m0 p op 32 Ho Hn) as (E1 & E2 & E3 & E4 & E5 & E6).
  pose proof (load_stored_value m0 p op 32 Ho Hn) as E7.
  pose proof (length_stored_prefix op 32 Ho Hn) as Hlen.
  set (bs := take (18 + 32) (encode_op op)) in *. clearbody bs.
  destruct (load_op _ p) as [? ? ? ? ? ? v] eqn:E. simpl in *. subst. unfold recv_put_req. f_equal.
  injection E as _ _ _ _ _ _ <-. change max_value_len with (32 + 14)%nat.
  rewrite load_bytes_app, E7. change (Z.to_nat HERD_VALUE_SIZE) with 32%nat. f_equal.
  rewrite load_store_disjoint by (rewrite Hlen; unfold VALUE_OFF; lia).
  unfold m0, VALUE_OFF. rewrite <- Z.add_assoc.
  rewrite load_store_sub by first [lia | rewrite length_encode_op, (of_value _ Hs); change max_value_len with 46%nat; lia].
  change (Z.to_nat (18 + Z.of_nat 32)) with (18 + 32)%nat.
  change (drop (18 + 32) (encode_op slot)) with (drop 32 (value slot)).
  apply take_ge. rewrite length_drop, (of_value _ Hs). change max_value_len with 46%nat. lia.
Qed.

Lemma recv_put_req_fits slot op : op_fits slot -> op_fits op -> op_fits (recv_put_req slot op).
Proof.
  intros Hs Ho. pose proof Ho as [? ? ? ? ? ? Hl Hb]. split; simpl; try done.
  - change (Z.to_nat HERD_VALUE_SIZE) with 32%nat.
    rewrite length_app, length_take, length_drop, Hl, (of_value _ Hs).
    change max_value_len with 46%nat. lia.
  - apply Forall_app_2; [by apply Forall_take|apply Forall_drop, Hs].
Qed.

Lemma recv_get_req_fits slot op : op_fits slot -> op_fits op -> op_fits (recv_get_req slot op).
Proof. intros [] []. by split. Qed.

Lemma take_recv_put_req slot op :
  op_fits op -> take 32 (value (recv_put_req slot op)) = take 32 (value op).
Proof.
  intros Ho. simpl. change (Z.to_nat HERD_VALUE_SIZE) with 32%nat.
  rewrite take_app_exact; [done|]. rewrite length_take, (of_value _ Ho). done.
Qed.
