(* ===== verification/ScProtocol.v ===== *)
(** * The replicas of one object under sequential consistency

    The argument behind the SC client, for one object: a write takes the next
    timestamp of its writer, an update is applied when its timestamp is greater
    than the replica's, and the network may hold updates back as long as it
    likes.  The network is any relation between machines and writes; [ScSystem]
    instantiates the objects and the network with the caches, the collected
    writes and the packets of the program. *)
From S2P Require Import Prelude Config Optik Layout City Mica MicaLog Cache CacheSpec Network.

(** A write: its timestamp and value. *)
Record write := mkWrite { w_ts : ts; w_val : list Z }.

Definition replica (e : entry) : write := mkWrite (ts_of (e_meta e)) (e_value e).
Definition payload (op : cache_op) : write := mkWrite (ts_of (meta op)) (take 32 (value op)).

(** A client's request for an object of length [HERD_VALUE_SIZE]. *)
Definition client_put (op : cache_op) : Prop :=
  op_fits op /\ opcode op = CACHE_OP_PUT /\ val_len op = HERD_VALUE_SIZE.

(** The initial object: any object at rest at timestamp (0, 0). *)
Definition initial_entry (e : entry) : Prop :=
  entry_wf e /\ e_val_len e = HERD_VALUE_SIZE /\ ts_of (e_meta e) = (0, 0).

(** ** Invariant

    [net b w]: the write [w] is on its way to machine [b]. *)
Record sc_inv (w0 : write) (ws : list write) (obj : Z -> entry) (net : Z -> write -> Prop) : Prop := {
  si_obj : forall b, b ∈ machines -> entry_wf (obj b) /\
    e_val_len (obj b) = HERD_VALUE_SIZE /\ replica (obj b) ∈ w0 :: ws;
  si_unique : forall w1 w2, w1 ∈ w0 :: ws -> w2 ∈ w0 :: ws -> w_ts w1 = w_ts w2 -> w1 = w2;
  si_own : forall w, w ∈ ws -> (w_ts w).2 ∈ machines /\ ts_le (w_ts w) (ts_of (e_meta (obj (w_ts w).2)));
  si_first : forall w, w ∈ w0 :: ws -> ts_le (w_ts w0) (w_ts w);
  si_net : forall b w, net b w -> b ∈ machines /\ w ∈ ws;
  si_seen : forall w b, w ∈ ws -> b ∈ machines -> ts_le (w_ts w) (ts_of (e_meta (obj b))) \/ net b w
}.

Lemma sc_inv_init e0 (net : Z -> write -> Prop) :
  initial_entry e0 -> (forall b w, ~ net b w) -> sc_inv (replica e0) [] (fun _ => e0) net.
Proof.
  intros (He & Hl & Ht) Hn. split.
  - intros b _. split_and!; try done. by left.
  - intros w1 w2 H1%list_elem_of_In H2%list_elem_of_In _. destruct H1 as [<-|[]], H2 as [<-|[]]; done.
  - intros w []%not_elem_of_nil.
  - intros w [<-|[]]%list_elem_of_In. by right.
  - intros b w H. by apply Hn in H.
  - intros w b []%not_elem_of_nil.
Qed.

(** The invariant is about the objects of the machines and about which writes
    are on their way, not about how either is represented. *)
Lemma sc_inv_ext w0 ws obj obj' net net' :
  (forall b, b ∈ machines -> obj' b = obj b) -> (forall b w, net' b w <-> net b w) ->
  sc_inv w0 ws obj net -> sc_inv w0 ws obj' net'.
Proof.
  intros Ho Hn [H1 H2 H3 H4 H5 H6]. split; [|done| |done| |].
  - intros b Hb. rewrite Ho by done. by apply H1.
  - intros w Hw. destruct (H3 w Hw) as [Hm Hle]. rewrite Ho by done. done.
  - intros b w H%Hn. by apply H5.
  - intros w b Hw Hb. rewrite Ho, Hn by done. by apply H6.
Qed.

(** The object after a local write: a new timestamp of the writer, and the
    operation carries what was written. *)
Lemma sc_put_object m vp op r e e' op' r' :
  m ∈ machines -> client_put op -> entry_wf e -> e_val_len e = HERD_VALUE_SIZE ->
  sc_op m vp e op r = Done (e', op', r') -> version (meta op') <> 0 ->
  entry_wf e' /\ e_val_len e' = HERD_VALUE_SIZE /\ ts_of (e_meta e') = (version (e_meta e) + 2, m) /\
  payload op' = replica e'.
Proof.
  intros Hm (Hf & Ho & Hvl) He Hl E. pose proof (ew_meta _ He) as Hm0.
  unfold sc_op in E. rewrite Ho in E. simpl in E. rewrite sc_put_eq in E by (done || congruence).
  injection E as <- <- _. intros Hw. simpl in Hw.
  assert (Hv : u32 (version (e_meta e) + 2) = version (e_meta e) + 2).
  { destruct (Z.eq_dec (version (e_meta e)) (2 ^ 32 - 2)) as [E|E]; [exfalso; apply Hw; by rewrite E|].
    apply u32_small. destruct (mo_version _ Hm0). pose proof (even_u32_max _ (mo_version _ Hm0) (mo_even _ Hm0)).
    unfold is_u32. assert (version (e_meta e) <> 2 ^ 32 - 1) by (intros E1; pose proof (mo_even _ Hm0) as H2; rewrite E1 in H2; discriminate).
    lia. }
  rewrite (u8_small m (machines_u8 m Hm)), Hv. split_and!; try done.
  - apply entry_wf_memcpy; [|done|apply Hf]. apply meta_ok_set_cid; [by apply machines_u8|].
    rewrite <- Hv. by apply meta_ok_bump.
  - unfold payload, replica, copied. simpl. by rewrite Hl.
Qed.

Section put.
Context (w0 : write) (ws : list write) (obj : Z -> entry) (net : Z -> write -> Prop) (m : Z) (e' : entry).
Context (Hi : sc_inv w0 ws obj net) (Hw0 : w_ts w0 = (0, 0)) (Hm : m ∈ machines).
Context (Hwf' : entry_wf e') (Hl' : e_val_len e' = HERD_VALUE_SIZE).
Context (Hts : ts_of (e_meta e') = (version (e_meta (obj m)) + 2, m)).

Let w := replica e'.

Lemma put_newer : ts_lt (ts_of (e_meta (obj m))) (w_ts w).
Proof using Hts. rewrite (Hts : w_ts w = _). left. simpl. lia. Qed.

Lemma put_version : 0 <= version (e_meta (obj m)).
Proof using Hi Hm. destruct (si_obj _ _ _ _ Hi m Hm) as (He & _). by destruct (mo_version _ (ew_meta _ He)). Qed.

(** No write has the new timestamp. *)
Lemma put_timestamp_new w1 : w1 ∈ w0 :: ws -> w_ts w1 <> w_ts w.
Proof using Hi Hw0 Hm Hts.
  intros [->|H1]%elem_of_cons E1; unfold w in E1; simpl in E1.
  - rewrite Hw0, Hts in E1. injection E1 as E1 _. pose proof put_version. lia.
  - destruct (si_own _ _ _ _ Hi w1 H1) as [_ Hle]. rewrite E1, Hts in Hle. simpl in Hle. rewrite <- Hts in Hle.
    by apply (ts_lt_irrefl (w_ts w)), (ts_le_lt_trans _ _ _ Hle), put_newer.
Qed.

Lemma sc_inv_put (net' : Z -> write -> Prop) :
  (forall b x, net' b x <-> net b x \/ (b ∈ others m /\ x = w)) ->
  sc_inv w0 (w :: ws) (fupd obj m e') net'.
Proof using All.
  intros Hnet.
  assert (Hmono : forall b, ts_le (ts_of (e_meta (obj b))) (ts_of (e_meta (fupd obj m e' b)))).
  { intros b. unfold fupd. zcase; [subst; left; exact put_newer|by right]. }
  assert (Hsplit : forall w1, w1 ∈ w0 :: w :: ws -> w1 = w \/ w1 ∈ w0 :: ws).
  { intros w1. rewrite !elem_of_cons. tauto. }
  split.
  - intros b Hb. unfold fupd. zcase; [split_and!; [done|done|right; left]|].
    destruct (si_obj _ _ _ _ Hi b Hb) as (? & ? & Hb'). split_and!; try done.
    apply elem_of_cons in Hb' as [->|?]; [left|right; by right].
  - intros w1 w2 [->|H1]%Hsplit [->|H2]%Hsplit E12; [done| | |by eapply si_unique].
    + exfalso. by apply (put_timestamp_new w2).
    + exfalso. by apply (put_timestamp_new w1).
  - intros w1 [->|H1]%elem_of_cons.
    + rewrite (Hts : w_ts w = _). cbn [snd]. split; [done|]. rewrite fupd_eq. by right.
    + destruct (si_own _ _ _ _ Hi w1 H1) as [H2 H3]. split; [done|]. eauto using ts_le_trans.
  - intros w1 [->|H1]%Hsplit; [|by apply (si_first _ _ _ _ Hi)].
    left. left. rewrite Hw0, (Hts : w_ts w = _). simpl. pose proof put_version. lia.
  - intros b x [H|[Hb ->]]%Hnet; [|by apply elem_of_others in Hb as [Hb _]; split; [|left]].
    destruct (si_net _ _ _ _ Hi b x H). split; [done|by right].
  - intros w1 b [->|H1]%elem_of_cons Hb.
    + destruct (Z.eq_dec b m) as [->|Hne]; [left; rewrite fupd_eq; by right|].
      right. apply Hnet. right. split; [by apply elem_of_others|done].
    + destruct (si_seen _ _ _ _ Hi w1 b H1 Hb) as [Hle|Hn]; [left; eauto using ts_le_trans|].
      right. apply Hnet. by left.
Qed.
End put.

(** A delivery: the write on its way to [b] is applied or is not newer. *)
Lemma sc_inv_upd w0 ws obj net net' b w e' :
  sc_inv w0 ws obj net -> net b w -> entry_wf e' -> e_val_len e' = HERD_VALUE_SIZE ->
  replica e' = replica (obj b) \/ replica e' = w ->
  ts_le (ts_of (e_meta (obj b))) (ts_of (e_meta e')) -> ts_le (w_ts w) (ts_of (e_meta e')) ->
  (forall x y, net' x y -> net x y) -> (forall x y, net x y -> net' x y \/ (x = b /\ y = w)) ->
  sc_inv w0 ws (fupd obj b e') net'.
Proof.
  intros Hi Hn Hwf' Hl' Hrep Hle1 Hle2 Hsub Hsup.
  destruct (si_net _ _ _ _ Hi b w Hn) as [Hb Hw]. destruct (si_obj _ _ _ _ Hi b Hb) as (He & Hl & Hin).
  assert (Hin' : replica e' ∈ w0 :: ws) by (destruct Hrep as [-> | ->]; [done|by right]).
  assert (Hmono : forall x, ts_le (ts_of (e_meta (obj x))) (ts_of (e_meta (fupd obj b e' x)))).
  { intros x. unfold fupd. zcase; [by subst|by right]. }
  split; try apply Hi.
  - intros x Hx. unfold fupd. zcase; [done|by apply (si_obj _ _ _ _ Hi)].
  - intros w1 Hw1. destruct (si_own _ _ _ _ Hi w1 Hw1) as [H2 H3]. split; [done|]. eauto using ts_le_trans.
  - intros x y H%Hsub. by apply (si_net _ _ _ _ Hi).
  - intros w1 x Hw1 Hx. destruct (si_seen _ _ _ _ Hi w1 x Hw1 Hx) as [Hle|Hn1]; [left; eauto using ts_le_trans|].
    destruct (Hsup x w1 Hn1) as [H|[-> ->]]; [by right|]. left. by rewrite fupd_eq.
Qed.

(** ** What the invariant says *)

(** When nothing is on its way all replicas are the newest write. *)
Lemma sc_inv_agree w0 ws obj net :
  sc_inv w0 ws obj net -> (forall b w, ~ net b w) ->
  exists w, w ∈ w0 :: ws /\ (forall w', w' ∈ w0 :: ws -> ts_le (w_ts w') (w_ts w)) /\
    forall b, b ∈ machines -> replica (obj b) = w.
Proof.
  intros Hi Hn.
  assert (Hge : forall b w, b ∈ machines -> w ∈ w0 :: ws -> ts_le (w_ts w) (ts_of (e_meta (obj b)))).
  { intros b w Hb [->|Hw]%elem_of_cons.
    - destruct (si_obj _ _ _ _ Hi b Hb) as (_ & _ & Hin). exact (si_first _ _ _ _ Hi _ Hin).
    - destruct (si_seen _ _ _ _ Hi w b Hw Hb) as [Hle|Hx]; [done|by apply Hn in Hx]. }
  assert (H0 : 0 ∈ machines) by (by left).
  destruct (si_obj _ _ _ _ Hi 0 H0) as (_ & _ & Hin0).
  exists (replica (obj 0)). split; [done|]. split; [intros w Hw; exact (Hge 0 w H0 Hw)|].
  intros b Hb. destruct (si_obj _ _ _ _ Hi b Hb) as (_ & _ & Hinb).
  apply (si_unique _ _ _ _ Hi); [done|done|].
  apply ts_le_antisym; [exact (Hge 0 _ H0 Hinb)|exact (Hge b _ Hb Hin0)].
Qed.

Lemma fresh_initial : initial_entry fresh_entry.
Proof. split; [apply fresh_lin_wf|done]. Qed.
