(* ===== verification/LinSpec.v ===== *)
(** * The linearizable protocol as an abstract machine

    One object replicated on all machines, reduced to what the protocol
    decides with: a timestamp, a phase (valid, invalid, local write pending)
    and the acknowledgements still awaited; and the bag of invalidations,
    acknowledgements and updates in flight.  [astep] is the specification that
    [LinProtocol] refines; the invariant [ainv] gives its safety (a readable
    replica is never older than any other replica) and its progress
    (a quiescent system is readable everywhere). *)
From S2P Require Import Prelude Config Optik Layout Network.

Inductive phase := Valid | Invalid | Writing.

#[export] Instance phase_eq_dec : EqDecision phase.
Proof. solve_decision. Defined.

Record aobj := mkA { a_ts : ts; a_ph : phase; a_acks : Z }.

(** Destination first; the version and the writing machine name the write. *)
Inductive amsg :=
| AInv (b v m : Z)
| AAck (m v b : Z)
| AUpd (b v m : Z).

#[export] Instance amsg_eq_dec : EqDecision amsg.
Proof. solve_decision. Defined.

Definition aobjs : Type := Z -> aobj.

(** ** Steps: [x] is the message consumed, [new] the messages sent *)
Inductive astep : aobjs * list amsg -> aobjs * list amsg -> Prop :=
| astep_put O I O' m v :
    m ∈ machines -> (a_ts (O m)).1 < v ->
    (forall b, O' b = fupd O m (mkA (v, m) Writing (MACHINE_NUM - 1)) b) ->
    astep (O, I) (O', I ++ ((fun b => AInv b v m) <$> others m))
| astep_inv_ok O l1 l2 O' b v m :
    ts_lt (a_ts (O b)) (v, m) ->
    (forall x, O' x = fupd O b (mkA (v, m) Invalid (a_acks (O b))) x) ->
    astep (O, l1 ++ AInv b v m :: l2) (O', (l1 ++ l2) ++ [AAck m v b])
| astep_inv_fail O l1 l2 O' b v m :
    ~ ts_lt (a_ts (O b)) (v, m) -> (forall x, O' x = O x) ->
    astep (O, l1 ++ AInv b v m :: l2) (O', l1 ++ l2)
| astep_ack O l1 l2 O' m v b :
    a_ph (O m) = Writing -> (a_ts (O m)).1 = v -> a_acks (O m) <> 1 ->
    (forall x, O' x = fupd O m (mkA (a_ts (O m)) Writing (a_acks (O m) - 1)) x) ->
    astep (O, l1 ++ AAck m v b :: l2) (O', l1 ++ l2)
| astep_ack_last O l1 l2 O' m v b :
    a_ph (O m) = Writing -> (a_ts (O m)).1 = v -> a_acks (O m) = 1 ->
    (forall x, O' x = fupd O m (mkA (a_ts (O m)) Valid 0) x) ->
    astep (O, l1 ++ AAck m v b :: l2) (O', (l1 ++ l2) ++ ((fun x => AUpd x v m) <$> others m))
| astep_ack_fail O l1 l2 O' m v b :
    ~ (a_ph (O m) = Writing /\ (a_ts (O m)).1 = v) -> (forall x, O' x = O x) ->
    astep (O, l1 ++ AAck m v b :: l2) (O', l1 ++ l2)
| astep_upd O l1 l2 O' b v m :
    a_ph (O b) = Invalid -> a_ts (O b) = (v, m) ->
    (forall x, O' x = fupd O b (mkA (v, m) Valid (a_acks (O b))) x) ->
    astep (O, l1 ++ AUpd b v m :: l2) (O', l1 ++ l2)
| astep_upd_fail O l1 l2 O' b v m :
    ~ (a_ph (O b) = Invalid /\ a_ts (O b) = (v, m)) -> (forall x, O' x = O x) ->
    astep (O, l1 ++ AUpd b v m :: l2) (O', l1 ++ l2)
| astep_stutter O I O' : (forall x, O' x = O x) -> astep (O, I) (O', I).

(** ** Counting machines *)
Definition cnt (f : Z -> bool) : Z := foldr (fun b n => Z.b2z (f b) + n) 0 machines.

Lemma cnt_eq f : cnt f = Z.b2z (f 0) + (Z.b2z (f 1) + (Z.b2z (f 2) + (Z.b2z (f 3) + 0))).
Proof. done. Qed.

Lemma machines_cases b : b ∈ machines -> b = 0 \/ b = 1 \/ b = 2 \/ b = 3.
Proof. rewrite machines_spec. unfold MACHINE_NUM. lia. Qed.

Lemma in_machines b : b = 0 \/ b = 1 \/ b = 2 \/ b = 3 -> b ∈ machines.
Proof. rewrite machines_spec. unfold MACHINE_NUM. lia. Qed.

Lemma b2z_impl x y : (x = true -> y = true) -> Z.b2z x <= Z.b2z y.
Proof. destruct x, y; simpl; lia. Qed.

Lemma cnt_mono f g :
  (forall b, b ∈ machines -> f b = true -> g b = true) -> cnt f <= cnt g.
Proof.
  intros H. rewrite !cnt_eq.
  pose proof (b2z_impl _ _ (H 0 ltac:(apply in_machines; lia))).
  pose proof (b2z_impl _ _ (H 1 ltac:(apply in_machines; lia))).
  pose proof (b2z_impl _ _ (H 2 ltac:(apply in_machines; lia))).
  pose proof (b2z_impl _ _ (H 3 ltac:(apply in_machines; lia))). lia.
Qed.

(** Removing or adding one machine moves the count by one. *)
Lemma cnt_upd f x v :
  x ∈ machines -> cnt (fupd f x v) = cnt f - Z.b2z (f x) + Z.b2z v.
Proof. intros [-> | [-> | [-> | ->]]]%machines_cases; rewrite !cnt_eq; unfold fupd; simpl; lia. Qed.

Lemma cnt_but_one f g x :
  x ∈ machines -> (forall b, b ∈ machines -> b <> x -> f b = true -> g b = true) ->
  cnt f <= cnt g + 1.
Proof.
  intros Hx H. assert (Hle : cnt (fupd f x false) <= cnt g).
  { apply cnt_mono. intros b Hb. unfold fupd. zcase; [done|]. auto. }
  rewrite cnt_upd in Hle by done. destruct (f x); simpl in Hle; lia.
Qed.

Lemma cnt_strict f g x :
  x ∈ machines -> f x = true -> g x = false ->
  (forall b, b ∈ machines -> g b = true -> f b = true) -> cnt g + 1 <= cnt f.
Proof.
  intros Hx Hf Hg H. assert (Hle : cnt g <= cnt (fupd f x false)).
  { apply cnt_mono. intros b Hb Hgb. unfold fupd. zcase; [congruence|auto]. }
  rewrite cnt_upd, Hf in Hle by done. simpl in Hle. lia.
Qed.

Lemma cnt_others f m :
  m ∈ machines -> f m = false ->
  cnt f <= MACHINE_NUM - 1 /\
  ((forall b, b ∈ others m -> f b = true) -> cnt f = MACHINE_NUM - 1).
Proof.
  intros Hm Hf.
  assert (Hall : cnt (fun _ => true) = 4) by done.
  pose proof (cnt_strict (fun _ => true) f m Hm eq_refl Hf ltac:(done)) as H1.
  change (MACHINE_NUM - 1) with 3. split; [lia|]. intros H.
  assert (H2 : cnt (fun _ => true) <= cnt f + 1).
  { apply (cnt_but_one _ f m Hm). intros b Hb Hne _. apply H, elem_of_others. done. }
  lia.
Qed.

Lemma cnt_one f x b :
  cnt f <= 1 -> x ∈ machines -> f x = true -> b ∈ machines -> b <> x -> f b = false.
Proof.
  intros H Hx Hfx Hb Hne. destruct (f b) eqn:E; [|done]. exfalso.
  pose proof (cnt_upd f x false Hx) as H1. rewrite Hfx in H1. simpl in H1.
  pose proof (cnt_upd (fupd f x false) b false Hb) as H2. rewrite fupd_ne, E in H2 by done.
  assert (0 <= cnt (fupd (fupd f x false) b false)).
  { change 0 with (cnt (fun _ => false)). by apply cnt_mono. }
  simpl in H2. lia.
Qed.

(** ** Machines that have not counted for the write (v, m)

    [lo]: surely not acknowledged; [hi]: possibly not acknowledged. *)
Section counts.
Context (O : aobjs) (I : list amsg) (m v : Z).

Definition in_flight (b : Z) : bool :=
  bool_decide (AInv b v m ∈ I) || bool_decide (AAck m v b ∈ I).
Definition lo (b : Z) : bool :=
  negb (b =? m) && (in_flight b || ts_ltb (a_ts (O b)) (v, m)).
Definition hi (b : Z) : bool :=
  negb (b =? m) && (in_flight b || ts_ltb (v, m) (a_ts (O b))).

Lemma in_flight_true b : in_flight b = true <-> AInv b v m ∈ I \/ AAck m v b ∈ I.
Proof. unfold in_flight. rewrite orb_true_iff, !bool_decide_eq_true. done. Qed.

Lemma lo_true b :
  lo b = true <-> b <> m /\ (AInv b v m ∈ I \/ AAck m v b ∈ I \/ ts_lt (a_ts (O b)) (v, m)).
Proof.
  unfold lo. rewrite andb_true_iff, negb_true_iff, Z.eqb_neq, orb_true_iff, in_flight_true, ts_ltb_lt.
  tauto.
Qed.

Lemma hi_true b :
  hi b = true <-> b <> m /\ (AInv b v m ∈ I \/ AAck m v b ∈ I \/ ts_lt (v, m) (a_ts (O b))).
Proof.
  unfold hi. rewrite andb_true_iff, negb_true_iff, Z.eqb_neq, orb_true_iff, in_flight_true, ts_ltb_lt.
  tauto.
Qed.
End counts.

(** Both counts when the objects and messages that matter for (v, m) move in
    the right direction. *)
Lemma lo_mono O I O' I' m v :
  (forall b, b ∈ machines -> b <> m -> AInv b v m ∈ I' \/ AAck m v b ∈ I' ->
     AInv b v m ∈ I \/ AAck m v b ∈ I \/ ts_lt (a_ts (O b)) (v, m)) ->
  (forall b, b ∈ machines -> ts_le (a_ts (O b)) (a_ts (O' b))) ->
  cnt (lo O' I' m v) <= cnt (lo O I m v).
Proof.
  intros H1 H2. apply cnt_mono. intros b Hb. rewrite !lo_true.
  intros (Hne & [H|[H|H]]); (split; [done|]); [apply H1; tauto|apply H1; tauto|].
  right. right. eapply ts_le_lt_trans; eauto.
Qed.

Lemma hi_mono O I O' I' m v :
  (forall b, b ∈ machines -> b <> m -> AInv b v m ∈ I \/ AAck m v b ∈ I ->
     AInv b v m ∈ I' \/ AAck m v b ∈ I' \/ ts_lt (v, m) (a_ts (O' b))) ->
  (forall b, b ∈ machines -> ts_le (a_ts (O b)) (a_ts (O' b))) ->
  cnt (hi O I m v) <= cnt (hi O' I' m v).
Proof.
  intros H1 H2. apply cnt_mono. intros b Hb. rewrite !hi_true.
  intros (Hne & [H|[H|H]]); (split; [done|]); [apply H1; tauto|apply H1; tauto|].
  right. right. eapply ts_lt_le_trans; eauto.
Qed.

(** The bounds on the acknowledgements of (v, m) when none of its own
    invalidations and acknowledgements move. *)
Definition counted (O : aobjs) (I : list amsg) (m v acks : Z) : Prop :=
  cnt (lo O I m v) <= acks <= cnt (hi O I m v).

Lemma counted_frame O I O' I' m v acks :
  (forall b, AInv b v m ∈ I' <-> AInv b v m ∈ I) ->
  (forall b, AAck m v b ∈ I' <-> AAck m v b ∈ I) ->
  (forall b, b ∈ machines -> ts_le (a_ts (O b)) (a_ts (O' b))) ->
  counted O I m v acks -> counted O' I' m v acks.
Proof.
  intros H1 H2 Hmono [Hlo Hhi].
  assert (cnt (lo O' I' m v) <= cnt (lo O I m v)).
  { apply lo_mono; [|done]. intros b _ _. rewrite H1, H2. tauto. }
  assert (cnt (hi O I m v) <= cnt (hi O' I' m v)).
  { apply hi_mono; [|done]. intros b _ _. rewrite H1, H2. tauto. }
  unfold counted. lia.
Qed.

(** ** The invariant *)
Definition amsg_ok (x : amsg) : Prop :=
  match x with
  | AInv b _ m | AAck m _ b | AUpd b _ m => b ∈ machines /\ m ∈ machines /\ b <> m
  end.

Record ainv (O : aobjs) (I : list amsg) : Prop := {
  ai_obj : forall b, b ∈ machines -> (a_ts (O b)).2 ∈ machines /\
    (a_ph (O b) = Writing -> (a_ts (O b)).2 = b /\ 1 <= a_acks (O b) <= MACHINE_NUM - 1);
  ai_msgs : forall x, x ∈ I -> amsg_ok x;
  ai_nodup : NoDup I;
  ai_inv : forall b v m, AInv b v m ∈ I ->
    ts_le (v, m) (a_ts (O m)) /\ a_ts (O b) <> (v, m) /\
    (a_ts (O m) = (v, m) -> a_ph (O m) = Writing);
  ai_ack : forall m v b, AAck m v b ∈ I ->
    ts_le (v, m) (a_ts (O m)) /\ ts_le (v, m) (a_ts (O b)) /\ AInv b v m ∉ I;
  ai_upd : forall b v m, AUpd b v m ∈ I ->
    (forall x, x ∈ machines -> ts_le (v, m) (a_ts (O x))) /\
    (a_ts (O m) = (v, m) -> a_ph (O m) <> Writing);
  ai_valid : forall b, b ∈ machines -> a_ph (O b) = Valid ->
    forall x, x ∈ machines -> ts_le (a_ts (O b)) (a_ts (O x));
  ai_count : forall m, m ∈ machines -> a_ph (O m) = Writing ->
    counted O I m (a_ts (O m)).1 (a_acks (O m));
  ai_own : forall b v i, b ∈ machines -> a_ts (O b) = (v, i) -> ts_le (v, i) (a_ts (O i));
  ai_reason : forall b v m, b ∈ machines -> a_ph (O b) = Invalid -> a_ts (O b) = (v, m) ->
    (a_ph (O m) = Writing /\ a_ts (O m) = (v, m)) \/ AUpd b v m ∈ I \/
    exists x, x ∈ machines /\ ts_lt (v, m) (a_ts (O x))
}.

Definition ainit (O : aobjs) : Prop := forall b, O b = mkA (0, 0) Valid 0.

Lemma ainv_init O : ainit O -> ainv O [].
Proof.
  intros H. assert (H0 : 0 ∈ machines) by left. split; intros; rewrite ?H in *; simpl in *; try done;
    try match goal with H : _ ∈ [] |- _ => by apply not_elem_of_nil in H end.
  - constructor.
  - by right.
  - by right.
Qed.

Lemma ainv_ext O O' I : (forall x, O' x = O x) -> ainv O I -> ainv O' I.
Proof.
  intros HO []. split; try done; setoid_rewrite HO; try done.
  intros m Hm Hw. apply (counted_frame O I); try done; [|by auto].
  intros b _. rewrite HO. by right.
Qed.

(** ** Preservation *)
Lemma elem_of_removed {A} (l1 l2 : list A) x y :
  NoDup (l1 ++ x :: l2) -> y ∈ l1 ++ l2 <-> y ∈ l1 ++ x :: l2 /\ y <> x.
Proof.
  intros Hnd. rewrite !elem_of_app, elem_of_cons.
  apply NoDup_app in Hnd as (_ & Hd & Hnd). apply NoDup_cons in Hnd as [Hx _].
  split.
  - intros [H|H]; (split; [tauto|]); intros ->; [apply (Hd x H); left|done].
  - tauto.
Qed.

Lemma NoDup_removed {A} (l1 l2 : list A) x : NoDup (l1 ++ x :: l2) -> NoDup (l1 ++ l2).
Proof.
  rewrite !NoDup_app, NoDup_cons. intros (H1 & H2 & _ & H3). split_and!; try done.
  intros y Hy Hy2. apply (H2 y Hy). by right.
Qed.

Lemma ts_lt_not_le a b : ts_lt a b -> ~ ts_le b a.
Proof. intros H1 H2. by apply (ts_lt_irrefl a), (ts_lt_le_trans _ _ _ H1). Qed.

Section put.
Context (O O' : aobjs) (I : list amsg) (m v : Z).
Hypothesis Hi : ainv O I.
Hypothesis Hm : m ∈ machines.
Hypothesis Hv : (a_ts (O m)).1 < v.
Hypothesis HO : forall b, O' b = fupd O m (mkA (v, m) Writing (MACHINE_NUM - 1)) b.

Let I' := I ++ ((fun b => AInv b v m) <$> others m).

Lemma put_mem y : y ∈ I' <-> y ∈ I \/ exists b, b ∈ others m /\ y = AInv b v m.
Proof.
  unfold I'. rewrite elem_of_app, list_elem_of_fmap. split; intros [H|(b & H1 & H2)]; eauto.
Qed.

Lemma put_lt : ts_lt (a_ts (O m)) (v, m).
Proof using Hv. left. done. Qed.

Lemma put_mono b : ts_le (a_ts (O b)) (a_ts (O' b)).
Proof using Hv HO. rewrite HO. unfold fupd. zcase; [subst; left; apply put_lt|by right]. Qed.

Lemma put_other b : b <> m -> O' b = O b.
Proof using HO. intros. by rewrite HO, fupd_ne. Qed.

Lemma put_self : O' m = mkA (v, m) Writing (MACHINE_NUM - 1).
Proof using HO. by rewrite HO, fupd_eq. Qed.

(** Nothing in the system mentions the new write yet. *)
Lemma put_fresh b : ts_le (v, m) (a_ts (O b)) -> b <> m.
Proof using Hv. intros H ->. by apply (ts_lt_not_le _ _ put_lt). Qed.

Lemma put_count i :
  i ∈ machines -> a_ph (O' i) = Writing -> counted O' I' i (a_ts (O' i)).1 (a_acks (O' i)).
Proof using All.
  intros Him. destruct (Z.eq_dec i m) as [->|Hne].
  - intros _. rewrite put_self. unfold counted. simpl.
    assert (Hlom : lo O' I' m v m = false) by (unfold lo; by rewrite Z.eqb_refl).
    assert (Hhim : hi O' I' m v m = false) by (unfold hi; by rewrite Z.eqb_refl).
    split; [by apply (cnt_others _ m)|]. apply Z.eq_le_incl. symmetry.
    apply (cnt_others _ m Hm Hhim). intros b Hb. apply hi_true.
    split; [apply elem_of_others in Hb; tauto|]. left. apply put_mem. eauto.
  - rewrite put_other by done. intros Hw.
    apply (counted_frame O I); [| |by intros; apply put_mono|by apply (ai_count _ _ Hi)];
      intros b; rewrite put_mem; split; [intros [?|(? & _ & [=])]|tauto|intros [?|(? & _ & [=])]|tauto];
      done.
Qed.

Lemma ainv_put : ainv O' I'.
Proof using All.
  pose proof put_mono as Hmono. pose proof put_lt as Hlt.
  split.
  - intros b Hb. destruct (Z.eq_dec b m) as [->|Hne].
    + rewrite put_self. simpl. split; [done|]. intros _. split; [done|]. unfold MACHINE_NUM. lia.
    + rewrite put_other by done. by apply (ai_obj _ _ Hi).
  - intros y [Hy|(b & Hb & ->)]%put_mem; [by apply (ai_msgs _ _ Hi)|].
    apply elem_of_others in Hb. simpl. tauto.
  - unfold I'. apply NoDup_app. split_and!; [apply Hi| |].
    + intros y Hy (b & -> & Hb)%list_elem_of_fmap.
      destruct (ai_inv _ _ Hi _ _ _ Hy) as (Hle & _). by apply (ts_lt_not_le _ _ Hlt).
    + apply NoDup_fmap_2_strong; [by intros ? ? _ _ [=]|apply others_NoDup].
  - intros b w i [Hy|(b' & Hb & [= -> -> ->])]%put_mem.
    + destruct (ai_inv _ _ Hi _ _ _ Hy) as (H1 & H2 & H3).
      pose proof (ai_msgs _ _ Hi _ Hy) as (_ & _ & Hne). split_and!; [eauto with ccKVS| |].
      * destruct (Z.eq_dec b m) as [->|Hb]; [rewrite put_self; simpl; congruence|].
        by rewrite put_other.
      * destruct (Z.eq_dec i m) as [->|Hb]; [by rewrite put_self|]. by rewrite put_other.
    + apply elem_of_others in Hb as [Hb Hne]. rewrite put_self, put_other by done. simpl.
      split_and!; [by right| |done]. intros E.
      pose proof (ai_own _ _ Hi b' v m Hb E) as Hle. by apply (ts_lt_not_le _ _ Hlt).
  - intros i w b [Hy|(b' & Hb & [=])]%put_mem.
    destruct (ai_ack _ _ Hi _ _ _ Hy) as (H1 & H2 & H3). split_and!; [eauto with ccKVS..|].
    intros [Hy2|(b' & Hb & [= -> -> ->])]%put_mem; [done|].
    by apply (ts_lt_not_le _ _ Hlt).
  - intros b w i [Hy|(b' & Hb & [=])]%put_mem.
    destruct (ai_upd _ _ Hi _ _ _ Hy) as (H1 & H2). split; [eauto with ccKVS|].
    destruct (Z.eq_dec i m) as [->|Hne]; [|by rewrite put_other].
    rewrite put_self. simpl. intros [= ->].
    exfalso. by apply (ts_lt_not_le _ _ Hlt), H1.
  - intros b Hb. destruct (Z.eq_dec b m) as [->|Hne]; [by rewrite put_self|].
    rewrite put_other by done. intros Hph x Hx.
    pose proof (ai_valid _ _ Hi b Hb Hph x Hx). eauto with ccKVS.
  - apply put_count.
  - intros b w i Hb. destruct (Z.eq_dec b m) as [->|Hne].
    + rewrite put_self. intros [= <- <-]. rewrite put_self. by right.
    + rewrite put_other by done. intros E. pose proof (ai_own _ _ Hi b w i Hb E). eauto with ccKVS.
  - intros b w i Hb. destruct (Z.eq_dec b m) as [->|Hne]; [by rewrite put_self|].
    rewrite put_other by done. intros Hph E.
    destruct (ai_reason _ _ Hi b w i Hb Hph E) as [[H1 H2]|[H|(x & Hx & Hlx)]].
    + destruct (Z.eq_dec i m) as [->|Hni].
      * right. right. exists m. split; [done|]. rewrite put_self. by rewrite <- H2.
      * left. by rewrite put_other.
    + right. left. apply put_mem. by left.
    + right. right. exists x. eauto with ccKVS.
Qed.
End put.

(** An invalidation that succeeds: machine [b] moves to (v, m) and
    acknowledges. *)
Section inv_ok.
Context (O O' : aobjs) (l1 l2 : list amsg) (b v m : Z).
Let I := l1 ++ AInv b v m :: l2.
Let I' := (l1 ++ l2) ++ [AAck m v b].
Hypothesis Hi : ainv O I.
Hypothesis Hlt : ts_lt (a_ts (O b)) (v, m).
Hypothesis HO : forall x, O' x = fupd O b (mkA (v, m) Invalid (a_acks (O b))) x.

Lemma io_in : AInv b v m ∈ I.
Proof. unfold I. rewrite elem_of_app, elem_of_cons. tauto. Qed.

Lemma io_mem y : y ∈ I' <-> (y ∈ I /\ y <> AInv b v m) \/ y = AAck m v b.
Proof using Hi.
  unfold I'. rewrite elem_of_app, (elem_of_removed _ _ (AInv b v m)) by apply Hi.
  by rewrite list_elem_of_singleton.
Qed.

Lemma io_mono x : ts_le (a_ts (O x)) (a_ts (O' x)).
Proof using HO Hlt. rewrite HO. unfold fupd. zcase; [subst; by left|by right]. Qed.

Lemma io_self : O' b = mkA (v, m) Invalid (a_acks (O b)).
Proof using HO. by rewrite HO, fupd_eq. Qed.

Lemma io_other x : x <> b -> O' x = O x.
Proof using HO. intros. by rewrite HO, fupd_ne. Qed.

Lemma io_count i :
  i ∈ machines -> a_ph (O' i) = Writing -> counted O' I' i (a_ts (O' i)).1 (a_acks (O' i)).
Proof using All.
  intros Him. destruct (Z.eq_dec i b) as [->|Hne]; [by rewrite io_self|].
  rewrite io_other by done. intros Hw. pose proof (ai_count _ _ Hi i Him Hw) as [Hlo Hhi].
  set (w := (a_ts (O i)).1) in *. split.
  - etrans; [apply (lo_mono O I)|done]; [|by intros; apply io_mono].
    intros x _ _ [[[H _]|[=]]%io_mem|[[H _]|[= -> -> ->]]%io_mem]; eauto using io_in.
  - etrans; [done|apply (hi_mono O I)]; [|by intros; apply io_mono].
    intros x _ _. rewrite !io_mem. intros [H|H].
    + destruct (decide (AInv x w i = AInv b v m)) as [[= -> -> ->]|Hd]; [tauto|].
      left. by left.
    + right. left. left. by split.
Qed.

Lemma ainv_inv_ok : ainv O' I'.
Proof using All.
  pose proof io_mono as Hmono. pose proof (ai_msgs _ _ Hi _ io_in) as (Hb & Hm & Hbm).
  destruct (ai_inv _ _ Hi _ _ _ io_in) as (Hle & _ & Hwr).
  assert (Hmo : O' m = O m) by (apply io_other; congruence).
  split.
  - intros x Hx. destruct (Z.eq_dec x b) as [->|Hne]; [by rewrite io_self|].
    rewrite io_other by done. by apply (ai_obj _ _ Hi).
  - intros y [[Hy _]| ->]%io_mem; [by apply (ai_msgs _ _ Hi)|done].
  - unfold I'. apply NoDup_app. split_and!; [eapply NoDup_removed, Hi| |apply NoDup_singleton].
    intros y Hy ->%list_elem_of_singleton.
    apply (elem_of_removed _ _ (AInv b v m)) in Hy as [Hy _]; [|apply Hi].
    destruct (ai_ack _ _ Hi _ _ _ Hy) as (_ & _ & Hno). apply Hno, io_in.
  - intros x w i [[Hy Hd]|[=]]%io_mem. destruct (ai_inv _ _ Hi _ _ _ Hy) as (H1 & H2 & H3).
    split_and!; [eauto with ccKVS| |].
    + destruct (Z.eq_dec x b) as [->|]; [rewrite io_self; simpl; congruence|by rewrite io_other].
    + destruct (Z.eq_dec i b) as [->|]; [rewrite io_self; simpl; congruence|by rewrite io_other].
  - intros i w x [[Hy _]|[= -> -> ->]]%io_mem.
    + destruct (ai_ack _ _ Hi _ _ _ Hy) as (H1 & H2 & H3). split_and!; [eauto with ccKVS..|].
      by intros [[? _]|[=]]%io_mem.
    + split_and!; [by rewrite Hmo|rewrite io_self; by right|]. by intros [[_ ?]|[=]]%io_mem.
  - intros x w i [[Hy _]|[=]]%io_mem. destruct (ai_upd _ _ Hi _ _ _ Hy) as (H1 & H2).
    split; [eauto with ccKVS|].
    destruct (Z.eq_dec i b) as [->|]; [by rewrite io_self|by rewrite io_other].
  - intros x Hx. destruct (Z.eq_dec x b) as [->|Hne]; [by rewrite io_self|].
    rewrite io_other by done. intros Hph y Hy. pose proof (ai_valid _ _ Hi x Hx Hph y Hy).
    eauto with ccKVS.
  - apply io_count.
  - intros x w i Hx. destruct (Z.eq_dec x b) as [->|Hne].
    + rewrite io_self. intros [= <- <-]. by rewrite Hmo.
    + rewrite io_other by done. intros E. pose proof (ai_own _ _ Hi x w i Hx E). eauto with ccKVS.
  - intros x w i Hx. destruct (Z.eq_dec x b) as [->|Hne].
    + rewrite io_self. intros _ [= <- <-]. rewrite Hmo. destruct Hle as [Hl|He]; [|left; auto].
      right. right. exists m. by rewrite Hmo.
    + rewrite io_other by done. intros Hph E.
      destruct (ai_reason _ _ Hi x w i Hx Hph E) as [[H1 H2]|[H|(y & Hy & Hly)]].
      * destruct (Z.eq_dec i b) as [->|]; [|left; by rewrite io_other].
        right. right. exists b. split; [done|]. rewrite io_self. by rewrite <- H2.
      * right. left. apply io_mem. left. done.
      * right. right. exists y. eauto with ccKVS.
Qed.
End inv_ok.

(** Removing a message that no longer matters. *)
Section drop.
Context (O : aobjs) (l1 l2 : list amsg) (x : amsg).
Let I := l1 ++ x :: l2.
Let I' := l1 ++ l2.
Hypothesis Hi : ainv O I.
Hypothesis Hcount : forall m, m ∈ machines -> a_ph (O m) = Writing ->
  cnt (hi O I m (a_ts (O m)).1) <= cnt (hi O I' m (a_ts (O m)).1).
Hypothesis Hreason : forall b v m, x = AUpd b v m -> ~ (a_ph (O b) = Invalid /\ a_ts (O b) = (v, m)).

Lemma drop_mem y : y ∈ I' <-> y ∈ I /\ y <> x.
Proof using Hi. apply elem_of_removed, Hi. Qed.

Lemma ainv_drop : ainv O I'.
Proof using All.
  pose proof Hi as [H1 H2 H3 H4 H5 H6 H7 H8 H9 H10].
  split; try done.
  - intros y [Hy _]%drop_mem. by apply H2.
  - by eapply NoDup_removed.
  - intros b v m [Hy _]%drop_mem. by apply (H4 b v m).
  - intros m v b [Hy _]%drop_mem. destruct (H5 m v b Hy) as (? & ? & ?). split_and!; try done.
    by intros [? _]%drop_mem.
  - intros b v m [Hy _]%drop_mem. by apply (H6 b v m).
  - intros m Hm Hw. destruct (H8 m Hm Hw) as [Hlo Hhi]. split.
    + etrans; [apply (lo_mono O I)|done]; [|by right].
      intros b _ _ [[? _]%drop_mem|[? _]%drop_mem]; tauto.
    + etrans; [done|by apply Hcount].
  - intros b v m Hb Hph E. destruct (H10 b v m Hb Hph E) as [?|[H|?]]; [by left| |by right; right].
    destruct (decide (AUpd b v m = x)) as [Ex|Ex]; [|right; left; by apply drop_mem].
    exfalso. by apply (Hreason b v m).
Qed.
End drop.

Lemma ainv_inv_fail O l1 l2 b v m :
  ainv O (l1 ++ AInv b v m :: l2) -> ~ ts_lt (a_ts (O b)) (v, m) -> ainv O (l1 ++ l2).
Proof.
  intros Hi Hge. apply (ainv_drop O l1 l2 (AInv b v m) Hi); [|done].
  intros i Him Hw. apply hi_mono; [|by right]. intros x Hx _.
  assert (Hin : AInv b v m ∈ l1 ++ AInv b v m :: l2) by (rewrite elem_of_app, elem_of_cons; tauto).
  destruct (ai_inv _ _ Hi _ _ _ Hin) as (_ & Hne & _).
  rewrite !(elem_of_removed l1 l2 (AInv b v m)) by apply Hi.
  intros [H|H]; [|right; left; by split].
  destruct (decide (AInv x (a_ts (O i)).1 i = AInv b v m)) as [E|E]; [|left; by split].
  injection E as -> E2 ->. rewrite E2 in *. right. right.
  destruct (ts_not_lt _ _ Hge) as [Hl|He]; [done|]. by exfalso; apply Hne.
Qed.

Lemma ainv_ack_fail O l1 l2 m v b :
  ainv O (l1 ++ AAck m v b :: l2) -> ~ (a_ph (O m) = Writing /\ (a_ts (O m)).1 = v) ->
  ainv O (l1 ++ l2).
Proof.
  intros Hi Hno. apply (ainv_drop O l1 l2 (AAck m v b) Hi); [|done].
  intros i Him Hw. apply hi_mono; [|by right]. intros x Hx _.
  rewrite !(elem_of_removed l1 l2 (AAck m v b)) by apply Hi.
  intros [H|H]; [left; by split|]. right. left. split; [done|].
  intros [= -> E _]. by apply Hno.
Qed.

Lemma ainv_upd_fail O l1 l2 b v m :
  ainv O (l1 ++ AUpd b v m :: l2) -> ~ (a_ph (O b) = Invalid /\ a_ts (O b) = (v, m)) ->
  ainv O (l1 ++ l2).
Proof.
  intros Hi Hno. apply (ainv_drop O l1 l2 (AUpd b v m) Hi); [|by intros ? ? ? [= <- <- <-]].
  intros i Him Hw. apply hi_mono; [|by right]. intros x Hx _.
  rewrite !(elem_of_removed l1 l2 (AUpd b v m)) by apply Hi.
  intros [H|H]; [left|right; left]; by split.
Qed.

(** An acknowledgement for the pending write of machine [m]. *)
Section ack.
Context (O O' : aobjs) (l1 l2 : list amsg) (m v b : Z).
Let I := l1 ++ AAck m v b :: l2.
Hypothesis Hi : ainv O I.
Hypothesis Hph : a_ph (O m) = Writing.
Hypothesis Hv : (a_ts (O m)).1 = v.

Lemma ack_in : AAck m v b ∈ I.
Proof. unfold I. rewrite elem_of_app, elem_of_cons. tauto. Qed.

Lemma ack_mem y : y ∈ l1 ++ l2 <-> y ∈ I /\ y <> AAck m v b.
Proof using Hi. apply elem_of_removed, Hi. Qed.

Lemma ack_ts : a_ts (O m) = (v, m).
Proof using Hi Hph Hv.
  pose proof (ai_msgs _ _ Hi _ ack_in) as (Hb & Hm & _).
  destruct (ai_obj _ _ Hi m Hm) as [_ H]. destruct (H Hph) as [E _].
  destruct (a_ts (O m)). simpl in *. congruence.
Qed.

Lemma ack_lo : lo O I m v b = true /\ lo O (l1 ++ l2) m v b = false.
Proof using Hi Hph Hv.
  pose proof (ai_msgs _ _ Hi _ ack_in) as (Hb & Hm & Hne).
  destruct (ai_ack _ _ Hi _ _ _ ack_in) as (_ & Hle & Hno). split.
  - apply lo_true. split; [done|]. right. left. apply ack_in.
  - apply not_true_iff_false. rewrite lo_true. intros (_ & [H|[H|H]]).
    + apply ack_mem in H as [? _]. done.
    + apply ack_mem in H as [_ ?]. done.
    + by apply (ts_lt_not_le _ _ H).
Qed.

(** It counts: one less to wait for. *)
Lemma ainv_ack :
  a_acks (O m) <> 1 ->
  (forall x, O' x = fupd O m (mkA (a_ts (O m)) Writing (a_acks (O m) - 1)) x) ->
  ainv O' (l1 ++ l2).
Proof using Hi Hph Hv.
  intros Hn HO. pose proof (ai_msgs _ _ Hi _ ack_in) as (Hb & Hm & Hne).
  destruct (ai_obj _ _ Hi m Hm) as [Hm2 Hacks]. destruct (Hacks Hph) as [Hself Hrange].
  assert (Hts : forall x, a_ts (O' x) = a_ts (O x)) by (intros x; rewrite HO; unfold fupd; by zcase; subst).
  assert (Hphs : forall x, a_ph (O' x) = a_ph (O x)) by (intros x; rewrite HO; unfold fupd; by zcase; subst).
  pose proof Hi as [H1 H2 H3 H4 H5 H6 H7 H8 H9 H10].
  split.
  - intros x Hx. rewrite Hts, Hphs. destruct (H1 x Hx) as [Ha Hc]. split; [done|].
    intros Hw. destruct (Hc Hw) as [? ?]. split; [done|].
    rewrite HO. unfold fupd. zcase; [simpl; lia|done].
  - intros y [Hy _]%ack_mem. by apply H2.
  - by eapply NoDup_removed.
  - intros x w i [Hy _]%ack_mem. rewrite !Hts, Hphs. by apply (H4 x w i).
  - intros i w x [Hy _]%ack_mem. rewrite !Hts. destruct (H5 i w x Hy) as (? & ? & ?).
    split_and!; try done. by intros [? _]%ack_mem.
  - intros x w i [Hy _]%ack_mem. setoid_rewrite Hts. rewrite Hphs. by apply (H6 x w i).
  - intros x Hx. rewrite Hphs. setoid_rewrite Hts. by apply H7.
  - intros i Him. rewrite Hphs, Hts. intros Hw.
    assert (Hx : forall x, x ∈ machines -> ts_le (a_ts (O x)) (a_ts (O' x)))
      by (intros x _; rewrite Hts; by right).
    destruct (Z.eq_dec i m) as [->|Hni].
    + destruct (H8 m Hm Hph) as [Hlo Hhi]. rewrite Hv in *. destruct ack_lo as [L1 L2].
      assert (Eacks : a_acks (O' m) = a_acks (O m) - 1) by (by rewrite HO, fupd_eq).
      assert (Elo : forall x, lo O' (l1 ++ l2) m v x = lo O (l1 ++ l2) m v x)
        by (intros x; unfold lo; by rewrite Hts).
      split; rewrite Eacks.
      * pose proof (cnt_strict (lo O I m v) (lo O' (l1 ++ l2) m v) b Hb L1
          ltac:(by rewrite Elo)) as Hs.
        specialize (Hs ltac:(intros x _; rewrite Elo, !lo_true, !ack_mem; tauto)). lia.
      * pose proof (cnt_but_one (hi O I m v) (hi O' (l1 ++ l2) m v) b Hb) as Hs.
        specialize (Hs ltac:(intros x _ Hxb; rewrite !hi_true, !ack_mem, Hts;
          intros (? & [?|[?|?]]); (split; [done|]); [left; by split|right; left; split; [done|congruence]|tauto])).
        lia.
    + replace (a_acks (O' i)) with (a_acks (O i)) by (by rewrite HO, fupd_ne).
      apply (counted_frame O I); [| |done|by apply H8]; intros x; rewrite ack_mem; split;
        try tauto; intros ?; (split; [done|congruence]).
  - intros x w i Hx. rewrite !Hts. by apply H9.
  - intros x w i Hx. rewrite !Hphs, !Hts. intros Hp E. setoid_rewrite Hts.
    destruct (H10 x w i Hx Hp E) as [?|[?|?]]; [by left| |by right; right].
    right. left. apply ack_mem. by split.
Qed.

(** It is the last: every machine has reached (v, m), and no message of the
    write is left. *)
Lemma ack_last_all :
  a_acks (O m) = 1 ->
  (forall x, x ∈ machines -> ts_le (v, m) (a_ts (O x))) /\
  (forall x, AInv x v m ∉ I).
Proof using Hi Hph Hv.
  intros Hn. pose proof (ai_msgs _ _ Hi _ ack_in) as (Hb & Hm & Hne).
  destruct (ai_ack _ _ Hi _ _ _ ack_in) as (_ & Hle & Hno).
  destruct (ai_count _ _ Hi m Hm Hph) as [Hlo _]. rewrite Hv, Hn in Hlo. destruct ack_lo as [L1 _].
  assert (Hout : forall x, x ∈ machines -> x <> b -> x <> m ->
    ts_le (v, m) (a_ts (O x)) /\ AInv x v m ∉ I).
  { intros x Hx Hxb Hxm. pose proof (cnt_one _ b x Hlo Hb L1 Hx Hxb) as Hf.
    apply not_true_iff_false in Hf. rewrite lo_true in Hf. split.
    - apply ts_not_lt. tauto.
    - tauto. }
  split.
  - intros x Hx. destruct (Z.eq_dec x b) as [->|Hxb]; [done|].
    destruct (Z.eq_dec x m) as [->|Hxm]; [rewrite ack_ts; by right|]. by apply Hout.
  - intros x Hx. pose proof (ai_msgs _ _ Hi _ Hx) as (Hxm & _ & Hxne).
    destruct (Z.eq_dec x b) as [->|Hxb]; [done|]. by apply (Hout x).
Qed.

Lemma ack_last_mem y :
  y ∈ (l1 ++ l2) ++ ((fun x => AUpd x v m) <$> others m) <->
  (y ∈ I /\ y <> AAck m v b) \/ exists x, x ∈ others m /\ y = AUpd x v m.
Proof using Hi.
  rewrite elem_of_app, ack_mem, list_elem_of_fmap. split; intros [H|(x & H1 & H2)]; eauto.
Qed.

Lemma ainv_ack_last :
  a_acks (O m) = 1 ->
  (forall x, O' x = fupd O m (mkA (a_ts (O m)) Valid 0) x) ->
  ainv O' ((l1 ++ l2) ++ ((fun x => AUpd x v m) <$> others m)).
Proof using Hi Hph Hv.
  intros Hn HO. pose proof (ai_msgs _ _ Hi _ ack_in) as (Hb & Hm & Hne).
  destruct (ack_last_all Hn) as [Hall Hnoinv]. pose proof ack_ts as Hts0.
  assert (Hts : forall x, a_ts (O' x) = a_ts (O x)) by (intros x; rewrite HO; unfold fupd; by zcase; subst).
  assert (Hm' : a_ph (O' m) = Valid) by (by rewrite HO, fupd_eq).
  assert (Hoth : forall x, x <> m -> O' x = O x) by (intros x ?; by rewrite HO, fupd_ne).
  pose proof Hi as [H1 H2 H3 H4 H5 H6 H7 H8 H9 H10].
  split.
  - intros x Hx. destruct (Z.eq_dec x m) as [->|Hxm]; [|rewrite Hoth by done; by apply H1].
    rewrite Hts, Hm'. split; [by apply H1|done].
  - intros y [[Hy _]|(x & Hx & ->)]%ack_last_mem; [by apply H2|].
    apply elem_of_others in Hx. simpl. tauto.
  - apply NoDup_app. split_and!; [by eapply NoDup_removed| |].
    + intros y Hy%ack_mem (x & -> & Hx)%list_elem_of_fmap. destruct Hy as [Hy _].
      destruct (H6 _ _ _ Hy) as [_ Hno]. by apply Hno.
    + apply NoDup_fmap_2_strong; [by intros ? ? _ _ [=]|apply others_NoDup].
  - intros x w i [[Hy _]|(? & _ & [=])]%ack_last_mem. rewrite !Hts.
    destruct (H4 x w i Hy) as (Ha & Hb' & Hc). split_and!; try done.
    destruct (Z.eq_dec i m) as [->|Him]; [|by rewrite Hoth].
    intros E. exfalso. rewrite Hts0 in E. injection E as <-. by apply (Hnoinv x).
  - intros i w x [[Hy _]|(? & _ & [=])]%ack_last_mem. rewrite !Hts.
    destruct (H5 i w x Hy) as (? & ? & ?). split_and!; try done.
    by intros [[? _]|(? & _ & [=])]%ack_last_mem.
  - intros x w i [[Hy _]|(x' & Hx & [= -> -> ->])]%ack_last_mem; setoid_rewrite Hts.
    + destruct (H6 x w i Hy) as [Ha Hc]. split; [done|].
      destruct (Z.eq_dec i m) as [->|Him]; [by rewrite Hm'|by rewrite Hoth].
    + split; [done|]. by rewrite Hm'.
  - intros x Hx. setoid_rewrite Hts. destruct (Z.eq_dec x m) as [->|Hxm].
    + intros _. by rewrite Hts0.
    + rewrite Hoth by done. by apply H7.
  - intros i Him. destruct (Z.eq_dec i m) as [->|Hxm]; [by rewrite Hm'|].
    rewrite Hoth by done. intros Hw. apply (counted_frame O I); [| | |by apply H8].
    + intros x. rewrite ack_last_mem. split; [intros [?|(? & _ & [=])]; tauto|].
      intros ?. left. by split.
    + intros x. rewrite ack_last_mem. split; [intros [?|(? & _ & [=])]; tauto|].
      intros ?. left. split; [done|congruence].
    + intros x _. rewrite Hts. by right.
  - intros x w i Hx. rewrite !Hts. by apply H9.
  - intros x w i Hx. destruct (Z.eq_dec x m) as [->|Hxm]; [by rewrite Hm'|].
    rewrite Hoth by done. intros Hp E. setoid_rewrite Hts.
    destruct (H10 x w i Hx Hp E) as [[Ha Hc]|[?|?]]; [| |by right; right].
    + destruct (Z.eq_dec i m) as [->|Him]; [|left; by rewrite Hoth].
      right. left. apply ack_last_mem. right. exists x. rewrite Hts0 in Hc. injection Hc as <-.
      split; [by apply elem_of_others|done].
    + right. left. apply ack_last_mem. left. by split.
Qed.
End ack.

(** An update that validates machine [b]. *)
Section upd.
Context (O O' : aobjs) (l1 l2 : list amsg) (b v m : Z).
Let I := l1 ++ AUpd b v m :: l2.
Hypothesis Hi : ainv O I.
Hypothesis Hph : a_ph (O b) = Invalid.
Hypothesis Hb : a_ts (O b) = (v, m).
Hypothesis HO : forall x, O' x = fupd O b (mkA (v, m) Valid (a_acks (O b))) x.

Lemma upd_mem y : y ∈ l1 ++ l2 <-> y ∈ I /\ y <> AUpd b v m.
Proof using Hi. apply elem_of_removed, Hi. Qed.

Lemma ainv_upd : ainv O' (l1 ++ l2).
Proof using All.
  assert (Hin : AUpd b v m ∈ I) by (unfold I; rewrite elem_of_app, elem_of_cons; tauto).
  destruct (ai_upd _ _ Hi _ _ _ Hin) as [Hall _].
  assert (Hts : forall x, a_ts (O' x) = a_ts (O x)) by (intros x; rewrite HO; unfold fupd; by zcase; subst).
  assert (Hb' : a_ph (O' b) = Valid) by (by rewrite HO, fupd_eq).
  assert (Hoth : forall x, x <> b -> O' x = O x) by (intros x ?; by rewrite HO, fupd_ne).
  pose proof Hi as [H1 H2 H3 H4 H5 H6 H7 H8 H9 H10].
  split.
  - intros x Hx. destruct (Z.eq_dec x b) as [->|]; [|rewrite Hoth by done; by apply H1].
    rewrite Hts, Hb'. split; [by apply H1|done].
  - intros y [Hy _]%upd_mem. by apply H2.
  - by eapply NoDup_removed.
  - intros x w i [Hy _]%upd_mem. rewrite !Hts. destruct (H4 x w i Hy) as (? & ? & Hc).
    split_and!; try done. destruct (Z.eq_dec i b) as [->|]; [|by rewrite Hoth].
    intros E. rewrite (Hc E) in Hph. done.
  - intros i w x [Hy _]%upd_mem. rewrite !Hts. destruct (H5 i w x Hy) as (? & ? & ?).
    split_and!; try done. by intros [? _]%upd_mem.
  - intros x w i [Hy _]%upd_mem. setoid_rewrite Hts. destruct (H6 x w i Hy) as [? Hc].
    split; [done|]. destruct (Z.eq_dec i b) as [->|]; [by rewrite Hb'|by rewrite Hoth].
  - intros x Hx. setoid_rewrite Hts. destruct (Z.eq_dec x b) as [->|]; [by rewrite Hb|].
    rewrite Hoth by done. by apply H7.
  - intros i Him. destruct (Z.eq_dec i b) as [->|]; [by rewrite Hb'|].
    rewrite Hoth by done. intros Hw. apply (counted_frame O I); [| | |by apply H8].
    + intros x. rewrite upd_mem. split; [tauto|]. by split.
    + intros x. rewrite upd_mem. split; [tauto|]. by split.
    + intros x _. rewrite Hts. by right.
  - intros x w i Hx. rewrite !Hts. by apply H9.
  - intros x w i Hx. destruct (Z.eq_dec x b) as [->|Hxb]; [by rewrite Hb'|].
    rewrite Hoth by done. intros Hp E. setoid_rewrite Hts.
    destruct (H10 x w i Hx Hp E) as [[Ha Hc]|[?|?]]; [| |by right; right].
    + left. destruct (Z.eq_dec i b) as [->|]; [congruence|by rewrite Hoth].
    + right. left. apply upd_mem. split; [done|congruence].
Qed.
End upd.

Lemma astep_inv O I O' I' : ainv O I -> astep (O, I) (O', I') -> ainv O' I'.
Proof.
  intros Hi Hs. inversion Hs; subst.
  - by eapply ainv_put.
  - by eapply ainv_inv_ok.
  - eapply ainv_ext; [done|]. by eapply ainv_inv_fail.
  - by eapply ainv_ack.
  - by eapply ainv_ack_last.
  - eapply ainv_ext; [done|]. by eapply ainv_ack_fail.
  - by eapply ainv_upd.
  - eapply ainv_ext; [done|]. by eapply ainv_upd_fail.
  - by eapply ainv_ext.
Qed.

(** Timestamps never move back. *)
Lemma fupd_mono (O O' : aobjs) b a :
  ts_le (a_ts (O b)) (a_ts a) -> (forall x, O' x = fupd O b a x) ->
  forall x, ts_le (a_ts (O x)) (a_ts (O' x)).
Proof. intros Hle HO x. rewrite HO. unfold fupd. zcase; [by subst|by right]. Qed.

Lemma astep_mono O I O' I' x : astep (O, I) (O', I') -> ts_le (a_ts (O x)) (a_ts (O' x)).
Proof.
  intros Hs.
  inversion Hs as [? ? ? m v ? Hv HO|? ? ? ? b v m Hlt HO|? ? ? ? ? ? ? ? HO
    |? ? ? ? m v b ? ? ? HO|? ? ? ? m v b ? ? ? HO|? ? ? ? ? ? ? ? HO
    |? ? ? ? b v m ? E HO|? ? ? ? ? ? ? ? HO|? ? ? HO]; subst;
    try (by rewrite HO; right).
  - eapply fupd_mono; [|exact HO]; left; by left.
  - eapply fupd_mono; [|exact HO]; by left.
  - eapply fupd_mono; [|exact HO]; by right.
  - eapply fupd_mono; [|exact HO]; by right.
  - eapply fupd_mono; [|exact HO]; right; by rewrite E.
Qed.

(** ** What the invariant gives *)
Lemma latest_in O (l : list Z) : l <> [] ->
  exists x, x ∈ l /\ forall y, y ∈ l -> ts_le (a_ts (O y)) (a_ts (O x)).
Proof.
  induction l as [|a l IH]; [done|]. intros _. destruct l as [|a' l].
  - exists a. split; [left|]. intros y ->%list_elem_of_singleton. by right.
  - destruct IH as (x & Hx & Hall); [done|].
    destruct (decide (ts_lt (a_ts (O x)) (a_ts (O a)))) as [Hlt|Hge].
    + exists a. split; [left|]. intros y [->|Hy]%elem_of_cons; [by right|].
      left. eapply ts_le_lt_trans; eauto.
    + exists x. split; [by right|]. intros y [->|Hy]%elem_of_cons; [by apply ts_not_lt|auto].
Qed.

Lemma quiescent_valid O :
  ainv O [] -> forall b, b ∈ machines -> a_ph (O b) = Valid /\ a_ts (O b) = a_ts (O 0).
Proof.
  intros Hi.
  assert (H0 : 0 ∈ machines) by left.
  (* a machine whose timestamp is maximal *)
  destruct (latest_in O machines) as (x & Hx & Hmax); [done|].
  (* the write it stands for belongs to a machine that holds it *)
  set (v := (a_ts (O x)).1). set (w := (a_ts (O x)).2).
  assert (Ex : a_ts (O x) = (v, w)) by (unfold v, w; by destruct (a_ts (O x))).
  assert (Hw : w ∈ machines) by apply (ai_obj _ _ Hi x Hx).
  assert (Ew : a_ts (O w) = (v, w)).
  { apply ts_le_antisym; [rewrite <- Ex; auto|]. by apply (ai_own _ _ Hi x v w Hx). }
  assert (Hnw : a_ph (O w) <> Writing).
  { intros Hph. destruct (ai_obj _ _ Hi w Hw) as [_ Ha]. destruct (Ha Hph) as [_ Hr].
    destruct (ai_count _ _ Hi w Hw Hph) as [_ Hhi]. rewrite Ew in Hhi. simpl in Hhi.
    assert (cnt (hi O [] w v) <= cnt (fun _ => false)).
    { apply cnt_mono. intros y Hy. rewrite hi_true. intros (_ & [H|[H|H]]);
        [by apply not_elem_of_nil in H|by apply not_elem_of_nil in H|].
      exfalso. apply (ts_lt_not_le _ _ H). rewrite <- Ex. auto. }
    change (cnt (fun _ => false)) with 0 in *. lia. }
  assert (Hnot : forall b, b ∈ machines -> a_ts (O b) = (v, w) -> a_ph (O b) <> Invalid).
  { intros b Hb Eb Hph. destruct (ai_reason _ _ Hi b v w Hb Hph Eb) as [[? _]|[H|(y & Hy & H)]];
      [done|by apply not_elem_of_nil in H|].
    apply (ts_lt_not_le _ _ H). rewrite <- Ex. auto. }
  assert (Hv : a_ph (O w) = Valid) by (specialize (Hnot w Hw Ew); by destruct (a_ph (O w))).
  assert (Hall : forall b, b ∈ machines -> a_ts (O b) = (v, w)).
  { intros b Hb. apply ts_le_antisym; [rewrite <- Ex; auto|].
    rewrite <- Ew. by apply (ai_valid _ _ Hi w Hw Hv). }
  intros b Hb. split; [|by rewrite !Hall].
  specialize (Hnot b Hb (Hall b Hb)).
  destruct (a_ph (O b)) eqn:E; [done|done|].
  destruct (ai_obj _ _ Hi b Hb) as [_ Ha]. destruct (Ha E) as [Eb _].
  rewrite Hall in Eb by done. simpl in Eb. subst. congruence.
Qed.
