(* ===== verification/LinProtocol.v ===== *)
(** * The linearizable protocol, one object on all machines

    The states reached by running the handlers of [Cache] on every machine in
    any interleaving: local writes broadcast invalidations, a successful
    invalidation is acknowledged, the last acknowledgement completes the write
    and broadcasts the update.  The run refines the abstract machine of
    [LinSpec]; its invariant then gives the protocol's guarantees in terms of
    the code: real-time order of reads and writes, a single readable
    timestamp, and recovery of a readable object once all messages are
    delivered.  The last part shows which value the update carries. *)
From stdpp Require Import relations.
From S2P Require Import Prelude Config Optik Layout City Mica MicaLog Cache CacheSpec Network.
From S2P Require Import ScProtocol LinSpec.

Record lin_config := mkLin { lin_obj : Z -> entry; lin_net : list msg }.

(** ** Steps

    A step on the client's own requests.  The version does not wrap. *)
Inductive lin_local (c : lin_config) : lin_config -> Prop :=
| lin_local_put m op r e' op' r' :
    m ∈ machines -> client_put op -> version (e_meta (lin_obj c m)) + 2 < 2 ^ 32 ->
    lin_op m 0 (lin_obj c m) op r = Done (e', op', r') ->
    lin_local c (mkLin (fupd (lin_obj c) m e')
      (lin_net c ++ if resp_type r' =? CACHE_PUT_SUCCESS then bcast_inv m op' else []))
| lin_local_get m vp op r e' op' r' :
    m ∈ machines -> opcode op = CACHE_OP_GET ->
    lin_op m vp (lin_obj c m) op r = Done (e', op', r') ->
    lin_local c (mkLin (fupd (lin_obj c) m e') (lin_net c)).

(** Delivery of one message, whichever; [slot] is what the receive array held
    before. *)
Inductive lin_deliver (c : lin_config) : lin_config -> Prop :=
| lin_deliver_inv l1 l2 b op slot r e' op' r' :
    lin_net c = l1 ++ mkMsg b op :: l2 -> opcode op = CACHE_OP_INV -> op_fits slot ->
    lin_with_small_cache_op b 0 (lin_obj c b) (recv_get_req slot op) r = Done (e', op', r') ->
    lin_deliver c (mkLin (fupd (lin_obj c) b e')
      ((l1 ++ l2) ++ if resp_type r' =? CACHE_INV_SUCCESS then [forge_ack b op'] else []))
| lin_deliver_ack l1 l2 m op slot r e' op' r' :
    lin_net c = l1 ++ mkMsg m op :: l2 -> opcode op = CACHE_OP_ACK -> op_fits slot ->
    lin_with_cache_op m 0 (lin_obj c m) (recv_get_req slot op) r = Done (e', op', r') ->
    lin_deliver c (mkLin (fupd (lin_obj c) m e')
      ((l1 ++ l2) ++ if resp_type r' =? CACHE_LAST_ACK_SUCCESS then bcast_upd m op' else []))
| lin_deliver_upd l1 l2 b op slot r e' op' r' :
    lin_net c = l1 ++ mkMsg b op :: l2 -> opcode op = CACHE_OP_UPD -> op_fits slot ->
    lin_with_cache_op b 0 (lin_obj c b) (recv_put_req slot op) r = Done (e', op', r') ->
    lin_deliver c (mkLin (fupd (lin_obj c) b e') (l1 ++ l2)).

Definition lin_step (c c' : lin_config) : Prop := lin_local c c' \/ lin_deliver c c'.

Definition lin_initial (e : entry) : Prop :=
  lin_wf e /\ e_val_len e = HERD_VALUE_SIZE /\ ts_of (e_meta e) = (0, 0) /\
  state (e_meta e) = VALID_STATE /\ pending_acks (e_meta e) = 0.

Definition lin_init (e0 : entry) : lin_config := mkLin (fun _ => e0) [].

(** Reachable from the initial object [e0] on every machine. *)
Definition lin_reach (e0 : entry) : lin_config -> Prop := rtc lin_step (lin_init e0).

(** ** Abstraction *)
Definition phase_of (m : cache_meta) : phase :=
  if writing m then Writing else if state m =? VALID_STATE then Valid else Invalid.

Definition abs_obj (mid : Z) (e : entry) : aobj :=
  mkA (eff_ts mid (e_meta e)) (phase_of (e_meta e)) (pending_acks (e_meta e)).

Definition abs_msg (x : msg) : amsg :=
  let v := version (meta (m_op x)) in
  let c := cid (meta (m_op x)) in
  if opcode (m_op x) =? CACHE_OP_INV then AInv (dst x) v c
  else if opcode (m_op x) =? CACHE_OP_ACK then AAck (dst x) v c
  else AUpd (dst x) v c.

Definition abs_objs (c : lin_config) : aobjs := fun b => abs_obj b (lin_obj c b).
Definition abs_net (c : lin_config) : list amsg := abs_msg <$> lin_net c.
Definition abs (c : lin_config) : aobjs * list amsg := (abs_objs c, abs_net c).

(** ** Well-formed configurations *)
Record lin_msg_ok (x : msg) : Prop := {
  lm_dst : dst x ∈ machines;
  lm_cid : cid (meta (m_op x)) ∈ machines;
  lm_ok : msg_ok (m_op x);
  lm_code : opcode (m_op x) ∈ [CACHE_OP_INV; CACHE_OP_ACK; CACHE_OP_UPD];
  lm_len : opcode (m_op x) = CACHE_OP_UPD -> val_len (m_op x) = HERD_VALUE_SIZE
}.

Definition obj_ok (e : entry) : Prop := lin_wf e /\ e_val_len e = HERD_VALUE_SIZE.

Record lin_ok (c : lin_config) : Prop := {
  lo_obj : forall b, b ∈ machines -> obj_ok (lin_obj c b);
  lo_msgs : Forall lin_msg_ok (lin_net c)
}.

Lemma lin_ok_init e0 : lin_initial e0 -> lin_ok (lin_init e0).
Proof. intros (H1 & H2 & _). split; simpl; [done|constructor]. Qed.

Lemma lin_ok_fupd c b e' net :
  lin_ok c -> obj_ok e' -> Forall lin_msg_ok net -> lin_ok (mkLin (fupd (lin_obj c) b e') net).
Proof.
  intros [Ho _] He Hn. split; [|done]. intros x Hx. simpl. unfold fupd. zcase; auto.
Qed.

Lemma abs_fupd c b e' net x :
  abs_objs (mkLin (fupd (lin_obj c) b e') net) x = fupd (abs_objs c) b (abs_obj b e') x.
Proof. unfold abs_objs, fupd. simpl. zcase; by subst. Qed.

Lemma abs_fupd_same c b e' net x :
  abs_obj b e' = abs_obj b (lin_obj c b) ->
  abs_objs (mkLin (fupd (lin_obj c) b e') net) x = abs_objs c x.
Proof. intros E. rewrite abs_fupd, E. unfold fupd, abs_objs. zcase; by subst. Qed.

Lemma msgs_split c l1 x l2 :
  lin_ok c -> lin_net c = l1 ++ x :: l2 -> lin_msg_ok x /\ Forall lin_msg_ok (l1 ++ l2).
Proof.
  intros [_ H] E. rewrite E, Forall_app, Forall_cons in H. rewrite Forall_app. tauto.
Qed.

Lemma keeps_obj_ok mid e o e' op' r' :
  keeps mid e o -> o = Done (e', op', r') -> e_val_len e = HERD_VALUE_SIZE -> obj_ok e'.
Proof.
  intros (e1 & op1 & r1 & E & Hw & Hl & _) Eo He. rewrite Eo in E. injection E as <- _ _.
  split; congruence.
Qed.

Lemma phase_writing m : phase_of m = Writing <-> writing m = true.
Proof. unfold phase_of. destruct (writing m); [done|]. by destruct (_ =? _). Qed.

Lemma phase_invalid m :
  VALID_STATE <= state m <= WRITE_REPLAY_STATE -> phase_of m = Invalid <-> invalid m = true.
Proof.
  intros [E|[E|[E|[E|E]]]]%state_cases; unfold phase_of, invalid, writing; rewrite E; done.
Qed.

Lemma phase_valid m : phase_of m = Valid <-> state m = VALID_STATE.
Proof.
  unfold phase_of, writing. destruct (Z.eqb_spec (state m) VALID_STATE) as [E|E]; [by rewrite E|].
  by destruct (_ || _).
Qed.

(** ** The messages a step sends *)
Lemma bcast_inv_ok m op v :
  m ∈ machines -> op_fits op -> version (meta op) = v -> v mod 2 = 0 ->
  Forall lin_msg_ok (bcast_inv m op) /\
  abs_msg <$> bcast_inv m op = (fun b => AInv b v m) <$> others m.
Proof.
  intros Hm Hf Hv He. pose proof (u8_small m (machines_u8 m Hm)) as E. split.
  - apply Forall_fmap, Forall_forall. intros b [Hb _]%elem_of_others. split; simpl; try done.
    + by rewrite E.
    + destruct Hf as [[] ? ? ? ? ? ? ?]. split; [|simpl; congruence]. split; simpl; try done.
      split; simpl; try done. apply u8_range.
    + left.
  - unfold bcast_inv. rewrite <- list_fmap_compose. apply list_fmap_ext. intros _ b _.
    unfold abs_msg. simpl. congruence.
Qed.

Lemma bcast_upd_ok m op v :
  m ∈ machines -> op_fits op -> version (meta op) = v -> v mod 2 = 0 ->
  Forall lin_msg_ok (bcast_upd m op) /\
  abs_msg <$> bcast_upd m op = (fun b => AUpd b v m) <$> others m.
Proof.
  intros Hm Hf Hv He. pose proof (u8_small m (machines_u8 m Hm)) as E. split.
  - apply Forall_fmap, Forall_forall. intros b [Hb _]%elem_of_others. split; simpl; try done.
    + by rewrite E.
    + destruct Hf as [[] ? ? ? ? ? ? ?]. split; [|simpl; congruence]. split; simpl; try done.
      split; simpl; try done. apply u8_range.
    + right. right. left.
  - unfold bcast_upd. rewrite <- list_fmap_compose. apply list_fmap_ext. intros _ b _.
    unfold abs_msg. simpl. congruence.
Qed.

Lemma forge_ack_ok b op :
  b ∈ machines -> cid (meta op) ∈ machines -> msg_ok op ->
  lin_msg_ok (forge_ack b op) /\
  abs_msg (forge_ack b op) = AAck (cid (meta op)) (version (meta op)) b.
Proof.
  intros Hb Hc [Hf He]. pose proof (u8_small b (machines_u8 b Hb)) as E. split.
  - split; simpl; try done; [by rewrite E| |right; left].
    destruct Hf as [[] ? ? ? ? ? ? ?]. split; [|done]. split; simpl; try done.
    split; simpl; try done. apply u8_range.
  - unfold abs_msg, forge_ack. simpl. by rewrite E.
Qed.

(** ** Each step is a step of the specification *)
Lemma sim_put c m op r e' op' r' :
  lin_ok c -> m ∈ machines -> client_put op -> version (e_meta (lin_obj c m)) + 2 < 2 ^ 32 ->
  lin_op m 0 (lin_obj c m) op r = Done (e', op', r') ->
  let c' := mkLin (fupd (lin_obj c) m e')
    (lin_net c ++ if resp_type r' =? CACHE_PUT_SUCCESS then bcast_inv m op' else []) in
  lin_ok c' /\ astep (abs c) (abs c').
Proof.
  intros Hc Hm (Hf & Ho & Hvl) Hver E c'. destruct (lo_obj _ Hc m Hm) as [Hw Hl].
  unfold lin_op in E. rewrite Ho in E. simpl in E.
  pose proof (lin_put_keeps m _ op r (machines_u8 m Hm) Hw Hf ltac:(congruence)) as Hk.
  pose proof (keeps_obj_ok _ _ _ _ _ _ Hk E Hl) as Hok'.
  pose proof (ew_meta _ (lw_entry _ Hw)) as Hmeta.
  rewrite lin_put_eq in E by congruence.
  destruct (decide_put _ _); injection E as <- <- <-; subst c'.
  - pose proof (meta_ok_bump _ Hmeta) as [_ _ _ _ Hv2 Hve]. simpl in Hv2, Hve.
    rewrite u32_small in * by (destruct (mo_version _ Hmeta); unfold is_u32; lia).
    set (v := version (e_meta (lin_obj c m)) + 2) in *.
    match goal with |- context [bcast_inv m ?o] => set (op1 := o) in * end.
    destruct (bcast_inv_ok m op1 v Hm) as [Hmsgs Habs]; [|done|done|].
    { destruct Hf as [[] ? ? ? ? ? ? ?]. split; simpl; try done. split; simpl; try done.
      apply u8_range. }
    split; [apply lin_ok_fupd; [done|done|apply Forall_app; split; [apply Hc|done]]|].
    unfold abs, abs_net. simpl lin_net. rewrite fmap_app. cbn [resp_type]. simpl (_ =? _). cbv iota.
    rewrite Habs. apply astep_put; [done|simpl; lia|]. intros b. rewrite abs_fupd. f_equal.
    unfold abs_obj, copied, write_meta, eff_ts, phase_of, writing. cbn [e_meta state].
    rewrite u32_small by (destruct (mo_version _ Hmeta); unfold is_u32; lia).
    by destruct (_ =? WRITE_REPLAY_STATE).
  - simpl. rewrite app_nil_r. split; [apply lin_ok_fupd; [done|done|apply Hc]|].
    apply astep_stutter. intros x. by apply abs_fupd_same.
  - simpl. rewrite app_nil_r. split; [apply lin_ok_fupd; [done|done|apply Hc]|].
    apply astep_stutter. intros x. by apply abs_fupd_same.
Qed.

Lemma sim_get c m vp op r e' op' r' :
  lin_ok c -> m ∈ machines -> opcode op = CACHE_OP_GET ->
  lin_op m vp (lin_obj c m) op r = Done (e', op', r') ->
  let c' := mkLin (fupd (lin_obj c) m e') (lin_net c) in
  lin_ok c' /\ astep (abs c) (abs c').
Proof.
  intros Hc Hm Ho E c'. destruct (lo_obj _ Hc m Hm) as [Hw Hl].
  unfold lin_op in E. rewrite Ho in E. simpl in E.
  pose proof (keeps_obj_ok _ _ _ _ _ _ (lin_get_keeps m vp _ op r Hw) E Hl) as Hok'.
  rewrite lin_get_eq in E by done. injection E as <- _ _. subst c'.
  split; [apply lin_ok_fupd; [done|done|apply Hc]|].
  apply astep_stutter. intros x. apply abs_fupd_same.
  unfold abs_obj, eff_ts, phase_of, writing. cbn [e_meta with_meta].
  destruct (state_cases _ (lw_state _ Hw)) as [E|[E|[E|[E|E]]]]; rewrite E; simpl; by rewrite ?E.
Qed.

Lemma sim_inv c l1 l2 b op slot r e' op' r' :
  lin_ok c -> lin_net c = l1 ++ mkMsg b op :: l2 -> opcode op = CACHE_OP_INV -> op_fits slot ->
  lin_with_small_cache_op b 0 (lin_obj c b) (recv_get_req slot op) r = Done (e', op', r') ->
  let c' := mkLin (fupd (lin_obj c) b e')
    ((l1 ++ l2) ++ if resp_type r' =? CACHE_INV_SUCCESS then [forge_ack b op'] else []) in
  lin_ok c' /\ astep (abs c) (abs c').
Proof.
  intros Hc Hn Ho Hs E c'. destruct (msgs_split _ _ _ _ Hc Hn) as [[Hb Hcid Hop _ _] Hrest].
  simpl in *. destruct (lo_obj _ Hc b Hb) as [Hw Hl].
  assert (Hop' : msg_ok (recv_get_req slot op)).
  { split; [apply recv_get_req_fits; [done|apply Hop]|apply Hop]. }
  unfold lin_with_small_cache_op in E. simpl opcode in E. rewrite Ho in E. simpl in E.
  pose proof (keeps_obj_ok _ _ _ _ _ _ (lin_inv_keeps b _ _ r Hw Hop') E Hl) as Hok'.
  rewrite lin_inv_eq in E by done. change (meta (recv_get_req slot op)) with (meta op) in E.
  subst c'. unfold abs at 1, abs_net. rewrite Hn, fmap_app, fmap_cons.
  unfold abs_msg at 2. simpl m_op. simpl dst. rewrite Ho. simpl (CACHE_OP_INV =? _). cbv iota.
  destruct (ts_ltb_spec (eff_ts b (e_meta (lin_obj c b))) (ts_of (meta op))) as [Hlt|Hge];
    injection E as <- <- <-.
  - set (op1 := set_opcode CACHE_OP_ACK (recv_get_req slot op)) in *.
    destruct (forge_ack_ok b op1) as [Hm1 Ha1]; [done|done| |].
    { destruct Hop' as [[] ?]. split; [|done]. by split. }
    split.
    { apply lin_ok_fupd; [done|done|]. apply Forall_app. split; [done|]. by apply Forall_singleton. }
    unfold abs, abs_net. cbn [lin_net resp_type set_type]. simpl (_ =? _). cbv iota.
    rewrite !fmap_app. cbn [fmap list_fmap]. rewrite Ha1.
    apply astep_inv_ok; [done|]. intros x. rewrite abs_fupd. f_equal.
    unfold abs_obj, invalidate, eff_ts, phase_of, writing. simpl. by destruct (replay _).
  - cbn [resp_type set_type]. simpl (_ =? _). cbv iota. rewrite app_nil_r.
    split; [by apply lin_ok_fupd|]. unfold abs, abs_net. cbn [lin_net]. rewrite fmap_app.
    apply astep_inv_fail; [done|]. intros x. by apply abs_fupd_same.
Qed.

Lemma sim_ack c l1 l2 m op slot r e' op' r' :
  lin_ok c -> lin_net c = l1 ++ mkMsg m op :: l2 -> opcode op = CACHE_OP_ACK -> op_fits slot ->
  lin_with_cache_op m 0 (lin_obj c m) (recv_get_req slot op) r = Done (e', op', r') ->
  let c' := mkLin (fupd (lin_obj c) m e')
    ((l1 ++ l2) ++ if resp_type r' =? CACHE_LAST_ACK_SUCCESS then bcast_upd m op' else []) in
  lin_ok c' /\ astep (abs c) (abs c').
Proof.
  intros Hc Hn Ho Hs E c'. destruct (msgs_split _ _ _ _ Hc Hn) as [[Hm Hcid Hop _ _] Hrest].
  simpl in *. destruct (lo_obj _ Hc m Hm) as [Hw Hl]. pose proof (machines_u8 m Hm) as Hm8.
  assert (Hop' : msg_ok (recv_get_req slot op)).
  { split; [apply recv_get_req_fits; [done|apply Hop]|apply Hop]. }
  unfold lin_with_cache_op in E. simpl opcode in E. rewrite Ho in E. simpl in E.
  pose proof (keeps_obj_ok _ _ _ _ _ _ (lin_ack_keeps m _ _ r Hm8 Hw Hop') E Hl) as Hok'.
  rewrite lin_ack_eq in E by done. change (meta (recv_get_req slot op)) with (meta op) in E.
  subst c'. unfold abs at 1, abs_net. rewrite Hn, fmap_app, fmap_cons.
  unfold abs_msg at 2. simpl m_op. simpl dst. rewrite Ho. simpl (CACHE_OP_ACK =? _). cbv iota.
  destruct (writing (e_meta (lin_obj c m))) eqn:Hwr; simpl in E;
    [destruct (Z.eqb_spec (version (e_meta (lin_obj c m))) (version (meta op))) as [Hv|Hv]|];
    injection E as <- <- <-.
  - assert (Hph : a_ph (abs_objs c m) = Writing) by (by apply phase_writing).
    unfold ack_meta in *.
    destruct (Z.eqb_spec (pending_acks (e_meta (lin_obj c m))) 1) as [Hp|Hp];
      cbn [resp_type set_type]; simpl (_ =? CACHE_LAST_ACK_SUCCESS); cbv iota.
    + destruct (bcast_upd_ok m _ (version (meta op)) Hm (mk_fits _ Hop') ltac:(done) (mk_even _ Hop))
        as [Hm1 Ha1].
      split; [apply lin_ok_fupd; [done|done|by apply Forall_app]|].
      unfold abs, abs_net. cbn [lin_net]. rewrite !fmap_app, Ha1.
      apply (astep_ack_last _ _ _ _ m); try done. intros x. rewrite abs_fupd. f_equal.
      unfold abs_obj, abs_objs, eff_ts, with_meta. simpl. unfold abs_obj. cbn [a_ts].
      unfold eff_ts. by rewrite Hwr, (u8_small m Hm8).
    + rewrite app_nil_r. split; [by apply lin_ok_fupd|].
      unfold abs, abs_net. cbn [lin_net]. rewrite fmap_app.
      apply (astep_ack _ _ _ _ m); try done. intros x. rewrite abs_fupd. f_equal.
      unfold abs_obj at 1. cbn [e_meta with_meta]. f_equal. by apply phase_writing.
  - cbn [resp_type set_type]; simpl (_ =? CACHE_LAST_ACK_SUCCESS); cbv iota.
    rewrite app_nil_r. split; [by apply lin_ok_fupd|].
    unfold abs, abs_net. cbn [lin_net]. rewrite fmap_app.
    apply astep_ack_fail; [by intros [_ ?]|]. intros x. by apply abs_fupd_same.
  - cbn [resp_type set_type]; simpl (_ =? CACHE_LAST_ACK_SUCCESS); cbv iota.
    rewrite app_nil_r. split; [by apply lin_ok_fupd|].
    unfold abs, abs_net. cbn [lin_net]. rewrite fmap_app.
    apply astep_ack_fail; [|intros x; by apply abs_fupd_same].
    intros [H _]. apply phase_writing in H. congruence.
Qed.

Lemma sim_upd c l1 l2 b op slot r e' op' r' :
  lin_ok c -> lin_net c = l1 ++ mkMsg b op :: l2 -> opcode op = CACHE_OP_UPD -> op_fits slot ->
  lin_with_cache_op b 0 (lin_obj c b) (recv_put_req slot op) r = Done (e', op', r') ->
  let c' := mkLin (fupd (lin_obj c) b e') (l1 ++ l2) in
  lin_ok c' /\ astep (abs c) (abs c').
Proof.
  intros Hc Hn Ho Hs E c'. destruct (msgs_split _ _ _ _ Hc Hn) as [[Hb Hcid Hop _ Hlen] Hrest].
  simpl in *. destruct (lo_obj _ Hc b Hb) as [Hw Hl]. specialize (Hlen Ho).
  assert (Hop' : msg_ok (recv_put_req slot op)).
  { split; [apply recv_put_req_fits; [done|apply Hop]|apply Hop]. }
  unfold lin_with_cache_op in E. simpl opcode in E. rewrite Ho in E. simpl in E.
  assert (Hlen' : val_len (recv_put_req slot op) = e_val_len (lin_obj c b)) by (simpl; congruence).
  pose proof (keeps_obj_ok _ _ _ _ _ _ (lin_upd_keeps b _ _ r Hw Hop' Hlen') E Hl) as Hok'.
  pose proof (phase_invalid _ (lw_state _ Hw)) as Hinv.
  rewrite lin_upd_eq in E by (done || apply Hw).
  change (meta (recv_put_req slot op)) with (meta op) in E.
  subst c'. unfold abs at 1, abs_net. rewrite Hn, fmap_app, fmap_cons.
  unfold abs_msg at 2. simpl m_op. simpl dst. rewrite Ho. simpl (CACHE_OP_UPD =? _). cbv iota.
  assert (Hts : invalid (e_meta (lin_obj c b)) = true ->
    a_ts (abs_objs c b) = ts_of (e_meta (lin_obj c b))).
  { intros Hi. unfold abs_objs, abs_obj, eff_ts. cbn [a_ts].
    destruct (writing _) eqn:Hwr; [|done]. apply phase_writing in Hwr. apply Hinv in Hi. congruence. }
  unfold abs, abs_net. cbn [lin_net]. rewrite fmap_app.
  destruct (bool_decide_reflect (ts_of (e_meta (lin_obj c b)) = ts_of (meta op))) as [Et|Et];
    [destruct (invalid (e_meta (lin_obj c b))) eqn:Hi|]; simpl in E; injection E as <- _ _;
    (split; [by apply lin_ok_fupd|]).
  - apply (astep_upd _ _ _ _ b); [by apply Hinv|rewrite Hts by done; exact Et|].
    intros x. rewrite abs_fupd. f_equal. injection Et as E1 E2.
    unfold abs_obj at 1, eff_ts, phase_of, writing, copied. simpl. by rewrite E1, E2.
  - apply astep_upd_fail; [|intros x; by apply abs_fupd_same].
    intros [H _]. apply Hinv in H. congruence.
  - apply astep_upd_fail; [|intros x; by apply abs_fupd_same].
    intros [H H2]. apply Hinv in H. rewrite Hts in H2 by done. done.
Qed.

Lemma lin_step_sim c c' :
  lin_ok c -> lin_step c c' -> lin_ok c' /\ astep (abs c) (abs c').
Proof.
  intros Hc [H|H]; destruct H.
  - by eapply sim_put.
  - by eapply sim_get.
  - by eapply sim_inv.
  - by eapply sim_ack.
  - by eapply sim_upd.
Qed.

(** ** Invariant of the reachable states *)
Lemma abs_init e0 : lin_initial e0 -> ainit (abs_objs (lin_init e0)).
Proof.
  intros (_ & _ & Ht & Hs & Ha) b. unfold abs_objs, abs_obj, eff_ts, phase_of, writing. simpl.
  rewrite Hs, Ha. unfold ts_of in Ht. injection Ht as -> ->. done.
Qed.

Definition lin_inv_ok (c : lin_config) : Prop := lin_ok c /\ ainv (abs_objs c) (abs_net c).

Lemma lin_steps_inv c c' :
  lin_inv_ok c -> rtc lin_step c c' ->
  lin_inv_ok c' /\ rtc astep (abs c) (abs c') /\
  forall b, ts_le (eff_ts b (e_meta (lin_obj c b))) (eff_ts b (e_meta (lin_obj c' b))).
Proof.
  intros Hc Hs. induction Hs as [c|c c1 c' H1 _ IH].
  - split_and!; [done|constructor|by right].
  - destruct Hc as [Hok Hi]. destruct (lin_step_sim c c1 Hok H1) as [Hok1 Ha].
    assert (Hi1 : lin_inv_ok c1) by (split; [done|by eapply astep_inv]).
    destruct (IH Hi1) as (H2 & H3 & H4). split_and!; [done|by eapply rtc_l|].
    intros b. eapply ts_le_trans; [|apply H4]. exact (astep_mono _ _ _ _ b Ha).
Qed.

Lemma lin_reach_inv e0 c : lin_initial e0 -> lin_reach e0 c -> lin_inv_ok c.
Proof.
  intros H0 Hr. apply (lin_steps_inv (lin_init e0)); [|done].
  split; [by apply lin_ok_init|]. by apply ainv_init, abs_init.
Qed.

(** What a successful read and an accepted write see of the object. *)
Lemma get_success mid vp e op r e' op' r' :
  lin_wf e -> opcode op = CACHE_OP_GET -> lin_op mid vp e op r = Done (e', op', r') ->
  resp_type r' = CACHE_GET_SUCCESS -> state (e_meta e) = VALID_STATE /\ e' = e.
Proof.
  intros Hw Ho E Hr. unfold lin_op in E. rewrite Ho in E. simpl in E.
  rewrite lin_get_eq in E by done. injection E as <- _ <-.
  destruct (Z.eqb_spec (state (e_meta e)) VALID_STATE) as [Hs|Hs]; [|done].
  split; [done|]. rewrite Hs. by destruct e.
Qed.

Lemma put_success mid e op r e' op' r' :
  lin_wf e -> client_put op -> e_val_len e = HERD_VALUE_SIZE ->
  lin_op mid 0 e op r = Done (e', op', r') -> resp_type r' = CACHE_PUT_SUCCESS ->
  version (meta op') = u32 (version (e_meta e) + 2).
Proof.
  intros Hw (Hf & Ho & Hl) He E Hr. unfold lin_op in E. rewrite Ho in E. simpl in E.
  rewrite lin_put_eq in E by congruence.
  destruct (decide_put _ _); injection E as _ <- <-; done.
Qed.

Lemma valid_ts mid m : state m = VALID_STATE -> eff_ts mid m = ts_of m.
Proof. intros E. unfold eff_ts, writing. by rewrite E. Qed.

Lemma valid_least c a x :
  lin_inv_ok c -> a ∈ machines -> x ∈ machines -> state (e_meta (lin_obj c a)) = VALID_STATE ->
  ts_le (ts_of (e_meta (lin_obj c a))) (eff_ts x (e_meta (lin_obj c x))).
Proof.
  intros [_ Hi] Ha Hx Hs. rewrite <- (valid_ts a) by done.
  apply (ai_valid _ _ Hi a Ha); [|done]. by apply phase_valid.
Qed.

(** ** Delivering everything *)
Definition weight (x : msg) : nat :=
  match abs_msg x with AInv _ _ _ => 6 | AAck _ _ _ => 5 | AUpd _ _ _ => 1 end.

Definition net_weight (c : lin_config) : nat := sum_list_with weight (lin_net c).

Lemma sum_bcast_upd m op : (sum_list_with weight (bcast_upd m op) <= 4)%nat.
Proof.
  unfold bcast_upd, others.
  assert (Hl : (length (filter (fun b => b <> m) machines) <= 4)%nat) by apply length_filter.
  assert (Hs : forall l, sum_list_with weight ((fun b => mkMsg b (forge_upd m op)) <$> l) = length l).
  { induction l as [|b l IH]; [done|]. rewrite fmap_cons. cbn [sum_list_with length]. by rewrite IH. }
  by rewrite Hs.
Qed.

Lemma weight_eq x :
  (opcode (m_op x) = CACHE_OP_INV -> weight x = 6%nat) /\
  (opcode (m_op x) = CACHE_OP_ACK -> weight x = 5%nat) /\
  (opcode (m_op x) = CACHE_OP_UPD -> weight x = 1%nat).
Proof. unfold weight, abs_msg. split_and!; intros ->; done. Qed.

Lemma deliver_weight c c' : lin_deliver c c' -> (net_weight c' < net_weight c)%nat.
Proof.
  intros H. destruct H as [l1 l2 b op slot r e' op' r' Hn Ho|l1 l2 m op slot r e' op' r' Hn Ho
    |l1 l2 b op slot r e' op' r' Hn Ho];
    unfold net_weight; rewrite Hn; cbn [lin_net]; rewrite !sum_list_with_app; cbn [sum_list_with].
  - rewrite (proj1 (weight_eq (mkMsg b op)) Ho).
    destruct (_ =? _); cbn [sum_list_with]; [|lia].
    rewrite (proj1 (proj2 (weight_eq (forge_ack b op'))) eq_refl). lia.
  - rewrite (proj1 (proj2 (weight_eq (mkMsg m op))) Ho).
    pose proof (sum_bcast_upd m op'). destruct (_ =? _); cbn [sum_list_with]; lia.
  - rewrite (proj2 (proj2 (weight_eq (mkMsg b op))) Ho). lia.
Qed.

(** The first message in flight is delivered; [slot] as in [lin_deliver]. *)
Definition deliver_first (slot : cache_op) (c : lin_config) : lin_config :=
  match lin_net c with
  | [] => c
  | x :: l =>
      let b := dst x in
      let op := m_op x in
      let r0 := mkResp EMPTY 0 None in
      let dflt := (lin_obj c b, op, r0) in
      if opcode op =? CACHE_OP_INV then
        let '(e, op', r) := done_or (lin_with_small_cache_op b 0 (lin_obj c b)
                                       (recv_get_req slot op) r0) dflt in
        mkLin (fupd (lin_obj c) b e)
          (l ++ if resp_type r =? CACHE_INV_SUCCESS then [forge_ack b op'] else [])
      else if opcode op =? CACHE_OP_ACK then
        let '(e, op', r) := done_or (lin_with_cache_op b 0 (lin_obj c b)
                                       (recv_get_req slot op) r0) dflt in
        mkLin (fupd (lin_obj c) b e)
          (l ++ if resp_type r =? CACHE_LAST_ACK_SUCCESS then bcast_upd b op' else [])
      else
        let '(e, op', r) := done_or (lin_with_cache_op b 0 (lin_obj c b)
                                       (recv_put_req slot op) r0) dflt in
        mkLin (fupd (lin_obj c) b e) l
  end.

(** Delivery is always possible: no handler aborts or blocks on a message. *)
Lemma deliver_first_ok slot c x l :
  lin_ok c -> op_fits slot -> lin_net c = x :: l -> lin_deliver c (deliver_first slot c).
Proof.
  intros Hc Hs Hn. destruct x as [b op].
  destruct (msgs_split c [] (mkMsg b op) l Hc Hn) as [[Hb _ Hop Hcode Hlen] _]. simpl in *.
  destruct (lo_obj _ Hc b Hb) as [Hw Hl].
  assert (Hget : msg_ok (recv_get_req slot op))
    by (split; [apply recv_get_req_fits; [done|apply Hop]|apply Hop]).
  assert (Hput : msg_ok (recv_put_req slot op))
    by (split; [apply recv_put_req_fits; [done|apply Hop]|apply Hop]).
  unfold deliver_first. rewrite Hn. cbn [dst m_op].
  apply list_elem_of_In in Hcode as [E|[E|[E|[]]]]; symmetry in E; rewrite E; simpl (_ =? _); cbv iota.
  - destruct (lin_inv_keeps b _ _ (mkResp EMPTY 0 None) Hw Hget) as (e' & op' & r' & Eh & _).
    assert (Er : lin_with_small_cache_op b 0 (lin_obj c b) (recv_get_req slot op) (mkResp EMPTY 0 None)
                 = Done (e', op', r')) by (unfold lin_with_small_cache_op; simpl opcode; by rewrite E).
    rewrite Er. simpl done_or. cbv beta iota zeta.
    exact (lin_deliver_inv c [] l b op slot _ e' op' r' Hn E Hs Er).
  - destruct (lin_ack_keeps b _ _ (mkResp EMPTY 0 None) (machines_u8 b Hb) Hw Hget)
      as (e' & op' & r' & Eh & _).
    assert (Er : lin_with_cache_op b 0 (lin_obj c b) (recv_get_req slot op) (mkResp EMPTY 0 None)
                 = Done (e', op', r')) by (unfold lin_with_cache_op; simpl opcode; by rewrite E).
    rewrite Er. simpl done_or. cbv beta iota zeta.
    exact (lin_deliver_ack c [] l b op slot _ e' op' r' Hn E Hs Er).
  - destruct (lin_upd_keeps b _ _ (mkResp EMPTY 0 None) Hw Hput ltac:(simpl; rewrite Hl; auto))
      as (e' & op' & r' & Eh & _).
    assert (Er : lin_with_cache_op b 0 (lin_obj c b) (recv_put_req slot op) (mkResp EMPTY 0 None)
                 = Done (e', op', r')) by (unfold lin_with_cache_op; simpl opcode; by rewrite E).
    rewrite Er. simpl done_or. cbv beta iota zeta.
    exact (lin_deliver_upd c [] l b op slot _ e' op' r' Hn E Hs Er).
Qed.

Lemma deliver_step c c' : lin_deliver c c' -> lin_step c c'.
Proof. by right. Qed.

Lemma deliver_steps c c' : rtc lin_deliver c c' -> rtc lin_step c c'.
Proof. apply rtc_subrel. intros x y. apply deliver_step. Qed.

Lemma drain slot c :
  lin_inv_ok c -> op_fits slot -> exists c', rtc lin_deliver c c' /\ lin_net c' = [].
Proof.
  intros Hc Hs. remember (net_weight c) as n eqn:En.
  revert c Hc En. induction n as [n IH] using lt_wf_ind. intros c Hc ->.
  destruct (lin_net c) as [|x l] eqn:Hn; [by exists c|].
  pose proof (deliver_first_ok slot c x l (proj1 Hc) Hs Hn) as Hd.
  assert (Hc1 : lin_inv_ok (deliver_first slot c)).
  { apply (lin_steps_inv c); [done|]. by apply rtc_once, deliver_step. }
  destruct (IH _ (deliver_weight _ _ Hd) (deliver_first slot c) Hc1 eq_refl) as (c' & H1 & H2).
  exists c'. split; [by eapply rtc_l|done].
Qed.

(** ** Properties *)

(** C11: the handlers implement the abstract invalidation protocol: every state
    reached by any interleaving of client operations and deliveries is, under
    the abstraction, a state of the abstract machine [astep] started from an
    object that is valid at timestamp (0, 0) everywhere; and every further
    step of the code is a step of the machine. *)
Theorem lin_refines_spec e0 c :
  lin_initial e0 -> lin_reach e0 c ->
  ainit (abs_objs (lin_init e0)) /\ rtc astep (abs (lin_init e0)) (abs c) /\
  forall c', lin_step c c' -> astep (abs c) (abs c').
Proof.
  intros H0 Hr. pose proof (lin_reach_inv _ _ H0 (rtc_refl _ _)) as Hi.
  destruct (lin_steps_inv _ _ Hi Hr) as ([Hok _] & Ha & _).
  split_and!; [by apply abs_init|done|]. intros c' Hs. by apply lin_step_sim.
Qed.

(** Real-time order.  Once an object is readable at timestamp T on some
    machine (a read returned it, or its write got the last acknowledgement),
    every later read that succeeds, on any machine, returns a timestamp at
    least T, and every later write that is accepted gets a strictly greater
    one. *)
Theorem lin_real_time e0 c a c' b :
  lin_initial e0 -> lin_reach e0 c -> a ∈ machines -> b ∈ machines ->
  state (e_meta (lin_obj c a)) = VALID_STATE -> rtc lin_step c c' ->
  let T := ts_of (e_meta (lin_obj c a)) in
  (forall vp op r e' op' r', opcode op = CACHE_OP_GET ->
     lin_op b vp (lin_obj c' b) op r = Done (e', op', r') ->
     resp_type r' = CACHE_GET_SUCCESS -> ts_le T (ts_of (e_meta e'))) /\
  (forall op r e' op' r', client_put op -> version (e_meta (lin_obj c' b)) + 2 < 2 ^ 32 ->
     lin_op b 0 (lin_obj c' b) op r = Done (e', op', r') ->
     resp_type r' = CACHE_PUT_SUCCESS -> ts_lt T (ts_of (meta op'))).
Proof.
  intros H0 Hr Ha Hb Hs Hcc T. pose proof (lin_reach_inv _ _ H0 Hr) as Hi.
  destruct (lin_steps_inv _ _ Hi Hcc) as (Hi' & _ & Hmono).
  pose proof (valid_least c a b Hi Ha Hb Hs) as Hle.
  assert (HT : ts_le T (eff_ts b (e_meta (lin_obj c' b)))) by (eapply ts_le_trans; eauto).
  destruct (lo_obj _ (proj1 Hi') b Hb) as [Hw Hl]. split.
  - intros vp op r e' op' r' Ho E Hres.
    destruct (get_success _ _ _ _ _ _ _ _ Hw Ho E Hres) as [Hs' ->].
    by rewrite <- (valid_ts b (e_meta (lin_obj c' b))).
  - intros op r e' op' r' Hop Hver E Hres.
    pose proof (put_success _ _ _ _ _ _ _ Hw Hop Hl E Hres) as Hv.
    rewrite u32_small in Hv by
      (destruct (mo_version _ (ew_meta _ (lw_entry _ Hw))); unfold is_u32; lia).
    eapply ts_le_lt_trans; [exact HT|]. left. simpl. lia.
Qed.

(** A single readable version: at every moment all readable replicas agree
    on the timestamp, and it is the least of all replicas' timestamps, so a
    stale replica is never readable. *)
Theorem lin_readable_agree e0 c a b :
  lin_initial e0 -> lin_reach e0 c -> a ∈ machines -> b ∈ machines ->
  state (e_meta (lin_obj c a)) = VALID_STATE ->
  ts_le (ts_of (e_meta (lin_obj c a))) (eff_ts b (e_meta (lin_obj c b))) /\
  (state (e_meta (lin_obj c b)) = VALID_STATE ->
     ts_of (e_meta (lin_obj c a)) = ts_of (e_meta (lin_obj c b))).
Proof.
  intros H0 Hr Ha Hb Hs. pose proof (lin_reach_inv _ _ H0 Hr) as Hi.
  split; [by apply valid_least|]. intros Hsb. apply ts_le_antisym.
  - rewrite <- (valid_ts b (e_meta (lin_obj c b))) by done. by apply valid_least.
  - rewrite <- (valid_ts a (e_meta (lin_obj c a))) by done. by apply valid_least.
Qed.

(** C12: the protocol never gets stuck.  From every reachable state, deliveries
    alone (in any order) end after at most [net_weight] steps, some sequence of
    them empties the network, and whenever the network is empty every machine
    is readable again, all at one timestamp, which is at least every timestamp
    any machine had before. *)
Theorem lin_drains e0 c :
  lin_initial e0 -> lin_reach e0 c ->
  (forall n c', nsteps lin_deliver n c c' -> (n <= net_weight c)%nat) /\
  (exists c', rtc lin_deliver c c' /\ lin_net c' = []) /\
  (forall c', rtc lin_step c c' -> lin_net c' = [] -> exists T, forall b, b ∈ machines ->
     state (e_meta (lin_obj c' b)) = VALID_STATE /\ ts_of (e_meta (lin_obj c' b)) = T /\
     ts_le (eff_ts b (e_meta (lin_obj c b))) T).
Proof.
  intros H0 Hr. pose proof (lin_reach_inv _ _ H0 Hr) as Hi. split_and!.
  - intros n c' Hn. enough (n + net_weight c' <= net_weight c)%nat by lia.
    induction Hn as [|n c c1 c' H1 H2 IH]; [done|].
    pose proof (deliver_weight _ _ H1). assert (H1' : lin_step c c1) by (by right).
    specialize (IH ltac:(by eapply rtc_r) ltac:(by apply (lin_steps_inv c), rtc_once)). lia.
  - apply (drain demo_cput c Hi). apply demo_legal. by left.
  - intros c' Hcc Hn. destruct (lin_steps_inv _ _ Hi Hcc) as ([_ Hi'] & _ & Hmono).
    unfold abs_net in Hi'. rewrite Hn in Hi'. pose proof (quiescent_valid _ Hi') as Hq.
    exists (ts_of (e_meta (lin_obj c' 0))). intros b Hb.
    destruct (Hq 0 ltac:(by left)) as [Hv0 _]. destruct (Hq b Hb) as [Hv Ht].
    apply phase_valid in Hv, Hv0. unfold abs_objs, abs_obj in Ht. cbn [a_ts] in Ht.
    rewrite !valid_ts in Ht by done. split_and!; [done|done|].
    rewrite <- Ht, <- (valid_ts b (e_meta (lin_obj c' b))) by done. apply Hmono.
Qed.

(** ** The value an update carries

    A write on machine 1, then all messages delivered in order; the receive
    array of acknowledgements and updates initially holds [stale]. *)
Definition lin_demo_put (c : lin_config) : lin_config :=
  let '(e, op, r) := done_or (lin_op 1 0 (lin_obj c 1) demo_cput (mkResp EMPTY 0 None))
                       (fresh_entry, demo_cput, mkResp EMPTY 0 None) in
  mkLin (fupd (lin_obj c) 1 e)
    (lin_net c ++ if resp_type r =? CACHE_PUT_SUCCESS then bcast_inv 1 op else []).

Definition lin_demo1 : lin_config := lin_demo_put (lin_init fresh_entry).
Definition lin_demo (stale : cache_op) (n : nat) : lin_config :=
  Nat.iter n (deliver_first stale) lin_demo1.

Lemma fresh_lin_initial : lin_initial fresh_entry.
Proof. split; [apply fresh_lin_wf|done]. Qed.

Lemma lin_demo1_reach : lin_reach fresh_entry lin_demo1.
Proof.
  apply rtc_once. left.
  set (res := done_or (lin_op 1 0 fresh_entry demo_cput (mkResp EMPTY 0 None))
                (fresh_entry, demo_cput, mkResp EMPTY 0 None)).
  apply (lin_local_put (lin_init fresh_entry) 1 demo_cput (mkResp EMPTY 0 None)
           res.1.1 res.1.2 res.2).
  - right. left.
  - split; [apply demo_legal; by left|done].
  - reflexivity.
  - reflexivity.
Qed.

Lemma deliver_first_reach stale c :
  op_fits stale -> lin_reach fresh_entry c -> lin_reach fresh_entry (deliver_first stale c).
Proof.
  intros Hs Hr. pose proof (lin_reach_inv _ _ fresh_lin_initial Hr) as [Hok _].
  destruct (lin_net c) as [|x l] eqn:Hn; [unfold deliver_first; by rewrite Hn|].
  eapply rtc_r; [exact Hr|]. right. by eapply deliver_first_ok.
Qed.

Lemma lin_demo_reach stale n : op_fits stale -> lin_reach fresh_entry (lin_demo stale n).
Proof.
  intros Hs. induction n as [|n IH]; [apply lin_demo1_reach|].
  change (lin_demo stale (S n)) with (deliver_first stale (lin_demo stale n)).
  by apply deliver_first_reach.
Qed.

Lemma lin_demo_step stale n :
  op_fits stale -> lin_net (lin_demo stale n) <> [] ->
  lin_step (lin_demo stale n) (lin_demo stale (S n)).
Proof.
  intros Hs Hn. destruct (lin_net (lin_demo stale n)) as [|x l] eqn:E; [done|]. right.
  change (lin_demo stale (S n)) with (deliver_first stale (lin_demo stale n)).
  apply (deliver_first_ok stale _ x l); try done.
  apply (lin_reach_inv fresh_entry _ fresh_lin_initial), lin_demo_reach, Hs.
Qed.

(** C38: what the update after the last acknowledgement writes.  The update is
    forged from the array slot the acknowledgement was received in, of which
    an acknowledgement fills only key and opcode: for every content [stale] of
    that slot there is a run, one write and its messages delivered, after
    which all machines are readable at the write's timestamp but the machines
    other than the writer hold the first 32 bytes of [stale] instead of the
    value written. *)
Theorem lin_update_value stale :
  op_fits stale ->
  exists c, lin_reach fresh_entry c /\ lin_net c = [] /\
    (forall b, b ∈ machines -> state (e_meta (lin_obj c b)) = VALID_STATE /\
       ts_of (e_meta (lin_obj c b)) = (2, 1)) /\
    e_value (lin_obj c 1) = take 32 (value demo_cput) /\
    (forall b, b ∈ machines -> b <> 1 -> e_value (lin_obj c b) = take 32 (value stale)).
Proof.
  intros Hs. exists (lin_demo stale 9).
  split_and!; [by apply lin_demo_reach|reflexivity| |reflexivity|].
  - intros b [-> |[-> |[-> | ->]]]%machines_cases; split; reflexivity.
  - assert (E : take 32 (take 32 (value stale) ++ drop 32 (value stale)) = take 32 (value stale))
      by (by rewrite take_drop).
    intros b [-> |[-> |[-> | ->]]]%machines_cases Hne; [exact E|done|exact E|exact E].
Qed.

(** ** Concrete instances *)
Lemma demo_cput_fits : op_fits demo_cput.
Proof. apply demo_legal. by left. Qed.

Lemma lin_refines_spec_witness :
  ainit (abs_objs (lin_init fresh_entry)) /\
  rtc astep (abs (lin_init fresh_entry)) (abs (lin_demo demo_cput 4)) /\
  forall c', lin_step (lin_demo demo_cput 4) c' -> astep (abs (lin_demo demo_cput 4)) (abs c').
Proof.
  apply (lin_refines_spec fresh_entry); [apply fresh_lin_initial|].
  apply lin_demo_reach, demo_cput_fits.
Defined.

(** Machine 1 is readable after the last acknowledgement, machine 0 after its
    update; then machine 0 reads. *)
Definition demo_read : entry * cache_op * mica_resp :=
  done_or (lin_op 0 0 (lin_obj (lin_demo demo_cput 7) 0) demo_cget (mkResp EMPTY 0 None))
    (fresh_entry, demo_cget, mkResp EMPTY 0 None).

Lemma lin_real_time_witness :
  resp_type demo_read.2 = CACHE_GET_SUCCESS /\ ts_le (2, 1) (ts_of (e_meta demo_read.1.1)).
Proof.
  split; [vm_compute; reflexivity|].
  refine (proj1 (lin_real_time fresh_entry (lin_demo demo_cput 6) 1 (lin_demo demo_cput 7) 0 _ _ _ _ _ _)
    0 demo_cget (mkResp EMPTY 0 None) demo_read.1.1 demo_read.1.2 demo_read.2 _ _ _).
  - apply fresh_lin_initial.
  - apply lin_demo_reach, demo_cput_fits.
  - right. left.
  - left.
  - reflexivity.
  - apply rtc_once, lin_demo_step; [apply demo_cput_fits|]. vm_compute. discriminate.
  - reflexivity.
  - vm_compute. reflexivity.
  - vm_compute. reflexivity.
Defined.

Lemma lin_readable_agree_witness :
  ts_of (e_meta (lin_obj (lin_demo demo_cput 7) 1)) = ts_of (e_meta (lin_obj (lin_demo demo_cput 7) 0)).
Proof.
  apply (lin_readable_agree fresh_entry (lin_demo demo_cput 7) 1 0).
  - apply fresh_lin_initial.
  - apply lin_demo_reach, demo_cput_fits.
  - right. left.
  - left.
  - reflexivity.
  - reflexivity.
Defined.

Lemma lin_drains_witness :
  exists c', rtc lin_deliver (lin_demo demo_cput 2) c' /\ lin_net c' = [].
Proof.
  apply (lin_drains fresh_entry (lin_demo demo_cput 2)).
  - apply fresh_lin_initial.
  - apply lin_demo_reach, demo_cput_fits.
Defined.

Definition demo_stale : cache_op := mkOp fresh_meta 0 0 0 0 0 (replicate 46 0).

Lemma lin_update_value_witness :
  exists c, lin_reach fresh_entry c /\ lin_net c = [] /\
    (forall b, b ∈ machines -> state (e_meta (lin_obj c b)) = VALID_STATE /\
       ts_of (e_meta (lin_obj c b)) = (2, 1)) /\
    e_value (lin_obj c 1) = replicate 32 9 /\
    (forall b, b ∈ machines -> b <> 1 -> e_value (lin_obj c b) = replicate 32 0).
Proof.
  apply (lin_update_value demo_stale).
  pose proof demo_cput_fits as [Hm Hb Hs Ht Ho Hl Hv _].
  split; try first [done|apply Forall_replicate; unfold is_u8; lia|unfold is_u8; simpl; lia].
Defined.
