(* ===== verification/Packets.v ===== *)
(** * Packets between clients and workers (eRPC)

    What the client of the SC build puts into its eRPC packets and what the
    receiving handlers read out of them: the hot writes collected by
    [perform_broadcasts_SC] and sent by [broadcast_cache_ops] to the
    [req_cache] handler of the other clients, and the cold requests sent by
    [send_requests] to the [req_handler] of the workers, which executes them
    in [drain_batch] (src/ccKVS/client-sc.c, src/ccKVS/worker.c,
    include/ccKVS/inline_util.h).  eRPC itself delivers a packet unchanged. *)
From S2P Require Import Prelude Config Optik Layout City Mica MicaLog Cache CacheSpec Network.

(** The first [n] bytes of a request, as [memcpy] takes them. *)
Definition request_bytes (n : Z) (op : cache_op) : list Z :=
  take (Z.to_nat n) (encode_op op).

(** ** The client's context ([class ClientContext])

    [cbatch] and [batch] hold pointers into the current array of operations:
    indices here. *)
Record client_ctx := mkCtx {
  cbatch : list nat;
  creq_length : Z;
  cache_bufferused : Z -> Z;
  batch : Z -> list (nat * Z);
  bufferused : Z -> Z;
  reqs_in_transit : Z
}.

Definition set_cbatch (l : list nat) (n : Z) (c : client_ctx) : client_ctx :=
  mkCtx l n (cache_bufferused c) (batch c) (bufferused c) (reqs_in_transit c).

Definition add_cache_op (i : nat) (request_length : Z) (c : client_ctx) : outcome client_ctx :=
  let* _ := c_assert (Z.of_nat (length (cbatch c)) <? CACHE_BATCH_SIZE) in
  Done (set_cbatch (cbatch c ++ [i]) request_length c).

Definition add_erpc_request (rm_id : Z) (i : nat) (request_length : Z) (c : client_ctx)
    : outcome client_ctx :=
  let* _ := c_assert (Z.of_nat (length (batch c rm_id)) <? WINDOW_SIZE) in
  Done (mkCtx (cbatch c) (creq_length c) (cache_bufferused c)
          (fupd (batch c) rm_id (batch c rm_id ++ [(i, request_length)]))
          (bufferused c) (reqs_in_transit c)).

(** ** Hot writes *)

(** [coh_buf] with its index: a ring the writes are also copied into. *)
Record coh_ring := mkRing { coh_buf : Z -> cache_op; coh_buf_i : Z }.

Definition coh_push (op : cache_op) (b : coh_ring) : coh_ring :=
  mkRing (fupd (coh_buf b) (coh_buf_i b) (recv_put_req (coh_buf b (coh_buf_i b)) op))
    (MOD_ADD_WITH_BASE (coh_buf_i b) COH_BUF_SLOTS 0).

(** The loop over the array of operations, from index [op_i] on. *)
Fixpoint bcast_SC_loop (op_i : nat) (ops : list cache_op) (c : client_ctx) (b : coh_ring)
    : outcome (list cache_op * client_ctx * coh_ring) :=
  match ops with
  | [] => Done ([], c, b)
  | op :: rest =>
      if negb (opcode op =? CACHE_OP_BRC) then
        let* (rest, c, b) := bcast_SC_loop (S op_i) rest c b in Done (op :: rest, c, b)
      else
        let op := set_opcode CACHE_OP_UPD op in
        let* c := add_cache_op op_i HERD_PUT_REQ_SIZE c in
        let b := coh_push op b in
        let* (rest, c, b) := bcast_SC_loop (S op_i) rest c b in
        Done (op :: rest, c, b)
  end.

Definition perform_broadcasts_SC := bcast_SC_loop 0.

(** The packet: the collected operations one after the other, [creq_length]
    bytes each. *)
Definition cache_packet (c : client_ctx) (ops : list cache_op) : list Z :=
  concat (request_bytes (creq_length c) <$> omap (fun i => ops !! i) (cbatch c)).

(** One machine of the sending loop. *)
Definition send_cache_packet (machine_id : Z) (pkt : list Z) (rm_id : Z)
    (c : client_ctx) : outcome (client_ctx * list (Z * list Z)) :=
  if rm_id =? machine_id then Done (c, [])
  else
    let* _ := c_assert (cache_bufferused c rm_id =? 0) in
    Done (mkCtx (cbatch c) (creq_length c) (fupd (cache_bufferused c) rm_id 1) (batch c)
            (bufferused c) (reqs_in_transit c + 1), [(rm_id, pkt)]).

Fixpoint send_cache_loop (machine_id : Z) (pkt : list Z) (rms : list Z) (c : client_ctx)
    : outcome (client_ctx * list (Z * list Z)) :=
  match rms with
  | [] => Done (c, [])
  | rm :: rms =>
      let* (c, s1) := send_cache_packet machine_id pkt rm c in
      let* (c, s2) := send_cache_loop machine_id pkt rms c in
      Done (c, s1 ++ s2)
  end.

(** The packets enqueued, with their destinations. *)
Definition broadcast_cache_ops (machine_id : Z) (ops : list cache_op) (c : client_ctx)
    : outcome (client_ctx * list (Z * list Z)) :=
  match cbatch c with
  | [] => Done (c, [])
  | _ =>
      let* (c, sent) := send_cache_loop machine_id (cache_packet c ops) machines c in
      Done (set_cbatch [] (creq_length c) c, sent)
  end.

(** The continuation when the answer of machine [rm_id] arrived. *)
Definition cache_response (rm_id : Z) (c : client_ctx) : client_ctx :=
  mkCtx (cbatch c) (creq_length c) (fupd (cache_bufferused c) rm_id 0) (batch c)
    (bufferused c) (reqs_in_transit c - 1).

Definition sizeof_cache_op : Z := MICA_OP_METADATA + MICA_MAX_VALUE.

(** [req_cache]: the packet is copied over the array [update_ops] (at [p]),
    which is then read as [struct cache_op]s. *)
Definition req_cache (kv : mica_kv) (m : mem) (p : Z) (update_resp : list mica_resp)
    (pkt : list Z) : outcome (mica_kv * mem * list (cache_op * mica_resp)) :=
  let size := Z.of_nat (length pkt) in
  let updates := Z.to_nat (size / HERD_PUT_REQ_SIZE) in
  let m := store_bytes m p pkt in
  let ops := (fun i => load_op m (p + sizeof_cache_op * Z.of_nat i)) <$> seq 0 updates in
  let* (kv, res) := cache_batch_op_sc_with_cache_op kv (zip ops update_resp) in
  Done (kv, m, res).

(** ** Cold requests *)
Definition data_packet (ops : list cache_op) (reqs : list (nat * Z)) : list Z :=
  concat (omap (fun x => request_bytes x.2 <$> ops !! x.1) reqs).

Definition send_data_packet (machine_id : Z) (ops : list cache_op) (rm_id : Z) (c : client_ctx)
    : outcome (client_ctx * list (Z * list Z)) :=
  if negb (rm_id =? machine_id) && (0 <? Z.of_nat (length (batch c rm_id))) then
    let* _ := c_assert (bufferused c rm_id =? 0) in
    Done (mkCtx (cbatch c) (creq_length c) (cache_bufferused c) (fupd (batch c) rm_id [])
            (fupd (bufferused c) rm_id 1) (reqs_in_transit c + 1),
          [(rm_id, data_packet ops (batch c rm_id))])
  else Done (c, []).

Fixpoint send_data_loop (machine_id : Z) (ops : list cache_op) (rms : list Z) (c : client_ctx)
    : outcome (client_ctx * list (Z * list Z)) :=
  match rms with
  | [] => Done (c, [])
  | rm :: rms =>
      let* (c, s1) := send_data_packet machine_id ops rm c in
      let* (c, s2) := send_data_loop machine_id ops rms c in
      Done (c, s1 ++ s2)
  end.

Definition send_requests (machine_id : Z) (ops : list cache_op) (c : client_ctx)
    : outcome (client_ctx * list (Z * list Z)) :=
  send_data_loop machine_id ops machines c.

Definition receive_response (rm_id : Z) (c : client_ctx) : client_ctx :=
  mkCtx (cbatch c) (creq_length c) (cache_bufferused c) (batch c)
    (fupd (bufferused c) rm_id 0) (reqs_in_transit c - 1).

(** ** The worker ([class WorkerContext])

    [op_ptr_arr] are addresses of requests in the received packets. *)
Record worker_ctx := mkWorker { op_ptr_arr : list Z; ops_in_req : list Z }.

Definition size_of_op (code : Z) : Z :=
  if code =? CACHE_OP_PUT then HERD_PUT_REQ_SIZE else HERD_GET_REQ_SIZE.

(** [while (offset < size)]: the addresses of the requests of a packet of
    [size] bytes at [p].  Every round advances, so [size] rounds are enough. *)
Fixpoint req_handler_loop (fuel : nat) (m : mem) (p size offset : Z) : outcome (list Z) :=
  match fuel with
  | O => Spin
  | S fuel =>
      if offset <? size then
        let* l := req_handler_loop fuel m p size (offset + size_of_op (m (p + offset + 16))) in
        Done (p + offset :: l)
      else Done []
  end.

Definition req_handler (m : mem) (p size : Z) (w : worker_ctx) : outcome worker_ctx :=
  let* l := req_handler_loop (S (Z.to_nat size)) m p size 0 in
  let w := mkWorker (op_ptr_arr w ++ l) (ops_in_req w ++ [Z.of_nat (length l)]) in
  let* _ := c_assert (Z.of_nat (length (op_ptr_arr w)) <=? WORKER_MAX_BATCH) in
  Done w.

(** The responses cut into one slice per request. *)
Fixpoint slices {A} (ns : list Z) (l : list A) : list (list A) :=
  match ns with
  | [] => []
  | n :: ns => take (Z.to_nat n) l :: slices ns (drop (Z.to_nat n) l)
  end.

Definition drain_batch (machine_id : Z) (kv : mica_kv) (kv_lock : cache_meta) (m : mem)
    (w : worker_ctx) : outcome (mica_kv * cache_meta * list (list mica_resp)) :=
  let* (kv, kv_lock, res) :=
    mica_batch_op_crcw machine_id kv kv_lock (load_op m <$> op_ptr_arr w) in
  Done (kv, kv_lock, slices (ops_in_req w) (snd <$> res)).

(** ** Collecting the hot writes *)
Definition as_update (op : cache_op) : cache_op :=
  if opcode op =? CACHE_OP_BRC then set_opcode CACHE_OP_UPD op else op.

(** The positions of the writes to broadcast, counted from [k]. *)
Fixpoint brc_positions (k : nat) (ops : list cache_op) : list nat :=
  match ops with
  | [] => []
  | op :: ops => if opcode op =? CACHE_OP_BRC then k :: brc_positions (S k) ops
                 else brc_positions (S k) ops
  end.

Definition ring_ok (b : coh_ring) : Prop := 0 <= coh_buf_i b < COH_BUF_SLOTS.

Lemma coh_push_ok op b : ring_ok b -> ring_ok (coh_push op b).
Proof.
  unfold ring_ok, coh_push, MOD_ADD_WITH_BASE. simpl.
  assert (0 < COH_BUF_SLOTS) by (vm_compute; done). zcase; lia.
Qed.

Lemma bcast_SC_loop_ok k ops c b :
  Z.of_nat (length (cbatch c) + length ops) <= CACHE_BATCH_SIZE -> ring_ok b ->
  exists b', bcast_SC_loop k ops c b =
    Done (as_update <$> ops,
          match brc_positions k ops with
          | [] => c
          | l => set_cbatch (cbatch c ++ l) HERD_PUT_REQ_SIZE c
          end, b') /\ ring_ok b'.
Proof.
  revert k c b. induction ops as [|op ops IH]; intros k c b Hl Hb; [by exists b|].
  cbn [bcast_SC_loop brc_positions]. rewrite fmap_cons. unfold as_update at 1. cbn [length] in Hl.
  destruct (opcode op =? CACHE_OP_BRC); simpl negb; cbv iota.
  - unfold add_cache_op. rewrite (proj2 (Z.ltb_lt _ _)) by lia. cbn [c_assert obind].
    destruct (IH (S k) (set_cbatch (cbatch c ++ [k]) HERD_PUT_REQ_SIZE c)
                (coh_push (set_opcode CACHE_OP_UPD op) b)) as (b' & E & Hb').
    + simpl. rewrite length_app. simpl. lia.
    + by apply coh_push_ok.
    + exists b'. rewrite E. cbn [obind]. split; [|done]. do 3 f_equal. simpl.
      destruct (brc_positions (S k) ops); [done|]. unfold set_cbatch. simpl.
      by rewrite <- app_assoc.
  - destruct (IH (S k) c b ltac:(lia) Hb) as (b' & E & Hb'). exists b'. by rewrite E.
Qed.

Lemma brc_positions_lookup k ops i :
  i ∈ brc_positions k ops ->
  exists op, ops !! (i - k)%nat = Some op /\ opcode op = CACHE_OP_BRC /\ (k <= i)%nat.
Proof.
  revert k. induction ops as [|op ops IH]; intros k; cbn [brc_positions];
    [by intros []%not_elem_of_nil|].
  assert (Hrec : i ∈ brc_positions (S k) ops -> exists op', (op :: ops) !! (i - k)%nat = Some op' /\
    opcode op' = CACHE_OP_BRC /\ (k <= i)%nat).
  { intros (op' & H1 & H2 & H3)%IH. exists op'. replace (i - k)%nat with (S (i - S k)) by lia.
    split_and!; [done|done|lia]. }
  destruct (Z.eqb_spec (opcode op) CACHE_OP_BRC); [|done].
  intros [->|Hi]%elem_of_cons; [|by apply Hrec].
  exists op. rewrite Nat.sub_diag. done.
Qed.

(** The updates in the packet, in order. *)
Lemma omap_positions k ops pre :
  length pre = k ->
  omap (fun i => (pre ++ (as_update <$> ops)) !! i) (brc_positions k ops)
  = set_opcode CACHE_OP_UPD <$> filter (fun op => opcode op = CACHE_OP_BRC) ops.
Proof.
  revert k pre. induction ops as [|op ops IH]; intros k pre Hk; [done|].
  cbn [brc_positions]. rewrite fmap_cons, filter_cons.
  assert (Hrec : omap (fun i => (pre ++ as_update op :: (as_update <$> ops)) !! i)
                   (brc_positions (S k) ops)
                 = set_opcode CACHE_OP_UPD <$> filter (fun op => opcode op = CACHE_OP_BRC) ops).
  { rewrite <- (IH (S k) (pre ++ [as_update op])) by (rewrite length_app; simpl; lia).
    by rewrite <- app_assoc. }
  destruct (Z.eqb_spec (opcode op) CACHE_OP_BRC) as [E|E];
    [rewrite decide_True by done|rewrite decide_False by done; exact Hrec].
  rewrite fmap_cons, <- Hrec. cbn [omap list_omap]. rewrite list_lookup_middle by done.
  unfold as_update at 1. by rewrite E.
Qed.

Lemma send_cache_loop_ok machine_id pkt rms c :
  NoDup rms -> (forall rm, rm ∈ rms -> cache_bufferused c rm = 0) ->
  exists c', send_cache_loop machine_id pkt rms c
    = Done (c', (fun rm => (rm, pkt)) <$> filter (fun rm => rm <> machine_id) rms) /\
    cbatch c' = cbatch c /\ creq_length c' = creq_length c /\
    batch c' = batch c /\ bufferused c' = bufferused c /\
    (forall rm, cache_bufferused c' rm
       = if decide (rm ∈ filter (fun x => x <> machine_id) rms) then 1 else cache_bufferused c rm) /\
    reqs_in_transit c' = reqs_in_transit c + Z.of_nat (length (filter (fun x => x <> machine_id) rms)).
Proof.
  revert c. induction rms as [|rm rms IH]; intros c Hnd Hfree.
  { exists c. split_and!; try done. simpl. lia. }
  apply NoDup_cons in Hnd as [Hrm Hnd]. cbn [send_cache_loop]. unfold send_cache_packet.
  rewrite filter_cons. destruct (Z.eqb_spec rm machine_id) as [->|Hne].
  - rewrite decide_False by (intros H; by apply H). cbn [obind].
    destruct (IH c Hnd) as (c' & E & H); [intros; apply Hfree; by right|].
    exists c'. by rewrite E.
  - rewrite decide_True by done. rewrite (Hfree rm) by left. cbn [c_assert obind Z.eqb].
    match goal with |- context [send_cache_loop _ _ _ ?c1] => set (c1' := c1) end.
    destruct (IH c1' Hnd) as (c' & E & H1 & H2 & H3 & H4 & H5 & H6).
    { intros x Hx. unfold c1'. simpl. rewrite fupd_ne by (intros ->; done). apply Hfree. by right. }
    exists c'. rewrite E. cbn [obind]. split_and!; try done.
    + intros x. rewrite H5. unfold c1'. simpl. unfold fupd.
      destruct (decide (x ∈ filter _ rms)) as [Hin|Hin].
      * rewrite decide_True by (by right). done.
      * zcase; [subst; rewrite decide_True by left; done|].
        rewrite decide_False by (intros [?|?]%elem_of_cons; done). done.
    + rewrite H6. unfold c1'. simpl. lia.
Qed.

(** ** Receiving updates *)
Lemma length_request_bytes n op :
  op_fits op -> 0 <= n <= 64 -> length (request_bytes n op) = Z.to_nat n.
Proof.
  intros Hf Hn. unfold request_bytes. rewrite length_take, length_encode_op, (of_value _ Hf).
  change max_value_len with 46%nat. lia.
Qed.

(** The updates a receiver decodes from a packet of [l]. *)
Lemma req_cache_count l :
  Forall op_fits l ->
  Z.to_nat (Z.of_nat (length (concat (request_bytes HERD_PUT_REQ_SIZE <$> l))) / HERD_PUT_REQ_SIZE)
  = length l.
Proof.
  intros Hl. change HERD_PUT_REQ_SIZE with 50.
  assert (E : length (concat (request_bytes 50 <$> l)) = (50 * length l)%nat).
  { induction Hl as [|o l Ho _ IH]; [done|]. rewrite fmap_cons. cbn [concat length].
    rewrite length_app, IH, length_request_bytes by (done || lia). lia. }
  rewrite E. replace (Z.of_nat (50 * length l)) with (Z.of_nat (length l) * 50) by lia.
  rewrite Z.div_mul by lia. lia.
Qed.

Lemma req_cache_single kv m p r rs slot op :
  op_fits slot -> op_fits op ->
  req_cache kv (store_bytes m p (encode_op slot)) p (r :: rs) (request_bytes HERD_PUT_REQ_SIZE op)
  = let* (kv, res) := cache_batch_op_sc_with_cache_op kv [(recv_put_req slot op, r)] in
    Done (kv, store_bytes (store_bytes m p (encode_op slot)) p (request_bytes HERD_PUT_REQ_SIZE op), res).
Proof.
  intros Hs Ho. unfold req_cache.
  assert (E1 : Z.to_nat (Z.of_nat (length (request_bytes HERD_PUT_REQ_SIZE op)) / HERD_PUT_REQ_SIZE)
               = 1%nat).
  { pose proof (req_cache_count [op] ltac:(by apply Forall_singleton)) as E. simpl in E.
    by rewrite app_nil_r in E. }
  rewrite E1. cbn [seq fmap list_fmap zip zip_with]. change (p + sizeof_cache_op * Z.of_nat 0) with (p + 0).
  rewrite Z.add_0_r. unfold request_bytes at 1. by rewrite recv_put_req_bytes.
Qed.

Lemma le_split_load m q n :
  Forall is_u8 (load_bytes m q n) -> le_split n (le_combine (load_bytes m q n)) = load_bytes m q n.
Proof. intros H. rewrite <- (length_load_bytes m q n) at 1. by apply le_split_combine. Qed.

(** The key word of a structure read from memory is the word read there. *)
Lemma load_op_key_word m p :
  Forall is_u8 (load_bytes m (p + 8) 8) -> key_word (load_op m p) = load_u64 m (p + 8).
Proof.
  change 8%nat with (4 + (2 + 2))%nat. rewrite !load_bytes_app, !Forall_app. intros (H1 & H2 & H3).
  unfold key_word, encode_key_word, load_u64, load_op, load_u32, load_u16. cbn [bkt server tag].
  change 8%nat with (4 + (2 + 2))%nat. rewrite !load_bytes_app.
  replace (p + 8 + Z.of_nat 4) with (p + 12) in * by lia.
  replace (p + 12 + Z.of_nat 2) with (p + 14) in * by lia.
  by rewrite !le_split_load.
Qed.

(** The bytes of two updates, read at the stride of [struct cache_op]. *)
Lemma second_key_word m p op1 op2 :
  op_fits op1 -> op_fits op2 ->
  let pkt := request_bytes HERD_PUT_REQ_SIZE op1 ++ request_bytes HERD_PUT_REQ_SIZE op2 in
  key_word (load_op (store_bytes m p pkt) (p + sizeof_cache_op))
  = le_combine (take 8 (drop 4 (value op2))).
Proof.
  intros H1 H2 pkt. change sizeof_cache_op with 64.
  assert (Hl1 : length (request_bytes HERD_PUT_REQ_SIZE op1) = 50%nat)
    by (rewrite length_request_bytes; [done|done|vm_compute; split; discriminate]).
  assert (Hl2 : length (request_bytes HERD_PUT_REQ_SIZE op2) = 50%nat)
    by (rewrite length_request_bytes; [done|done|vm_compute; split; discriminate]).
  assert (Hb : load_bytes (store_bytes m p pkt) (p + 64 + 8) 8 = take 8 (drop 4 (value op2))).
  { rewrite <- Z.add_assoc, load_store_sub by (unfold pkt; rewrite ?length_app; lia).
    unfold pkt. rewrite skipn_app, drop_ge, Hl1, app_nil_l by (rewrite Hl1; lia).
    unfold request_bytes. change (Z.to_nat (64 + 8) - 50)%nat with (18 + 4)%nat.
    change (Z.to_nat HERD_PUT_REQ_SIZE) with (18 + 32)%nat.
    rewrite skipn_firstn_comm, take_take. change (8 `min` (18 + 32 - (18 + 4)))%nat with 8%nat.
    rewrite <- drop_drop. done. }
  rewrite load_op_key_word; rewrite ?Hb.
  - unfold load_u64. by rewrite Hb.
  - apply Forall_take, Forall_drop, H2.
Qed.

(** ** Properties of the broadcast path *)

(** C34: the broadcast of hot writes.  For every batch of operations
    [perform_broadcasts_SC] completes, turns each write to be broadcast into an
    update exactly once and collects them in order; [broadcast_cache_ops] then
    sends to every other machine one packet with all of them, 50 bytes each,
    and empties the collection; nothing is sent when there is no such write. *)
Theorem sc_broadcast_packets mid ops c b :
  Z.of_nat (length ops) <= CACHE_BATCH_SIZE -> ring_ok b -> cbatch c = [] ->
  (forall rm, cache_bufferused c rm = 0) ->
  let upds := set_opcode CACHE_OP_UPD <$> filter (fun op => opcode op = CACHE_OP_BRC) ops in
  let pkt := concat (request_bytes HERD_PUT_REQ_SIZE <$> upds) in
  exists c1 b1 c2 sent,
    perform_broadcasts_SC ops c b = Done (as_update <$> ops, c1, b1) /\ ring_ok b1 /\
    broadcast_cache_ops mid (as_update <$> ops) c1 = Done (c2, sent) /\ cbatch c2 = [] /\
    sent = (if bool_decide (upds = []) then [] else (fun rm => (rm, pkt)) <$> others mid) /\
    reqs_in_transit c2 = reqs_in_transit c + Z.of_nat (length sent) /\
    Forall (fun op => opcode op <> CACHE_OP_BRC) (as_update <$> ops).
Proof.
  intros Hl Hb Hc Hfree upds pkt. unfold perform_broadcasts_SC.
  destruct (bcast_SC_loop_ok 0 ops c b) as (b1 & E & Hb1); [rewrite Hc; simpl; lia|done|].
  rewrite Hc in E. simpl app in E. pose proof (omap_positions 0 ops [] eq_refl) as Hom.
  simpl app in Hom. fold upds in Hom.
  assert (Hno : Forall (fun op => opcode op <> CACHE_OP_BRC) (as_update <$> ops)).
  { apply Forall_fmap, Forall_forall. intros op _. unfold as_update. simpl.
    destruct (Z.eqb_spec (opcode op) CACHE_OP_BRC); done. }
  assert (Hempty : brc_positions 0 ops = [] <-> upds = []).
  { rewrite <- Hom. split; [by intros ->|]. intros Ho.
    destruct (brc_positions 0 ops) as [|i l] eqn:Ep; [done|].
    destruct (brc_positions_lookup 0 ops i) as (op & H1 & H2 & _); [rewrite Ep; left|].
    rewrite Nat.sub_0_r in H1. cbn [omap list_omap] in Ho.
    rewrite list_lookup_fmap, H1 in Ho. done. }
  destruct (brc_positions 0 ops) as [|i l] eqn:Ep.
  - exists c, b1, c, []. rewrite bool_decide_true by (by apply Hempty).
    unfold broadcast_cache_ops. rewrite Hc. split_and!; try done. simpl. lia.
  - set (c1 := set_cbatch (i :: l) HERD_PUT_REQ_SIZE c) in *.
    rewrite bool_decide_false by (intros H; by apply Hempty in H).
    destruct (send_cache_loop_ok mid (cache_packet c1 (as_update <$> ops)) machines c1)
      as (c' & E' & H1 & H2 & H3 & H4 & H5 & H6); [apply machines_NoDup|intros; apply Hfree|].
    exists c1, b1, (set_cbatch [] (creq_length c') c'),
      ((fun rm => (rm, cache_packet c1 (as_update <$> ops))) <$> others mid).
    assert (Hpkt : cache_packet c1 (as_update <$> ops) = pkt).
    { unfold cache_packet, c1. simpl cbatch. simpl creq_length. by rewrite Hom. }
    split_and!; try done.
    + unfold broadcast_cache_ops. simpl cbatch. rewrite E'. done.
    + by rewrite Hpkt.
    + cbn [set_cbatch reqs_in_transit]. rewrite H6, length_fmap. done.
Qed.

(** A packet with one update is read back unchanged: [req_cache] completes
    and applies exactly this update to the object of its key, if and only if
    its timestamp is greater than the object's; no other object changes.  (The
    array slot keeps its old bytes beyond the 50 received.) *)
Theorem sc_update_received kv F m p r rs slot op e :
  coupled entry_wf kv F -> op_fits slot -> msg_ok op -> opcode op = CACHE_OP_UPD ->
  F (key_word op) = Some e -> val_len op = e_val_len e -> resp_type r <> UNSERVED_CACHE_MISS ->
  exists kv' m' r' F',
    req_cache kv (store_bytes m p (encode_op slot)) p (r :: rs) (request_bytes HERD_PUT_REQ_SIZE op)
    = Done (kv', m', [(recv_put_req slot op, r')]) /\ coupled entry_wf kv' F' /\
    (forall k, k <> key_word op -> F' k = F k) /\
    F' (key_word op) = Some (if ts_ltb (ts_of (e_meta e)) (ts_of (meta op))
                             then copied (stamp op (e_meta e)) e op else e).
Proof.
  intros Hc Hs Hop Ho HF Hlen Hr. rewrite req_cache_single by (done || apply Hop).
  set (o := recv_put_req slot op).
  assert (Hm : msg_ok o) by (split; [apply recv_put_req_fits; [done|apply Hop]|apply Hop]).
  assert (Hk : key_word o = key_word op) by done.
  assert (Hleg : legal (e_val_len e) o).
  { split; [apply Hm|simpl; intros _; done|intros _; apply Hm]. }
  pose proof (cp_inv _ _ _ Hc _ _ HF) as He.
  destruct (cache_exec_view entry_wf _ sc_with_cache_op sc_skips kv F [(o, r)]
    ((fun x => (x.1, x.2, kv_ptr kv x.1)) <$> [(o, r)]) (value_addr kv) Hc)
    as (kv' & F' & l' & E & V & Hc'); [|done|reflexivity|].
  { apply Forall_singleton. split_and!; [apply Hm|simpl; rewrite Ho; left|].
    simpl. rewrite Hk, HF. by intros e0 [= <-]. }
  unfold cache_batch_op_sc_with_cache_op, cache_batch. rewrite E. cbn [obind].
  cbn [view_exec] in V. unfold view_exec_one in V.
  assert (Hskip : sc_skips r = false) by (unfold sc_skips; by apply Z.eqb_neq).
  rewrite Hskip, Hk, HF in V. unfold sc_with_cache_op in V. simpl opcode in V. rewrite Ho in V.
  simpl (_ =? _) in V. cbv iota in V. rewrite sc_upd_eq in V by done.
  change (meta o) with (meta op) in V.
  assert (Hcp : copied (stamp op (e_meta e)) e o = copied (stamp op (e_meta e)) e op).
  { unfold copied. f_equal. pose proof (ew_len _ He) as Hel. change HERD_VALUE_SIZE with 32 in Hel.
    pose proof (take_recv_put_req slot op (mk_fits _ Hop)) as Ht.
    assert (Htt : forall l : list Z, take (Z.to_nat (e_val_len e)) l
                  = take (Z.to_nat (e_val_len e)) (take 32 l))
      by (intros l; rewrite take_take, Nat.min_l by lia; done).
    rewrite (Htt (value o)), (Htt (value op)). unfold o. by rewrite Ht. }
  change (stamp o (e_meta e)) with (stamp op (e_meta e)) in V. rewrite Hcp in V.
  destruct (ts_ltb _ _); cbn [obind] in V; injection V as <- <-;
    (eexists _, _, _, _; split; [reflexivity|]; split; [done|]; split;
      [intros k Hne; by rewrite fupd_ne|by rewrite fupd_eq]).
Qed.

(** ** Several updates in one packet *)
Lemma load_op_fits m p : (forall a, is_u8 (m a)) -> op_fits (load_op m p).
Proof.
  intros Hm. assert (Hb : forall q n, Forall is_u8 (load_bytes m q n)) by (intros; by apply load_bytes_bytes).
  assert (Hc : forall q n, 0 <= le_combine (load_bytes m q n) < 256 ^ Z.of_nat n).
  { intros q n. pose proof (le_combine_bound _ (Hb q n)) as H. by rewrite length_load_bytes in H. }
  split; simpl; try apply Hm; try apply Hb; try apply (Hc _ 4%nat); try apply (Hc _ 2%nat).
  - split; simpl; try apply Hm. apply (Hc _ 4%nat).
  - done.
Qed.

Lemma store_bytes_app m p a b x :
  store_bytes m p (a ++ b) x = store_bytes (store_bytes m (p + Z.of_nat (length a)) b) p a x.
Proof.
  unfold store_bytes. rewrite length_app, Nat2Z.inj_add.
  repeat zcase; simpl; try lia; try done.
  - rewrite app_nth1 by lia. done.
  - rewrite app_nth2 by lia. f_equal. lia.
Qed.

(** The first structure read from a longer packet: the update sent, with other
    bytes beyond its value. *)
Lemma first_update m p op rest :
  op_fits op ->
  let o := load_op (store_bytes m p (request_bytes HERD_PUT_REQ_SIZE op ++ rest)) p in
  meta o = meta op /\ key_word o = key_word op /\ opcode o = opcode op /\ val_len o = val_len op.
Proof.
  intros Hf o.
  assert (E : o = load_op (store_bytes (store_bytes m (p + 50) rest) p (take (18 + 32) (encode_op op))) p).
  { unfold o. apply load_op_ext. intros i Hi. rewrite store_bytes_app.
    rewrite length_request_bytes by (done || (vm_compute; split; discriminate)). done. }
  rewrite E. destruct (load_stored_header (store_bytes m (p + 50) rest) p op 32 Hf)
    as (H1 & H2 & H3 & H4 & H5 & H6); [change max_value_len with 46%nat; lia|].
  split_and!; try done. unfold key_word, encode_key_word. by rewrite H2, H3, H4.
Qed.

Lemma request_bytes_u8 n op : op_fits op -> Forall is_u8 (request_bytes n op).
Proof.
  intros [? ? ? ? ? ? _ ?]. apply Forall_take. unfold encode_op.
  rewrite !Forall_app. split_and!; [by apply encode_meta_bytes|apply encode_key_word_bytes| |done].
  apply Forall_cons. split; [done|]. by apply Forall_singleton.
Qed.

(** An operation changes no object but that of its key. *)
Lemma view_exec_one_frame skips h addr F op r F' op' r' k :
  view_exec_one skips h addr F op r = Done (F', op', r') -> k <> key_word op -> F' k = F k.
Proof.
  unfold view_exec_one. intros V Hk. destruct (skips r); [by injection V as <- _ _|].
  destruct (F (key_word op)); [|by injection V as <- _ _].
  apply obind_Done_inv in V as ([[e1 op1'] r1''] & _ & V). injection V as <- _ _. by rewrite fupd_ne.
Qed.

(** An operation on a key that is not cached changes nothing. *)
Lemma cache_exec_one_miss inv skips h kv F op r :
  coupled inv kv F -> op_fits op -> F (key_word op) = None ->
  exists r', cache_exec_one skips h kv op r (kv_ptr kv op) = Done (kv, op, r').
Proof.
  intros Hc Hop Hmiss. unfold cache_exec_one. destruct (skips r); [by eexists|].
  pose proof (cp_view _ _ _ Hc op Hop) as Hv. unfold cache_view in Hv.
  rewrite kv_ptr_key_op, Hmiss in Hv by done. destruct (kv_ptr kv op) as [q|]; [|by eexists].
  fold (entry_key (ht_log kv) q). destruct (_ =? _); [done|]. by eexists.
Qed.

(** C35: of two updates in one packet the second is lost.  The sender packs the
    updates 50 bytes apart, the receiver reads them [sizeof(struct cache_op)] =
    64 bytes apart, so the second key is read from inside the second update's
    value; unless these eight bytes happen to be a cached key, [req_cache]
    answers OK and leaves every object but that of the first update as it was. *)
Theorem sc_second_update_lost kv F m p r1 r2 rs op1 op2 e :
  coupled entry_wf kv F -> (forall a, is_u8 (m a)) ->
  msg_ok op1 -> opcode op1 = CACHE_OP_UPD -> op_fits op2 ->
  F (key_word op1) = Some e -> val_len op1 = e_val_len e ->
  F (le_combine (take 8 (drop 4 (value op2)))) = None ->
  exists kv' m' res F',
    req_cache kv m p (r1 :: r2 :: rs)
      (request_bytes HERD_PUT_REQ_SIZE op1 ++ request_bytes HERD_PUT_REQ_SIZE op2)
    = Done (kv', m', res) /\ coupled entry_wf kv' F' /\
    forall k, k <> key_word op1 -> F' k = F k.
Proof.
  intros Hc Hm Hop Ho Hf2 HF Hlen Hmiss.
  set (pkt := request_bytes HERD_PUT_REQ_SIZE op1 ++ request_bytes HERD_PUT_REQ_SIZE op2).
  assert (Hm' : forall a, is_u8 (store_bytes m p pkt a)).
  { apply store_bytes_bytes; [done|]. apply Forall_app. split; apply request_bytes_u8; [apply Hop|done]. }
  pose proof (first_update m p op1 (request_bytes HERD_PUT_REQ_SIZE op2) (mk_fits _ Hop))
    as (Em & Ek & Ec & El). fold pkt in Em, Ek, Ec, El.
  set (o1 := load_op (store_bytes m p pkt) p) in *.
  set (o2 := load_op (store_bytes m p pkt) (p + sizeof_cache_op)) in *.
  assert (Ek2 : key_word o2 = le_combine (take 8 (drop 4 (value op2))))
    by exact (second_key_word m p op1 op2 (mk_fits _ Hop) Hf2).
  assert (Ho1 : op_fits o1) by (by apply load_op_fits).
  assert (Ho2 : op_fits o2) by (by apply load_op_fits).
  assert (Hleg : legal (e_val_len e) o1).
  { split; [done|congruence|intros _; rewrite Em; apply Hop]. }
  unfold req_cache. pose proof (req_cache_count [op1; op2]) as Hn.
  cbn [fmap list_fmap concat] in Hn. rewrite app_nil_r in Hn. fold pkt in Hn. rewrite Hn by (apply Forall_cons; split; [apply Hop|by apply Forall_singleton]).
  cbn [length seq fmap list_fmap zip zip_with].
  change (p + sizeof_cache_op * Z.of_nat 0) with (p + 0).
  change (p + sizeof_cache_op * Z.of_nat 1) with (p + sizeof_cache_op). rewrite Z.add_0_r.
  fold o1 o2.
  destruct (cache_exec_one_view entry_wf [CACHE_OP_UPD; CACHE_OP_BRC] sc_with_cache_op sc_skips
              kv F o1 r1 Hc Ho1) as (kv1 & F1 & o1' & r1' & E1 & V1 & Hc1 & Hptr & _).
  { rewrite Ek, HF. by intros e0 [= <-]. }
  { rewrite Ec, Ho. left. }
  unfold cache_batch_op_sc_with_cache_op, cache_batch. cbn [fmap list_fmap fst snd cache_exec].
  rewrite E1. cbn [obind].
  assert (HF1 : forall k, k <> key_word op1 -> F1 k = F k).
  { intros k Hk. apply (view_exec_one_frame _ _ _ _ _ _ _ _ _ _ V1). congruence. }
  assert (Hmiss1 : F1 (key_word o2) = None).
  { rewrite Ek2. destruct (Z.eq_dec (le_combine (take 8 (drop 4 (value op2)))) (key_word op1)) as [E|E].
    - rewrite E in Hmiss. congruence.
    - by rewrite HF1. }
  destruct (cache_exec_one_miss _ sc_skips sc_with_cache_op _ _ o2 r2 Hc1 Ho2 Hmiss1) as [r2' E2].
  rewrite Hptr in E2. rewrite E2. cbn [obind].
  eexists _, _, _, F1. split; [reflexivity|]. done.
Qed.

(** ** A packet of updates, as received

    The first update is applied; the structures read behind it are not the
    updates sent, and change nothing if their keys are not cached. *)
Definition update_op (o : cache_op) : Prop :=
  msg_ok o /\ opcode o = CACHE_OP_UPD /\ val_len o = HERD_VALUE_SIZE.

Definition updates_packet (upds : list cache_op) : list Z :=
  concat (request_bytes HERD_PUT_REQ_SIZE <$> upds).

Definition read_update (m : mem) (p : Z) (i : nat) : cache_op := load_op m (p + sizeof_cache_op * Z.of_nat i).

Definition strays_miss (kv : mica_kv) (m : mem) (p : Z) (upds : list cache_op) : Prop :=
  forall i, (1 <= i < length upds)%nat ->
    cache_view kv (key_word (read_update (store_bytes m p (updates_packet upds)) p i)) = None.

Definition apply_update (op : cache_op) (e : entry) : entry :=
  if ts_ltb (ts_of (e_meta e)) (ts_of (meta op)) then copied (stamp op (e_meta e)) e op else e.

Definition updated (op : cache_op) (F : Z -> option entry) : Z -> option entry :=
  match F (key_word op) with
  | Some e => fupd F (key_word op) (Some (apply_update op e))
  | None => F
  end.

Lemma updates_packet_u8 upds : Forall op_fits upds -> Forall is_u8 (updates_packet upds).
Proof.
  unfold updates_packet. induction 1 as [|o l Ho _ IH]; [constructor|]. cbn [fmap list_fmap concat].
  apply Forall_app. split; [by apply request_bytes_u8|exact IH].
Qed.

Lemma first_value m p op rest :
  op_fits op ->
  take 32 (value (load_op (store_bytes m p (request_bytes HERD_PUT_REQ_SIZE op ++ rest)) p)) = take 32 (value op).
Proof.
  intros Hf.
  assert (E : load_op (store_bytes m p (request_bytes HERD_PUT_REQ_SIZE op ++ rest)) p
    = load_op (store_bytes (store_bytes m (p + 50) rest) p (take (18 + 32) (encode_op op))) p).
  { apply load_op_ext. intros i Hi. rewrite store_bytes_app.
    by rewrite length_request_bytes by (done || (vm_compute; split; discriminate)). }
  rewrite E. unfold load_op. cbn [value]. change max_value_len with (32 + 14)%nat. rewrite load_bytes_app.
  rewrite take_app_le by (by rewrite length_load_bytes).
  rewrite take_ge by (by rewrite length_load_bytes).
  apply (load_stored_value _ p op 32 Hf). change max_value_len with 46%nat. lia.
Qed.

(** The handler on the structure read first. *)
Lemma sc_with_cache_op_upd vp e op o r :
  entry_wf e -> update_op op -> op_fits o -> e_val_len e = HERD_VALUE_SIZE ->
  meta o = meta op -> opcode o = opcode op -> val_len o = val_len op -> take 32 (value o) = take 32 (value op) ->
  exists r', sc_with_cache_op vp e o r = Done (apply_update op e, o, r') /\ resp_type r' <> UNSERVED_CACHE_MISS.
Proof.
  intros He ([Hf Hev] & Hc & Hl) Ho Hel Em Ec El Ev. unfold sc_with_cache_op. rewrite Ec, Hc.
  change (CACHE_OP_UPD =? CACHE_OP_UPD) with true. cbv iota.
  rewrite sc_upd_eq; [|done|split; [done|by rewrite Em]|congruence]. unfold apply_update, stamp. rewrite Em.
  assert (Hcp : forall x, copied x e o = copied x e op).
  { intros x. unfold copied. rewrite Hel. change (Z.to_nat HERD_VALUE_SIZE) with 32%nat. by rewrite Ev. }
  rewrite Hcp. destruct (ts_ltb _ _); eexists; (split; [reflexivity|done]).
Qed.

Lemma cache_exec_misses inv h kv F l :
  coupled inv kv F -> Forall (fun x => op_fits x.1 /\ F (key_word x.1) = None) l ->
  Forall (fun x => resp_type x.2 <> UNSERVED_CACHE_MISS) l ->
  exists res, cache_exec sc_skips h kv ((fun x => (x.1, x.2, kv_ptr kv x.1)) <$> l) = Done (kv, res) /\
    length res = length l /\ Forall (fun x => resp_type x.2 <> UNSERVED_CACHE_MISS) res.
Proof.
  intros Hc Hl Hr. induction Hl as [|[o r] l [Ho Hm] _ IH]; [by eexists|].
  apply Forall_cons in Hr as [Hr0 Hr]. destruct (IH Hr) as (res & E & Hlen & Hres). rewrite fmap_cons. cbn [cache_exec fst snd] in *.
  assert (E1 : cache_exec_one sc_skips h kv o r (kv_ptr kv o) = Done (kv, o, mkResp CACHE_MISS 0 None)).
  { unfold cache_exec_one, sc_skips. rewrite (proj2 (Z.eqb_neq _ _) Hr0).
    pose proof (cp_view _ _ _ Hc o Ho) as Hv. unfold cache_view in Hv.
    rewrite kv_ptr_key_op, Hm in Hv by done. destruct (kv_ptr kv o) as [q|]; [|done].
    fold (entry_key (ht_log kv) q). by destruct (_ =? _). }
  rewrite E1. cbn [obind]. rewrite E. eexists. split; [reflexivity|].
  split; [simpl; by f_equal|]. by apply Forall_cons.
Qed.

(** The structure read first is cached or not; the batch continues behind it. *)
Lemma update_first kv F o r op :
  coupled entry_wf kv F -> update_op op -> op_fits o ->
  (forall e, F (key_word op) = Some e -> e_val_len e = HERD_VALUE_SIZE) ->
  meta o = meta op -> key_word o = key_word op -> opcode o = opcode op -> val_len o = val_len op ->
  take 32 (value o) = take 32 (value op) -> resp_type r <> UNSERVED_CACHE_MISS ->
  exists kv' r', cache_exec_one sc_skips sc_with_cache_op kv o r (kv_ptr kv o) = Done (kv', o, r') /\
    coupled entry_wf kv' (updated op F) /\ (forall q, kv_ptr kv' q = kv_ptr kv q) /\ resp_type r' <> UNSERVED_CACHE_MISS.
Proof.
  intros Hc Hop Ho Hlen Em Ek Ec El Ev Hr. pose proof Hop as ([Hf Hev] & Hcode & Hvl).
  destruct (cache_exec_one_view entry_wf [CACHE_OP_UPD; CACHE_OP_BRC] sc_with_cache_op sc_skips kv F o r Hc Ho)
    as (kv1 & F1 & o1 & r1 & E1 & V1 & Hc1 & Hptr & _).
  { intros e He. rewrite Ek in He. split; [done|intros _; rewrite El, Hvl; symmetry; by apply Hlen|].
    intros _. by rewrite Em. }
  { rewrite Ec, Hcode. left. }
  unfold view_exec_one, sc_skips in V1. rewrite (proj2 (Z.eqb_neq _ _) Hr), Ek in V1. unfold updated.
  destruct (F (key_word op)) as [e|] eqn:EF.
  - destruct (sc_with_cache_op_upd (value_addr kv (key_word op)) e op o r (cp_inv _ _ _ Hc _ _ EF) Hop Ho (Hlen e eq_refl) Em Ec El Ev)
      as (r2 & E2 & Hr2).
    rewrite E2 in V1. cbn [obind] in V1. injection V1 as <- <- <-. by exists kv1, r2.
  - injection V1 as <- <- <-. by exists kv1, (mkResp CACHE_MISS 0 None).
Qed.

Lemma updates_received kv F m p r rs upd upds :
  coupled entry_wf kv F -> (forall a, is_u8 (m a)) -> update_op upd -> Forall op_fits upds ->
  (forall e, F (key_word upd) = Some e -> e_val_len e = HERD_VALUE_SIZE) ->
  strays_miss kv m p (upd :: upds) -> Forall (fun x => resp_type x <> UNSERVED_CACHE_MISS) (r :: rs) ->
  exists kv' res, req_cache kv m p (r :: rs) (updates_packet (upd :: upds))
    = Done (kv', store_bytes m p (updates_packet (upd :: upds)), res) /\
    coupled entry_wf kv' (updated upd F) /\ (length res <= length (r :: rs))%nat /\
    Forall (fun x => resp_type x.2 <> UNSERVED_CACHE_MISS) res.
Proof.
  intros Hc Hm Hop Hfs Hlen Hst Hr. apply Forall_cons in Hr as [Hr Hrs]. pose proof Hop as ([Hf _] & _).
  pose proof (req_cache_count (upd :: upds) ltac:(by apply Forall_cons)) as Hn.
  unfold req_cache. fold (updates_packet (upd :: upds)) in Hn. rewrite Hn.
  set (pkt := updates_packet (upd :: upds)). set (m1 := store_bytes m p pkt).
  assert (Hm1 : forall a, is_u8 (m1 a)) by (apply store_bytes_bytes; [done|apply updates_packet_u8; by apply Forall_cons]).
  pose proof (first_update m p upd (updates_packet upds) Hf) as (Em & Ek & Ec & El).
  pose proof (first_value m p upd (updates_packet upds) Hf) as Ev.
  change (request_bytes _ upd ++ updates_packet upds) with pkt in Em, Ek, Ec, El, Ev. fold m1 in Em, Ek, Ec, El, Ev.
  change (seq 0 (length (upd :: upds))) with (0%nat :: seq 1 (length upds)). rewrite fmap_cons.
  change (p + sizeof_cache_op * Z.of_nat 0) with (p + 0). rewrite Z.add_0_r. cbn [zip zip_with].
  set (os := (fun i => load_op m1 (p + sizeof_cache_op * Z.of_nat i)) <$> seq 1 (length upds)).
  unfold cache_batch_op_sc_with_cache_op, cache_batch. rewrite fmap_cons. cbn [cache_exec fst snd].
  destruct (update_first kv F (load_op m1 p) r upd Hc Hop (load_op_fits _ _ Hm1) Hlen Em Ek Ec El Ev Hr)
    as (kv1 & r1 & E1 & Hc1 & Hptr & Hr1).
  rewrite E1. cbn [obind].
  assert (Ez : (fun x => (x.1, x.2, kv_ptr kv x.1)) <$> zip os rs = (fun x => (x.1, x.2, kv_ptr kv1 x.1)) <$> zip os rs)
    by (apply list_fmap_ext; intros i x _; by rewrite Hptr).
  rewrite Ez. destruct (cache_exec_misses entry_wf sc_with_cache_op kv1 (updated upd F) (zip os rs) Hc1) as (res & E2 & Hl2 & Hr2).
  - apply Forall_lookup_2. intros i [o r0] Hi. apply lookup_zip_with_Some in Hi as (o1 & r2 & [= <- <-] & Ho & _).
    unfold os in Ho. apply list_lookup_fmap_Some in Ho as (j & -> & Hj). apply lookup_seq in Hj as [-> Hj]. cbn [fst].
    split; [by apply load_op_fits|].
    assert (Hmiss : F (key_word (read_update m1 p (1 + i))) = None).
    { rewrite <- (cp_view _ _ _ Hc) by by apply load_op_fits. apply Hst. simpl. lia. }
    unfold updated. destruct (F (key_word upd)) as [e|] eqn:EF; [|exact Hmiss].
    unfold fupd. zcase; [|exact Hmiss]. exfalso. unfold read_update in Hmiss. congruence.
  - apply Forall_lookup_2. intros i [o r0] Hi. apply lookup_zip_with_Some in Hi as (o1 & r2 & [= <- <-] & _ & Hr0).
    by apply (Forall_lookup_1 _ _ _ _ Hrs Hr0).
  - rewrite E2. cbn [obind]. eexists _, _. split; [reflexivity|]. split; [done|]. split; [|by apply Forall_cons].
    cbn [length]. rewrite Hl2, length_zip_with. lia.
Qed.

(** ** Cold requests: packing and unpacking *)

(** What the request [o'] read from a packet shares with the request [o] sent:
    the header; for a PUT also the length and the value. *)
Definition same_request (o' o : cache_op) : Prop :=
  meta o' = meta o /\ bkt o' = bkt o /\ server o' = server o /\ tag o' = tag o /\
  opcode o' = opcode o /\
  (opcode o = CACHE_OP_PUT ->
   val_len o' = val_len o /\ take 32 (value o') = take 32 (value o)).

(** A request as the worker sees it at [a]. *)
Definition carries (m : mem) (a : Z) (o : cache_op) : Prop := same_request (load_op m a) o.

Definition is_request (o : cache_op) : Prop :=
  op_fits o /\ (opcode o = CACHE_OP_GET \/ opcode o = CACHE_OP_PUT).

Lemma size_of_op_range code : HERD_GET_REQ_SIZE <= size_of_op code <= HERD_PUT_REQ_SIZE.
Proof. unfold size_of_op. destruct (_ =? _); vm_compute; split; discriminate. Qed.

Lemma length_request o : is_request o ->
  length (request_bytes (size_of_op (opcode o)) o) = Z.to_nat (size_of_op (opcode o)).
Proof.
  intros [Hf _]. apply length_request_bytes; [done|].
  pose proof (size_of_op_range (opcode o)) as H. change HERD_GET_REQ_SIZE with 17 in H.
  change HERD_PUT_REQ_SIZE with 50 in H. lia.
Qed.

(** The bytes at [a] are those of a request. *)
Lemma carries_bytes m a o :
  is_request o ->
  (forall i, 0 <= i < size_of_op (opcode o) -> m (a + i) = nth (Z.to_nat i) (encode_op o) 0) ->
  carries m a o.
Proof.
  intros [Hf Ho] Hm. pose proof (size_of_op_range (opcode o)) as Hr.
  change HERD_GET_REQ_SIZE with 17 in Hr. change HERD_PUT_REQ_SIZE with 50 in Hr.
  set (m0 := store_bytes m a (encode_op o)).
  assert (E0 : load_op m0 a = o) by (by apply load_store_op).
  assert (Hag : forall i, 0 <= i < size_of_op (opcode o) -> m (a + i) = m0 (a + i)).
  { intros i Hi. unfold m0. rewrite store_bytes_in; [by apply Hm|].
    rewrite length_encode_op, (of_value _ Hf). change max_value_len with 46%nat. lia. }
  assert (Hld : forall k n, 0 <= k -> k + Z.of_nat n <= size_of_op (opcode o) ->
    load_bytes m (a + k) n = load_bytes m0 (a + k) n).
  { intros k n Hk Hn. apply load_bytes_ext. intros i Hi. rewrite <- !Z.add_assoc. apply Hag. lia. }
  assert (Hrel : meta (load_op m a) = meta (load_op m0 a) /\
    bkt (load_op m a) = bkt (load_op m0 a) /\ server (load_op m a) = server (load_op m0 a) /\
    tag (load_op m a) = tag (load_op m0 a) /\ opcode (load_op m a) = opcode (load_op m0 a) /\
    (size_of_op (opcode o) = 50 -> val_len (load_op m a) = val_len (load_op m0 a) /\
       take 32 (value (load_op m a)) = take 32 (value (load_op m0 a)))).
  { unfold load_op, load_u32, load_u16. cbn [meta bkt server tag opcode val_len value].
    rewrite !Hld, !Hag by lia. split_and!; try done.
    - apply load_meta_ext. intros i Hi. apply Hag. lia.
    - intros Hsz. split; [apply Hag; lia|]. change max_value_len with (32 + 14)%nat.
      rewrite !load_bytes_app, !take_app_le by (by rewrite length_load_bytes).
      rewrite Hld; [done|unfold VALUE_OFF; lia|unfold VALUE_OFF; lia]. }
  rewrite E0 in Hrel. destruct Hrel as (H1 & H2 & H3 & H4 & H5 & H6).
  unfold carries, same_request. split_and!; try done. intros Hp. apply H6. by rewrite Hp.
Qed.

Definition packet_of (l : list cache_op) : list Z :=
  concat ((fun o => request_bytes (size_of_op (opcode o)) o) <$> l).

Lemma req_handler_loop_ok m p off l fuel :
  Forall is_request l -> 0 <= off -> (length l < fuel)%nat ->
  (forall i, (i < length (packet_of l))%nat ->
     m (p + off + Z.of_nat i) = nth i (packet_of l) 0) ->
  exists addrs,
    req_handler_loop fuel m p (off + Z.of_nat (length (packet_of l))) off = Done addrs /\
    Forall2 (carries m) addrs l.
Proof.
  revert off fuel. induction l as [|o l IH]; intros off fuel Hl Hoff Hfuel Hm;
    (destruct fuel as [|fuel]; [simpl in Hfuel; lia|]); cbn [req_handler_loop].
  - exists []. rewrite (proj2 (Z.ltb_ge _ _)) by (simpl; lia). split; [done|constructor].
  - apply Forall_cons in Hl as [Ho Hl]. pose proof (length_request o Ho) as Hlen.
    pose proof (size_of_op_range (opcode o)) as Hr.
    change HERD_GET_REQ_SIZE with 17 in Hr. change HERD_PUT_REQ_SIZE with 50 in Hr.
    set (n := size_of_op (opcode o)) in *.
    assert (Hpk : packet_of (o :: l) = request_bytes n o ++ packet_of l) by done.
    rewrite Hpk in *. rewrite length_app, Hlen in Hm |- *.
    assert (Hhead : forall i, 0 <= i < n -> m (p + off + i) = nth (Z.to_nat i) (encode_op o) 0).
    { intros i Hi. replace (p + off + i) with (p + off + Z.of_nat (Z.to_nat i)) by lia.
      rewrite Hm by lia. rewrite app_nth1 by lia. unfold request_bytes.
      apply nth_lookup_Some. rewrite lookup_take_lt by lia. apply lookup_lt_total.
      rewrite length_encode_op, (of_value _ (proj1 Ho)). change max_value_len with 46%nat. lia. }
    pose proof (carries_bytes m (p + off) o Ho Hhead) as Hcar.
    rewrite (proj2 (Z.ltb_lt _ _)) by lia.
    assert (Hcode : size_of_op (m (p + off + 16)) = n).
    { destruct Hcar as (_ & _ & _ & _ & E & _). cbn [load_op opcode] in E. by rewrite E. }
    rewrite Hcode.
    destruct (IH (off + n) fuel Hl ltac:(lia) ltac:(simpl in Hfuel; lia)) as (addrs & E & HF).
    { intros i Hi. replace (p + (off + n) + Z.of_nat i) with (p + off + Z.of_nat (Z.to_nat n + i)) by lia.
      rewrite Hm by lia. rewrite app_nth2 by lia. f_equal. lia. }
    replace (off + Z.of_nat (Z.to_nat n + length (packet_of l)))
      with (off + n + Z.of_nat (length (packet_of l))) by lia.
    exists (p + off :: addrs). rewrite E. cbn [obind]. split; [done|by constructor].
Qed.

Lemma packet_of_length l : Forall is_request l -> (length l <= length (packet_of l))%nat.
Proof.
  induction 1 as [|o l Ho _ IH]; [done|].
  change (packet_of (o :: l)) with (request_bytes (size_of_op (opcode o)) o ++ packet_of l).
  rewrite length_app, length_request by done. pose proof (size_of_op_range (opcode o)) as Hr.
  change HERD_GET_REQ_SIZE with 17 in Hr. simpl. lia.
Qed.

(** What [handle_cold_requests] queues for a machine: indices of requests with
    their sizes. *)
Definition queued (ops : list cache_op) (x : nat * Z) (o : cache_op) : Prop :=
  ops !! x.1 = Some o /\ x.2 = size_of_op (opcode o) /\ is_request o.

Lemma data_packet_queued ops reqs l :
  Forall2 (queued ops) reqs l -> data_packet ops reqs = packet_of l /\ Forall is_request l.
Proof.
  induction 1 as [|[i n] o reqs l (H1 & H2 & H3) _ [IH1 IH2]]; [done|]. simpl in *. split.
  - unfold data_packet, packet_of in *. cbn [omap list_omap fst snd]. rewrite H1, H2. simpl.
    by rewrite IH1.
  - by constructor.
Qed.

(** ** The worker's batch *)
Definition crcw_handler (mid : Z) : handler := fun vp e op _ => crcw_hit mid vp e op.

#[export] Instance crcw_HandlerOk mid :
  HandlerOk entry_wf [MICA_OP_GET; MICA_OP_PUT] (crcw_handler mid).
Proof.
  split; [done|]. intros vp e op r He Hl Ho%list_elem_of_In. unfold crcw_handler, crcw_hit.
  destruct Ho as [E|[E|[]]]; rewrite <- E; simpl (_ =? _); cbv iota.
  - unfold optik_is_same_version_and_valid. rewrite !Z.eqb_refl, (mo_even _ (ew_meta _ He)). simpl.
    by eexists _, _, _.
  - rewrite (lg_len _ _ Hl) by (left; done). rewrite Z.eqb_refl. cbn [c_assert obind].
    pose proof (ew_meta _ He) as Hm. rewrite lock_entry_ok by done. cbn [obind].
    unfold memcpy_value, with_meta. cbn [e_meta e_val_len e_value]. rewrite unlock_write_ok by done.
    eexists _, _, _. split; [reflexivity|]. split; [|done].
    apply entry_wf_memcpy; [|done|apply Hl].
    apply meta_ok_set_cid; [apply u8_range|by apply meta_ok_bump].
Qed.

(** The operations with an arbitrary response in front of them. *)
Definition each_with (r : mica_resp) (ops : list cache_op) : list (cache_op * mica_resp) :=
  (fun op => (op, r)) <$> ops.

Definition served (F : Z -> option entry) (op : cache_op) : Prop :=
  op_fits op /\ opcode op ∈ [MICA_OP_GET; MICA_OP_PUT] /\
  exists e, F (key_word op) = Some e /\ legal (e_val_len e) op.

(** One request on the store is one operation on the abstract map. *)
Lemma crcw_exec_one_view mid kv kv_lock F op r :
  coupled entry_wf kv F -> served F op ->
  exists kv' F' op' r',
    crcw_exec_one mid kv kv_lock op (kv_ptr kv op) = Done (kv', kv_lock, op', r') /\
    view_exec_one (fun _ => false) (crcw_handler mid) (value_addr kv) F op r = Done (F', op', r') /\
    coupled entry_wf kv' F' /\ (forall o, kv_ptr kv' o = kv_ptr kv o) /\
    (forall k, e_val_len <$> F' k = e_val_len <$> F k).
Proof.
  intros Hc (Hf & Ho & e & HF & Hleg).
  destruct (cache_exec_one_view entry_wf _ (crcw_handler mid) (fun _ => false) kv F op r Hc Hf)
    as (kv1 & F1 & op1 & r1 & E1 & V1 & H1); [rewrite HF; by intros e0 [= <-]|exact Ho|].
  exists kv1, F1, op1, r1. split; [|done]. unfold cache_exec_one in E1. unfold crcw_exec_one.
  pose proof (cp_view _ _ _ Hc op Hf) as Hv. unfold cache_view in Hv.
  rewrite kv_ptr_key_op, HF in Hv by done. destruct (kv_ptr kv op) as [p|]; [|done].
  fold (entry_key (ht_log kv) p) in *. destruct (entry_key _ _ =? _); [|done].
  apply obind_Done_inv in E1 as ([[e1 o1] rr] & Eh & E1). unfold crcw_handler in Eh.
  rewrite Eh. cbn [obind]. injection E1 as <- <- <-. done.
Qed.

(** Objects keep their length, so requests stay servable. *)
Lemma served_len F F' op :
  (forall k, e_val_len <$> F' k = e_val_len <$> F k) -> served F op -> served F' op.
Proof.
  intros Hlen (Hf & Ho & e & HF & Hl). specialize (Hlen (key_word op)). rewrite HF in Hlen. simpl in Hlen.
  destruct (F' (key_word op)) as [e2|] eqn:E2; [|done]. injection Hlen as Hlen.
  split_and!; [done|done|]. exists e2. by rewrite Hlen.
Qed.

Lemma crcw_exec_view mid kv kv_lock F ops r kv0 :
  coupled entry_wf kv F -> Forall (served F) ops -> (forall o, kv_ptr kv0 o = kv_ptr kv o) ->
  exists kv' F' res,
    crcw_exec mid kv kv_lock ((fun op => (op, kv_ptr kv0 op)) <$> ops) = Done (kv', kv_lock, res) /\
    view_exec (fun _ => false) (crcw_handler mid) (value_addr kv0) F (each_with r ops)
      = Done (F', res) /\ coupled entry_wf kv' F'.
Proof.
  revert kv F. induction ops as [|op ops IH]; intros kv F Hc Hall Hp; [by eexists _, _, _|].
  apply Forall_cons in Hall as [Hs Hall].
  destruct (crcw_exec_one_view mid kv kv_lock F op r Hc Hs) as (kv1 & F1 & op1 & r1 & E1 & V1 & Hc1 & Hptr & Hlen).
  rewrite fmap_cons. unfold each_with. rewrite fmap_cons. cbn [crcw_exec view_exec].
  assert (V1' : view_exec_one (fun _ => false) (crcw_handler mid) (value_addr kv0) F op r
                = Done (F1, op1, r1)).
  { rewrite <- V1. unfold view_exec_one, value_addr. by rewrite Hp. }
  rewrite V1', Hp, E1. cbn [obind].
  destruct (IH kv1 F1 Hc1) as (kv' & F' & res & E & V & Hc').
  - eapply Forall_impl; [exact Hall|]. intros o. by apply served_len.
  - intros o. by rewrite Hptr, Hp.
  - exists kv', F', ((op1, r1) :: res). unfold each_with in V. rewrite E, V. done.
Qed.

Lemma slices_ok {A} ns (l : list A) :
  Forall (fun n => 0 <= n) ns -> Z.of_nat (length l) = foldr Z.add 0 ns ->
  concat (slices ns l) = l /\ Forall2 (fun n s => Z.of_nat (length s) = n) ns (slices ns l).
Proof.
  intros Hns. revert l. induction Hns as [|n ns Hn Hns IH]; intros l Hl; simpl in *.
  - assert (l = []) by (apply length_zero_iff_nil; lia). by subst.
  - assert (Hsum : 0 <= foldr Z.add 0 ns) by (clear -Hns; induction Hns; simpl; lia).
    destruct (IH (drop (Z.to_nat n) l)) as [E H]; [rewrite length_drop; lia|].
    rewrite E, take_drop. split; [done|]. constructor; [rewrite length_take; lia|done].
Qed.

(** A packet of requests is cut where it was put together. *)
Lemma req_handler_packet m p l w :
  Forall is_request l -> load_bytes m p (length (packet_of l)) = packet_of l ->
  Z.of_nat (length (op_ptr_arr w) + length l) <= WORKER_MAX_BATCH ->
  exists addrs,
    req_handler m p (Z.of_nat (length (packet_of l))) w
    = Done (mkWorker (op_ptr_arr w ++ addrs) (ops_in_req w ++ [Z.of_nat (length l)])) /\
    Forall2 (carries m) addrs l.
Proof.
  intros Hl Hpk Hcap. unfold req_handler. rewrite Nat2Z.id.
  destruct (req_handler_loop_ok m p 0 l (S (length (packet_of l))) Hl) as (addrs & E & HF).
  - lia.
  - pose proof (packet_of_length l Hl). lia.
  - intros i Hi. rewrite Z.add_0_r. symmetry. apply nth_lookup_Some.
    rewrite <- Hpk. by apply lookup_load_bytes.
  - rewrite Z.add_0_l in E. rewrite E. cbn [obind op_ptr_arr].
    pose proof (Forall2_length _ _ _ HF) as Hlen. exists addrs. split; [|done].
    rewrite (proj2 (Z.leb_le _ _)) by (rewrite length_app; lia). cbn [c_assert obind].
    by rewrite Hlen.
Qed.

(** C33: requests for a worker survive the trip.  A packet made of queued GETs
    (17 bytes) and PUTs (50 bytes) is cut by [req_handler] at exactly the same
    places: the loop terminates, finds as many requests as were sent, in order,
    each with its key, opcode and metadata (and a PUT with its value), and the
    capacity assertion holds while the batch fits. *)
Theorem data_packet_roundtrip m p ops reqs l w :
  Forall2 (queued ops) reqs l ->
  let pkt := data_packet ops reqs in
  load_bytes m p (length pkt) = pkt ->
  Z.of_nat (length (op_ptr_arr w) + length l) <= WORKER_MAX_BATCH ->
  exists addrs,
    req_handler m p (Z.of_nat (length pkt)) w
    = Done (mkWorker (op_ptr_arr w ++ addrs) (ops_in_req w ++ [Z.of_nat (length l)])) /\
    Forall2 (carries m) addrs l.
Proof.
  intros Hq pkt Hpk Hcap. destruct (data_packet_queued _ _ _ Hq) as [Epk Hl]. unfold pkt in *. rewrite Epk in *.
  by apply req_handler_packet.
Qed.

(** The worker answers every request.  On a store in which the requested
    keys are present, [drain_batch] completes, executes the collected requests
    one after the other on the abstract map of objects, keeps the store sound
    and the insertion lock free, and cuts the responses so that each packet
    gets exactly as many answers as it had requests, in order. *)
Lemma worker_answers mid kv kv_lock F m w r :
  coupled entry_wf kv F -> Forall (served F) (load_op m <$> op_ptr_arr w) ->
  Forall (fun n => 0 <= n) (ops_in_req w) ->
  Z.of_nat (length (op_ptr_arr w)) = foldr Z.add 0 (ops_in_req w) ->
  exists kv' F' res answers,
    drain_batch mid kv kv_lock m w = Done (kv', kv_lock, answers) /\
    view_exec (fun _ => false) (crcw_handler mid) (value_addr kv) F
      (each_with r (load_op m <$> op_ptr_arr w)) = Done (F', res) /\
    coupled entry_wf kv' F' /\ concat answers = snd <$> res /\
    Forall2 (fun n a => Z.of_nat (length a) = n) (ops_in_req w) answers.
Proof.
  intros Hc Hs Hn Hsum.
  destruct (crcw_exec_view mid kv kv_lock F _ r kv Hc Hs ltac:(done)) as (kv' & F' & res & E & V & Hc').
  unfold drain_batch, mica_batch_op_crcw. rewrite E. cbn [obind].
  assert (Hlen : forall l F F' res, view_exec (fun _ => false) (crcw_handler mid) (value_addr kv) F l
                   = Done (F', res) -> length res = length l).
  { clear. induction l as [|[o rr] l IH]; intros F F' res H; cbn [view_exec] in H.
    - by injection H as _ <-.
    - apply obind_Done_inv in H as ([[F1 o1] r1] & _ & H).
      apply obind_Done_inv in H as ([F2 rest] & H2 & H). injection H as _ <-.
      simpl. f_equal. by eapply IH. }
  pose proof (Hlen _ _ _ _ V) as Hl. unfold each_with in Hl. rewrite !length_fmap in Hl.
  destruct (slices_ok (ops_in_req w) (snd <$> res) Hn) as [Hcat Hcut].
  { rewrite length_fmap, Hl. done. }
  exists kv', F', res, (slices (ops_in_req w) (snd <$> res)). done.
Qed.

(** ** Concrete instances *)
Definition demo_ctx : client_ctx := mkCtx [] 0 (fun _ => 0) (fun _ => []) (fun _ => 0) 0.
Definition demo_ring : coh_ring := mkRing (fun _ => demo_cput) 0.

(** A write of machine 1 at version 2. *)
Definition demo_write (code : Z) : cache_op := set_opcode code (set_meta (mkMeta 0 0 1 0 2) demo_cput).
Definition demo_upd : cache_op := demo_write CACHE_OP_UPD.

Lemma demo_write_fits code : is_u8 code -> op_fits (demo_write code).
Proof.
  intros Hc. destruct (demo_legal demo_cput ltac:(by left)) as [[] _]. split; done.
Qed.

Lemma demo_upd_ok : msg_ok demo_upd.
Proof. split; [apply demo_write_fits; unfold is_u8, CACHE_OP_UPD; lia|done]. Qed.

Lemma demo_cache_wf : coupled entry_wf demo_cache (cache_view demo_cache).
Proof.
  apply (coupled_weaken (fun e => e = fresh_entry)); [|apply demo_cache_coupled].
  intros e ->. apply fresh_lin_wf.
Qed.

Lemma demo_hit : cache_view demo_cache (key_word demo_upd) = Some fresh_entry.
Proof. vm_compute. reflexivity. Qed.

Lemma sc_broadcast_packets_witness :
  exists c1 b1 c2 sent,
    perform_broadcasts_SC [demo_cget; demo_write CACHE_OP_BRC] demo_ctx demo_ring
    = Done (as_update <$> [demo_cget; demo_write CACHE_OP_BRC], c1, b1) /\
    broadcast_cache_ops 1 (as_update <$> [demo_cget; demo_write CACHE_OP_BRC]) c1 = Done (c2, sent) /\
    sent = (fun rm => (rm, request_bytes 50 demo_upd)) <$> [0; 2; 3].
Proof.
  destruct (sc_broadcast_packets 1 [demo_cget; demo_write CACHE_OP_BRC] demo_ctx demo_ring)
    as (c1 & b1 & c2 & sent & E1 & _ & E2 & _ & Hs & _).
  - vm_compute. discriminate.
  - vm_compute. split; [discriminate|reflexivity].
  - reflexivity.
  - reflexivity.
  - exists c1, b1, c2, sent. split; [exact E1|]. split; [exact E2|]. rewrite Hs. vm_compute. reflexivity.
Defined.

Lemma sc_update_received_witness :
  exists kv' m' r' F',
    req_cache demo_cache (store_bytes (fun _ => 0) 0 (encode_op demo_cput)) 0
      [mkResp EMPTY 0 None] (request_bytes HERD_PUT_REQ_SIZE demo_upd)
    = Done (kv', m', [(recv_put_req demo_cput demo_upd, r')]) /\ coupled entry_wf kv' F' /\
    F' (key_word demo_upd) = Some (mkEntry (mkMeta VALID_STATE 0 1 0 2) 32 (replicate 32 9)).
Proof.
  destruct (sc_update_received demo_cache (cache_view demo_cache) (fun _ => 0) 0 (mkResp EMPTY 0 None) []
              demo_cput demo_upd fresh_entry) as (kv' & m' & r' & F' & E & Hc & _ & HF).
  - apply demo_cache_wf.
  - apply demo_legal. left. reflexivity.
  - apply demo_upd_ok.
  - reflexivity.
  - apply demo_hit.
  - reflexivity.
  - discriminate.
  - exists kv', m', r', F'. split; [exact E|]. split; [exact Hc|]. rewrite HF. reflexivity.
Defined.

Lemma sc_second_update_lost_witness :
  exists kv' m' res F',
    req_cache demo_cache (fun _ => 0) 0 [mkResp EMPTY 0 None; mkResp EMPTY 0 None]
      (request_bytes HERD_PUT_REQ_SIZE demo_upd ++ request_bytes HERD_PUT_REQ_SIZE demo_upd)
    = Done (kv', m', res) /\ coupled entry_wf kv' F' /\
    forall k, k <> key_word demo_upd -> F' k = cache_view demo_cache k.
Proof.
  apply (sc_second_update_lost demo_cache (cache_view demo_cache) (fun _ => 0) 0
           (mkResp EMPTY 0 None) (mkResp EMPTY 0 None) [] demo_upd demo_upd fresh_entry).
  - apply demo_cache_wf.
  - intros a. vm_compute. split; [discriminate|reflexivity].
  - apply demo_upd_ok.
  - reflexivity.
  - apply demo_upd_ok.
  - apply demo_hit.
  - reflexivity.
  - vm_compute. reflexivity.
Defined.

Definition demo_packet : list Z := data_packet [demo_cget; demo_cput] [(0%nat, 17); (1%nat, 50)].
Definition demo_packet_mem : mem := store_bytes (fun _ => 0) 0 demo_packet.

Lemma demo_queued :
  Forall2 (queued [demo_cget; demo_cput]) [(0%nat, 17); (1%nat, 50)] [demo_cget; demo_cput].
Proof.
  constructor; [|constructor; [|constructor]]; (split; [reflexivity|]; split; [reflexivity|]; split;
    [apply demo_legal; tauto|]); [by left|by right].
Qed.

Lemma data_packet_roundtrip_witness :
  exists addrs, req_handler demo_packet_mem 0 67 (mkWorker [] []) = Done (mkWorker addrs [2]) /\
    Forall2 (carries demo_packet_mem) addrs [demo_cget; demo_cput].
Proof.
  apply (data_packet_roundtrip demo_packet_mem 0 [demo_cget; demo_cput] [(0%nat, 17); (1%nat, 50)]
           [demo_cget; demo_cput] (mkWorker [] [])).
  - apply demo_queued.
  - vm_compute. reflexivity.
  - vm_compute. discriminate.
Defined.

Lemma demo_packet_mem_bytes a : is_u8 (demo_packet_mem a).
Proof.
  apply store_bytes_bytes; [intros b; vm_compute; split; [discriminate|reflexivity]|].
  assert (Hb : forallb (fun b => (0 <=? b) && (b <? 256)) demo_packet = true) by (vm_compute; reflexivity).
  rewrite forallb_forall in Hb. apply Forall_forall. intros b Hin%list_elem_of_In.
  specialize (Hb b Hin). unfold is_u8. lia.
Qed.
