(* ===== verification/LockedHandlers.v ===== *)
(** * The handlers as programs of memory accesses

    Each branch of the batch functions of src/ccKVS/cache.c that works on a hit,
    access by access: the lock-free reads with their version check, the locked
    writes and coherence operations of both protocols, and the hits of the
    workers' store.  They satisfy the interface of [Interleave], so that the
    threads of a machine may run them on one object in any interleaving, and the
    atomic handlers of [Cache], on which the protocol theorems are built, are
    what every caller observes. *)
From S2P Require Import Prelude Config Optik Layout City Mica MicaLog Cache CacheSpec Interleave.
From S2P Require Import Packets.

(** ** Sequential consistency *)
Definition sc_get_p (vp : Z) (op : cache_op) (r : mica_resp) : prog :=
  LoadMeta (fun prev_meta =>
  LoadLen (fun l =>
  LoadMeta (fun m =>
  if optik_is_same_version_and_valid prev_meta m
  then Ret op (mkResp CACHE_GET_SUCCESS l (Some vp))
  else Retry (mkResp (resp_type r) l (Some vp))))).

Definition sc_put_p (machine_id : Z) (op : cache_op) (r : mica_resp) : prog :=
  LoadLen (fun l =>
  if val_len op =? l then
    optik_lock_p (
    memcpy_value_p op (
    optik_unlock_write_p (u8 machine_id) (fun v =>
    let op := set_meta (set_version v (meta op)) op in
    let op := set_meta (set_cid (u8 machine_id) (meta op)) op in
    Ret (set_opcode CACHE_OP_BRC op) (mkResp CACHE_PUT_SUCCESS 0 None))))
  else Crash).

Definition sc_upd_p (op : cache_op) (r : mica_resp) : prog :=
  LoadLen (fun l =>
  if val_len op =? l then
    optik_lock_p (LoadMeta (fun m =>
    if optik_is_greater_version m (meta op) then
      memcpy_value_p op (
      optik_unlock_p (cid (meta op)) (version (meta op)) (
      Ret op (set_type CACHE_UPD_SUCCESS r)))
    else optik_unlock_decrement_version_p (Ret op (set_type CACHE_UPD_FAIL r))))
  else Crash).

Definition sc_op_p (machine_id vp : Z) (op : cache_op) (r : mica_resp) : prog :=
  if opcode op =? CACHE_OP_GET then sc_get_p vp op r
  else if opcode op =? CACHE_OP_PUT then sc_put_p machine_id op r
  else if opcode op =? CACHE_OP_UPD then sc_upd_p op r
  else if opcode op =? CACHE_OP_BRC then Ret op r
  else Crash.

(** ** The workers' store *)
Definition crcw_get_p (vp : Z) (op : cache_op) (r : mica_resp) : prog :=
  LoadMeta (fun prev_meta =>
  LoadLen (fun l =>
  LoadMeta (fun m =>
  if optik_is_same_version_and_valid prev_meta m
  then Ret op (mkResp MICA_RESP_GET_SUCCESS l (Some vp))
  else Retry (mkResp (resp_type r) l (Some vp))))).

Definition crcw_put_p (machine_id : Z) (op : cache_op) (r : mica_resp) : prog :=
  LoadLen (fun l =>
  if val_len op =? l then
    optik_lock_p (
    memcpy_value_p op (
    optik_unlock_write_p (u8 machine_id) (fun v =>
    Ret (set_meta (set_version v (meta op)) op) (mkResp MICA_RESP_PUT_SUCCESS 0 None))))
  else Crash).

Definition crcw_hit_p (machine_id vp : Z) (op : cache_op) (r : mica_resp) : prog :=
  if opcode op =? MICA_OP_GET then crcw_get_p vp op r
  else if opcode op =? MICA_OP_PUT then crcw_put_p machine_id op r
  else Crash.

(** ** Linearizability *)

(** After the loop of a GET: the state is copied into the request. *)
Definition lin_get_end (op : cache_op) (r : mica_resp) : prog :=
  LoadMeta (fun m => Ret (set_meta (set_state (state m) (meta op)) op) r).

(** The condition of the loop, with [was_locked_read] 0. *)
Definition lin_get_check (prev_meta : cache_meta) (op : cache_op) (r : mica_resp) : prog :=
  LoadMeta (fun m =>
  if optik_is_same_version_and_valid prev_meta m then lin_get_end op r else Retry r).

(** [optik_unlock_decrement_version], then the condition of the loop with
    [was_locked_read] 1, which ends it. *)
Definition lin_get_unlock (op : cache_op) (r : mica_resp) : prog :=
  optik_unlock_decrement_version_p (LoadMeta (fun _ => lin_get_end op r)).

Definition lin_get_locked_p (vp : Z) (op : cache_op) (r : mica_resp) : prog :=
  LoadMeta (fun m =>
  let s := state m in
  if s =? VALID_STATE then
    LoadLen (fun l => lin_get_unlock op (mkResp CACHE_GET_SUCCESS l (Some vp)))
  else if (s =? INVALID_REPLAY_STATE) || (s =? WRITE_REPLAY_STATE) then
    lin_get_unlock op (set_type CACHE_GET_STALL r)
  else if s =? INVALID_STATE then
    Store (StState INVALID_REPLAY_STATE) (lin_get_unlock op (set_type CACHE_GET_STALL r))
  else if s =? WRITE_STATE then
    Store (StState WRITE_REPLAY_STATE) (lin_get_unlock op (set_type CACHE_GET_STALL r))
  else Crash).

Definition lin_get_p (vp : Z) (op : cache_op) (r : mica_resp) : prog :=
  LoadMeta (fun prev_meta =>
  LoadMeta (fun m =>
  let s := state m in
  if s =? VALID_STATE then
    LoadLen (fun l => lin_get_check prev_meta op (mkResp CACHE_GET_SUCCESS l (Some vp)))
  else if (s =? INVALID_REPLAY_STATE) || (s =? WRITE_REPLAY_STATE) then
    lin_get_check prev_meta op (set_type CACHE_GET_STALL r)
  else optik_lock_p (lin_get_locked_p vp op r))).

(** The end of an accepted write. *)
Definition lin_accept_p (machine_id : Z) (op : cache_op) (r : mica_resp) : prog :=
  memcpy_value_p op (
  Store (StAcks (MACHINE_NUM - 1)) (
  optik_unlock_write_p (cid (meta op)) (fun v =>
  let op := set_meta (set_version v (meta op)) op in
  let op := set_meta (set_cid (u8 machine_id) (meta op)) op in
  Ret (set_opcode CACHE_OP_BRC op) (mkResp CACHE_PUT_SUCCESS 0 None)))).

Definition lin_put_p (machine_id : Z) (op : cache_op) (r : mica_resp) : prog :=
  let fail := optik_unlock_decrement_version_p (Ret op (set_type CACHE_PUT_FAIL r)) in
  let stall := optik_unlock_decrement_version_p (Ret op (set_type CACHE_PUT_STALL r)) in
  LoadLen (fun l =>
  if val_len op =? l then
    optik_lock_p (LoadMeta (fun m =>
    let s := state m in
    if (s =? VALID_STATE) || (s =? INVALID_STATE) then
      Store (StState WRITE_STATE) (lin_accept_p machine_id op r)
    else if s =? WRITE_STATE then
      LoadMeta (fun m => if cid m <=? cid (meta op) then lin_accept_p machine_id op r else fail)
    else if s =? INVALID_REPLAY_STATE then stall
    else if s =? WRITE_REPLAY_STATE then
      LoadMeta (fun m =>
      if cid m <? cid (meta op) then lin_accept_p machine_id op r
      else LoadMeta (fun m => if cid (meta op) =? cid m then stall else fail))
    else Crash))
  else Crash).

Definition lin_upd_p (op : cache_op) (r : mica_resp) : prog :=
  let fail := optik_unlock_decrement_version_p (Ret op (set_type CACHE_UPD_FAIL r)) in
  LoadLen (fun l =>
  if val_len op =? l then
    optik_lock_p (LoadMeta (fun m =>
    if optik_is_same_version_plus_one m (meta op) then
      LoadMeta (fun m =>
      if (state m =? INVALID_STATE) || (state m =? INVALID_REPLAY_STATE) then
        memcpy_value_p op (
        Store (StState VALID_STATE) (
        optik_unlock_p (cid (meta op)) (version (meta op)) (
        Ret op (set_type CACHE_UPD_SUCCESS r))))
      else fail)
    else fail))
  else Crash).

(** One arm of the [switch] of an invalidation. *)
Definition lin_inv_arm_p (greater : cache_meta -> bool) (s : Z) (op : cache_op) (r : mica_resp)
    : prog :=
  LoadMeta (fun m =>
  if greater m then
    Store (StState s) (
    optik_unlock_p (cid (meta op)) (version (meta op)) (
    Ret (set_opcode CACHE_OP_ACK op) (set_type CACHE_INV_SUCCESS r)))
  else
    optik_unlock_decrement_version_p (
    Ret (set_opcode CACHE_OP_ACK op) (set_type CACHE_INV_FAIL r))).

Definition lin_inv_p (machine_id : Z) (op : cache_op) (r : mica_resp) : prog :=
  let plain m := optik_is_greater_version m (meta op) in
  let session m := optik_is_greater_version_session m (meta op) machine_id in
  optik_lock_p (LoadMeta (fun m =>
  let s := state m in
  if (s =? VALID_STATE) || (s =? INVALID_STATE) then lin_inv_arm_p plain INVALID_STATE op r
  else if s =? WRITE_STATE then lin_inv_arm_p session INVALID_STATE op r
  else if s =? INVALID_REPLAY_STATE then lin_inv_arm_p plain INVALID_REPLAY_STATE op r
  else if s =? WRITE_REPLAY_STATE then lin_inv_arm_p session INVALID_REPLAY_STATE op r
  else Crash)).

Definition lin_ack_p (machine_id : Z) (op : cache_op) (r : mica_resp) : prog :=
  let m_id := cid (meta op) in
  let op := set_meta (set_cid (u8 machine_id) (meta op)) op in
  let unlock r := optik_unlock_decrement_version_p (
                  Ret (set_meta (set_cid m_id (meta op)) op) r) in
  optik_lock_p (LoadMeta (fun m =>
  if ((state m =? WRITE_STATE) || (state m =? WRITE_REPLAY_STATE)) then
    LoadMeta (fun m =>
    if version m =? u32 (version (meta op) + 1) then
      LoadMeta (fun m =>
      if pending_acks m =? 1 then
        Store (StState VALID_STATE) (
        Store (StCid (u8 machine_id)) (
        Store (StAcks 0) (unlock (set_type CACHE_LAST_ACK_SUCCESS r))))
      else
        LoadMeta (fun m =>
        Store (StAcks (u8 (pending_acks m - 1))) (unlock (set_type CACHE_ACK_SUCCESS r))))
    else unlock (set_type CACHE_ACK_FAIL r))
  else unlock (set_type CACHE_ACK_FAIL r))).

Definition lin_op_p (machine_id vp : Z) (op : cache_op) (r : mica_resp) : prog :=
  if opcode op =? CACHE_OP_GET then lin_get_p vp op r
  else if opcode op =? CACHE_OP_PUT then lin_put_p machine_id op r
  else if opcode op =? CACHE_OP_UPD then lin_upd_p op r
  else if opcode op =? CACHE_OP_INV then lin_inv_p machine_id op r
  else if opcode op =? CACHE_OP_ACK then lin_ack_p machine_id op r
  else if opcode op =? CACHE_OP_BRC then Ret op r
  else Crash.

(** ** The pieces of a critical section *)
Fixpoint put_bytes (i : nat) (bs : list Z) (v : list Z) : list Z :=
  match bs with
  | [] => v
  | b :: bs => put_bytes (S i) bs (<[i := b]> v)
  end.

Lemma put_bytes_take i bs v : (i + length bs = length v)%nat -> put_bytes i bs v = take i v ++ bs.
Proof.
  revert i v. induction bs as [|b bs IH]; intros i v Hl; simpl in *.
  - rewrite app_nil_r, take_ge; [done|lia].
  - rewrite IH by (rewrite length_insert; lia).
    rewrite (take_S_r _ i b) by (apply list_lookup_insert_eq; lia).
    rewrite take_insert_ge by lia. by rewrite <- app_assoc.
Qed.

Lemma storing_copy p i bs m l v fin op r :
  storing_ok p (mkEntry m l (put_bytes i bs v)) fin op r ->
  storing_ok (copy_bytes i bs p) (mkEntry m l v) fin op r.
Proof. revert i v. induction bs as [|b bs IH]; intros i v H; [done|]. apply IH, H. Qed.

Lemma storing_memcpy p m e op fin op' r' :
  entry_wf e -> op_fits op -> storing_ok p (copied m e op) fin op' r' ->
  storing_ok (memcpy_value_p op p) (with_meta m e) fin op' r'.
Proof.
  intros [_ Hl Hv] Hf H. simpl. apply storing_copy.
  assert (Hlen : length (take (Z.to_nat (e_val_len e)) (value op)) = length (e_value e)).
  { rewrite length_take, Hv, (of_value _ Hf). change HERD_VALUE_SIZE with 32 in Hl.
    change max_value_len with 46%nat. lia. }
  by rewrite put_bytes_take by (by rewrite Hlen).
Qed.

Lemma storing_unlock_decrement p m l v op r :
  meta_ok m -> tail_ok p op r ->
  storing_ok (optik_unlock_decrement_version_p p) (mkEntry (locked_meta m) l v) (mkEntry m l v) op r.
Proof.
  intros [_ _ _ _ Hv He] Hp. simpl. rewrite Z.add_simpl_r, u32_small, He by done. done.
Qed.

Lemma storing_unlock p m l v op op' r :
  msg_ok op -> tail_ok p op' r ->
  storing_ok (optik_unlock_p (cid (meta op)) (version (meta op)) p)
    (mkEntry (locked_meta m) l v) (mkEntry (stamp op m) l v) op' r.
Proof. intros [_ He] Hp. unfold optik_unlock_p. by rewrite He. Qed.

Lemma storing_unlock_write k c m l v op r :
  meta_ok m -> tail_ok (k (u32 (version m + 2))) op r ->
  storing_ok (optik_unlock_write_p c k) (mkEntry (locked_meta m) l v)
    (mkEntry (set_cid c (set_version (u32 (version m + 2)) m)) l v) op r.
Proof. intros Hm Hp. simpl. rewrite <- Z.add_assoc. done. Qed.

Lemma storing_state p s m l v fin op r :
  s = state (e_meta fin) -> storing_ok p (mkEntry (locked_meta (set_state s m)) l v) fin op r ->
  storing_ok (Store (StState s) p) (mkEntry (locked_meta m) l v) fin op r.
Proof. done. Qed.

Lemma opening_lock k e fin op r :
  meta_ok (e_meta e) -> storing_ok k (with_meta (locked_meta (e_meta e)) e) fin op r ->
  opening_ok (LoadMeta (fun m => Store (StVersion (u32 (version m + 1))) k))
    (do_store (StLock OPTIK_LOCKED) e) fin op r.
Proof.
  intros Hm Hk. pose proof (mo_version _ Hm) as Hv. pose proof (mo_even _ Hm) as He.
  pose proof (even_u32_max _ Hv He).
  simpl. rewrite u32_small by (unfold is_u32 in *; lia). split; [|exact Hk].
  intros Hodd. Z.div_mod_to_equations. lia.
Qed.

(** What a locked operation must do, in one step. *)
Lemma unlocked_lock Inv h vp n op r k obs :
  (forall e, Inv e -> entry_wf e) ->
  (forall e, Inv e -> entry_wf e -> e_val_len e = n -> exists fin op' r', h vp e op r = Done (fin, op', r') /\
     storing_ok k (with_meta (locked_meta (e_meta e)) e) fin op' r') ->
  unlocked_ok Inv h vp n op r (optik_lock_p k) obs.
Proof.
  intros Hwf H e He Hn. destruct (H e He (Hwf e He) Hn) as (fin & op' & r' & Hh & Hk).
  exists fin, op', r'. split; [done|]. apply opening_lock; [apply Hwf, He|done].
Qed.

Lemma same_answer_refl op r : same_answer op op r r.
Proof. done. Qed.
#[export] Hint Resolve same_answer_refl : ccKVS.

(** A handler that answers at once and changes nothing. *)
Lemma unlocked_ret Inv h vp n op r obs :
  (forall e, h vp e op r = Done (e, op, r)) -> unlocked_ok Inv h vp n op r (Ret op r) obs.
Proof.
  intros H seen Hne _ _. destruct seen as [|x seen]; [done|].
  exists x, op, r. split_and!; [by left|done|done].
Qed.

(** ** Sequential consistency *)
Lemma same_version_self m : version m mod 2 = 0 -> optik_is_same_version_and_valid m m = true.
Proof. intros H. unfold optik_is_same_version_and_valid. by rewrite !Z.eqb_refl, H. Qed.

Lemma same_version_even m m' :
  optik_is_same_version_and_valid m m' = true -> version m' mod 2 = 0.
Proof.
  unfold optik_is_same_version_and_valid. rewrite !andb_true_iff, !Z.eqb_eq. intros [[E _] H].
  by rewrite <- E.
Qed.

Lemma sc_get_unlocked mid vp n op r r' :
  opcode op = CACHE_OP_GET -> unlocked_ok entry_wf (sc_op mid) vp n op r (sc_get_p vp op r') [].
Proof.
  intros E m m'. simpl. destruct (optik_is_same_version_and_valid m m'); [|done].
  intros seen Hne Hf _. destruct seen as [|x seen]; [done|]. apply Forall_cons in Hf as [[Hx Hn] _].
  exists x, op, (mkResp CACHE_GET_SUCCESS n (Some vp)). split_and!; [by left| |done].
  unfold sc_op. rewrite E. simpl. by rewrite sc_get_eq, Hn.
Qed.

Lemma sc_put_unlocked mid vp n op r :
  legal n op -> opcode op = CACHE_OP_PUT ->
  unlocked_ok entry_wf (sc_op mid) vp n op r (sc_put_p mid op r) [].
Proof.
  intros [Hf Hl _] E. simpl. rewrite Hl, Z.eqb_refl by (by left). apply unlocked_lock; [done|].
  intros e He _ Hn. unfold sc_op. rewrite E. simpl.
  rewrite sc_put_eq by (done || by rewrite Hl; [|left]). eexists _, _, _. split; [done|].
  apply storing_memcpy; [done|done|]. apply (storing_unlock_write _ _ (e_meta e)); [apply He|done].
Qed.

Lemma sc_upd_storing e op r :
  entry_wf e -> msg_ok op -> val_len op = e_val_len e ->
  exists fin op' r', sc_upd e op r = Done (fin, op', r') /\
    storing_ok (LoadMeta (fun m =>
      if optik_is_greater_version m (meta op) then
        memcpy_value_p op (
        optik_unlock_p (cid (meta op)) (version (meta op)) (Ret op (set_type CACHE_UPD_SUCCESS r)))
      else optik_unlock_decrement_version_p (Ret op (set_type CACHE_UPD_FAIL r))))
      (with_meta (locked_meta (e_meta e)) e) fin op' r'.
Proof.
  intros He Hop Hv. rewrite sc_upd_eq by done. pose proof (ew_meta _ He) as Hm.
  destruct (of_meta _ (mk_fits _ Hop)) as [_ _ _ _ Hver].
  cbn [storing_ok e_meta with_meta]. rewrite greater_version_ts by (done || apply Hop).
  destruct (ts_ltb _ _); eexists _, _, _; (split; [done|]).
  - apply storing_memcpy; [done|apply Hop|]. by apply (storing_unlock _ (e_meta e)).
  - destruct e as [m l v]. by apply storing_unlock_decrement.
Qed.

Lemma sc_upd_unlocked mid vp n op r :
  legal n op -> opcode op = CACHE_OP_UPD ->
  unlocked_ok entry_wf (sc_op mid) vp n op r (sc_upd_p op r) [].
Proof.
  intros [Hf Hl Hv] E. simpl. rewrite Hl, Z.eqb_refl by (by right). apply unlocked_lock; [done|].
  intros e He _ Hn. unfold sc_op. rewrite E. apply sc_upd_storing; [done| |].
  - split; [done|]. apply Hv. by left.
  - rewrite Hn. apply Hl. by right.
Qed.

#[export] Instance sc_op_Interleaved mid :
  Interleaved entry_wf [CACHE_OP_GET; CACHE_OP_PUT; CACHE_OP_UPD; CACHE_OP_BRC] (sc_op mid)
    (sc_op_p mid).
Proof.
  split; [apply _| |].
  - intros vp n op r r' Hl Ho%list_elem_of_In Hr. unfold sc_op_p.
    destruct Ho as [E | [E | [E | [E | []]]]]; rewrite <- E in *; cbn [Z.eqb]; symmetry in E.
    + by apply sc_get_unlocked.
    + destruct Hr as [->|[=]]. by apply sc_put_unlocked.
    + destruct Hr as [->|[=]]. by apply sc_upd_unlocked.
    + destruct Hr as [->|[=]]. apply unlocked_ret. intros e. unfold sc_op. by rewrite E.
  - intros vp e op r He [_ Hl _] Ho%list_elem_of_In. unfold sc_op_p.
    destruct Ho as [E | [E | [E | [E | []]]]]; rewrite <- E; simpl; symmetry in E; try done.
    + by rewrite same_version_self by apply He.
    + by rewrite Hl, Z.eqb_refl by (by left).
    + by rewrite Hl, Z.eqb_refl by (by right).
Qed.

(** ** The workers' store *)
Lemma crcw_put_eq mid vp e op r :
  entry_wf e -> opcode op = MICA_OP_PUT -> val_len op = e_val_len e ->
  let v := u32 (version (e_meta e) + 2) in
  crcw_handler mid vp e op r
  = Done (copied (set_cid (u8 mid) (set_version v (e_meta e))) e op,
          set_meta (set_version v (meta op)) op, mkResp MICA_RESP_PUT_SUCCESS 0 None).
Proof.
  intros He E Hv. unfold crcw_handler, crcw_hit. rewrite E, Hv, !Z.eqb_refl.
  change (MICA_OP_PUT =? MICA_OP_GET) with false. cbn [c_assert obind]. start_handler He. unfold memcpy_value, with_meta. cbn [obind e_meta e_val_len e_value].
  by rewrite unlock_write_ok.
Qed.

#[export] Instance crcw_Interleaved mid :
  Interleaved entry_wf [MICA_OP_GET; MICA_OP_PUT] (crcw_handler mid) (crcw_hit_p mid).
Proof.
  split; [apply _| |].
  - intros vp n op r r' [Hf Hl _] Ho%list_elem_of_In Hr. unfold crcw_hit_p.
    destruct Ho as [E | [E | []]]; rewrite <- E in *; simpl; symmetry in E.
    + intros m m'. destruct (optik_is_same_version_and_valid m m'); [|done].
      intros [|x seen] Hne Hs _; [done|]. apply Forall_cons in Hs as [[Hx Hn] _].
      eexists x, op, _. split_and!; [by left| |done].
      unfold crcw_handler, crcw_hit. rewrite E. simpl.
      by rewrite same_version_self, Hn by apply Hx.
    + rewrite Hl, Z.eqb_refl by (by left). apply unlocked_lock; [done|]. intros e He _ Hn.
      rewrite crcw_put_eq by (done || rewrite Hn; apply Hl; by left).
      eexists _, _, _. split; [done|]. apply storing_memcpy; [done|done|].
      apply (storing_unlock_write _ _ (e_meta e)); [apply He|done].
  - intros vp e op r He [_ Hl _] Ho%list_elem_of_In. unfold crcw_hit_p.
    destruct Ho as [E | [E | []]]; rewrite <- E; simpl; symmetry in E.
    + by rewrite same_version_self by apply He.
    + by rewrite Hl, Z.eqb_refl by (by left).
Qed.

(** ** Linearizability *)
Lemma lin_get_tail op op' r :
  observed_op op = observed_op op' -> tail_ok (LoadMeta (fun _ => lin_get_end op r)) op' r.
Proof. intros E m m'. split; [|done]. rewrite <- E. done. Qed.

(** A lock-free answer is the handler's on an object whose state is the one
    the reader decided on. *)
Lemma lin_get_answer mid vp op r r' s (seen : list entry) :
  opcode op = CACHE_OP_GET -> (exists x, x ∈ seen /\ lin_wf x /\ state (e_meta x) = s /\
    s <> INVALID_STATE /\ s <> WRITE_STATE /\
    observed_resp r' = observed_resp (if s =? VALID_STATE then mkResp CACHE_GET_SUCCESS (e_val_len x) (Some vp)
                                      else set_type CACHE_GET_STALL r)) ->
  forall m, exists x op'' r'', x ∈ seen /\ lin_op mid vp x op r = Done (x, op'', r'') /\
    same_answer (set_meta (set_state (state m) (meta op)) op) op'' r' r''.
Proof.
  intros E (x & Hx & Hw & Es & Hi & Hwr & Hr) m. apply Z.eqb_neq in Hi, Hwr.
  pose proof (lin_get_eq vp x op r Hw) as Hg. cbv zeta in Hg. rewrite Es, Hi, Hwr in Hg.
  eexists x, _, _. unfold lin_op. rewrite E, Z.eqb_refl, Hg.
  split_and!; [done|by destruct x|by split].
Qed.

Lemma lin_get_check_unlocked mid vp n op r r' prev m :
  opcode op = CACHE_OP_GET -> state m <> INVALID_STATE -> state m <> WRITE_STATE ->
  observed_resp r' = observed_resp (if state m =? VALID_STATE
                                    then mkResp CACHE_GET_SUCCESS n (Some vp)
                                    else set_type CACHE_GET_STALL r) ->
  unlocked_ok lin_wf (lin_op mid) vp n op r (lin_get_check prev op r') [prev; m].
Proof.
  intros E Hi Hwr Hr m'. simpl. destruct (optik_is_same_version_and_valid prev m') eqn:Ev; [|done].
  intros m2 seen Hne Hf Hset.
  destruct (Hset 1%nat 2%nat m m') as (x & Hx & Es); [done|done|lia|by eapply same_version_even|].
  rewrite Forall_forall in Hf. destruct (Hf x Hx) as [Hw Hn].
  apply lin_get_answer with (state m); [done|]. exists x. rewrite Hn. done.
Qed.

(** The locked part of a GET. *)
Lemma lin_get_storing vp op r r' e :
  lin_wf e ->
  exists fin op' r2, lin_get vp e op r = Done (fin, op', r2) /\
    storing_ok (lin_get_locked_p vp op r') (with_meta (locked_meta (e_meta e)) e) fin op' r2.
Proof.
  intros Hw. rewrite lin_get_eq by done. pose proof (ew_meta _ (lw_entry _ Hw)) as Hm.
  eexists _, _, _. split; [reflexivity|]. pose proof (state_cases _ (lw_state _ Hw)) as Hc.
  destruct e as [m l v]. unfold lin_get_locked_p, with_meta.
  cbn [e_meta e_val_len e_value storing_ok] in *. change (state (locked_meta m)) with (state m).
  destruct Hc as [E | [E | [E | [E | E]]]]; rewrite E; cbn [Z.eqb orb storing_ok].
  - by apply storing_unlock_decrement.
  - apply storing_state; [done|]. apply storing_unlock_decrement; [|done].
    apply meta_ok_set_state; [unfold is_u8, INVALID_REPLAY_STATE; lia|done].
  - by apply storing_unlock_decrement.
  - apply storing_state; [done|]. apply storing_unlock_decrement; [|done].
    apply meta_ok_set_state; [unfold is_u8, WRITE_REPLAY_STATE; lia|done].
  - by apply storing_unlock_decrement.
Qed.

Lemma lin_get_unlocked mid vp n op r r' :
  opcode op = CACHE_OP_GET -> unlocked_ok lin_wf (lin_op mid) vp n op r (lin_get_p vp op r') [].
Proof.
  intros E prev m. cbv zeta.
  destruct (Z.eqb_spec (state m) VALID_STATE) as [Es|Es].
  { apply lin_get_check_unlocked; rewrite ?Es; done. }
  destruct ((state m =? INVALID_REPLAY_STATE) || (state m =? WRITE_REPLAY_STATE)) eqn:Er.
  - apply lin_get_check_unlocked; [done|..].
    1-2: intros Es'; by rewrite Es' in Er.
    apply Z.eqb_neq in Es. by rewrite Es.
  - apply unlocked_lock; [apply lw_entry|]. intros e Hw _ _. unfold lin_op. rewrite E.
    by apply lin_get_storing.
Qed.

(** An accepted write, from the state it has stored. *)
Lemma lin_accept_storing mid e s op r fin :
  entry_wf e -> is_u8 s -> op_fits op ->
  let v := u32 (version (e_meta e) + 2) in
  fin = copied (mkMeta s (MACHINE_NUM - 1) (cid (meta op)) (lock (e_meta e)) v) e op ->
  storing_ok (lin_accept_p mid op r) (with_meta (locked_meta (set_state s (e_meta e))) e) fin
    (set_opcode CACHE_OP_BRC (set_meta (set_cid (u8 mid) (set_version v (meta op))) op))
    (mkResp CACHE_PUT_SUCCESS 0 None).
Proof.
  intros He Hs Hf v ->. apply storing_memcpy; [done|done|].
  apply (storing_unlock_write _ _ (set_pending_acks (MACHINE_NUM - 1) (set_state s (e_meta e))));
    [|done].
  apply meta_ok_set_acks; [unfold is_u8, MACHINE_NUM; lia|]. apply meta_ok_set_state; [done|apply He].
Qed.

(** A refused operation leaves the object as it was. *)
Lemma storing_refuse e op r :
  entry_wf e ->
  storing_ok (optik_unlock_decrement_version_p (Ret op r)) (with_meta (locked_meta (e_meta e)) e) e op r.
Proof. intros [Hm _ _]. destruct e as [m l v]. by apply storing_unlock_decrement. Qed.
#[export] Hint Resolve storing_refuse : ccKVS.

Lemma lin_put_unlocked mid vp n op r :
  legal n op -> opcode op = CACHE_OP_PUT ->
  unlocked_ok lin_wf (lin_op mid) vp n op r (lin_put_p mid op r) [].
Proof.
  intros [Hf Hl _] E. unfold lin_put_p. cbn [unlocked_ok]. rewrite Hl, Z.eqb_refl by (by left).
  apply unlocked_lock; [apply lw_entry|]. intros e Hw He Hn.
  pose proof (lin_put_eq mid e op r Hw) as Hp. rewrite Hn, Hl in Hp by (by left).
  specialize (Hp eq_refl). unfold lin_op. rewrite E. change (CACHE_OP_PUT =? CACHE_OP_GET) with false.
  rewrite Z.eqb_refl, Hp. clear Hp. unfold decide_put, write_meta.
  pose proof (state_cases _ (lw_state _ Hw)) as Hc.
  assert (Hs8 : is_u8 (state (e_meta e))) by apply He.
  cbn [storing_ok e_meta with_meta]. change (state (locked_meta (e_meta e))) with (state (e_meta e)).
  change (cid (locked_meta (e_meta e))) with (cid (e_meta e)).
  assert (Hacc : forall s v, is_u8 s -> v = u32 (version (e_meta e) + 2) ->
    storing_ok (lin_accept_p mid op r) (with_meta (locked_meta (set_state s (e_meta e))) e)
      (copied (mkMeta s (MACHINE_NUM - 1) (cid (meta op)) (lock (e_meta e)) v) e op)
      (set_opcode CACHE_OP_BRC (set_meta (set_cid (u8 mid) (set_version v (meta op))) op))
      (mkResp CACHE_PUT_SUCCESS 0 None)).
  { intros s v Hs ->. by apply lin_accept_storing. }
  pose proof (Hacc _ _ Hs8 eq_refl) as Hself.
  change (locked_meta (set_state (state (e_meta e)) (e_meta e))) with (locked_meta (e_meta e)) in Hself.
  destruct Hc as [Es | [Es | [Es | [Es | Es]]]]; rewrite Es in *;
    cbn [Z.eqb orb Pos.eqb VALID_STATE INVALID_STATE INVALID_REPLAY_STATE WRITE_STATE WRITE_REPLAY_STATE].
  - eexists _, _, _. split; [done|]. apply storing_state; [done|]. by apply Hacc.
  - eexists _, _, _. split; [done|]. apply storing_state; [done|]. by apply Hacc.
  - eexists _, _, _. split; [done|]. auto with ccKVS.
  - cbn [storing_ok e_meta with_meta].  change (cid (locked_meta (e_meta e))) with (cid (e_meta e)).
    destruct (cid (e_meta e) <=? cid (meta op)); eexists _, _, _; (split; [done|]); auto with ccKVS.
  - cbn [storing_ok e_meta with_meta].  change (cid (locked_meta (e_meta e))) with (cid (e_meta e)).
    destruct (cid (e_meta e) <? cid (meta op)); [|cbn [storing_ok e_meta with_meta];
      change (cid (locked_meta (e_meta e))) with (cid (e_meta e));
      destruct (cid (meta op) =? cid (e_meta e))]; eexists _, _, _; (split; [done|]); auto with ccKVS.
Qed.

Lemma lin_upd_unlocked mid vp n op r :
  legal n op -> opcode op = CACHE_OP_UPD ->
  unlocked_ok lin_wf (lin_op mid) vp n op r (lin_upd_p op r) [].
Proof.
  intros [Hf Hl Hv] E. unfold lin_upd_p. cbn [unlocked_ok]. rewrite Hl, Z.eqb_refl by (by right).
  apply unlocked_lock; [apply lw_entry|]. intros e Hw He Hn.
  assert (Hop : msg_ok op) by (split; [done|apply Hv; by left]).
  pose proof (lin_upd_eq e op r He Hop) as Hu. rewrite Hn, Hl in Hu by (by right).
  specialize (Hu eq_refl). assert (Ho : lin_op mid vp e op r = lin_upd e op r) by (unfold lin_op; by rewrite E).
  rewrite Ho, Hu. clear Ho Hu. pose proof (ew_meta _ He) as Hm.
  destruct (of_meta _ (mk_fits _ Hop)) as [_ _ _ _ Hver].
  pose proof (same_version_plus_one_ts (e_meta e) (meta op) Hm Hver (mk_even _ Hop)) as Hts.
  cbn [storing_ok e_meta with_meta].
  destruct (optik_is_same_version_plus_one _ _), (bool_decide_reflect (ts_of (e_meta e) = ts_of (meta op)))
    as [Et|Et]; try (by exfalso; apply Et, Hts); try (by apply Hts in Et); cbn [andb storing_ok].
  - change (state (e_meta (with_meta (locked_meta (e_meta e)) e))) with (state (e_meta e)).
    fold (invalid (e_meta e)). destruct (invalid (e_meta e)); eexists _, _, _; (split; [done|]);
      [|auto with ccKVS].
    apply storing_memcpy; [done|done|]. apply storing_state; [done|].
    replace (copied (set_state VALID_STATE (e_meta e)) e op)
      with (copied (stamp op (set_state VALID_STATE (e_meta e))) e op).
    { by apply storing_unlock. }
    unfold copied, stamp. injection Et as E1 E2. by rewrite <- E1, <- E2.
  - eexists _, _, _. split; [done|]. auto with ccKVS.
Qed.

Lemma lin_inv_arm_storing e op r (g : bool) (greater : cache_meta -> bool) s :
  entry_wf e -> msg_ok op -> greater (locked_meta (e_meta e)) = g ->
  exists fin op' r',
    Done (if g then (with_meta (set_state s (stamp op (e_meta e))) e, set_opcode CACHE_OP_ACK op,
                     set_type CACHE_INV_SUCCESS r)
          else (e, set_opcode CACHE_OP_ACK op, set_type CACHE_INV_FAIL r)) = Done (fin, op', r') /\
    storing_ok (lin_inv_arm_p greater s op r) (with_meta (locked_meta (e_meta e)) e) fin op' r'.
Proof.
  intros He Hop Hg. unfold lin_inv_arm_p. cbn [storing_ok e_meta with_meta]. rewrite Hg.
  destruct g; eexists _, _, _; (split; [done|]); [|auto with ccKVS].
  apply storing_state; [done|]. by apply (storing_unlock _ (set_state s (e_meta e))).
Qed.

Lemma lin_inv_unlocked mid vp n op r :
  legal n op -> opcode op = CACHE_OP_INV ->
  unlocked_ok lin_wf (lin_op mid) vp n op r (lin_inv_p mid op r) [].
Proof.
  intros [Hf _ Hv] E. unfold lin_inv_p. cbv zeta.
  apply unlocked_lock; [apply lw_entry|]. intros e Hw He Hn.
  assert (Hop : msg_ok op) by (split; [done|apply Hv; tauto]).
  assert (Ho : lin_op mid vp e op r = lin_inv mid e op r) by (unfold lin_op; by rewrite E).
  rewrite Ho, lin_inv_eq by done. clear Ho. pose proof (ew_meta _ He) as Hm.
  destruct (of_meta _ (mk_fits _ Hop)) as [_ _ _ _ Hver].
  unfold eff_ts, invalidate, writing, replay. cbn [storing_ok e_meta with_meta].
  change (state (locked_meta (e_meta e))) with (state (e_meta e)).
  pose proof (state_cases _ (lw_state _ Hw)) as Hc.
  destruct Hc as [Es | [Es | [Es | [Es | Es]]]]; rewrite Es;
    cbn [Z.eqb orb Pos.eqb VALID_STATE INVALID_STATE INVALID_REPLAY_STATE WRITE_STATE WRITE_REPLAY_STATE];
    apply lin_inv_arm_storing; try done;
    (apply greater_version_ts || apply greater_version_session_ts); done || apply Hop.
Qed.

Lemma lin_ack_unlocked mid vp n op r :
  legal n op -> opcode op = CACHE_OP_ACK ->
  unlocked_ok lin_wf (lin_op mid) vp n op r (lin_ack_p mid op r) [].
Proof.
  intros [Hf _ Hv] E. unfold lin_ack_p. cbv zeta.
  apply unlocked_lock; [apply lw_entry|]. intros e Hw He Hn.
  assert (Hop : msg_ok op) by (split; [done|apply Hv; tauto]).
  assert (Ho : lin_op mid vp e op r = lin_ack mid e op r) by (unfold lin_op; by rewrite E).
  rewrite Ho, lin_ack_eq by done. clear Ho. pose proof (ew_meta _ He) as Hm.
  destruct (of_meta _ (mk_fits _ Hop)) as [_ _ _ _ Hver].
  assert (Hself : set_meta (set_cid (cid (meta op)) (meta (set_meta (set_cid (u8 mid) (meta op)) op)))
                    (set_meta (set_cid (u8 mid) (meta op)) op) = op) by (by destruct op as [[]]).
  rewrite Hself. cbn [storing_ok e_meta with_meta].
  change (state (locked_meta (e_meta e))) with (state (e_meta e)). fold (writing (e_meta e)).
  destruct (writing (e_meta e)) eqn:Hwr; cbn [andb storing_ok e_meta with_meta];
    [|eexists _, _, _; split; [done|]; auto with ccKVS].
  change (version (locked_meta (e_meta e))) with (version (e_meta e) + 1).
  change (version (meta (set_meta (set_cid (u8 mid) (meta op)) op))) with (version (meta op)).
  rewrite u32_small by (pose proof (even_u32_max _ Hver (mk_even _ Hop)); unfold is_u32 in *; lia).
  replace (version (e_meta e) + 1 =? version (meta op) + 1) with (version (e_meta e) =? version (meta op))
    by (repeat zcase; done || lia).
  destruct (version (e_meta e) =? version (meta op)); cbn [storing_ok e_meta with_meta];
    [|eexists _, _, _; split; [done|]; auto with ccKVS].
  pose proof (lw_acks _ Hw Hwr) as Ha. change (MACHINE_NUM - 1) with 3 in Ha.
  unfold ack_meta. change (pending_acks (locked_meta (e_meta e))) with (pending_acks (e_meta e)).
  destruct (Z.eqb_spec (pending_acks (e_meta e)) 1); eexists _, _, _; (split; [done|]).
  - apply storing_state; [done|].
    apply (storing_unlock_decrement _ (set_pending_acks 0 (set_cid (u8 mid) (set_state VALID_STATE (e_meta e)))));
      [|done].
    apply meta_ok_set_acks; [unfold is_u8; lia|]. apply meta_ok_set_cid; [apply u8_range|].
    apply meta_ok_set_state; [unfold is_u8, VALID_STATE; lia|done].
  - cbn [storing_ok e_meta with_meta]. change (pending_acks (locked_meta (e_meta e))) with (pending_acks (e_meta e)).
    rewrite u8_small by (unfold is_u8; lia).
    apply (storing_unlock_decrement _ (set_pending_acks (pending_acks (e_meta e) - 1) (e_meta e))); [|done].
    apply meta_ok_set_acks; [unfold is_u8; lia|done].
Qed.

#[export] Instance lin_op_Interleaved mid (Hmid : is_u8 mid) :
  Interleaved lin_wf
    [CACHE_OP_GET; CACHE_OP_PUT; CACHE_OP_UPD; CACHE_OP_INV; CACHE_OP_ACK; CACHE_OP_BRC]
    (lin_op mid) (lin_op_p mid).
Proof.
  split; [by apply lin_op_HandlerOk| |].
  - intros vp n op r r' Hl Ho%list_elem_of_In Hr. unfold lin_op_p.
    destruct Ho as [E | [E | [E | [E | [E | [E | []]]]]]]; rewrite <- E in *; cbn [Z.eqb]; symmetry in E;
      [by apply lin_get_unlocked|..]; (destruct Hr as [->|[=]]).
    + by apply lin_put_unlocked.
    + by apply lin_upd_unlocked.
    + by apply (lin_inv_unlocked mid vp n op r).
    + by apply (lin_ack_unlocked mid vp n op r).
    + apply unlocked_ret. intros e. unfold lin_op. by rewrite E.
  - intros vp e op r Hw [_ Hl _] Ho%list_elem_of_In. unfold lin_op_p.
    destruct Ho as [E | [E | [E | [E | [E | [E | []]]]]]]; rewrite <- E; cbn [Z.eqb]; symmetry in E; try done.
    + simpl. assert (Hs : optik_is_same_version_and_valid (e_meta e) (e_meta e) = true)
        by (apply same_version_self, (lw_entry _ Hw)).
      destruct (state (e_meta e) =? VALID_STATE); [simpl; by rewrite Hs|].
      destruct (_ || _); simpl; [by rewrite Hs|done].
    + simpl. by rewrite Hl, Z.eqb_refl by (by left).
    + simpl. by rewrite Hl, Z.eqb_refl by (by right).
Qed.

(** ** The three kinds of shared objects *)
Inductive service := SC_cache | LIN_cache | Worker_store.

Definition service_ops (s : service) : list Z :=
  match s with
  | SC_cache => [CACHE_OP_GET; CACHE_OP_PUT; CACHE_OP_UPD; CACHE_OP_BRC]
  | LIN_cache => [CACHE_OP_GET; CACHE_OP_PUT; CACHE_OP_UPD; CACHE_OP_INV; CACHE_OP_ACK; CACHE_OP_BRC]
  | Worker_store => [MICA_OP_GET; MICA_OP_PUT]
  end.

Definition service_inv (s : service) : entry -> Prop :=
  match s with LIN_cache => lin_wf | _ => entry_wf end.

Definition service_handler (s : service) (machine_id : Z) : handler :=
  match s with
  | SC_cache => sc_op machine_id
  | LIN_cache => lin_op machine_id
  | Worker_store => crcw_handler machine_id
  end.

Definition service_prog (s : service) (machine_id : Z) : Z -> cache_op -> mica_resp -> prog :=
  match s with
  | SC_cache => sc_op_p machine_id
  | LIN_cache => lin_op_p machine_id
  | Worker_store => crcw_hit_p machine_id
  end.

#[export] Instance service_Interleaved s mid (Hmid : is_u8 mid) :
  Interleaved (service_inv s) (service_ops s) (service_handler s mid) (service_prog s mid).
Proof.
  destruct s; [apply sc_op_Interleaved|by apply lin_op_Interleaved|apply crcw_Interleaved].
Qed.

(** The steps of the threads on an object of value length [n] at [vp]. *)
Definition service_step (s : service) (mid vp n : Z) : config -> option label -> config -> Prop :=
  thread_step (service_ops s) (service_prog s mid vp) n.

(** C13: any number of threads that execute the accesses of the cache or store
    operations on one object, interleaved in any way, are linearizable: the
    history of calls and returns is one of the atomic object on which the handlers
    of the protocols act, the invariant holds of that object, and it is what is
    in memory whenever the lock is free. *)
Theorem object_linearizable s mid vp e hs c :
  is_u8 mid -> service_inv s e ->
  history (service_step s mid vp (e_val_len e)) (quiet e) hs c ->
  exists a, history (atomic_step (service_handler s mid) vp) (atomic_quiet e) hs a /\
    service_inv s (rest a) /\ (lock (e_meta (obj c)) = OPTIK_FREE -> obj c = rest a).
Proof.
  intros Hmid He Hh. pose proof (service_Interleaved s mid Hmid).
  by apply (interleaved_refines vp (e_val_len e)).
Qed.

(** C14: no interleaving blocks an operation for good or makes one of its
    assertions fail: from every reachable configuration each operation in
    progress can be brought to its return. *)
Theorem object_operations_complete s mid vp e hs c t op r p :
  is_u8 mid -> service_inv s e ->
  history (service_step s mid vp (e_val_len e)) (quiet e) hs c ->
  thr c t = Running op r p ->
  exists c' op' r', history (service_step s mid vp (e_val_len e)) c [returned t op' r'] c'.
Proof.
  intros Hmid He Hh. pose proof (service_Interleaved s mid Hmid).
  by apply (interleaved_returns vp (e_val_len e) e hs).
Qed.

(** ** Schedules of two threads

    Thread 1 copies the metadata for a GET; thread 2 locks the object for a PUT;
    thread 1 reads the state, which is still valid; thread 2 completes; thread 1
    finds the version changed, tries again and stalls. *)
Definition no_resp : mica_resp := mkResp EMPTY 0 None.
Definition race_start : list action :=
  [ACall 1 demo_cget no_resp; AStep 1; ACall 2 demo_cput no_resp].
Definition race_middle : list action := race_start ++ replicate 5 (AStep 2) ++ [AStep 1].
Definition race : list action := race_middle ++ replicate 40 (AStep 2) ++ replicate 17 (AStep 1).

Definition run_race (s : service) (l : list action) : option (list label * config) :=
  run_actions (service_prog s 1 100) l (quiet fresh_entry).

Lemma race_history s l hs c :
  incl l (race_start ++ [AStep 1; AStep 2]) -> run_race s l = Some (hs, c) ->
  history (service_step s 1 100 32) (quiet fresh_entry) hs c.
Proof.
  intros Hl. apply run_actions_history, Forall_forall. intros a Ha%list_elem_of_In%Hl.
  destruct Ha as [<- | [<- | [<- | [<- | [<- | []]]]]]; try done; split;
    try (apply demo_legal; tauto); apply list_elem_of_In; destruct s; simpl; tauto.
Qed.

Lemma incl_race_middle : incl race_middle (race_start ++ [AStep 1; AStep 2]).
Proof. intros a. simpl. tauto. Qed.
Lemma incl_race : incl race (race_start ++ [AStep 1; AStep 2]).
Proof.
  intros a. unfold race. rewrite !in_app_iff, <- !list_elem_of_In, !elem_of_replicate.
  intros [H%list_elem_of_In%incl_race_middle|[[-> _]|[-> _]]]; rewrite ?list_elem_of_In; simpl in *; tauto.
Qed.

Lemma object_linearizable_witness :
  match run_race LIN_cache race with
  | Some (hs, c) =>
      exists a, history (atomic_step (lin_op 1) 100) (atomic_quiet fresh_entry) hs a /\
        lin_wf (rest a) /\ (lock (e_meta (obj c)) = OPTIK_FREE -> obj c = rest a)
  | None => False
  end.
Proof.
  assert (Hok : match run_race LIN_cache race with Some _ => true | None => false end = true)
    by (vm_compute; reflexivity).
  destruct (run_race LIN_cache race) as [[hs c]|] eqn:E; [|discriminate Hok].
  apply (object_linearizable LIN_cache 1 100 fresh_entry hs c).
  - unfold is_u8. lia.
  - apply fresh_lin_wf.
  - exact (race_history LIN_cache race hs c incl_race E).
Defined.

Lemma object_operations_complete_witness :
  match run_race LIN_cache race_middle with
  | Some (hs, c) =>
      exists c' op' r', history (service_step LIN_cache 1 100 32) c [returned 1 op' r'] c'
  | None => False
  end.
Proof.
  assert (Hok : match run_race LIN_cache race_middle with
                | Some (_, c) => match thr c 1 with Running _ _ _ => true | Idle => false end
                | None => false end = true) by (vm_compute; reflexivity).
  destruct (run_race LIN_cache race_middle) as [[hs c]|] eqn:E; [|discriminate Hok].
  destruct (thr c 1) as [|op r p] eqn:Et; [discriminate Hok|].
  apply (object_operations_complete LIN_cache 1 100 fresh_entry hs c 1 op r p).
  - unfold is_u8. lia.
  - apply fresh_lin_wf.
  - exact (race_history LIN_cache race_middle hs c incl_race_middle E).
  - exact Et.
Defined.
