(* ===== verification/Flow.v ===== *)
(** * Flow control of the linearizable client (include/ccKVS/inline_util.h)

    The coherence messages of the LIN client (src/ccKVS/client-lin.c) travel
    over unreliable datagrams: a message that finds no posted receive is lost.
    Each client thread may send [CREDITS_FOR_EACH_CLIENT] messages of each
    kind (virtual channel: acknowledgements, invalidations, updates) to its
    peer on another machine; the peer returns [CREDITS_IN_MESSAGE] credits at a
    time for the buffer space it has emptied, after it has posted as many
    receives.  This file translates the functions of a round: polling the ring
    of received messages, the bookkeeping after the cache, the broadcasts, the
    acknowledgements and the credit messages.  Credits and receives over all
    machines are in [FlowSystem]. *)
From S2P Require Import Prelude Config Optik Layout City Mica Cache Network.

(** A two-dimensional array indexed by virtual channel and machine. *)
Definition upd2 (f : Z -> Z -> Z) (vc m v : Z) : Z -> Z -> Z :=
  fun vc' m' => if (vc' =? vc) && (m' =? m) then v else f vc' m'.

(** ** State *)

(** The receive ring [incoming_reqs] with the client's [pull_ptr] (last slot
    read) and [push_ptr] (next slot to post), and the NIC's side of it: the slot
    of the oldest posted receive and the number of posted receives. *)
Record inbox := mkInbox {
  incoming_reqs : Z -> cache_op;
  pull_ptr : Z;
  push_ptr : Z;
  nic_ptr : Z;
  recvs : Z
}.

(** [ack_bcast_ops]: completed writes whose update is still to be sent. *)
Record ack_queue := mkAckQ {
  ack_bcast_ops : Z -> cache_op;
  ack_push_ptr : Z;
  ack_pop_ptr : Z;
  ack_size : Z
}.

(** [inv_to_send_ops]: invalidations whose acknowledgement is still to be sent,
    marked by the opcode [CACHE_OP_BRC]. *)
Record inv_buffer := mkInvB {
  inv_to_send_ops : list cache_op;
  inv_push_ptr : Z;
  inv_size : Z
}.

(** Credits to send, and the completion queue of received credit messages with
    the receives posted for them. *)
Record ledger := mkLedger {
  credits : Z -> Z -> Z;
  credit_cq : list Z;
  fc_recvs : Z
}.

Definition count_array : Type := Z -> Z -> Z.

(** ** Polling the receive ring *)
Definition is_coherence (c : Z) : bool :=
  (c =? CACHE_OP_UPD) || (c =? CACHE_OP_ACK) || (c =? CACHE_OP_INV).

Record polled := mkPolled {
  po_inbox : inbox;
  po_update_ops : Z -> cache_op;
  update_ops_i : Z;
  po_inv_ops : Z -> cache_op;
  inv_ops_i : Z;
  ack_ops_i : Z
}.

Definition clear_slot (ib : inbox) (p : Z) : inbox :=
  mkInbox (fupd (incoming_reqs ib) p (set_opcode 0 (incoming_reqs ib p)))
    p (push_ptr ib) (nic_ptr ib) (recvs ib).

(** One iteration of the loop; [None] is a [break]. *)
Definition poll_one (ack_size inv_size : Z) (p : polled) : outcome (option polled) :=
  let ib := po_inbox p in
  let req := incoming_reqs ib ((pull_ptr ib + 1) mod LIN_CLT_BUF_SLOTS) in
  if negb (is_coherence (opcode req)) then
    let* _ := c_assert (opcode req =? 0) in Done None
  else if negb (opcode req =? CACHE_OP_INV) then
    if ack_size + ack_ops_i p =? BCAST_TO_CACHE_BATCH then Done None
    else
      let pull := HRD_MOD_ADD (pull_ptr ib) LIN_CLT_BUF_SLOTS in
      let req := incoming_reqs ib pull in
      let i := update_ops_i p in
      let slot := po_update_ops p i in
      let slot := if opcode req =? CACHE_OP_UPD then recv_put_req slot req else recv_get_req slot req in
      let* _ := c_assert (cid (meta slot) <? MACHINE_NUM) in
      let acks := if opcode req =? CACHE_OP_ACK then ack_ops_i p + 1 else ack_ops_i p in
      let* _ := c_assert (0 <=? pull) in
      Done (Some (mkPolled (clear_slot ib pull) (fupd (po_update_ops p) i slot) (i + 1)
                    (po_inv_ops p) (inv_ops_i p) acks))
  else
    if inv_size + inv_ops_i p =? BCAST_TO_CACHE_BATCH then Done None
    else
      let pull := HRD_MOD_ADD (pull_ptr ib) LIN_CLT_BUF_SLOTS in
      let req := incoming_reqs ib pull in
      let i := inv_ops_i p in
      let slot := recv_get_req (po_inv_ops p i) req in
      let* _ := c_assert (cid (meta slot) <? MACHINE_NUM) in
      let* _ := c_assert (0 <=? pull) in
      Done (Some (mkPolled (clear_slot ib pull) (po_update_ops p) (update_ops_i p)
                    (fupd (po_inv_ops p) i slot) (i + 1) (ack_ops_i p))).

(** The loop until [BCAST_TO_CACHE_BATCH] messages are polled: [n] to go. *)
Fixpoint poll_loop (n : nat) (ack_size inv_size : Z) (p : polled) : outcome polled :=
  match n with
  | O => Done p
  | S n =>
      let* q := poll_one ack_size inv_size p in
      match q with
      | Some p => poll_loop n ack_size inv_size p
      | None => Done p
      end
  end.

Definition poll_coherence_LIN (ib : inbox) (update_ops inv_ops : Z -> cache_op)
    (ack_size inv_size : Z) : outcome polled :=
  poll_loop (Z.to_nat BCAST_TO_CACHE_BATCH) ack_size inv_size
    (mkPolled ib update_ops 0 inv_ops 0 0).

(** The first [n] elements of a C array. *)
Definition array_take (n : Z) (a : Z -> cache_op) : list cache_op := a <$> seqZ 0 n.

(** The array after its first elements were changed in place to those of [l]. *)
Definition array_put (l : list cache_op) (a : Z -> cache_op) : Z -> cache_op :=
  fun i => if 0 <=? i then default (a i) (l !! Z.to_nat i) else a i.

(** ** Bookkeeping after the cache *)

(** One update or acknowledgement with the cache's response to it. *)
Definition bookkeep_update (x : cache_op * mica_resp) (st : count_array * ack_queue)
    : outcome (count_array * ack_queue) :=
  let '(op, r) := x in
  let '(count, q) := st in
  let c := cid (meta op) in
  if opcode op =? CACHE_OP_UPD then Done (upd2 count UPD_VC c (u16 (count UPD_VC c + 1)), q)
  else if resp_type r =? CACHE_LAST_ACK_SUCCESS then
    let p := ack_push_ptr q in
    let* _ := c_assert (negb (opcode (ack_bcast_ops q p) =? CACHE_OP_ACK)) in
    Done (count, mkAckQ (fupd (ack_bcast_ops q) p (set_val_len (Z.shiftr HERD_VALUE_SIZE SHIFT_BITS) op))
                   (HRD_MOD_ADD p BCAST_TO_CACHE_BATCH) (ack_pop_ptr q) (u16 (ack_size q + 1)))
  else Done (upd2 count ACK_VC c (u16 (count ACK_VC c + 1)), q).

Fixpoint updates_and_acks_bookkeeping (l : list (cache_op * mica_resp)) (st : count_array * ack_queue)
    : outcome (count_array * ack_queue) :=
  match l with
  | [] => Done st
  | x :: l => let* st := bookkeep_update x st in updates_and_acks_bookkeeping l st
  end.

(** [do ... while (i < BCAST_TO_CACHE_BATCH)]: the first slot from [p] on that
    does not wait to be sent; [p] itself if there is none. *)
Fixpoint find_inv_slot (n : nat) (i p : Z) (ops : list cache_op) : Z :=
  match n with
  | O => p
  | S n =>
      let k := (p + i) mod BCAST_TO_CACHE_BATCH in
      match ops !! Z.to_nat k with
      | Some op => if opcode op =? CACHE_OP_BRC then find_inv_slot n (i + 1) p ops else k
      | None => p
      end
  end.

Definition bookkeep_inv (x : cache_op * mica_resp) (st : count_array * inv_buffer)
    : outcome (count_array * inv_buffer) :=
  let '(op, r) := x in
  let '(count, b) := st in
  let c := cid (meta op) in
  if negb (resp_type r =? CACHE_INV_SUCCESS) then
    Done (upd2 count INV_VC c (u16 (count INV_VC c + 1)), b)
  else
    let p := find_inv_slot (Z.to_nat BCAST_TO_CACHE_BATCH) 0 (inv_push_ptr b) (inv_to_send_ops b) in
    let slot := recv_get_req (nth (Z.to_nat p) (inv_to_send_ops b) op) op in
    let* _ := c_assert (negb (opcode slot =? CACHE_OP_BRC)) in
    let* _ := c_assert (cid (meta slot) <=? MACHINE_NUM) in
    Done (count, mkInvB (<[Z.to_nat p := set_opcode CACHE_OP_BRC slot]> (inv_to_send_ops b))
                   p (u16 (inv_size b + 1))).

Fixpoint invs_bookkeeping (l : list (cache_op * mica_resp)) (st : count_array * inv_buffer)
    : outcome (count_array * inv_buffer) :=
  match l with
  | [] => Done st
  | x :: l => let* st := bookkeep_inv x st in invs_bookkeeping l st
  end.

(** ** Credits *)

(** The channel and machine a credit message stands for: acknowledgements have
    the machine ids, invalidations and updates follow. *)
Definition credit_channel (imm : Z) : Z * Z :=
  if 2 * MACHINE_NUM <=? imm then (UPD_VC, imm - 2 * MACHINE_NUM)
  else if MACHINE_NUM <=? imm then (INV_VC, imm - MACHINE_NUM)
  else (ACK_VC, imm).

Definition add_credit (cr : Z -> Z -> Z) (imm : Z) : Z -> Z -> Z :=
  let '(vc, m) := credit_channel imm in
  upd2 cr vc m (u8 (cr vc m + CREDITS_IN_MESSAGE)).

(** [ibv_poll_cq] returns at most [MAX_CREDIT_WRS] completions; [n] is the number
    of credit messages that have arrived by now. *)
Definition poll_credits_LIN (n : nat) (lg : ledger) : ledger :=
  let k := Nat.min n (Z.to_nat MAX_CREDIT_WRS) in
  let got := take k (credit_cq lg) in
  mkLedger (foldl add_credit (credits lg) got) (drop k (credit_cq lg))
    (fc_recvs lg - Z.of_nat (length got)).

Definition spend (vc m : Z) (lg : ledger) : ledger :=
  mkLedger (upd2 (credits lg) vc m (u8 (credits lg vc m - 1))) (credit_cq lg) (fc_recvs lg).

Definition post_fc_recvs (n : Z) (lg : ledger) : ledger :=
  mkLedger (credits lg) (credit_cq lg) (fc_recvs lg + n).

Section client.
Context (machine_id : Z).

Definition out_of_credits (lg : ledger) (vc : Z) : bool :=
  existsb (fun j => negb (j =? machine_id) && (credits lg vc j =? 0)) (seqZ 0 MACHINE_NUM).

(** The arrivals at the polls of a function, as a list that each poll
    consumes. *)
Definition next_arrivals (arr : list nat) : nat * list nat :=
  match arr with [] => (O, []) | n :: arr => (n, arr) end.

Definition check_broadcast_credits (arr : list nat) (lg : ledger) (vc : Z) : bool * list nat * ledger :=
  if out_of_credits lg vc then
    let '(n, arr) := next_arrivals arr in
    let lg := poll_credits_LIN n lg in
    (negb (out_of_credits lg vc), arr, lg)
  else (true, arr, lg).

(** ** Broadcasts *)
Record bcast_state := mkBcast {
  bc_ops : list cache_op;
  bc_ack : ack_queue;
  bc_count : count_array;
  bc_ledger : ledger;
  bc_arrivals : list nat;
  updates_sent : Z;
  br_i : Z;
  br_tx : Z;
  credit_recv_counter : Z;
  bc_sent : list cache_op
}.

(** The messages of a broadcast: an invalidation for the hot write [op_i], or
    the update at the head of the queue. *)
Definition forge_bcast_wrs_LIN (op_i : Z) (st : bcast_state) : bcast_state :=
  if op_i <? CACHE_BATCH_SIZE then
    let op := nth (Z.to_nat op_i) (bc_ops st) (ack_bcast_ops (bc_ack st) 0) in
    let op := set_opcode CACHE_OP_INV op in
    let op := set_meta (set_cid (u8 machine_id) (meta op)) op in
    mkBcast (<[Z.to_nat op_i := op]> (bc_ops st)) (bc_ack st) (bc_count st) (bc_ledger st)
      (bc_arrivals st) (updates_sent st) (br_i st) (br_tx st + 1) (credit_recv_counter st)
      (bc_sent st ++ [op])
  else
    let q := bc_ack st in
    let op := ack_bcast_ops q (ack_pop_ptr q) in
    let c := cid (meta op) in
    let count := upd2 (bc_count st) ACK_VC c (u16 (bc_count st ACK_VC c + 1)) in
    let op := set_meta (set_cid (u8 machine_id) (meta op)) op in
    let q := mkAckQ (fupd (ack_bcast_ops q) (ack_pop_ptr q) op) (ack_push_ptr q)
               (HRD_MOD_ADD (ack_pop_ptr q) BCAST_TO_CACHE_BATCH) (ack_size q) in
    mkBcast (bc_ops st) q count (bc_ledger st) (bc_arrivals st) (u16 (updates_sent st + 1))
      (br_i st) (br_tx st + 1) (credit_recv_counter st) (bc_sent st ++ [op]).

(** [post_credit_recvs_and_batch_bcasts_to_NIC] *)
Definition post_credit_recvs (st : bcast_state) : outcome bcast_state :=
  let n := credit_recv_counter st in
  if 0 <? n then
    let* _ := c_assert (n * (MACHINE_NUM - 1) <=? MAX_CREDIT_RECVS) in
    Done (mkBcast (bc_ops st) (bc_ack st) (bc_count st)
            (post_fc_recvs ((MACHINE_NUM - 1) * n) (bc_ledger st)) (bc_arrivals st)
            (updates_sent st) (br_i st) (br_tx st) 0 (bc_sent st))
  else Done st.

(** What follows [forge_bcast_wrs_LIN] in an iteration: the credits of all
    machines, the receives for credits, the batch to the NIC. *)
Definition finish_bcast (vc : Z) (st : bcast_state) : outcome bcast_state :=
  let lg := foldr (spend vc) (bc_ledger st) (seqZ 0 MACHINE_NUM) in
  let n := if br_tx st mod CREDITS_IN_MESSAGE =? 0 then credit_recv_counter st + 1
           else credit_recv_counter st in
  let st := mkBcast (bc_ops st) (bc_ack st) (bc_count st) lg (bc_arrivals st) (updates_sent st)
              (br_i st + 1) (br_tx st) n (bc_sent st) in
  if br_i st =? MAX_BCAST_BATCH then
    let* st := post_credit_recvs st in
    Done (mkBcast (bc_ops st) (bc_ack st) (bc_count st) (bc_ledger st) (bc_arrivals st)
            (updates_sent st) 0 (br_tx st) (credit_recv_counter st) (bc_sent st))
  else Done st.

(** [ack_bcast_ops[*ack_pop_ptr].opcode = CACHE_OP_UPD] *)
Definition mark_update (q : ack_queue) : ack_queue :=
  let p := ack_pop_ptr q in
  mkAckQ (fupd (ack_bcast_ops q) p (set_opcode CACHE_OP_UPD (ack_bcast_ops q p)))
    (ack_push_ptr q) p (ack_size q).

Definition set_bc_ack (q : ack_queue) (st : bcast_state) : bcast_state :=
  mkBcast (bc_ops st) q (bc_count st) (bc_ledger st) (bc_arrivals st) (updates_sent st)
    (br_i st) (br_tx st) (credit_recv_counter st) (bc_sent st).
Definition set_bc_ledger (arr : list nat) (lg : ledger) (st : bcast_state) : bcast_state :=
  mkBcast (bc_ops st) (bc_ack st) (bc_count st) lg arr (updates_sent st)
    (br_i st) (br_tx st) (credit_recv_counter st) (bc_sent st).

(** The loop: every iteration increases [op_i], so that one more test than
    [CACHE_BATCH_SIZE + ack_size] is enough fuel; without fuel it would not have
    ended. *)
Fixpoint bcast_loop (fuel : nat) (op_i : Z) (st : bcast_state) : outcome bcast_state :=
  match fuel with
  | O => Spin
  | S fuel =>
      if op_i <? CACHE_BATCH_SIZE + ack_size (bc_ack st) then
        let is_inv := op_i <? CACHE_BATCH_SIZE in
        if is_inv && negb (match bc_ops st !! Z.to_nat op_i with
                           | Some op => opcode op =? CACHE_OP_BRC
                           | None => false
                           end)
        then bcast_loop fuel (op_i + 1) st
        else
          let vc := if is_inv then INV_VC else UPD_VC in
          let st := if is_inv then st else set_bc_ack (mark_update (bc_ack st)) st in
          let '(ok, arr, lg) := check_broadcast_credits (bc_arrivals st) (bc_ledger st) vc in
          let st := set_bc_ledger arr lg st in
          if ok then
            let* st := finish_bcast vc (forge_bcast_wrs_LIN op_i st) in
            bcast_loop fuel (op_i + 1) st
          else if is_inv then bcast_loop fuel CACHE_BATCH_SIZE st
          else Done st
      else Done st
  end.

Definition perform_broadcasts_LIN (ops : list cache_op) (q : ack_queue) (count : count_array)
    (lg : ledger) (arr : list nat) (tx : Z) : outcome bcast_state :=
  let fuel := S (Z.to_nat (CACHE_BATCH_SIZE + ack_size q)) in
  let* st := bcast_loop fuel 0 (mkBcast ops q count lg arr 0 0 tx 0 []) in
  let* st := post_credit_recvs st in
  let q := bc_ack st in
  let q := mkAckQ (ack_bcast_ops q) (ack_push_ptr q) (ack_pop_ptr q)
             (u16 (ack_size q - updates_sent st)) in
  Done (set_bc_ack q st).

(** ** Acknowledgements *)
Record acks_state := mkAcks {
  as_buffer : inv_buffer;
  as_count : count_array;
  as_ledger : ledger;
  as_arrivals : list nat;
  sent_ack_tx : Z;
  ack_recv_counter : Z;
  as_sent : list msg
}.

Definition send_ack (i : nat) (st : acks_state) : acks_state :=
  let b := as_buffer st in
  match inv_to_send_ops b !! i with
  | None => st
  | Some op =>
      if negb (opcode op =? CACHE_OP_BRC) then st
      else
        let c := cid (meta op) in
        let '(arr, lg) :=
          if credits (as_ledger st) ACK_VC c =? 0 then
            let '(n, arr) := next_arrivals (as_arrivals st) in (arr, poll_credits_LIN n (as_ledger st))
          else (as_arrivals st, as_ledger st) in
        if credits lg ACK_VC c =? 0 then
          mkAcks b (as_count st) lg arr (sent_ack_tx st) (ack_recv_counter st) (as_sent st)
        else
          let count := upd2 (as_count st) INV_VC c (u16 (as_count st INV_VC c + 1)) in
          let op := set_opcode CACHE_OP_ACK op in
          let op := set_meta (set_cid (u8 machine_id) (meta op)) op in
          let tx := sent_ack_tx st + 1 in
          mkAcks (mkInvB (<[i := op]> (inv_to_send_ops b)) (inv_push_ptr b) (u16 (inv_size b - 1)))
            count (spend ACK_VC c lg) arr tx
            (if tx mod CREDITS_IN_MESSAGE =? 0 then ack_recv_counter st + 1 else ack_recv_counter st)
            (as_sent st ++ [mkMsg c op])
  end.

(** [for (i = 0; i < BCAST_TO_CACHE_BATCH; i++)], then the receives for credits
    are posted. *)
Definition send_acks (b : inv_buffer) (count : count_array) (lg : ledger) (arr : list nat) (tx : Z)
    : outcome acks_state :=
  let st := foldl (fun st i => send_ack i st) (mkAcks b count lg arr tx 0 [])
              (seq 0 (Z.to_nat BCAST_TO_CACHE_BATCH)) in
  let n := ack_recv_counter st in
  let* _ := c_assert (n <=? MAX_CREDIT_RECVS) in
  let* _ := c_assert (bool_decide (as_sent st = []) || (n <=? BCAST_TO_CACHE_BATCH)) in
  Done (mkAcks (as_buffer st) (as_count st) (post_fc_recvs n (as_ledger st)) (as_arrivals st)
          (sent_ack_tx st) 0 (as_sent st)).

(** ** Credit messages *)
Record fc_state := mkFc {
  seen : Z -> Z -> Z;
  credit_wr : list (Z * Z)
}.

(** Message [i] of those to acknowledge to [rm_id]: acknowledgements first, then
    invalidations, then updates. *)
Definition fc_channel (count : count_array) (rm_id i : Z) : Z :=
  if i <? count ACK_VC rm_id then ACK_VC
  else if i <? count INV_VC rm_id + count ACK_VC rm_id then INV_VC
  else UPD_VC.

Definition forge_credit (count : count_array) (rm_id i : Z) (st : fc_state) : outcome fc_state :=
  let vc := fc_channel count rm_id i in
  let s := upd2 (seen st) vc rm_id (u16 (seen st vc rm_id + 1)) in
  if (s ACK_VC rm_id =? CREDITS_IN_MESSAGE) || (s INV_VC rm_id =? CREDITS_IN_MESSAGE) ||
     (s UPD_VC rm_id =? CREDITS_IN_MESSAGE)
  then
    let imm := machine_id + vc * MACHINE_NUM in
    let wrs := credit_wr st ++ [(rm_id, imm)] in
    let* _ := c_assert (Z.of_nat (length wrs) <=? CREDIT_SS_BATCH_) in
    Done (mkFc (upd2 s vc rm_id 0) wrs)
  else Done (mkFc s (credit_wr st)).

Fixpoint forge_credits_to (count : count_array) (rm_id : Z) (l : list Z) (st : fc_state)
    : outcome fc_state :=
  match l with
  | [] => Done st
  | i :: l => let* st := forge_credit count rm_id i st in forge_credits_to count rm_id l st
  end.

Definition fc_message_count (count : count_array) (rm_id : Z) : Z :=
  u16 (count ACK_VC rm_id + count INV_VC rm_id + count UPD_VC rm_id).

Fixpoint forge_credits_loop (count : count_array) (rms : list Z) (st : fc_state) : outcome fc_state :=
  match rms with
  | [] => Done st
  | rm_id :: rms =>
      let* st := forge_credits_to count rm_id (seqZ 0 (fc_message_count count rm_id)) st in
      forge_credits_loop count rms st
  end.

Definition total_fc_message_count (count : count_array) : Z :=
  foldl (fun t rm_id => u16 (t + fc_message_count count rm_id)) 0 (seqZ 0 MACHINE_NUM).

(** [hrd_poll_cq] waits until [n] completions have come; [cq] are there. *)
Definition hrd_poll_cq (n cq : Z) : outcome Z := if n <=? cq then Done (cq - n) else Spin.

(** The completions of the messages whose buffer was emptied are taken from the
    receive queue [coh_recv_cq] at the end. *)
Definition forge_credits_LIN (count : count_array) (s : Z -> Z -> Z) (coh_recv_cq : Z)
    : outcome (fc_state * Z) :=
  let* st := forge_credits_loop count (seqZ 0 MACHINE_NUM) (mkFc s []) in
  let* cq := hrd_poll_cq (total_fc_message_count count) coh_recv_cq in
  Done (st, cq).

(** [CREDITS_IN_MESSAGE] receives are posted for every credit message. *)
Definition send_credits (n : nat) (ib : inbox) : inbox :=
  let k := (n * Z.to_nat CREDITS_IN_MESSAGE)%nat in
  mkInbox (incoming_reqs ib) (pull_ptr ib)
    (Nat.iter k (fun p => HRD_MOD_ADD p LIN_CLT_BUF_SLOTS) (push_ptr ib))
    (nic_ptr ib) (recvs ib + Z.of_nat k).

(** ** One round of the client loop

    [update_cache] and [inv_cache] are the cache's answers to the polled
    messages, [ops] the requests of the batch after they were probed. *)
Record client := mkClient {
  c_inbox : inbox;
  c_coh_recv_cq : Z;
  c_update_ops : Z -> cache_op;
  c_inv_ops : Z -> cache_op;
  c_acks : ack_queue;
  c_invs : inv_buffer;
  c_ledger : ledger;
  c_seen : Z -> Z -> Z;
  c_br_tx : Z;
  c_ack_tx : Z
}.

Record sends := mkSends { coherence : list msg; credit_msgs : list (Z * Z) }.

Definition flow_round (update_cache inv_cache : list cache_op -> list (cache_op * mica_resp))
    (ops : list cache_op) (arr1 arr2 : list nat) (c : client) : outcome (client * list cache_op * sends) :=
  let count := fun _ _ => 0 in
  let* p := poll_coherence_LIN (c_inbox c) (c_update_ops c) (c_inv_ops c)
              (ack_size (c_acks c)) (inv_size (c_invs c)) in
  let* _ := c_assert (update_ops_i p <=? BCAST_TO_CACHE_BATCH) in
  let ups := update_cache (array_take (update_ops_i p) (po_update_ops p)) in
  let* (count, q) := updates_and_acks_bookkeeping ups (count, c_acks c) in
  let invs := inv_cache (array_take (inv_ops_i p) (po_inv_ops p)) in
  let* (count, b) := invs_bookkeeping invs (count, c_invs c) in
  let* bc := perform_broadcasts_LIN ops q count (c_ledger c) arr1 (c_br_tx c) in
  let* ak :=
    if 0 <? inv_size b then send_acks b (bc_count bc) (bc_ledger bc) arr2 (c_ack_tx c)
    else Done (mkAcks b (bc_count bc) (bc_ledger bc) arr2 (c_ack_tx c) 0 []) in
  let* (fc, cq) := forge_credits_LIN (as_count ak) (c_seen c) (c_coh_recv_cq c) in
  let ib := send_credits (length (credit_wr fc)) (po_inbox p) in
  Done (mkClient ib cq (array_put ups.*1 (po_update_ops p)) (array_put invs.*1 (po_inv_ops p)) (bc_ack bc) (as_buffer ak) (as_ledger ak)
          (seen fc) (br_tx bc) (sent_ack_tx ak),
        bc_ops bc,
        mkSends (mjoin ((fun op => (fun d => mkMsg d op) <$> others machine_id) <$> bc_sent bc)
                 ++ as_sent ak) (credit_wr fc)).

End client.

(** ** Start of a client *)
Definition setup_credits : Z -> Z -> Z := fun vc _ =>
  if vc =? ACK_VC then ACK_CREDITS else if vc =? INV_VC then INV_CREDITS else UPD_CREDITS.

(** The receives fill the ring once; the result is the [push_ptr]. *)
Definition post_coh_recvs (push_ptr : Z) : Z :=
  Nat.iter (Z.to_nat LIN_MAX_COH_RECEIVES) (fun p => HRD_MOD_ADD p LIN_CLT_BUF_SLOTS) push_ptr.

(** The buffers in allocated memory; only [inv_to_send_ops] is initialised. *)
Definition setup_coh_ops (fresh : Z -> cache_op) (fresh_invs : list cache_op) : ack_queue * inv_buffer :=
  (mkAckQ fresh 0 0 0, mkInvB (set_opcode EMPTY <$> fresh_invs) 0 0).

Definition client_start (fresh : Z -> cache_op) (fresh_invs : list cache_op) : client :=
  let '(acks, invs) := setup_coh_ops fresh fresh_invs in
  mkClient
    (mkInbox (fun p => set_opcode 0 (fresh p)) (-1) (post_coh_recvs 0) 0 LIN_MAX_COH_RECEIVES)
    0 fresh fresh acks invs (mkLedger setup_credits [] 0) (fun _ _ => 0) 0 0.
