(* ===== verification/FlowSpec.v ===== *)
(** * What a round of the LIN client does with messages and credits

    Abstractions of the buffers of [Flow]: the receive ring is a queue of unread
    messages, [ack_bcast_ops] a queue of senders, [inv_to_send_ops] a bag.  Each
    function of a round moves messages between them; what is counted for a
    virtual channel and a machine is neither lost nor duplicated, and no
    assertion fails. *)
From S2P Require Import Prelude Config Optik Layout City Mica Cache Network Flow.

(** ** Counting *)
Definition vc_of (op : cache_op) : Z :=
  if opcode op =? CACHE_OP_ACK then ACK_VC else if opcode op =? CACHE_OP_INV then INV_VC else UPD_VC.

Fixpoint sum_over {A} (f : A -> Z) (l : list A) : Z :=
  match l with
  | [] => 0
  | x :: l => f x + sum_over f l
  end.

Lemma sum_over_app {A} (f : A -> Z) l1 l2 : sum_over f (l1 ++ l2) = sum_over f l1 + sum_over f l2.
Proof. induction l1; simpl; lia. Qed.

Lemma sum_over_nonneg {A} (f : A -> Z) l : (forall x, 0 <= f x) -> 0 <= sum_over f l.
Proof. intros H. induction l as [|x l IH]; simpl; [lia|]. pose proof (H x). lia. Qed.

Lemma sum_over_bound {A} (f : A -> Z) l : (forall x, f x <= 1) -> sum_over f l <= Z.of_nat (length l).
Proof. intros H. induction l as [|x l IH]; simpl; [lia|]. pose proof (H x). lia. Qed.

Lemma sum_over_ext {A B} (f : A -> Z) (g : B -> Z) l l' :
  Forall2 (fun x y => f x = g y) l l' -> sum_over f l = sum_over g l'.
Proof. induction 1; simpl; lia. Qed.

(** Messages of channel [vc] from machine [s]. *)
Definition cnt (vc s : Z) : list cache_op -> Z :=
  sum_over (fun op => zb ((vc_of op =? vc) && (cid (meta op) =? s))).

(** Occurrences of [s] in a list of senders. *)
Definition occ (s : Z) : list Z -> Z := sum_over (fun x => zb (x =? s)).

(** Invalidations from [s] waiting to be acknowledged. *)
Definition brc (s : Z) : list cache_op -> Z :=
  sum_over (fun op => zb ((opcode op =? CACHE_OP_BRC) && (cid (meta op) =? s))).

(** Credit messages for channel [vc] of machine [r]. *)
Definition cred (vc r : Z) : list Z -> Z :=
  sum_over (fun imm => zb (bool_decide (credit_channel imm = (vc, r)))).

(** What may still be sent to [r] on [vc], counting credits that have arrived. *)
Definition purse (vc r : Z) (lg : ledger) : Z :=
  credits lg vc r + CREDITS_IN_MESSAGE * cred vc r (credit_cq lg).

Lemma cred_nonneg vc r l : 0 <= cred vc r l.
Proof. apply sum_over_nonneg. intros. apply zb_range. Qed.
Lemma cnt_nonneg vc r l : 0 <= cnt vc r l.
Proof. apply sum_over_nonneg. intros. apply zb_range. Qed.
Lemma occ_nonneg s l : 0 <= occ s l.
Proof. apply sum_over_nonneg. intros. apply zb_range. Qed.
Lemma brc_nonneg s l : 0 <= brc s l.
Proof. apply sum_over_nonneg. intros. apply zb_range. Qed.

Lemma upd2_eq f vc m v : upd2 f vc m v vc m = v.
Proof. unfold upd2. by rewrite !Z.eqb_refl. Qed.

Lemma upd2_add f vc m vc' m' d :
  upd2 f vc m (f vc m + d) vc' m' = f vc' m' + d * zb ((vc' =? vc) && (m' =? m)).
Proof. unfold upd2. repeat zcase; subst; simpl; lia. Qed.

(** ** Positions in a ring *)
Lemma ring_inj N p i j :
  0 <= i < N -> 0 <= j < N -> i <> j -> (p + i) mod N <> (p + j) mod N.
Proof.
  intros Hi Hj Hne E. assert (HN : N <> 0) by lia.
  pose proof (Z.div_mod (p + i) N HN). pose proof (Z.div_mod (p + j) N HN). rewrite E in *.
  assert (E2 : N * ((p + i) / N - (p + j) / N) = i - j) by lia.
  assert ((p + i) / N - (p + j) / N = 0) by nia. lia.
Qed.

Lemma HRD_MOD_ADD_mod p N : 0 < N -> -1 <= p < N -> HRD_MOD_ADD p N = (p + 1) mod N.
Proof.
  intros HN Hp. unfold HRD_MOD_ADD. destruct (Z.eqb_spec (p + 1) N) as [E|E].
  - by rewrite E, Z.mod_same by lia.
  - by rewrite Z.mod_small by lia.
Qed.

Lemma iter_MOD_ADD k p N :
  0 < N -> 0 <= p < N -> Nat.iter k (fun x => HRD_MOD_ADD x N) p = (p + Z.of_nat k) mod N.
Proof.
  intros HN Hp. induction k as [|k IH]; [simpl; by rewrite Z.add_0_r, Z.mod_small|].
  rewrite Nat.iter_succ, IH. rewrite HRD_MOD_ADD_mod by (lia || (pose proof (Z.mod_pos_bound (p + Z.of_nat k) N HN); lia)).
  rewrite Z.add_mod_idemp_l by lia. f_equal. lia.
Qed.

(** ** The receive ring as a queue *)
Record is_msg (m : Z) (op : cache_op) : Prop := {
  ms_opcode : is_coherence (opcode op) = true;
  ms_cid : cid (meta op) ∈ others m
}.

Record ring_ok (m : Z) (ib : inbox) (l : list cache_op) : Prop := {
  rg_pull : -1 <= pull_ptr ib < LIN_CLT_BUF_SLOTS;
  rg_recvs : 0 <= recvs ib;
  rg_room : Z.of_nat (length l) + recvs ib <= LIN_CLT_BUF_SLOTS;
  rg_nic : nic_ptr ib = (pull_ptr ib + 1 + Z.of_nat (length l)) mod LIN_CLT_BUF_SLOTS;
  rg_push : push_ptr ib = (nic_ptr ib + recvs ib) mod LIN_CLT_BUF_SLOTS;
  rg_slots : forall i op, l !! i = Some op ->
    incoming_reqs ib ((pull_ptr ib + 1 + Z.of_nat i) mod LIN_CLT_BUF_SLOTS) = op;
  rg_msgs : Forall (is_msg m) l;
  rg_free : forall i, Z.of_nat (length l) <= i < LIN_CLT_BUF_SLOTS ->
    opcode (incoming_reqs ib ((pull_ptr ib + 1 + i) mod LIN_CLT_BUF_SLOTS)) = 0
}.

Definition same_header (x op : cache_op) : Prop := meta x = meta op /\ opcode x = opcode op.

(** The bytes of the message [op] in a buffer slot: an update is copied with its
    value, the other messages are a key and an opcode. *)
Definition recv_msg (slot op : cache_op) : cache_op :=
  if opcode op =? CACHE_OP_UPD then recv_put_req slot op else recv_get_req slot op.

Definition received_as (x op : cache_op) : Prop := exists slot, x = recv_msg slot op.

Lemma received_header x op : received_as x op -> same_header x op.
Proof. intros [slot ->]. unfold recv_msg. by destruct (_ =? _). Qed.

Lemma slots_val : LIN_CLT_BUF_SLOTS = 540.
Proof. reflexivity. Qed.
Lemma batch_val : BCAST_TO_CACHE_BATCH = 500.
Proof. reflexivity. Qed.

Lemma others_bound m c : c ∈ others m -> 0 <= c < MACHINE_NUM.
Proof. intros [H _]%elem_of_others. by apply machines_spec. Qed.

(** Reading the next message. *)
Lemma ring_pull m ib op l :
  ring_ok m ib (op :: l) ->
  let p := HRD_MOD_ADD (pull_ptr ib) LIN_CLT_BUF_SLOTS in
  p = (pull_ptr ib + 1) mod LIN_CLT_BUF_SLOTS /\ 0 <= p /\
  incoming_reqs ib p = op /\ ring_ok m (clear_slot ib p) l.
Proof.
  intros [H1 H2 H3 H4 H5 H6 H7 H8] p.
  assert (Ep : p = (pull_ptr ib + 1) mod LIN_CLT_BUF_SLOTS) by (apply HRD_MOD_ADD_mod; [done|lia]).
  assert (Hp : 0 <= p < LIN_CLT_BUF_SLOTS) by (rewrite Ep; apply Z.mod_pos_bound; done).
  assert (Hop : incoming_reqs ib p = op).
  { rewrite Ep. rewrite <- (Z.add_0_r (pull_ptr ib + 1)). apply (H6 0%nat). done. }
  assert (Hshift : forall k, (p + 1 + k) mod LIN_CLT_BUF_SLOTS
                             = (pull_ptr ib + 1 + (1 + k)) mod LIN_CLT_BUF_SLOTS).
  { intros k. rewrite Ep, <- Z.add_assoc, Z.add_mod_idemp_l by done. f_equal; lia. }
  assert (Hne : forall i, 0 < i < LIN_CLT_BUF_SLOTS -> (pull_ptr ib + 1 + i) mod LIN_CLT_BUF_SLOTS <> p).
  { intros i Hi. pose proof (ring_inj LIN_CLT_BUF_SLOTS (pull_ptr ib + 1) i 0) as Hr.
    rewrite Z.add_0_r in Hr. rewrite Ep. apply Hr; lia. }
  cbn [length] in H3, H4, H8. rewrite Nat2Z.inj_succ in *.
  split; [done|]. split; [lia|]. split; [done|]. apply Forall_cons in H7 as [_ H7].
  split; unfold clear_slot; cbn [pull_ptr push_ptr nic_ptr recvs incoming_reqs]; try done; try lia.
  - rewrite H4, Hshift. f_equal. lia.
  - intros i x Hx. rewrite Hshift. pose proof (lookup_lt_Some _ _ _ Hx).
    rewrite fupd_ne by (apply Hne; lia).
    replace (1 + Z.of_nat i) with (Z.of_nat (S i)) by lia. by apply H6.
  - intros i Hi. rewrite Hshift.
    destruct (decide (1 + i = LIN_CLT_BUF_SLOTS)) as [E|E].
    + rewrite E, Z.add_comm, Z.add_mod, Z.mod_same, Z.add_0_l, Z.mod_mod by done.
      rewrite <- Ep, fupd_eq. done.
    + rewrite fupd_ne by (apply Hne; lia). apply H8. lia.
Qed.

Lemma array_take_snoc a i x : 0 <= i -> array_take (i + 1) (fupd a i x) = array_take i a ++ [x].
Proof.
  intros Hi. unfold array_take. rewrite seqZ_app by lia. rewrite fmap_app. f_equal.
  - apply list_fmap_ext. intros k y Hy%lookup_seqZ. rewrite fupd_ne; [done|lia].
  - rewrite (seqZ_cons _ 1) by lia. simpl. by rewrite fupd_eq.
Qed.

(** ** Polling *)
Definition is_inv (op : cache_op) : Prop := opcode op = CACHE_OP_INV.
#[export] Instance is_inv_dec op : Decision (is_inv op).
Proof. unfold is_inv. apply _. Defined.

Definition updates_of (l : list cache_op) : list cache_op := filter (fun op => ~ is_inv op) l.
Definition invs_of (l : list cache_op) : list cache_op := filter is_inv l.

Lemma split_inv op l :
  is_inv op -> updates_of (op :: l) = updates_of l /\ invs_of (op :: l) = op :: invs_of l.
Proof.
  intros H. unfold updates_of, invs_of. by rewrite filter_cons_False, filter_cons_True by tauto.
Qed.
Lemma split_update op l :
  ~ is_inv op -> updates_of (op :: l) = op :: updates_of l /\ invs_of (op :: l) = invs_of l.
Proof.
  intros H. unfold updates_of, invs_of. by rewrite filter_cons_True, filter_cons_False by tauto.
Qed.

(** Acknowledgements in a list of messages. *)
Definition acks_in : list cache_op -> Z := sum_over (fun op => zb (opcode op =? CACHE_OP_ACK)).

(** The arrays of a poll hold the messages [ups] and [invs]. *)
Record polled_as (p : polled) (ups invs : list cache_op) : Prop := {
  pa_ups : Forall2 received_as (array_take (update_ops_i p) (po_update_ops p)) ups;
  pa_invs : Forall2 received_as (array_take (inv_ops_i p) (po_inv_ops p)) invs;
  pa_ups_i : update_ops_i p = Z.of_nat (length ups);
  pa_invs_i : inv_ops_i p = Z.of_nat (length invs);
  pa_acks : ack_ops_i p = acks_in ups
}.

Lemma poll_one_nil m acks invs p :
  ring_ok m (po_inbox p) [] -> poll_one acks invs p = Done None.
Proof.
  intros Hr. unfold poll_one.
  pose proof (rg_free _ _ _ Hr 0 ltac:(simpl; rewrite slots_val; lia)) as H0. rewrite Z.add_0_r in H0.
  rewrite H0. done.
Qed.

Lemma received_get s op : opcode op <> CACHE_OP_UPD -> received_as (recv_get_req s op) op.
Proof. intros H%Z.eqb_neq. exists s. unfold recv_msg. by rewrite H. Qed.

Lemma cid_lt m op : is_msg m op -> (cid (meta op) <? MACHINE_NUM) = true.
Proof. intros [_ H%others_bound]. apply Z.ltb_lt. lia. Qed.

Lemma poll_one_update m acks invs p op l ups iv :
  ring_ok m (po_inbox p) (op :: l) -> polled_as p ups iv -> ~ is_inv op ->
  acks + ack_ops_i p <> BCAST_TO_CACHE_BATCH ->
  exists p', poll_one acks invs p = Done (Some p') /\ ring_ok m (po_inbox p') l /\
    recvs (po_inbox p') = recvs (po_inbox p) /\ polled_as p' (ups ++ [op]) iv.
Proof.
  intros Hr [H1 H2 H3 H4 H5] Hi Hb. destruct (ring_pull _ _ _ _ Hr) as (Ep & Hp & Hop & Hr').
  pose proof (Forall_inv (rg_msgs _ _ _ Hr)) as Hm. unfold is_inv in Hi. apply Z.eqb_neq in Hi.
  unfold poll_one. rewrite <- Ep, Hop, (ms_opcode _ _ Hm), Hi. cbn [negb].
  apply Z.eqb_neq in Hb. rewrite Hb. apply Z.leb_le in Hp.
  set (slot := if opcode op =? CACHE_OP_UPD then _ else _).
  assert (Hs : received_as slot op) by (by exists (po_update_ops p (update_ops_i p))).
  rewrite (proj1 (received_header _ _ Hs)), (cid_lt _ _ Hm), Hp. cbn [c_assert obind].
  eexists. split; [done|]. split; [done|]. split; [done|]. split; cbn [update_ops_i po_update_ops po_inv_ops inv_ops_i ack_ops_i].
  - rewrite array_take_snoc by lia. apply Forall2_app; [done|]. by constructor.
  - done.
  - rewrite length_app, H3. simpl. lia.
  - done.
  - unfold acks_in. rewrite sum_over_app. fold (acks_in ups). rewrite <- H5. simpl.
    destruct (opcode op =? CACHE_OP_ACK); simpl; lia.
Qed.

Lemma poll_one_inv m acks invs p op l ups iv :
  ring_ok m (po_inbox p) (op :: l) -> polled_as p ups iv -> is_inv op ->
  invs + inv_ops_i p <> BCAST_TO_CACHE_BATCH ->
  exists p', poll_one acks invs p = Done (Some p') /\ ring_ok m (po_inbox p') l /\
    recvs (po_inbox p') = recvs (po_inbox p) /\ polled_as p' ups (iv ++ [op]).
Proof.
  intros Hr [H1 H2 H3 H4 H5] Hi Hb. destruct (ring_pull _ _ _ _ Hr) as (Ep & Hp & Hop & Hr').
  pose proof (Forall_inv (rg_msgs _ _ _ Hr)) as Hm. unfold is_inv in Hi. apply Z.eqb_eq in Hi.
  unfold poll_one. rewrite <- Ep, Hop, (ms_opcode _ _ Hm), Hi. cbn [negb].
  apply Z.eqb_neq in Hb. rewrite Hb. apply Z.leb_le in Hp.
  change (cid (meta (recv_get_req (po_inv_ops p (inv_ops_i p)) op))) with (cid (meta op)).
  rewrite (cid_lt _ _ Hm), Hp. cbn [c_assert obind].
  eexists. split; [done|]. split; [done|]. split; [done|]. split; cbn [update_ops_i po_update_ops po_inv_ops inv_ops_i ack_ops_i]; try done.
  - rewrite array_take_snoc by lia. apply Forall2_app; [done|]. constructor; [|done]. apply received_get. intros E. by rewrite E in Hi.
  - rewrite length_app, H4. simpl. lia.
Qed.

(** What is polled fits in the queues it may have to wait in: this is the code's
    own back pressure. *)
Record poll_result (m acks invs : Z) (p : polled) (l1 l2 ups iv : list cache_op) : Prop := {
  pr_ring : ring_ok m (po_inbox p) l2;
  pr_polled : polled_as p (ups ++ updates_of l1) (iv ++ invs_of l1);
  pr_acks : acks + acks_in (ups ++ updates_of l1) <= BCAST_TO_CACHE_BATCH;
  pr_invs : invs + Z.of_nat (length (iv ++ invs_of l1)) <= BCAST_TO_CACHE_BATCH
}.

Lemma poll_loop_ok n : forall m acks invs p l ups iv,
  ring_ok m (po_inbox p) l -> polled_as p ups iv ->
  acks + acks_in ups <= BCAST_TO_CACHE_BATCH ->
  invs + Z.of_nat (length iv) <= BCAST_TO_CACHE_BATCH ->
  exists p' l1 l2, poll_loop n acks invs p = Done p' /\ l = l1 ++ l2 /\ (length l1 <= n)%nat /\
    recvs (po_inbox p') = recvs (po_inbox p) /\ poll_result m acks invs p' l1 l2 ups iv.
Proof.
  induction n as [|n IH]; intros m acks invs p l ups iv Hr Hp Ha Hi.
  { exists p, [], l. split_and!; try done. split; simpl; by rewrite ?app_nil_r. }
  assert (Hstop : poll_one acks invs p = Done None ->
    exists p' l1 l2, poll_loop (S n) acks invs p = Done p' /\ l = l1 ++ l2 /\ (length l1 <= S n)%nat /\
    recvs (po_inbox p') = recvs (po_inbox p) /\ poll_result m acks invs p' l1 l2 ups iv).
  { intros E. exists p, [], l. simpl. rewrite E. split_and!; try done; [lia|].
    split; simpl; by rewrite ?app_nil_r. }
  destruct l as [|op l]; [by apply Hstop, (poll_one_nil m)|].
  pose proof (Forall_inv (rg_msgs _ _ _ Hr)) as Hm.
  destruct (decide (is_inv op)) as [Hinv|Hinv].
  - destruct (decide (invs + inv_ops_i p = BCAST_TO_CACHE_BATCH)) as [E|E].
    { apply Hstop. destruct (ring_pull _ _ _ _ Hr) as (Ep & _ & Hop & _). unfold poll_one.
      rewrite <- Ep, Hop, (ms_opcode _ _ Hm). unfold is_inv in Hinv. rewrite Hinv. simpl.
      apply Z.eqb_eq in E. by rewrite E. }
    destruct (poll_one_inv m acks invs p op l ups iv Hr Hp Hinv E) as (p1 & E1 & Hr1 & Hc1 & Hp1).
    destruct (IH m acks invs p1 l ups (iv ++ [op]) Hr1 Hp1 Ha) as (p2 & l1 & l2 & E2 & -> & Hl & Hc2 & [R1 R2 R3 R4]).
    { rewrite length_app, (pa_invs_i _ _ _ Hp) in *. simpl. lia. }
    exists p2, (op :: l1), l2. simpl. rewrite E1. cbn [obind]. rewrite E2.
    split_and!; [done|done|lia|congruence|].
    rewrite <- app_assoc in R2, R4. destruct (split_inv op l1 Hinv) as [Eu Ei]. by split; rewrite ?Eu, ?Ei.
  - destruct (decide (acks + ack_ops_i p = BCAST_TO_CACHE_BATCH)) as [E|E].
    { apply Hstop. destruct (ring_pull _ _ _ _ Hr) as (Ep & _ & Hop & _). unfold poll_one.
      rewrite <- Ep, Hop, (ms_opcode _ _ Hm). unfold is_inv in Hinv. apply Z.eqb_neq in Hinv. rewrite Hinv. simpl.
      apply Z.eqb_eq in E. by rewrite E. }
    destruct (poll_one_update m acks invs p op l ups iv Hr Hp Hinv E) as (p1 & E1 & Hr1 & Hc1 & Hp1).
    destruct (IH m acks invs p1 l (ups ++ [op]) iv Hr1 Hp1) as (p2 & l1 & l2 & E2 & -> & Hl & Hc2 & [R1 R2 R3 R4]).
    { unfold acks_in in *. rewrite sum_over_app. rewrite (pa_acks _ _ _ Hp) in E. unfold acks_in in E. simpl.
      pose proof (zb_range (opcode op =? CACHE_OP_ACK)). lia. }
    { done. }
    exists p2, (op :: l1), l2. simpl. rewrite E1. cbn [obind]. rewrite E2.
    split_and!; [done|done|lia|congruence|].
    rewrite <- app_assoc in R2, R3. destruct (split_update op l1 Hinv) as [Eu Ei].
    by split; rewrite ?Eu, ?Ei.
Qed.

(** ** Completed writes waiting for their update *)

(** The queue [ack_bcast_ops] holds the completed writes of [senders] (the
    machines of the last acknowledgements); [sent] of its updates were already
    sent in this round, but [ack_size] still counts them. *)
Record ackq_ok (m : Z) (q : ack_queue) (sent : Z) (senders : list Z) : Prop := {
  aq_pop : 0 <= ack_pop_ptr q < BCAST_TO_CACHE_BATCH;
  aq_size : ack_size q = sent + Z.of_nat (length senders);
  aq_room : 0 <= sent /\ ack_size q <= BCAST_TO_CACHE_BATCH;
  aq_push : ack_push_ptr q = (ack_pop_ptr q + Z.of_nat (length senders)) mod BCAST_TO_CACHE_BATCH;
  aq_cids : forall i c, senders !! i = Some c ->
    cid (meta (ack_bcast_ops q ((ack_pop_ptr q + Z.of_nat i) mod BCAST_TO_CACHE_BATCH))) = c;
  aq_senders : Forall (fun c => c ∈ others m) senders;
  aq_free : forall i, Z.of_nat (length senders) <= i < BCAST_TO_CACHE_BATCH ->
    opcode (ack_bcast_ops q ((ack_pop_ptr q + i) mod BCAST_TO_CACHE_BATCH)) <> CACHE_OP_ACK
}.

Lemma ackq_push m q senders op n :
  ackq_ok m q 0 senders -> cid (meta op) ∈ others m ->
  Z.of_nat (length senders) < BCAST_TO_CACHE_BATCH ->
  opcode (ack_bcast_ops q (ack_push_ptr q)) <> CACHE_OP_ACK /\
  ackq_ok m (mkAckQ (fupd (ack_bcast_ops q) (ack_push_ptr q) (set_val_len n op))
               (HRD_MOD_ADD (ack_push_ptr q) BCAST_TO_CACHE_BATCH) (ack_pop_ptr q)
               (u16 (ack_size q + 1))) 0 (senders ++ [cid (meta op)]).
Proof.
  intros [H1 H2 [_ H3] H4 H5 H6 H7] Hc Hl. rewrite batch_val in *.
  assert (Hne : forall i, 0 <= i < 500 -> i <> Z.of_nat (length senders) ->
    (ack_pop_ptr q + i) mod 500 <> ack_push_ptr q).
  { intros i Hi Hn. rewrite H4. apply ring_inj; lia. }
  assert (Hp : 0 <= ack_push_ptr q < 500) by (rewrite H4; apply Z.mod_pos_bound; done).
  split; [rewrite H4; apply H7; lia|].
  assert (Hlen : Z.of_nat (length (senders ++ [cid (meta op)])) = Z.of_nat (length senders) + 1)
    by (rewrite length_app; simpl; lia).
  split; rewrite ?batch_val; cbn [ack_bcast_ops ack_push_ptr ack_pop_ptr ack_size]; try done.
  - rewrite u16_small by (unfold is_u16; lia). lia.
  - rewrite u16_small by (unfold is_u16; lia). lia.
  - rewrite HRD_MOD_ADD_mod by lia. rewrite H4, Z.add_mod_idemp_l by lia. f_equal. lia.
  - intros i c [[Hlt Hi]|[-> <-]]%lookup_snoc_Some.
    + rewrite fupd_ne by (apply Hne; lia). by apply H5.
    + by rewrite <- H4, fupd_eq.
  - apply Forall_app. split; [done|]. by constructor.
  - intros i Hi. rewrite fupd_ne by (apply Hne; lia). apply H7. lia.
Qed.

Definition small (count : count_array) (b : Z) : Prop := forall vc s, 0 <= count vc s <= b.

Lemma small_incr count b vc c :
  small count b -> b + 1 < 2 ^ 16 -> small (upd2 count vc c (u16 (count vc c + 1))) (b + 1).
Proof.
  intros H Hb vc' s. pose proof (H vc c). pose proof (H vc' s). unfold upd2.
  rewrite u16_small by (unfold is_u16; lia). destruct (_ && _); lia.
Qed.

Lemma incr_eq count b vc c vc' s :
  small count b -> b + 1 < 2 ^ 16 ->
  upd2 count vc c (u16 (count vc c + 1)) vc' s = count vc' s + zb ((vc' =? vc) && (s =? c)).
Proof.
  intros H Hb. pose proof (H vc c). rewrite u16_small by (unfold is_u16; lia).
  rewrite upd2_add. lia.
Qed.

(** Updates and acknowledgements as the cache answers them. *)
Definition upd_or_ack (m : Z) (op : cache_op) : Prop :=
  cid (meta op) ∈ others m /\ (opcode op = CACHE_OP_UPD \/ opcode op = CACHE_OP_ACK).

(** The one message counts where it went: to the counters or to the queue. *)
Lemma bookkeep_update_ok m op r count q senders b :
  small count b -> b + 1 < 2 ^ 16 -> ackq_ok m q 0 senders -> upd_or_ack m op ->
  Z.of_nat (length senders) + zb (opcode op =? CACHE_OP_ACK) <= BCAST_TO_CACHE_BATCH ->
  exists count' q' new, bookkeep_update (op, r) (count, q) = Done (count', q') /\
    small count' (b + 1) /\ ackq_ok m q' 0 (senders ++ new) /\
    Z.of_nat (length new) <= zb (opcode op =? CACHE_OP_ACK) /\
    forall vc s, count' vc s + zb (vc =? ACK_VC) * occ s new
                 = count vc s + zb ((vc_of op =? vc) && (cid (meta op) =? s)).
Proof.
  intros Hc Hb Hq [Hcid Hop] Hl.
  assert (Hbump : forall vc0, vc_of op = vc0 -> exists count' q' new,
    Done (upd2 count vc0 (cid (meta op)) (u16 (count vc0 (cid (meta op)) + 1)), q) = Done (count', q') /\
    small count' (b + 1) /\ ackq_ok m q' 0 (senders ++ new) /\
    Z.of_nat (length new) <= zb (opcode op =? CACHE_OP_ACK) /\
    forall vc s, count' vc s + zb (vc =? ACK_VC) * occ s new
                 = count vc s + zb ((vc_of op =? vc) && (cid (meta op) =? s))).
  { intros vc0 Hvc. eexists _, _, []. split; [done|]. rewrite app_nil_r.
    split; [by apply small_incr|]. split; [done|]. split; [apply zb_range|]. intros vc s.
    rewrite (incr_eq count b), Hvc, (Z.eqb_sym vc vc0), (Z.eqb_sym s) by done.
    change (occ s []) with 0. lia. }
  unfold bookkeep_update. cbv beta iota zeta. destruct Hop as [Eop|Eop].
  { rewrite Eop. change (CACHE_OP_UPD =? CACHE_OP_UPD) with true. rewrite <- Eop. apply Hbump. unfold vc_of. by rewrite Eop. }
  replace (opcode op =? CACHE_OP_UPD) with false by (by rewrite Eop). destruct (resp_type r =? CACHE_LAST_ACK_SUCCESS);
    [|apply Hbump; unfold vc_of; by rewrite Eop].
  rewrite Eop in Hl |- *. change (zb (CACHE_OP_ACK =? CACHE_OP_ACK)) with 1 in Hl.
  assert (Hlt : Z.of_nat (length senders) < BCAST_TO_CACHE_BATCH) by lia.
  destruct (ackq_push m q senders op (Z.shiftr HERD_VALUE_SIZE SHIFT_BITS) Hq Hcid Hlt) as [Hfree Hq1].
  apply Z.eqb_neq in Hfree. rewrite Hfree.
  eexists _, _, [_]. split; [done|].
  split; [intros vc s; specialize (Hc vc s); lia|]. split; [done|]. split; [done|].
  intros vc s. unfold vc_of. rewrite Eop. change (CACHE_OP_ACK =? CACHE_OP_ACK) with true. cbv iota.
  rewrite (Z.eqb_sym ACK_VC vc). unfold occ. cbn [sum_over].
  destruct (vc =? ACK_VC), (cid (meta op) =? s); cbn [zb andb]; lia.
Qed.

Lemma bookkeep_updates_ok m l : forall count q senders b,
  small count b -> b + Z.of_nat (length l) < 2 ^ 16 -> ackq_ok m q 0 senders ->
  Z.of_nat (length senders) + acks_in l.*1 <= BCAST_TO_CACHE_BATCH ->
  Forall (fun x => upd_or_ack m x.1) l ->
  exists count' q' new, updates_and_acks_bookkeeping l (count, q) = Done (count', q') /\
    small count' (b + Z.of_nat (length l)) /\ ackq_ok m q' 0 (senders ++ new) /\
    forall vc s, count' vc s + zb (vc =? ACK_VC) * occ s new = count vc s + cnt vc s l.*1.
Proof.
  induction l as [|[op r] l IH]; intros count q senders b Hc Hb Hq Hl Hm.
  { exists count, q, []. simpl. rewrite app_nil_r, Z.add_0_r. split_and!; try done. intros. unfold occ, cnt. simpl. lia. }
  apply Forall_cons in Hm as [Hop Hm]. rewrite fmap_cons in Hl |- *.
  change (acks_in ((op, r).1 :: l.*1)) with (zb (opcode op =? CACHE_OP_ACK) + acks_in l.*1) in Hl.
  assert (0 <= acks_in l.*1) by (apply sum_over_nonneg; intros; apply zb_range).
  cbn [length] in Hb |- *. rewrite Nat2Z.inj_succ in Hb |- *.
  destruct (bookkeep_update_ok m op r count q senders b Hc ltac:(lia) Hq Hop ltac:(lia))
    as (c1 & q1 & n1 & E1 & Hc1 & Hq1 & Hn1 & Heq1).
  destruct (IH c1 q1 (senders ++ n1) (b + 1) Hc1 ltac:(lia) Hq1) as (c2 & q2 & n2 & E2 & Hc2 & Hq2 & Heq2);
    [rewrite length_app; lia|done|].
  exists c2, q2, (n1 ++ n2). cbn [updates_and_acks_bookkeeping]. rewrite E1. cbn [obind].
  split; [done|]. split; [|split; [by rewrite <- app_assoc in Hq2|]].
  - intros vc s. specialize (Hc2 vc s). lia.
  - intros vc s. specialize (Heq1 vc s). specialize (Heq2 vc s). unfold occ in *. rewrite sum_over_app.
    change (cnt vc s ((op, r).1 :: l.*1)) with (zb ((vc_of op =? vc) && (cid (meta op) =? s)) + cnt vc s l.*1).
    lia.
Qed.

(** ** Invalidations waiting for their acknowledgement *)
Definition waiting_invs : list cache_op -> Z := sum_over (fun op => zb (opcode op =? CACHE_OP_BRC)).

Record invb_ok (m : Z) (b : inv_buffer) : Prop := {
  ib_length : Z.of_nat (length (inv_to_send_ops b)) = BCAST_TO_CACHE_BATCH;
  ib_push : 0 <= inv_push_ptr b < BCAST_TO_CACHE_BATCH;
  ib_size : inv_size b = waiting_invs (inv_to_send_ops b);
  ib_cids : Forall (fun op => opcode op = CACHE_OP_BRC -> cid (meta op) ∈ others m) (inv_to_send_ops b)
}.

Lemma sum_over_insert {A} (f : A -> Z) l k x y :
  l !! k = Some y -> sum_over f (<[k := x]> l) = sum_over f l - f y + f x.
Proof.
  revert k. induction l as [|z l IH]; intros [|k] H; simplify_eq/=; [lia|]. rewrite (IH k) by done. lia.
Qed.

Lemma waiting_full l :
  (forall k op, l !! k = Some op -> opcode op = CACHE_OP_BRC) -> waiting_invs l = Z.of_nat (length l).
Proof.
  intros H. unfold waiting_invs. induction l as [|op l IH]; [done|]. cbn [sum_over length].
  rewrite IH by (intros k; apply (H (S k))). rewrite (H 0%nat op eq_refl). simpl. lia.
Qed.

Lemma find_inv_slot_spec n : forall i p ops,
  Z.of_nat (length ops) = BCAST_TO_CACHE_BATCH -> 0 <= p < BCAST_TO_CACHE_BATCH -> 0 <= i ->
  let k := find_inv_slot n i p ops in
  (0 <= k < BCAST_TO_CACHE_BATCH /\
   exists op, ops !! Z.to_nat k = Some op /\ opcode op <> CACHE_OP_BRC) \/
  (forall j, i <= j < i + Z.of_nat n ->
     exists op, ops !! Z.to_nat ((p + j) mod BCAST_TO_CACHE_BATCH) = Some op /\ opcode op = CACHE_OP_BRC).
Proof.
  induction n as [|n IH]; intros i p ops Hl Hp Hi k; [right; intros; lia|].
  unfold k. cbn [find_inv_slot]. set (a := (p + i) mod BCAST_TO_CACHE_BATCH).
  assert (Ha : 0 <= a < BCAST_TO_CACHE_BATCH) by (apply Z.mod_pos_bound; done).
  destruct (lookup_lt_is_Some_2 ops (Z.to_nat a) ltac:(lia)) as [op Hop]. rewrite Hop.
  destruct (Z.eqb_spec (opcode op) CACHE_OP_BRC) as [E|E]; [|left; split; [done|by exists op]].
  destruct (IH (i + 1) p ops Hl Hp ltac:(lia)) as [Hf|Hall]; [by left|right].
  intros j Hj. destruct (decide (j = i)) as [->|]; [by exists op|]. apply Hall. lia.
Qed.

(** A buffer that is not full has a free slot. *)
Lemma free_slot m b :
  invb_ok m b -> inv_size b < BCAST_TO_CACHE_BATCH ->
  let k := find_inv_slot (Z.to_nat BCAST_TO_CACHE_BATCH) 0 (inv_push_ptr b) (inv_to_send_ops b) in
  0 <= k < BCAST_TO_CACHE_BATCH /\
  exists op, inv_to_send_ops b !! Z.to_nat k = Some op /\ opcode op <> CACHE_OP_BRC.
Proof.
  intros [H1 H2 H3 _] Hs k.
  destruct (find_inv_slot_spec (Z.to_nat BCAST_TO_CACHE_BATCH) 0 _ _ H1 H2 ltac:(lia)) as [|Hall]; [done|exfalso].
  rewrite waiting_full in H3; [lia|]. intros i op Hi. rewrite batch_val in *.
  pose proof (lookup_lt_Some _ _ _ Hi).
  destruct (Hall ((Z.of_nat i - inv_push_ptr b) mod 500)) as (op' & Hop & E).
  { pose proof (Z.mod_pos_bound (Z.of_nat i - inv_push_ptr b) 500). lia. }
  rewrite Z.add_mod_idemp_r in Hop by done.
  replace (inv_push_ptr b + (Z.of_nat i - inv_push_ptr b)) with (Z.of_nat i) in Hop by lia.
  rewrite Z.mod_small, Nat2Z.id in Hop by lia. congruence.
Qed.

Lemma bookkeep_inv_ok m op r count b n :
  small count n -> n + 1 < 2 ^ 16 -> invb_ok m b -> inv_size b < BCAST_TO_CACHE_BATCH ->
  cid (meta op) ∈ others m -> opcode op <> CACHE_OP_BRC ->
  exists count' b', bookkeep_inv (op, r) (count, b) = Done (count', b') /\
    small count' (n + 1) /\ invb_ok m b' /\ inv_size b' <= inv_size b + 1 /\
    forall vc s, count' vc s + zb (vc =? INV_VC) * brc s (inv_to_send_ops b')
                 = count vc s + zb (vc =? INV_VC) * brc s (inv_to_send_ops b)
                   + zb ((INV_VC =? vc) && (cid (meta op) =? s)).
Proof.
  intros Hc Hn Hb Hs Hcid Hop. unfold bookkeep_inv. cbv beta iota zeta.
  destruct (resp_type r =? CACHE_INV_SUCCESS); cbn [negb].
  2: { eexists _, _. split; [done|]. split; [by apply small_incr|]. split; [done|]. split; [lia|].
       intros vc s. rewrite (incr_eq count n), (Z.eqb_sym INV_VC vc), (Z.eqb_sym _ s) by done. lia. }
  destruct (free_slot m b Hb Hs) as (Hk & old & Hold & Hfree).
  set (k := find_inv_slot _ _ _ _) in *. destruct Hb as [H1 H2 H3 H4].
  set (slot := recv_get_req _ op). pose proof (others_bound _ _ Hcid) as Hc4.
  change (opcode slot) with (opcode op). change (cid (meta slot)) with (cid (meta op)).
  apply Z.eqb_neq in Hop as Hop'. rewrite Hop'. cbn [negb c_assert obind].
  rewrite (proj2 (Z.leb_le (cid (meta op)) MACHINE_NUM)) by lia. cbn [c_assert obind].
  eexists _, _. split; [done|]. apply Z.eqb_neq in Hfree as Hfree'.
  assert (Hw : waiting_invs (<[Z.to_nat k := set_opcode CACHE_OP_BRC slot]> (inv_to_send_ops b))
               = waiting_invs (inv_to_send_ops b) + 1).
  { unfold waiting_invs. rewrite (sum_over_insert _ _ _ _ old) by done. rewrite Hfree'. simpl. lia. }
  assert (0 <= inv_size b) by (rewrite H3; apply sum_over_nonneg; intros; apply zb_range).
  rewrite batch_val in *.
  split; [intros vc s; specialize (Hc vc s); lia|]. split; [|split].
  - split; rewrite ?batch_val; cbn [inv_to_send_ops inv_push_ptr inv_size].
    + by rewrite length_insert.
    + done.
    + rewrite u16_small by (unfold is_u16; lia). lia.
    + apply Forall_insert; [done|]. intros _. done.
  - cbn [inv_size]. rewrite u16_small by (unfold is_u16; lia). lia.
  - intros vc s. cbn [inv_to_send_ops]. unfold brc. rewrite (sum_over_insert _ _ _ _ old) by done.
    rewrite Hfree', (Z.eqb_sym INV_VC vc).
    change (opcode (set_opcode CACHE_OP_BRC slot) =? CACHE_OP_BRC) with true.
    change (cid (meta (set_opcode CACHE_OP_BRC slot))) with (cid (meta op)).
    destruct (vc =? INV_VC), (cid (meta op) =? s); cbn [zb andb]; lia.
Qed.

Lemma bookkeep_invs_ok m l : forall count b n,
  small count n -> n + Z.of_nat (length l) < 2 ^ 16 -> invb_ok m b ->
  inv_size b + Z.of_nat (length l) <= BCAST_TO_CACHE_BATCH ->
  Forall (fun x => cid (meta x.1) ∈ others m /\ opcode x.1 <> CACHE_OP_BRC) l ->
  exists count' b', invs_bookkeeping l (count, b) = Done (count', b') /\
    small count' (n + Z.of_nat (length l)) /\ invb_ok m b' /\
    forall vc s, count' vc s + zb (vc =? INV_VC) * brc s (inv_to_send_ops b')
                 = count vc s + zb (vc =? INV_VC) * brc s (inv_to_send_ops b)
                   + zb (INV_VC =? vc) * occ s ((fun x => cid (meta x.1)) <$> l).
Proof.
  induction l as [|[op r] l IH]; intros count b n Hc Hn Hb Hs Hm.
  { exists count, b. rewrite Z.add_0_r. split_and!; try done. intros. unfold occ. simpl. lia. }
  apply Forall_cons in Hm as [[Hcid Hop] Hm]. cbn [length fst] in *. rewrite Nat2Z.inj_succ in *.
  destruct (bookkeep_inv_ok m op r count b n Hc ltac:(lia) Hb ltac:(lia) Hcid Hop)
    as (c1 & b1 & E1 & Hc1 & Hb1 & Hs1 & Heq1).
  destruct (IH c1 b1 (n + 1) Hc1 ltac:(lia) Hb1 ltac:(lia) Hm) as (c2 & b2 & E2 & Hc2 & Hb2 & Heq2).
  exists c2, b2. cbn [invs_bookkeeping]. rewrite E1. cbn [obind]. split; [done|]. split; [|split; [done|]].
  - intros vc s. specialize (Hc2 vc s). lia.
  - intros vc s. specialize (Heq1 vc s). specialize (Heq2 vc s). rewrite fmap_cons.
    unfold occ in *. cbn [sum_over fst]. destruct (INV_VC =? vc), (cid (meta op) =? s); cbn [zb andb] in *; lia.
Qed.

(** ** Credits *)
Record ledger_ok (m : Z) (lg : ledger) : Prop := {
  lo_credits : forall vc r, 0 <= vc < VIRTUAL_CHANNELS -> r ∈ others m ->
    0 <= credits lg vc r /\ purse vc r lg <= CREDITS_FOR_EACH_CLIENT
}.

(** Receives posted for credit messages beyond those on their way. *)
Definition fc_slack (lg : ledger) : Z := fc_recvs lg - Z.of_nat (length (credit_cq lg)).

Lemma credits_val : CREDITS_IN_MESSAGE = 30 /\ CREDITS_FOR_EACH_CLIENT = 60.
Proof. split; reflexivity. Qed.

Lemma add_credits vc r got : forall cr,
  0 <= cr vc r -> cr vc r + CREDITS_IN_MESSAGE * cred vc r got < 2 ^ 8 ->
  foldl add_credit cr got vc r = cr vc r + CREDITS_IN_MESSAGE * cred vc r got.
Proof.
  induction got as [|imm got IH]; intros cr H0 Hb; [unfold cred; simpl; lia|].
  pose proof (cred_nonneg vc r got). destruct credits_val as [E30 _].
  unfold cred in Hb. cbn [sum_over] in Hb. fold (cred vc r got) in Hb.
  assert (Hone : add_credit cr imm vc r
                 = cr vc r + CREDITS_IN_MESSAGE * zb (bool_decide (credit_channel imm = (vc, r)))).
  { unfold add_credit. destruct (credit_channel imm) as [vc' r'] eqn:E.
    destruct (bool_decide_reflect ((vc', r') = (vc, r))) as [Eq|Ne].
    - injection Eq as -> ->. cbn [zb] in *. rewrite upd2_eq, u8_small; [lia|]. unfold is_u8. lia.
    - unfold upd2. cbn [zb]. destruct (Z.eqb_spec vc vc'), (Z.eqb_spec r r'); subst; cbn [andb]; try lia.
      congruence. }
  pose proof (zb_range (bool_decide (credit_channel imm = (vc, r)))).
  cbn [foldl]. rewrite IH, Hone; [|lia|lia]. unfold cred. cbn [sum_over]. fold (cred vc r got). lia.
Qed.

Lemma poll_credits_ok m n lg :
  ledger_ok m lg ->
  ledger_ok m (poll_credits_LIN n lg) /\ fc_slack (poll_credits_LIN n lg) = fc_slack lg /\
  forall vc r, 0 <= vc < VIRTUAL_CHANNELS -> r ∈ others m ->
    purse vc r (poll_credits_LIN n lg) = purse vc r lg /\ credits lg vc r <= credits (poll_credits_LIN n lg) vc r.
Proof.
  intros [Hc]. destruct credits_val as [E30 E60].
  set (k := Nat.min n (Z.to_nat MAX_CREDIT_WRS)).
  assert (Hp : forall vc r, 0 <= vc < VIRTUAL_CHANNELS -> r ∈ others m ->
    purse vc r (poll_credits_LIN n lg) = purse vc r lg /\ credits lg vc r <= credits (poll_credits_LIN n lg) vc r).
  { intros vc r Hvc Hr. destruct (Hc vc r Hvc Hr) as [H1 H2]. unfold purse in *.
    rewrite <- (take_drop k (credit_cq lg)) in H2 |- * at 1. unfold cred in *. rewrite sum_over_app in H2 |- *.
    fold (cred vc r (take k (credit_cq lg))) in *. fold (cred vc r (drop k (credit_cq lg))) in *.
    pose proof (cred_nonneg vc r (take k (credit_cq lg))). pose proof (cred_nonneg vc r (drop k (credit_cq lg))).
    unfold poll_credits_LIN. fold k. cbn [credits credit_cq]. rewrite add_credits by lia.
    change (cred vc r (drop k (credit_cq lg))) with
      (sum_over (fun imm => zb (bool_decide (credit_channel imm = (vc, r)))) (drop k (credit_cq lg))) in *. lia. }
  split; [|split; [|done]].
  - split. intros vc r Hvc Hr. destruct (Hp vc r Hvc Hr) as [-> Hle]. destruct (Hc vc r Hvc Hr). lia.
  - unfold fc_slack, poll_credits_LIN. fold k. cbn [fc_recvs credit_cq].
    rewrite <- (take_drop k (credit_cq lg)) at 3. rewrite length_app. lia.
Qed.

Lemma spend_list vc l : NoDup l -> forall lg vc' r,
  credits (foldr (spend vc) lg l) vc' r
  = if (vc' =? vc) && bool_decide (r ∈ l) then u8 (credits lg vc r - 1) else credits lg vc' r.
Proof.
  induction 1 as [|x l Hx _ IH]; intros lg vc' r; [by rewrite andb_comm|].
  cbn [foldr]. unfold spend at 1. cbn [credits]. unfold upd2. rewrite !IH, Z.eqb_refl.
  destruct (Z.eqb_spec vc' vc) as [->|]; cbn [andb]; [|done].
  destruct (Z.eqb_spec r x) as [->|Hne].
  - rewrite (bool_decide_true (x ∈ x :: l)) by left. by rewrite bool_decide_false.
  - by rewrite (bool_decide_ext (r ∈ x :: l) (r ∈ l)) by (rewrite elem_of_cons; tauto).
Qed.

Lemma spend_other lg vc l :
  credit_cq (foldr (spend vc) lg l) = credit_cq lg /\ fc_recvs (foldr (spend vc) lg l) = fc_recvs lg.
Proof. induction l; [done|]. destruct IHl. by split. Qed.

(** A broadcast on [vc] when every machine has a credit. *)
Lemma spend_all_ok m vc lg :
  0 <= vc < VIRTUAL_CHANNELS -> ledger_ok m lg -> out_of_credits m lg vc = false ->
  let lg' := foldr (spend vc) lg (seqZ 0 MACHINE_NUM) in
  ledger_ok m lg' /\ fc_slack lg' = fc_slack lg /\
  forall vc' r, 0 <= vc' < VIRTUAL_CHANNELS -> r ∈ others m ->
    purse vc' r lg' + zb (vc =? vc') = purse vc' r lg.
Proof.
  intros Hvc [Hc] Ho lg'. destruct credits_val as [E30 E60].
  destruct (spend_other lg vc (seqZ 0 MACHINE_NUM)) as [Ecq Efc].
  assert (Hone : forall vc' r, 0 <= vc' < VIRTUAL_CHANNELS -> r ∈ others m ->
    0 <= credits lg' vc' r /\ credits lg' vc' r + zb (vc =? vc') = credits lg vc' r).
  { intros vc' r Hvc' Hr. destruct (Hc vc' r Hvc' Hr) as [H1 H2]. unfold lg'.
    rewrite spend_list by apply NoDup_seqZ. pose proof (others_bound _ _ Hr).
    rewrite bool_decide_true by (apply elem_of_seqZ; lia). rewrite (Z.eqb_sym vc vc').
    destruct (Z.eqb_spec vc' vc) as [->|]; cbn [andb zb]; [|lia].
    assert (credits lg vc r <> 0).
    { intros E0. assert (Ht : out_of_credits m lg vc = true); [|congruence].
      apply existsb_exists. exists r. split; [apply list_elem_of_In, elem_of_seqZ; lia|].
      apply elem_of_others in Hr as [_ Hne]. apply Z.eqb_neq in Hne. rewrite Hne, E0. done. }
    unfold purse in H2. pose proof (cred_nonneg vc r (credit_cq lg)).
    rewrite u8_small by (unfold is_u8; lia). lia. }
  assert (Hp : forall vc' r, 0 <= vc' < VIRTUAL_CHANNELS -> r ∈ others m ->
    purse vc' r lg' + zb (vc =? vc') = purse vc' r lg).
  { intros vc' r Hvc' Hr. destruct (Hone vc' r Hvc' Hr). unfold purse. unfold lg' at 2. rewrite Ecq. lia. }
  split; [|split; [|done]].
  - split. intros vc' r Hvc' Hr. destruct (Hone vc' r Hvc' Hr). specialize (Hp vc' r Hvc' Hr).
    destruct (Hc vc' r Hvc' Hr). pose proof (zb_range (vc =? vc')). lia.
  - unfold fc_slack, lg'. by rewrite Ecq, Efc.
Qed.

Lemma check_credits_ok m arr lg vc :
  ledger_ok m lg ->
  let '(ok, _, lg') := check_broadcast_credits m arr lg vc in
  ledger_ok m lg' /\ fc_slack lg' = fc_slack lg /\ out_of_credits m lg' vc = negb ok /\
  forall vc' r, 0 <= vc' < VIRTUAL_CHANNELS -> r ∈ others m -> purse vc' r lg' = purse vc' r lg.
Proof.
  intros Hl. unfold check_broadcast_credits. destruct (out_of_credits m lg vc) eqn:E; [|done].
  destruct (next_arrivals arr) as [n arr']. destruct (poll_credits_ok m n lg Hl) as (H1 & H2 & H3).
  split; [done|]. split; [done|]. split; [by rewrite negb_involutive|]. intros. by apply H3.
Qed.

(** ** Broadcasts *)

(** Taking the update at the head of the queue. *)
Lemma ackq_mark m q sent c senders :
  ackq_ok m q sent (c :: senders) ->
  let q1 := mark_update q in
  let op := ack_bcast_ops q1 (ack_pop_ptr q1) in
  ackq_ok m q1 sent (c :: senders) /\ cid (meta op) = c /\ opcode op = CACHE_OP_UPD.
Proof.
  intros [H1 H2 H3 H4 H5 H6 H7] q1 op. rewrite batch_val in *.
  assert (Hne : forall i, 0 < i < 500 -> (ack_pop_ptr q + i) mod 500 <> ack_pop_ptr q).
  { intros i Hi. pose proof (ring_inj 500 (ack_pop_ptr q) i 0) as Hr. rewrite Z.add_0_r in Hr.
    rewrite (Z.mod_small (ack_pop_ptr q)) in Hr by lia. apply Hr; lia. }
  assert (E0 : op = set_opcode CACHE_OP_UPD (ack_bcast_ops q (ack_pop_ptr q)))
    by (unfold op, q1, mark_update; simpl; by rewrite fupd_eq).
  assert (Hc : cid (meta (ack_bcast_ops q (ack_pop_ptr q))) = c).
  { rewrite <- (H5 0%nat c eq_refl), Z.add_0_r, Z.mod_small by lia. done. }
  split; [|rewrite E0; by split].
  split; rewrite ?batch_val; unfold q1, mark_update; cbn [ack_bcast_ops ack_push_ptr ack_pop_ptr ack_size]; try done.
  - intros [|i] x Hx.
    + injection Hx as <-. rewrite Z.add_0_r, Z.mod_small, fupd_eq by lia. done.
    + pose proof (lookup_lt_Some _ _ _ Hx). cbn [length] in *. rewrite fupd_ne by (apply Hne; lia). by apply H5.
  - intros i Hi. cbn [length] in *. rewrite fupd_ne by (apply Hne; lia). by apply H7.
Qed.

Lemma ackq_pop m q sent c senders op :
  ackq_ok m q sent (c :: senders) -> opcode op <> CACHE_OP_ACK ->
  ackq_ok m (mkAckQ (fupd (ack_bcast_ops q) (ack_pop_ptr q) op) (ack_push_ptr q)
               (HRD_MOD_ADD (ack_pop_ptr q) BCAST_TO_CACHE_BATCH) (ack_size q)) (sent + 1) senders.
Proof.
  intros [H1 H2 H3 H4 H5 H6 H7] Hop. rewrite batch_val in *. cbn [length] in *. rewrite Nat2Z.inj_succ in *.
  rewrite HRD_MOD_ADD_mod by lia.
  assert (Hshift : forall i, ((ack_pop_ptr q + 1) mod 500 + i) mod 500 = (ack_pop_ptr q + (1 + i)) mod 500).
  { intros i. rewrite Z.add_mod_idemp_l by done. f_equal; lia. }
  assert (Hne : forall i, 0 < i < 500 -> (ack_pop_ptr q + i) mod 500 <> ack_pop_ptr q).
  { intros i Hi. pose proof (ring_inj 500 (ack_pop_ptr q) i 0) as Hr. rewrite Z.add_0_r in Hr.
    rewrite (Z.mod_small (ack_pop_ptr q)) in Hr by lia. apply Hr; lia. }
  apply Forall_cons in H6 as [_ H6].
  split; rewrite ?batch_val; cbn [ack_bcast_ops ack_push_ptr ack_pop_ptr ack_size]; try done; try lia.
  - apply Z.mod_pos_bound. done.
  - rewrite H4, Hshift. f_equal. lia.
  - intros i x Hx. pose proof (lookup_lt_Some _ _ _ Hx). rewrite Hshift, fupd_ne by (apply Hne; lia).
    replace (1 + Z.of_nat i) with (Z.of_nat (S i)) by lia. by apply H5.
  - intros i Hi. rewrite Hshift. destruct (decide (1 + i = 500)) as [E|E].
    + rewrite E, Z.add_mod, Z.mod_same, Z.add_0_r, Z.mod_mod, Z.mod_small, fupd_eq by lia. done.
    + rewrite fupd_ne by (apply Hne; lia). apply H7. lia.
Qed.

(** A broadcast message of machine [m]. *)
Definition is_bcast (m : Z) (op : cache_op) : Prop :=
  cid (meta op) = m /\ (opcode op = CACHE_OP_INV \/ opcode op = CACHE_OP_UPD).

Definition on_vc (vc : Z) : list cache_op -> Z := sum_over (fun op => zb (vc_of op =? vc)).

(** The receives for credits are those of every thirtieth broadcast. *)
Definition fc_level (st : bcast_state) : Z :=
  fc_slack (bc_ledger st) + (MACHINE_NUM - 1) * credit_recv_counter st
  - (MACHINE_NUM - 1) * (br_tx st / CREDITS_IN_MESSAGE).

Record bcast_ok (m n : Z) (st : bcast_state) (senders : list Z) : Prop := {
  bo_ack : ackq_ok m (bc_ack st) (updates_sent st) senders;
  bo_ledger : ledger_ok m (bc_ledger st);
  bo_count : small (bc_count st) n;
  bo_bound : n + Z.of_nat (length senders) < 2 ^ 16;
  bo_batch : 0 <= credit_recv_counter st <= br_i st /\ br_i st < MAX_BCAST_BATCH;
  bo_tx : 0 <= br_tx st
}.

(** What broadcasts [popped] updates and any number of invalidations change. *)
Record bcast_effect (m : Z) (st st' : bcast_state) (popped : list Z) (new : list cache_op) : Prop := {
  be_sent : bc_sent st' = bc_sent st ++ new;
  be_msgs : Forall (is_bcast m) new;
  be_count : forall vc s, bc_count st' vc s = bc_count st vc s + zb (vc =? ACK_VC) * occ s popped;
  be_purse : forall vc r, 0 <= vc < VIRTUAL_CHANNELS -> r ∈ others m ->
    purse vc r (bc_ledger st') + on_vc vc new = purse vc r (bc_ledger st);
  be_fc : fc_level st' = fc_level st;
  be_tx : br_tx st' = br_tx st + Z.of_nat (length new)
}.

Lemma bcast_effect_refl m st : bcast_effect m st st [] [].
Proof.
  split; try done; [by rewrite app_nil_r|intros; unfold occ; simpl; lia|intros; unfold on_vc; simpl; lia|simpl; lia].
Qed.

Lemma bcast_effect_trans m st1 st2 st3 p1 p2 n1 n2 :
  bcast_effect m st1 st2 p1 n1 -> bcast_effect m st2 st3 p2 n2 ->
  bcast_effect m st1 st3 (p1 ++ p2) (n1 ++ n2).
Proof.
  intros [A1 A2 A3 A4 A5 A6] [B1 B2 B3 B4 B5 B6]. split.
  - by rewrite B1, A1, app_assoc.
  - by apply Forall_app.
  - intros vc s. rewrite B3, A3. unfold occ. rewrite sum_over_app. lia.
  - intros vc r Hvc Hr. specialize (A4 vc r Hvc Hr). specialize (B4 vc r Hvc Hr).
    unfold on_vc in *. rewrite sum_over_app. lia.
  - congruence.
  - rewrite length_app. lia.
Qed.

Lemma div_step t : 0 <= t -> (t + 1) / 30 = t / 30 + zb ((t + 1) mod 30 =? 0).
Proof. intros Ht. zcase; cbn [zb]; Z.div_mod_to_equations; lia. Qed.

(** [finish_bcast] after a message was forged. *)
Lemma finish_bcast_ok m n vc st senders :
  0 <= vc < VIRTUAL_CHANNELS -> ackq_ok m (bc_ack st) (updates_sent st) senders ->
  ledger_ok m (bc_ledger st) -> out_of_credits m (bc_ledger st) vc = false ->
  small (bc_count st) n -> n + Z.of_nat (length senders) < 2 ^ 16 ->
  0 <= credit_recv_counter st <= br_i st -> br_i st < MAX_BCAST_BATCH -> 1 <= br_tx st ->
  exists st', finish_bcast vc st = Done st' /\ bcast_ok m n st' senders /\
    bc_sent st' = bc_sent st /\ bc_count st' = bc_count st /\ updates_sent st' = updates_sent st /\
    ack_size (bc_ack st') = ack_size (bc_ack st) /\
    fc_slack (bc_ledger st') + 3 * credit_recv_counter st'
      = fc_slack (bc_ledger st) + 3 * credit_recv_counter st + 3 * zb (br_tx st mod CREDITS_IN_MESSAGE =? 0) /\
    br_tx st' = br_tx st /\
    forall vc' r, 0 <= vc' < VIRTUAL_CHANNELS -> r ∈ others m ->
      purse vc' r (bc_ledger st') + zb (vc =? vc') = purse vc' r (bc_ledger st).
Proof.
  intros Hvc Hq Hl Ho Hc Hn Hcr Hbr Htx. destruct (spend_all_ok m vc _ Hvc Hl Ho) as (L1 & L2 & L3).
  unfold finish_bcast. set (lg := foldr _ _ _) in *.
  set (k := if _ mod _ =? 0 then _ else _).
  assert (Hk : k = credit_recv_counter st + zb (br_tx st mod CREDITS_IN_MESSAGE =? 0))
    by (unfold k; destruct (_ =? 0); cbn [zb]; lia).
  clearbody k lg.
  pose proof (zb_range (br_tx st mod CREDITS_IN_MESSAGE =? 0)) as Hz.
  change MAX_BCAST_BATCH with 4 in *. cbn [br_i]. destruct (Z.eqb_spec (br_i st + 1) 4) as [E4|E4].
  - unfold post_credit_recvs. cbn [credit_recv_counter]. destruct (Z.ltb_spec 0 k) as [Hk0|Hk0].
    + rewrite (proj2 (Z.leb_le (k * (MACHINE_NUM - 1)) MAX_CREDIT_RECVS))
        by (change MAX_CREDIT_RECVS with 17; change MACHINE_NUM with 4; lia).
      cbn [c_assert obind]. eexists. split; [reflexivity|]. split; [split; cbn; try done; try lia|].
      { split. intros vc' r Hvc' Hr. apply (lo_credits _ _ L1 vc' r Hvc' Hr). }
      unfold fc_slack in *. cbn [bc_ledger credit_recv_counter post_fc_recvs fc_recvs credit_cq].
      change (MACHINE_NUM - 1) with 3. split_and!; try done; lia.
    + cbn [obind]. eexists. split; [reflexivity|]. split; [split; cbn; try done; try lia|].
      split_and!; try done; cbn; try lia.
  - eexists. split; [reflexivity|]. split; [split; cbn; try done; try lia|].
    split_and!; try done; cbn; try lia.
Qed.

Lemma vc_vals : VIRTUAL_CHANNELS = 3 /\ ACK_VC = 0 /\ INV_VC = 1 /\ UPD_VC = 2.
Proof. by repeat split. Qed.

(** An invalidation is broadcast. *)
Lemma flow_bcast_inv_ok m n op_i st senders arr lg :
  m ∈ machines -> op_i < CACHE_BATCH_SIZE -> bcast_ok m n st senders ->
  check_broadcast_credits m (bc_arrivals st) (bc_ledger st) INV_VC = (true, arr, lg) ->
  exists st' op, finish_bcast INV_VC (forge_bcast_wrs_LIN m op_i (set_bc_ledger arr lg st)) = Done st' /\
    bcast_ok m n st' senders /\ ack_size (bc_ack st') = ack_size (bc_ack st) /\ updates_sent st' = updates_sent st /\
    bcast_effect m st st' [] [op].
Proof.
  intros Hm Hi [B1 B2 B3 B4 [B5 B5'] B6] Hck.
  pose proof (check_credits_ok m (bc_arrivals st) (bc_ledger st) INV_VC B2) as Hk. rewrite Hck in Hk.
  destruct Hk as (L1 & L2 & L3 & L4).
  unfold forge_bcast_wrs_LIN. apply Z.ltb_lt in Hi. rewrite Hi.
  set (op := set_meta _ _). set (st1 := mkBcast _ _ _ _ _ _ _ _ _ _).
  destruct (finish_bcast_ok m n INV_VC st1 senders) as (st' & E & Hok & F1 & F2 & F3 & F4 & F5 & F6 & F7);
    try done; [by unfold st1; cbn; lia|].
  exists st', op. split; [done|]. split; [done|]. split; [done|]. split; [done|]. split.
  - done.
  - constructor; [|done]. split; [|by left]. simpl. apply u8_small, machines_u8, Hm.
  - intros. rewrite F2. unfold occ. simpl. lia.
  - intros vc r Hvc Hr. rewrite <- (L4 vc r Hvc Hr). specialize (F7 vc r Hvc Hr). unfold on_vc, vc_of.
    change (opcode op) with CACHE_OP_INV. cbn [sum_over].
    change (bc_ledger st1) with lg in F7. simpl in F7 |- *. lia.
  - unfold fc_level. rewrite F6. change (br_tx st1) with (br_tx st + 1) in *.
    destruct credits_val as [E30 _]. rewrite E30 in *. rewrite (div_step (br_tx st)) by lia.
    change (bc_ledger st1) with lg in F5. change (credit_recv_counter st1) with (credit_recv_counter st) in F5.
    change (MACHINE_NUM - 1) with 3. lia.
  - rewrite F6. done.
Qed.

(** The update at the head of the queue is broadcast. *)
Lemma flow_bcast_upd_ok m n op_i st c senders arr lg :
  m ∈ machines -> CACHE_BATCH_SIZE <= op_i -> bcast_ok m n st (c :: senders) ->
  let st0 := set_bc_ack (mark_update (bc_ack st)) st in
  check_broadcast_credits m (bc_arrivals st0) (bc_ledger st0) UPD_VC = (true, arr, lg) ->
  exists st' op, finish_bcast UPD_VC (forge_bcast_wrs_LIN m op_i (set_bc_ledger arr lg st0)) = Done st' /\
    bcast_ok m (n + 1) st' senders /\ ack_size (bc_ack st') = ack_size (bc_ack st) /\
    updates_sent st' = updates_sent st + 1 /\ bcast_effect m st st' [c] [op].
Proof.
  intros Hm Hi [B1 B2 B3 B4 [B5 B5'] B6] st0 Hck.
  pose proof (check_credits_ok m (bc_arrivals st0) (bc_ledger st0) UPD_VC B2) as Hk. rewrite Hck in Hk.
  destruct Hk as (L1 & L2 & L3 & L4). change (bc_ledger st0) with (bc_ledger st) in *.
  destruct (ackq_mark m _ _ _ _ B1) as (Q1 & Q2 & Q3).
  unfold forge_bcast_wrs_LIN. rewrite (proj2 (Z.ltb_ge op_i CACHE_BATCH_SIZE)) by done.
  cbn [bc_ack set_bc_ack set_bc_ledger st0 bc_count updates_sent] in *. rewrite Q2.
  set (op := set_meta _ _). set (st1 := mkBcast _ _ _ _ _ _ _ _ _ _).
  cbn [length] in B4. rewrite Nat2Z.inj_succ in B4.
  assert (Hus : 0 <= updates_sent st < 2 ^ 16 - 1).
  { destruct B1 as [_ Hs [? ?] _ _ _ _]. cbn [length] in Hs. rewrite batch_val in *. lia. }
  assert (Eus : u16 (updates_sent st + 1) = updates_sent st + 1) by (apply u16_small; unfold is_u16; lia).
  destruct (finish_bcast_ok m (n + 1) UPD_VC st1 senders) as (st' & E & Hok & F1 & F2 & F3 & F4 & F5 & F6 & F7);
    try done.
  { unfold st1. cbn [bc_ack updates_sent]. rewrite Eus. apply ackq_pop with c; [done|].
    change (opcode op) with (opcode (ack_bcast_ops (mark_update (bc_ack st)) (ack_pop_ptr (mark_update (bc_ack st))))).
    by rewrite Q3. }
  { apply small_incr; [done|lia]. }
  { lia. }
  { unfold st1; cbn; lia. }
  exists st', op. split; [done|]. split; [done|]. split; [done|]. split; [rewrite F3; exact Eus|]. split.
  - done.
  - constructor; [|done]. split; [|right; exact Q3]. simpl. apply u8_small, machines_u8, Hm.
  - intros vc s. rewrite F2. unfold st1. cbn [bc_count]. rewrite (incr_eq _ n) by (done || lia).
    unfold occ. cbn [sum_over]. rewrite (Z.eqb_sym s c).
    destruct (vc =? ACK_VC), (c =? s); cbn [zb andb]; lia.
  - intros vc r Hvc Hr. rewrite <- (L4 vc r Hvc Hr). specialize (F7 vc r Hvc Hr). unfold on_vc. cbn [sum_over].
    replace (vc_of op) with UPD_VC by (unfold vc_of; change (opcode op) with
      (opcode (ack_bcast_ops (mark_update (bc_ack st)) (ack_pop_ptr (mark_update (bc_ack st))))); by rewrite Q3).
    change (bc_ledger st1) with lg in F7. lia.
  - unfold fc_level. rewrite F6. change (br_tx st1) with (br_tx st + 1) in *.
    destruct credits_val as [E30 _]. rewrite E30 in *. rewrite (div_step (br_tx st)) by lia.
    change (bc_ledger st1) with lg in F5. change (credit_recv_counter st1) with (credit_recv_counter st) in F5.
    change (MACHINE_NUM - 1) with 3. lia.
  - rewrite F6. done.
Qed.

(** Credits were polled but do not suffice. *)
Lemma no_credits_ok m n st senders vc arr lg q :
  bcast_ok m n st senders -> check_broadcast_credits m (bc_arrivals st) (bc_ledger st) vc = (false, arr, lg) ->
  ackq_ok m q (updates_sent st) senders ->
  let st' := set_bc_ledger arr lg (set_bc_ack q st) in
  bcast_ok m n st' senders /\ bcast_effect m st st' [] [].
Proof.
  intros [B1 B2 B3 B4 B5 B6] Hck Hq st'.
  pose proof (check_credits_ok m (bc_arrivals st) (bc_ledger st) vc B2) as Hk. rewrite Hck in Hk.
  destruct Hk as (L1 & L2 & L3 & L4). split; [by split|]. split; try done.
  - by rewrite app_nil_r.
  - intros. unfold occ. simpl. lia.
  - intros vc' r Hvc Hr. rewrite <- (L4 vc' r Hvc Hr). unfold on_vc. simpl. lia.
  - unfold fc_level, st'. cbn. rewrite L2. done.
  - simpl. lia.
Qed.

Lemma bcast_ok_weaken m n n' st senders :
  bcast_ok m n st senders -> n <= n' -> n' + Z.of_nat (length senders) < 2 ^ 16 -> bcast_ok m n' st senders.
Proof. intros [? ? Hc ? ? ?] Hn Hb. split; try done. intros vc s. specialize (Hc vc s). lia. Qed.

Lemma ackq_nonempty m n st senders op_i :
  bcast_ok m n st senders -> CACHE_BATCH_SIZE <= op_i -> updates_sent st = op_i - CACHE_BATCH_SIZE ->
  op_i < CACHE_BATCH_SIZE + ack_size (bc_ack st) -> exists c rest, senders = c :: rest.
Proof.
  intros [B1 _ _ _ _ _] Hi Hu Hlt. pose proof (aq_size _ _ _ _ B1).
  destruct senders as [|c rest]; [simpl in *; lia|eauto].
Qed.

Lemma bcast_loop_ok m fuel : m ∈ machines -> forall op_i n st senders,
  bcast_ok m n st senders -> 0 <= op_i -> updates_sent st = Z.max 0 (op_i - CACHE_BATCH_SIZE) ->
  CACHE_BATCH_SIZE + ack_size (bc_ack st) - op_i < Z.of_nat fuel ->
  exists st' popped senders' new, bcast_loop m fuel op_i st = Done st' /\
    senders = popped ++ senders' /\ bcast_ok m (n + Z.of_nat (length popped)) st' senders' /\
    ack_size (bc_ack st') = ack_size (bc_ack st) /\ bcast_effect m st st' popped new.
Proof.
  intros Hm. induction fuel as [|fuel IH]; intros op_i n st senders Hok Hi Hu Hf;
    [pose proof (aq_size _ _ _ _ (bo_ack _ _ _ _ Hok)); pose proof (aq_room _ _ _ _ (bo_ack _ _ _ _ Hok));
     rewrite batch_val in *; lia|].
  assert (Hstop : exists st' popped senders' new, Done st = Done st' /\
    senders = popped ++ senders' /\ bcast_ok m (n + Z.of_nat (length popped)) st' senders' /\
    ack_size (bc_ack st') = ack_size (bc_ack st) /\ bcast_effect m st st' popped new).
  { exists st, [], senders, []. simpl. rewrite Z.add_0_r. split_and!; try done. apply bcast_effect_refl. }
  assert (Hstep : forall op_j n1 st1 p1 senders1 new1, senders = p1 ++ senders1 ->
    n1 = n + Z.of_nat (length p1) -> bcast_ok m n1 st1 senders1 -> bcast_effect m st st1 p1 new1 ->
    ack_size (bc_ack st1) = ack_size (bc_ack st) -> op_i < op_j ->
    updates_sent st1 = Z.max 0 (op_j - CACHE_BATCH_SIZE) ->
    exists st' popped senders' new, bcast_loop m fuel op_j st1 = Done st' /\
      senders = popped ++ senders' /\ bcast_ok m (n + Z.of_nat (length popped)) st' senders' /\
      ack_size (bc_ack st') = ack_size (bc_ack st) /\ bcast_effect m st st' popped new).
  { intros op_j n1 st1 p1 s1 new1 Es En Hok1 He1 Ha1 Hj Hu1.
    destruct (IH op_j n1 st1 s1 Hok1 ltac:(lia) Hu1 ltac:(lia)) as (st' & p2 & s2 & new2 & E & -> & Hok2 & Ha2 & He2).
    exists st', (p1 ++ p2), s2, (new1 ++ new2). split_and!; [done|by rewrite Es, app_assoc| |congruence|].
    - rewrite length_app, Nat2Z.inj_add, Z.add_assoc, <- En. done.
    - by eapply bcast_effect_trans. }
  cbn [bcast_loop]. destruct (Z.ltb_spec op_i (CACHE_BATCH_SIZE + ack_size (bc_ack st))) as [Hlt|]; [|done].
  destruct (Z.ltb_spec op_i CACHE_BATCH_SIZE) as [Hinv|Hinv]; cbn [andb].
  - destruct (match bc_ops st !! Z.to_nat op_i with Some op => opcode op =? CACHE_OP_BRC | None => false end); cbn [negb].
    2: { apply (Hstep (op_i + 1) n st [] senders []); try done; try lia; [simpl; lia|apply bcast_effect_refl]. }
    destruct (check_broadcast_credits m (bc_arrivals st) (bc_ledger st) INV_VC) as [[[] arr] lg] eqn:Hck.
    + destruct (flow_bcast_inv_ok m n op_i st senders arr lg Hm Hinv Hok Hck) as (st' & op & E & Hok' & Ha & Hu' & He).
      rewrite E. cbn [obind].
      apply (Hstep (op_i + 1) n st' [] senders [op]); try done; [simpl; lia|lia|lia].
    + destruct (no_credits_ok m n st senders INV_VC arr lg (bc_ack st) Hok Hck (bo_ack _ _ _ _ Hok)) as [Hok' He].
      apply (Hstep CACHE_BATCH_SIZE n _ [] senders []); try done; [simpl; lia|]. change (updates_sent st = 0). lia.
  - destruct (ackq_nonempty m n st senders op_i Hok Hinv ltac:(lia) Hlt) as (c & rest & ->).
    destruct (check_broadcast_credits m _ _ UPD_VC) as [[[] arr] lg] eqn:Hck.
    + destruct (flow_bcast_upd_ok m n op_i st c rest arr lg Hm Hinv Hok Hck) as (st' & op & E & Hok' & Ha & Hu' & He).
      rewrite E. cbn [obind]. apply (Hstep (op_i + 1) (n + 1) st' [c] rest [op]); try done; lia.
    + destruct (ackq_mark m _ _ _ _ (bo_ack _ _ _ _ Hok)) as (Q1 & _ & _).
      destruct (no_credits_ok m n st (c :: rest) UPD_VC arr lg (mark_update (bc_ack st)) Hok Hck Q1) as [Hok' He].
      eexists _, [], (c :: rest), []. split; [done|]. simpl. rewrite Z.add_0_r. split_and!; try done; apply He.
Qed.

(** The receives for the last batch are posted; the queue forgets the updates
    that were sent. *)
Lemma post_credit_recvs_ok m n st senders :
  bcast_ok m n st senders ->
  exists lg, post_credit_recvs st = Done (mkBcast (bc_ops st) (bc_ack st) (bc_count st) lg (bc_arrivals st)
      (updates_sent st) (br_i st) (br_tx st) 0 (bc_sent st)) /\
    credits lg = credits (bc_ledger st) /\ credit_cq lg = credit_cq (bc_ledger st) /\
    fc_slack lg = fc_slack (bc_ledger st) + 3 * credit_recv_counter st.
Proof.
  intros [_ _ _ _ [B5 B5'] _]. unfold post_credit_recvs. change MAX_BCAST_BATCH with 4 in *.
  destruct (Z.ltb_spec 0 (credit_recv_counter st)) as [H0|H0].
  - rewrite (proj2 (Z.leb_le (credit_recv_counter st * (MACHINE_NUM - 1)) MAX_CREDIT_RECVS))
      by (change MAX_CREDIT_RECVS with 17; change MACHINE_NUM with 4; lia).
    eexists. split; [reflexivity|]. split_and!; [done|done|]. unfold fc_slack, post_fc_recvs.
    cbn [fc_recvs credit_cq]. change (MACHINE_NUM - 1) with 3. lia.
  - assert (E0 : credit_recv_counter st = 0) by lia. exists (bc_ledger st).
    destruct st; simpl in *. subst. split_and!; try done. lia.
Qed.

Record broadcasts_ok (m n : Z) (q : ack_queue) (count : count_array) (lg : ledger) (tx : Z)
    (st : bcast_state) (popped senders : list Z) : Prop := {
  br_ack : ackq_ok m (bc_ack st) 0 senders;
  br_ledger : ledger_ok m (bc_ledger st);
  br_small : small (bc_count st) (n + Z.of_nat (length popped));
  br_sent : Forall (is_bcast m) (bc_sent st);
  br_count : forall vc s, bc_count st vc s = count vc s + zb (vc =? ACK_VC) * occ s popped;
  br_purse : forall vc r, 0 <= vc < VIRTUAL_CHANNELS -> r ∈ others m ->
    purse vc r (bc_ledger st) + on_vc vc (bc_sent st) = purse vc r lg;
  br_tx_eq : br_tx st = tx + Z.of_nat (length (bc_sent st));
  br_fc : fc_slack (bc_ledger st) - 3 * (br_tx st / CREDITS_IN_MESSAGE)
          = fc_slack lg - 3 * (tx / CREDITS_IN_MESSAGE)
}.

(** The whole of [perform_broadcasts_LIN]: it ends, and the credits of every
    machine fall by what was sent to it. *)
Lemma perform_broadcasts_ok m n ops q count lg arr tx senders :
  m ∈ machines -> ackq_ok m q 0 senders -> ledger_ok m lg -> small count n ->
  n + Z.of_nat (length senders) < 2 ^ 16 -> 0 <= tx ->
  exists st popped senders', perform_broadcasts_LIN m ops q count lg arr tx = Done st /\
    senders = popped ++ senders' /\ broadcasts_ok m n q count lg tx st popped senders'.
Proof.
  intros Hm Hq Hl Hc Hn Htx. unfold perform_broadcasts_LIN.
  set (st0 := mkBcast ops q count lg arr 0 0 tx 0 []).
  assert (Hok0 : bcast_ok m n st0 senders) by (split; simpl; try done; lia).
  assert (Hfuel : CACHE_BATCH_SIZE + ack_size (bc_ack st0) - 0
                  < Z.of_nat (S (Z.to_nat (CACHE_BATCH_SIZE + ack_size q))))
    by (pose proof (aq_size _ _ _ _ Hq); change CACHE_BATCH_SIZE with 600; simpl bc_ack; lia).
  destruct (bcast_loop_ok m (S (Z.to_nat (CACHE_BATCH_SIZE + ack_size q))) Hm 0 n st0 senders Hok0
              ltac:(lia) eq_refl Hfuel)
    as (st & popped & rest & new & E & Es & Hok & Ha & [G1 G2 G3 G4 G5 G6]).
  rewrite E. cbn [obind].
  destruct (post_credit_recvs_ok m _ st rest Hok) as (lg' & E2 & P1 & P2 & P3). rewrite E2. cbn [obind].
  eexists _, popped, rest. split; [reflexivity|]. split; [done|].
  destruct Hok as [B1 B2 B3 B4 B5 B6]. cbn [bc_ack bc_ledger bc_count bc_sent br_tx set_bc_ack updates_sent].
  assert (Hpurse : forall vc r, purse vc r lg' = purse vc r (bc_ledger st))
    by (intros; unfold purse; by rewrite P1, P2).
  split; cbn [bc_ack bc_ledger bc_count bc_sent br_tx set_bc_ack updates_sent]; try done.
  - destruct B1 as [A1 A2 A3 A4 A5 A6 A7]. rewrite batch_val in *.
    split; rewrite ?batch_val; cbn [ack_bcast_ops ack_push_ptr ack_pop_ptr ack_size]; try done;
      rewrite u16_small by (unfold is_u16; lia); lia.
  - split. intros vc r Hvc Hr. rewrite P1, Hpurse. by apply (lo_credits _ _ B2).
  - by rewrite G1.
  - intros vc r Hvc Hr. rewrite Hpurse, G1. by apply G4.
  - by rewrite G6, G1.
  - rewrite P3. unfold fc_level in G5. change (MACHINE_NUM - 1) with 3 in G5.
    change (fc_slack (bc_ledger st0) + 3 * credit_recv_counter st0 - 3 * (br_tx st0 / CREDITS_IN_MESSAGE))
      with (fc_slack lg + 3 * 0 - 3 * (tx / CREDITS_IN_MESSAGE)) in G5. lia.
Qed.
