(* ===== verification/FlowRound.v ===== *)
(** * A round of the LIN client keeps every credit

    The acknowledgements, the credit messages and the composition of a whole
    round ([Flow.flow_round]): what a client holds for each virtual channel and
    machine after the round, with the credit messages it sent, is what it held
    before, and no assertion fails. *)
From S2P Require Import Prelude Config Optik Layout City Mica Cache Network Flow FlowSpec.

(** ** Acknowledgements *)

(** Messages to machine [r]. *)
Definition sent_to (r : Z) : list msg -> Z := sum_over (fun x => zb (dst x =? r)).

Definition is_ack_of (m : Z) (x : msg) : Prop :=
  dst x ∈ others m /\ cid (meta (m_op x)) = m /\ opcode (m_op x) = CACHE_OP_ACK.

Record acks_ok (m n : Z) (st : acks_state) : Prop := {
  ao_buffer : invb_ok m (as_buffer st);
  ao_ledger : ledger_ok m (as_ledger st);
  ao_count : small (as_count st) n;
  ao_tx : 0 <= sent_ack_tx st
}.

Record acks_effect (m : Z) (st st' : acks_state) (new : list msg) : Prop := {
  ae_sent : as_sent st' = as_sent st ++ new;
  ae_msgs : Forall (is_ack_of m) new;
  ae_count : forall vc s, as_count st' vc s + zb (vc =? INV_VC) * brc s (inv_to_send_ops (as_buffer st'))
    = as_count st vc s + zb (vc =? INV_VC) * brc s (inv_to_send_ops (as_buffer st));
  ae_purse : forall vc r, 0 <= vc < VIRTUAL_CHANNELS -> r ∈ others m ->
    purse vc r (as_ledger st') + zb (vc =? ACK_VC) * sent_to r new = purse vc r (as_ledger st);
  ae_slack : fc_slack (as_ledger st') = fc_slack (as_ledger st);
  ae_recvs : ack_recv_counter st' - sent_ack_tx st' / CREDITS_IN_MESSAGE
             = ack_recv_counter st - sent_ack_tx st / CREDITS_IN_MESSAGE;
  ae_tx : sent_ack_tx st' = sent_ack_tx st + Z.of_nat (length new);
  ae_size : inv_size (as_buffer st') + Z.of_nat (length new) = inv_size (as_buffer st)
}.

Lemma acks_effect_refl m st : acks_effect m st st [].
Proof. split; try done; intros; unfold sent_to; simpl; rewrite ?app_nil_r; lia || done. Qed.

Lemma acks_effect_trans m st1 st2 st3 n1 n2 :
  acks_effect m st1 st2 n1 -> acks_effect m st2 st3 n2 -> acks_effect m st1 st3 (n1 ++ n2).
Proof.
  intros [A1 A2 A3 A4 A5 A6 A7 A8] [B1 B2 B3 B4 B5 B6 B7 B8].
  split; try congruence; try (rewrite length_app; lia).
  - by rewrite B1, A1, app_assoc.
  - by apply Forall_app.
  - intros vc r Hvc Hr. specialize (A4 vc r Hvc Hr). specialize (B4 vc r Hvc Hr).
    unfold sent_to in *. rewrite sum_over_app. lia.
Qed.

Lemma spend_ok m vc c lg :
  0 <= vc < VIRTUAL_CHANNELS -> c ∈ others m -> ledger_ok m lg -> credits lg vc c <> 0 ->
  ledger_ok m (spend vc c lg) /\ fc_slack (spend vc c lg) = fc_slack lg /\
  forall vc' r, 0 <= vc' < VIRTUAL_CHANNELS -> r ∈ others m ->
    purse vc' r (spend vc c lg) + zb ((vc' =? vc) && (r =? c)) = purse vc' r lg.
Proof.
  intros Hvc Hc Hl Hne. destruct credits_val as [E30 E60].
  destruct (lo_credits _ _ Hl vc c Hvc Hc) as [H0 H1]. unfold purse in H1.
  pose proof (cred_nonneg vc c (credit_cq lg)).
  assert (Eu : u8 (credits lg vc c - 1) = credits lg vc c + -1) by (rewrite u8_small; [lia|unfold is_u8; lia]).
  assert (Hone : forall vc' r, credits (spend vc c lg) vc' r = credits lg vc' r - zb ((vc' =? vc) && (r =? c))).
  { intros. unfold spend. cbn [credits]. rewrite Eu, upd2_add. lia. }
  split; [|split; [done|]].
  - split. intros vc' r Hvc' Hr. destruct (lo_credits _ _ Hl vc' r Hvc' Hr). unfold purse in *.
    rewrite Hone. change (credit_cq (spend vc c lg)) with (credit_cq lg).
    destruct (Z.eqb_spec vc' vc) as [->|], (Z.eqb_spec r c) as [->|]; cbn [andb zb]; lia.
  - intros vc' r Hvc' Hr. unfold purse. rewrite Hone. change (credit_cq (spend vc c lg)) with (credit_cq lg). lia.
Qed.

(** Marking a waiting invalidation as acknowledged. *)
Lemma invb_ack m b i op op' :
  invb_ok m b -> inv_to_send_ops b !! i = Some op -> opcode op = CACHE_OP_BRC ->
  opcode op' <> CACHE_OP_BRC ->
  let b' := mkInvB (<[i := op']> (inv_to_send_ops b)) (inv_push_ptr b) (u16 (inv_size b - 1)) in
  invb_ok m b' /\ inv_size b' + 1 = inv_size b /\
  forall s, brc s (inv_to_send_ops b') + zb (s =? cid (meta op)) = brc s (inv_to_send_ops b).
Proof.
  intros [H1 H2 H3 H4] Hi Hop Hop' b'. apply Z.eqb_neq in Hop'.
  assert (Hw : waiting_invs (<[i := op']> (inv_to_send_ops b)) = waiting_invs (inv_to_send_ops b) - 1).
  { unfold waiting_invs. rewrite (sum_over_insert _ _ _ _ op), Hop, Hop' by done. simpl. lia. }
  assert (0 <= waiting_invs (<[i := op']> (inv_to_send_ops b)))
    by (apply sum_over_nonneg; intros; apply zb_range).
  assert (waiting_invs (inv_to_send_ops b) <= BCAST_TO_CACHE_BATCH)
    by (rewrite <- H1; apply sum_over_bound; intros; apply zb_range).
  assert (Eu : u16 (inv_size b - 1) = inv_size b - 1)
    by (apply u16_small; unfold is_u16; rewrite batch_val in *; lia).
  split; [|split].
  - split; unfold b'; cbn [inv_to_send_ops inv_push_ptr inv_size]; try done.
    + by rewrite length_insert.
    + lia.
    + apply Forall_insert; [done|]. intros E. rewrite E in Hop'. done.
  - unfold b'. cbn [inv_size]. lia.
  - intros s. unfold b', brc. cbn [inv_to_send_ops]. rewrite (sum_over_insert _ _ _ _ op), Hop, Hop' by done.
    rewrite (Z.eqb_sym s). change (CACHE_OP_BRC =? CACHE_OP_BRC) with true. cbn [andb zb]. lia.
Qed.

(** One slot of the buffer. *)
Lemma send_ack_ok m n i st :
  m ∈ machines -> acks_ok m n st -> n + 1 < 2 ^ 16 ->
  exists new, acks_ok m (n + 1) (send_ack m i st) /\ acks_effect m st (send_ack m i st) new.
Proof.
  intros Hm [A1 A2 A3 A4] Hn.
  assert (Hsame : acks_ok m (n + 1) st) by (split; try done; intros vc s; specialize (A3 vc s); lia).
  unfold send_ack. destruct (inv_to_send_ops (as_buffer st) !! i) as [op|] eqn:Hi;
    [|exists []; split; [done|apply acks_effect_refl]].
  destruct (Z.eqb_spec (opcode op) CACHE_OP_BRC) as [Hop|]; cbn [negb];
    [|exists []; split; [done|apply acks_effect_refl]].
  assert (Hc : cid (meta op) ∈ others m) by (by apply (Forall_lookup_1 _ _ _ _ (ib_cids _ _ A1) Hi)).
  set (c := cid (meta op)) in *.
  set (pl := if credits (as_ledger st) ACK_VC c =? 0 then _ else _).
  assert (Hpl : ledger_ok m pl.2 /\ fc_slack pl.2 = fc_slack (as_ledger st) /\
    forall vc r, 0 <= vc < VIRTUAL_CHANNELS -> r ∈ others m -> purse vc r pl.2 = purse vc r (as_ledger st)).
  { unfold pl. destruct (_ =? 0); [|done]. destruct (next_arrivals _) as [k arr]. cbn [snd].
    destruct (poll_credits_ok m k _ A2) as (P1 & P2 & P3). split_and!; try done. intros. by apply P3. }
  clearbody pl. destruct pl as [arr lg]. destruct Hpl as (L1 & L2 & L3). cbn [snd] in *.
  destruct (Z.eqb_spec (credits lg ACK_VC c) 0) as [E0|E0].
  { exists []. split; [by split; destruct Hsame|]. destruct (acks_effect_refl m st). split; try done.
    intros vc r Hvc Hr. cbn [as_ledger]. rewrite L3 by done. unfold sent_to. simpl. lia. }
  destruct (spend_ok m ACK_VC c lg ltac:(by destruct vc_vals as (-> & -> & _)) Hc L1 E0) as (S1 & S2 & S3).
  set (op' := set_meta _ _).
  destruct (invb_ack m (as_buffer st) i op op' A1 Hi Hop) as (I1 & I2 & I3); [done|].
  exists [mkMsg c op']. destruct credits_val as [E30 _]. split.
  - split; cbn [as_buffer as_ledger as_count sent_ack_tx]; try done; [by apply small_incr|lia].
  - split; cbn [as_sent as_buffer as_ledger as_count sent_ack_tx ack_recv_counter]; try done.
    + constructor; [|done]. split; [done|]. split; [|done]. simpl. apply u8_small, machines_u8, Hm.
    + intros vc s. rewrite (incr_eq _ n) by done. specialize (I3 s).
      cbn [inv_to_send_ops] in *. fold c in I3. destruct (vc =? INV_VC), (s =? c); cbn [andb zb] in *; lia.
    + intros vc r Hvc Hr. rewrite <- L3 by done. rewrite <- (S3 vc r Hvc Hr). unfold sent_to. cbn [sum_over dst].
      rewrite (Z.eqb_sym r c). destruct (vc =? ACK_VC), (c =? r); cbn [andb zb]; lia.
    + rewrite E30, (div_step (sent_ack_tx st)) by lia. destruct (_ =? 0); cbn [zb]; lia.
Qed.

Lemma send_ack_loop_ok m l : m ∈ machines -> forall n st,
  acks_ok m n st -> n + Z.of_nat (length l) < 2 ^ 16 ->
  let st' := foldl (fun st i => send_ack m i st) st l in
  exists new, acks_ok m (n + Z.of_nat (length l)) st' /\ acks_effect m st st' new.
Proof.
  intros Hm. induction l as [|i l IH]; intros n st Hok Hn; cbn [foldl length] in *.
  { exists []. rewrite Z.add_0_r. split; [done|apply acks_effect_refl]. }
  rewrite Nat2Z.inj_succ in *.
  destruct (send_ack_ok m n i st Hm Hok ltac:(lia)) as (n1 & Hok1 & He1).
  destruct (IH (n + 1) _ Hok1 ltac:(lia)) as (n2 & Hok2 & He2). exists (n1 ++ n2).
  split; [by replace (n + Z.succ (Z.of_nat (length l))) with (n + 1 + Z.of_nat (length l)) by lia|].
  by eapply acks_effect_trans.
Qed.

Record acks_sent (m n : Z) (b : inv_buffer) (count : count_array) (lg : ledger) (tx : Z)
    (st : acks_state) : Prop := {
  ak_buffer : invb_ok m (as_buffer st);
  ak_ledger : ledger_ok m (as_ledger st);
  ak_small : small (as_count st) (n + BCAST_TO_CACHE_BATCH);
  ak_msgs : Forall (is_ack_of m) (as_sent st);
  ak_count : forall vc s, as_count st vc s + zb (vc =? INV_VC) * brc s (inv_to_send_ops (as_buffer st))
    = count vc s + zb (vc =? INV_VC) * brc s (inv_to_send_ops b);
  ak_purse : forall vc r, 0 <= vc < VIRTUAL_CHANNELS -> r ∈ others m ->
    purse vc r (as_ledger st) + zb (vc =? ACK_VC) * sent_to r (as_sent st) = purse vc r lg;
  ak_tx : sent_ack_tx st = tx + Z.of_nat (length (as_sent st));
  ak_fc : fc_slack (as_ledger st) - sent_ack_tx st / CREDITS_IN_MESSAGE = fc_slack lg - tx / CREDITS_IN_MESSAGE
}.

(** [send_acks] ends without a failed assertion: at most [MAX_CREDIT_RECVS]
    receives are posted for [BCAST_TO_CACHE_BATCH] acknowledgements. *)
Lemma send_acks_ok m n b count lg arr tx :
  m ∈ machines -> invb_ok m b -> ledger_ok m lg -> small count n -> n + BCAST_TO_CACHE_BATCH < 2 ^ 16 ->
  0 <= tx -> exists st, send_acks m b count lg arr tx = Done st /\ acks_sent m n b count lg tx st.
Proof.
  intros Hm Hb Hl Hc Hn Htx. unfold send_acks.
  assert (Hlen : Z.of_nat (length (seq 0 (Z.to_nat BCAST_TO_CACHE_BATCH))) = BCAST_TO_CACHE_BATCH)
    by (rewrite length_seq; apply Z2Nat.id; rewrite batch_val; lia).
  generalize dependent (seq 0 (Z.to_nat BCAST_TO_CACHE_BATCH)). intros slots Hlen.
  set (st0 := mkAcks b count lg arr tx 0 []).
  assert (Hok0 : acks_ok m n st0) by (by split).
  destruct (send_ack_loop_ok m slots Hm n st0 Hok0) as (new & [A1 A2 A3 A4] & He); [by rewrite Hlen|].
  set (st := foldl _ _ _) in *. clearbody st. rewrite Hlen in A3.
  destruct He as [E1 E2 E3 E4 E5 E6 E7 E8]. simpl in E1, E3, E4, E5, E6, E7, E8.
  destruct credits_val as [E30 _]. rewrite E30 in *.
  assert (Hnew : Z.of_nat (length new) <= 500).
  { assert (0 <= inv_size (as_buffer st)) by (rewrite (ib_size _ _ A1); apply sum_over_nonneg; intros; apply zb_range).
    assert (inv_size b <= BCAST_TO_CACHE_BATCH) by (rewrite (ib_size _ _ Hb), <- (ib_length _ _ Hb);
      apply sum_over_bound; intros; apply zb_range). rewrite batch_val in *. lia. }
  assert (Hk : ack_recv_counter st = (tx + Z.of_nat (length new)) / 30 - tx / 30) by (rewrite <- E7; lia).
  assert (0 <= ack_recv_counter st <= 17) by (rewrite Hk; Z.div_mod_to_equations; lia).
  rewrite (proj2 (Z.leb_le (ack_recv_counter st) MAX_CREDIT_RECVS)) by (change MAX_CREDIT_RECVS with 17; lia).
  rewrite (proj2 (Z.leb_le (ack_recv_counter st) BCAST_TO_CACHE_BATCH)), orb_true_r by (rewrite batch_val; lia).
  cbn [c_assert obind]. eexists. split; [reflexivity|].
  split; cbn [as_buffer as_ledger as_count as_sent sent_ack_tx]; rewrite ?E1; try done.
  - split. intros vc r Hvc Hr. apply (lo_credits _ _ A2 vc r Hvc Hr).
  - unfold fc_slack in *. cbn [fc_recvs credit_cq post_fc_recvs]. rewrite E30. lia.
Qed.

(** ** Credit messages *)
Lemma sum_over_add {A} (f g : A -> Z) l :
  sum_over (fun x => f x + g x) l = sum_over f l + sum_over g l.
Proof. induction l; simpl; lia. Qed.

#[export] Instance sum_over_Permutation {A} (f : A -> Z) : Proper ((≡ₚ) ==> (=)) (sum_over f).
Proof. intros l1 l2. induction 1; simpl; lia. Qed.

Lemma sum_over_scale {A} k (f : A -> Z) l : sum_over (fun x => k * f x) l = k * sum_over f l.
Proof. induction l; simpl; lia. Qed.

Lemma sum_over_eq {A} (f g : A -> Z) l : (forall x, x ∈ l -> f x = g x) -> sum_over f l = sum_over g l.
Proof.
  induction l as [|x l IH]; intros H; [done|]. simpl. rewrite (H x), IH; [done| |left].
  intros. apply H. by right.
Qed.

Lemma sum_over_le {A} (f g : A -> Z) l : (forall x, x ∈ l -> f x <= g x) -> sum_over f l <= sum_over g l.
Proof.
  induction l as [|x l IH]; intros H; [done|]. simpl. pose proof (H x ltac:(left)).
  assert (sum_over f l <= sum_over g l) by (apply IH; intros; apply H; by right). lia.
Qed.

Lemma sum_over_zero {A} (f : A -> Z) l : (forall x, x ∈ l -> f x = 0) -> sum_over f l = 0.
Proof.
  intros H. rewrite (sum_over_eq f (fun _ => 0)) by done. clear H. induction l; simpl; lia.
Qed.

Lemma sum_over_point {A} `{EqDecision A} (k : A) l :
  NoDup l -> sum_over (fun x => zb (bool_decide (x = k))) l = zb (bool_decide (k ∈ l)).
Proof.
  induction 1 as [|x l Hx _ IH]; [by rewrite bool_decide_false by apply not_elem_of_nil|].
  cbn [sum_over]. rewrite IH. destruct (decide (x = k)) as [->|Hne].
  - rewrite (bool_decide_true (k = k)) by done. rewrite (bool_decide_true (k ∈ k :: l)) by left.
    by rewrite (bool_decide_false (k ∈ l)).
  - rewrite (bool_decide_false (x = k)) by done.
    by rewrite (bool_decide_ext (k ∈ x :: l) (k ∈ l)) by (rewrite elem_of_cons; split; [by intros [->|]|by right]).
Qed.

(** The virtual channels and machines. *)
Definition cells : list (Z * Z) := vc ← [ACK_VC; INV_VC; UPD_VC]; r ← machines; [(vc, r)].

Lemma cells_spec vc r : (vc, r) ∈ cells <-> 0 <= vc < VIRTUAL_CHANNELS /\ r ∈ machines.
Proof.
  unfold cells, machines. change VIRTUAL_CHANNELS with 3. simpl. rewrite !elem_of_cons, !elem_of_nil.
  change ACK_VC with 0. change INV_VC with 1. change UPD_VC with 2.
  split; [intros H; repeat destruct H as [H|H]; try done; injection H as -> ->; (split; [lia|tauto])|].
  intros [Hvc Hr]. assert (vc = 0 \/ vc = 1 \/ vc = 2) as Hv by lia.
  repeat destruct Hv as [Hv|Hv]; repeat destruct Hr as [Hr|Hr]; try done; subst; tauto.
Qed.

Lemma cells_NoDup : NoDup cells.
Proof. by apply (bool_decide_unpack (NoDup cells)). Qed.

Definition total (f : Z -> Z -> Z) : Z := sum_over (fun x => f x.1 x.2) cells.

(** Credit messages of [m] to [r] for channel [vc]. *)
Definition wr_to (m vc r : Z) : list (Z * Z) -> Z :=
  sum_over (fun x => zb ((x.1 =? r) && (x.2 =? m + vc * MACHINE_NUM))).

Definition is_credit (m : Z) (x : Z * Z) : Prop :=
  x.1 ∈ others m /\ exists vc, 0 <= vc < VIRTUAL_CHANNELS /\ x.2 = m + vc * MACHINE_NUM.

Definition seen_ok (s : Z -> Z -> Z) : Prop := forall vc r, 0 <= s vc r < CREDITS_IN_MESSAGE.

Lemma total_nonneg s : seen_ok s -> 0 <= total s.
Proof. intros H. apply sum_over_nonneg. intros [vc r]. apply H. Qed.

Lemma wr_to_nonneg m vc r l : 0 <= wr_to m vc r l.
Proof. apply sum_over_nonneg. intros. apply zb_range. Qed.

(** Every credit message is for one channel. *)
Lemma credits_total m l : Forall (is_credit m) l -> total (fun vc r => wr_to m vc r l) = Z.of_nat (length l).
Proof.
  induction 1 as [|[d imm] l [Hd (vc & Hvc & E)] _ IH]; [by apply sum_over_zero|]. cbn [fst snd] in *.
  unfold total, wr_to in *. cbn [sum_over length]. rewrite sum_over_add, IH.
  rewrite (sum_over_eq _ (fun x => zb (bool_decide (x = (vc, d))))).
  - rewrite sum_over_point by apply cells_NoDup.
    apply elem_of_others in Hd as [Hd _]. rewrite bool_decide_true by by apply cells_spec. cbn [zb]. lia.
  - intros [vc' r] _. cbn [fst snd]. subst imm. f_equal. change MACHINE_NUM with 4.
    destruct (Z.eqb_spec d r), (Z.eqb_spec (m + vc * 4) (m + vc' * 4)); cbn [andb]; symmetry;
      first [apply bool_decide_true; f_equal; lia | apply bool_decide_false; intros [= -> ->]; lia].
Qed.

(** What the messages [l] (by channel) to [rm] add to [seen]. *)
Record fc_effect (m : Z) (st st' : fc_state) (new : list (Z * Z)) (d : Z -> Z -> Z) : Prop := {
  fe_seen : seen_ok (seen st');
  fe_wr : credit_wr st' = credit_wr st ++ new;
  fe_msgs : Forall (is_credit m) new;
  fe_eq : forall vc r, (vc, r) ∈ cells ->
    seen st' vc r + CREDITS_IN_MESSAGE * wr_to m vc r new = seen st vc r + d vc r
}.

Lemma fc_effect_refl m st d : seen_ok (seen st) -> (forall vc r, (vc, r) ∈ cells -> d vc r = 0) ->
  fc_effect m st st [] d.
Proof.
  intros H Hd. split; try done; [by rewrite app_nil_r|]. intros. rewrite Hd by done. unfold wr_to. simpl. lia.
Qed.

Lemma fc_effect_trans m st1 st2 st3 n1 n2 d1 d2 d :
  fc_effect m st1 st2 n1 d1 -> fc_effect m st2 st3 n2 d2 ->
  (forall vc r, (vc, r) ∈ cells -> d vc r = d1 vc r + d2 vc r) -> fc_effect m st1 st3 (n1 ++ n2) d.
Proof.
  intros [A1 A2 A3 A4] [B1 B2 B3 B4] Hd. split; try done.
  - by rewrite B2, A2, app_assoc.
  - by apply Forall_app.
  - intros vc r Hc. specialize (A4 vc r Hc). specialize (B4 vc r Hc). rewrite Hd by done.
    unfold wr_to in *. rewrite sum_over_app. lia.
Qed.

(** The number of credit messages, against what was seen. *)
Lemma fc_effect_length m st st' new d : fc_effect m st st' new d ->
  CREDITS_IN_MESSAGE * Z.of_nat (length (credit_wr st')) + total (seen st')
  = CREDITS_IN_MESSAGE * Z.of_nat (length (credit_wr st)) + total (seen st) + total d.
Proof.
  intros [E1 E2 E3 E4]. rewrite E2, length_app, Nat2Z.inj_add, <- (credits_total m new E3).
  assert (total (fun vc r => seen st' vc r + CREDITS_IN_MESSAGE * wr_to m vc r new)
          = total (fun vc r => seen st vc r + d vc r)) as H.
  { apply sum_over_eq. intros [vc r] Hc. by apply E4. }
  unfold total in *. rewrite !sum_over_add, sum_over_scale in H. lia.
Qed.

Lemma fc_channel_range count rm i : 0 <= fc_channel count rm i < VIRTUAL_CHANNELS.
Proof. unfold fc_channel. destruct vc_vals as (-> & -> & -> & ->). repeat zcase; lia. Qed.

Definition one_cell (vc r : Z) : Z -> Z -> Z := fun vc' r' => zb ((vc' =? vc) && (r' =? r)).

Lemma total_one_cell vc r : (vc, r) ∈ cells -> total (one_cell vc r) = 1.
Proof.
  intros H. unfold total, one_cell. rewrite (sum_over_eq _ (fun x => zb (bool_decide (x = (vc, r))))).
  - rewrite sum_over_point by apply cells_NoDup. by rewrite bool_decide_true.
  - intros [vc' r'] _. cbn [fst snd]. f_equal. symmetry.
    destruct (Z.eqb_spec vc' vc), (Z.eqb_spec r' r); cbn [andb];
      first [apply bool_decide_true; congruence | apply bool_decide_false; congruence].
Qed.

Lemma forge_credit_ok m count rm i st :
  m ∈ machines -> rm ∈ others m -> seen_ok (seen st) ->
  Z.of_nat (length (credit_wr st)) < CREDIT_SS_BATCH_ ->
  exists st' new, forge_credit m count rm i st = Done st' /\
    fc_effect m st st' new (one_cell (fc_channel count rm i) rm).
Proof.
  intros Hm Hrm Hs Hl. unfold forge_credit. pose proof (fc_channel_range count rm i) as Hvc.
  set (vc := fc_channel count rm i) in *. clearbody vc. destruct credits_val as [E30 _].
  set (s := upd2 (seen st) vc rm _).
  assert (Hsx : forall vc' r, s vc' r = seen st vc' r + one_cell vc rm vc' r).
  { intros. unfold s, one_cell. pose proof (Hs vc rm). rewrite u16_small by (unfold is_u16; lia).
    rewrite upd2_add. lia. }
  clearbody s.
  assert (Ht : (s ACK_VC rm =? CREDITS_IN_MESSAGE) || (s INV_VC rm =? CREDITS_IN_MESSAGE) ||
               (s UPD_VC rm =? CREDITS_IN_MESSAGE) = (seen st vc rm + 1 =? CREDITS_IN_MESSAGE)).
  { rewrite !Hsx. unfold one_cell. rewrite Z.eqb_refl, !andb_true_r.
    pose proof (Hs ACK_VC rm). pose proof (Hs INV_VC rm). pose proof (Hs UPD_VC rm).
    destruct vc_vals as (Ev & Ea & Ei & Eu). rewrite Ev, Ea, Ei, Eu, E30 in *.
    assert (vc = 0 \/ vc = 1 \/ vc = 2) as [-> | [-> | ->]] by lia; cbn [Z.eqb Pos.eqb zb]; repeat zcase; try done; lia. }
  rewrite Ht. destruct (Z.eqb_spec (seen st vc rm + 1) CREDITS_IN_MESSAGE) as [E|E].
  - rewrite (proj2 (Z.leb_le _ _)) by (rewrite length_app; simpl; lia). cbn [c_assert obind].
    eexists _, [(rm, m + vc * MACHINE_NUM)]. split; [reflexivity|]. split; cbn [seen credit_wr].
    + intros vc' r. unfold upd2. rewrite Hsx. unfold one_cell. pose proof (Hs vc' r).
      destruct (_ && _); cbn [zb]; lia.
    + done.
    + constructor; [|done]. split; [done|]. by exists vc.
    + intros vc' r Hc. unfold wr_to. cbn [sum_over fst snd]. rewrite E30 in *. unfold upd2. rewrite Hsx. unfold one_cell.
      change MACHINE_NUM with 4.
      destruct (Z.eqb_spec vc' vc) as [->|], (Z.eqb_spec r rm) as [->|]; cbn [andb zb]; rewrite ?Z.eqb_refl; cbn [andb zb];
        repeat zcase; cbn [andb zb]; lia.
  - eexists _, []. split; [reflexivity|]. split; cbn [seen credit_wr]; try done.
    + intros vc' r. rewrite Hsx. unfold one_cell. pose proof (Hs vc' r).
      destruct (Z.eqb_spec vc' vc) as [->|], (Z.eqb_spec r rm) as [->|]; cbn [andb zb]; lia.
    + by rewrite app_nil_r.
    + intros vc' r _. rewrite Hsx. unfold wr_to. simpl. lia.
Qed.

Lemma forge_credits_to_ok m count rm l : m ∈ machines -> rm ∈ others m -> forall st,
  seen_ok (seen st) ->
  CREDITS_IN_MESSAGE * Z.of_nat (length (credit_wr st)) + total (seen st) + Z.of_nat (length l)
    < CREDITS_IN_MESSAGE * CREDIT_SS_BATCH_ ->
  exists st' new, forge_credits_to m count rm l st = Done st' /\
    fc_effect m st st' new (fun vc r => sum_over (fun i => one_cell (fc_channel count rm i) rm vc r) l).
Proof.
  intros Hm Hrm. induction l as [|i l IH]; intros st Hs Hb.
  { exists st, []. split; [done|]. by apply fc_effect_refl. }
  cbn [length forge_credits_to] in *. rewrite Nat2Z.inj_succ in Hb. pose proof (total_nonneg _ Hs).
  destruct credits_val as [E30 _].
  destruct (forge_credit_ok m count rm i st Hm Hrm Hs) as (st1 & n1 & E1 & He1); [rewrite E30 in *; lia|].
  rewrite E1. cbn [obind]. pose proof (fc_effect_length _ _ _ _ _ He1) as Hlen.
  rewrite total_one_cell in Hlen by (apply cells_spec; split; [apply fc_channel_range|]; by apply elem_of_others in Hrm as [? _]).
  destruct (IH st1 (fe_seen _ _ _ _ _ He1) ltac:(lia)) as (st2 & n2 & E2 & He2).
  exists st2, (n1 ++ n2). split; [done|]. by eapply fc_effect_trans.
Qed.

(** A machine's messages by channel. *)
Lemma sum_over_const {A} (f : A -> Z) c l : (forall x, x ∈ l -> f x = c) -> sum_over f l = c * Z.of_nat (length l).
Proof. intros H. rewrite (sum_over_eq f (fun _ => c)) by done. clear H. induction l; simpl; lia. Qed.

Lemma fc_channel_count count rm vc : (forall vc, 0 <= count vc rm) -> 0 <= vc < VIRTUAL_CHANNELS ->
  sum_over (fun i => zb (vc =? fc_channel count rm i))
    (seqZ 0 (count ACK_VC rm + count INV_VC rm + count UPD_VC rm)) = count vc rm.
Proof.
  intros H0 Hvc. pose proof (H0 ACK_VC). pose proof (H0 INV_VC). pose proof (H0 UPD_VC).
  rewrite !seqZ_app, !sum_over_app by lia.
  rewrite (sum_over_const _ (zb (vc =? ACK_VC)) (seqZ 0 (count ACK_VC rm))).
  2: { intros i Hi%elem_of_seqZ. unfold fc_channel. by rewrite (proj2 (Z.ltb_lt _ _)) by lia. }
  rewrite (sum_over_const _ (zb (vc =? INV_VC)) (seqZ (0 + count ACK_VC rm) (count INV_VC rm))).
  2: { intros i Hi%elem_of_seqZ. unfold fc_channel. rewrite (proj2 (Z.ltb_ge _ _)) by lia.
       by rewrite (proj2 (Z.ltb_lt _ _)) by lia. }
  rewrite (sum_over_const _ (zb (vc =? UPD_VC)) (seqZ (0 + _) (count UPD_VC rm))).
  2: { intros i Hi%elem_of_seqZ. unfold fc_channel. by rewrite !(proj2 (Z.ltb_ge _ _)) by lia. }
  rewrite !length_seqZ, !Z2Nat.id by lia.
  destruct vc_vals as (Ev & Ea & Ei & Eu). rewrite Ev, Ea, Ei, Eu in *.
  assert (vc = 0 \/ vc = 1 \/ vc = 2) as [-> | [-> | ->]] by lia; cbn [Z.eqb zb Pos.eqb]; lia.
Qed.

(** What was counted for [rm], over the channels. *)
Definition counted (count : count_array) (rm : Z) : Z := count ACK_VC rm + count INV_VC rm + count UPD_VC rm.

Record count_ok (m : Z) (count : count_array) : Prop := {
  co_nonneg : forall vc r, 0 <= count vc r;
  co_self : forall vc, count vc m = 0;
  co_total : total count <= LIN_CLT_BUF_SLOTS
}.

Lemma total_counted count : total count = sum_over (counted count) machines.
Proof. unfold total, counted. simpl. lia. Qed.

Lemma counted_le m count rm : count_ok m count -> rm ∈ machines -> 0 <= counted count rm <= LIN_CLT_BUF_SLOTS.
Proof.
  intros [H1 _ H2] Hrm. rewrite total_counted in H2.
  assert (Hp : forall r, 0 <= counted count r)
    by (intros r; unfold counted; pose proof (H1 ACK_VC r); pose proof (H1 INV_VC r); pose proof (H1 UPD_VC r); lia).
  split; [done|]. apply elem_of_Permutation in Hrm as [l Hl]. rewrite Hl in H2. cbn [sum_over] in H2.
  pose proof (sum_over_nonneg (counted count) l Hp). lia.
Qed.

Lemma fc_message_count_eq m count rm :
  count_ok m count -> rm ∈ machines -> fc_message_count count rm = counted count rm.
Proof.
  intros Hc Hrm. pose proof (counted_le m count rm Hc Hrm). apply u16_small. unfold is_u16, counted in *.
  rewrite slots_val in *. lia.
Qed.

Lemma one_machine m count rm vc r : count_ok m count -> (vc, r) ∈ cells ->
  sum_over (fun i => one_cell (fc_channel count rm i) rm vc r) (seqZ 0 (counted count rm))
  = zb (r =? rm) * count vc rm.
Proof.
  intros Hc [Hvc _]%cells_spec. unfold one_cell. destruct (r =? rm).
  - rewrite <- (fc_channel_count count rm vc) by (done || (intros; apply Hc)). rewrite Z.mul_1_l.
    apply sum_over_eq. intros. by rewrite andb_true_r.
  - apply sum_over_zero. intros. by rewrite andb_false_r.
Qed.

Lemma forge_credits_loop_ok m count rms : m ∈ machines -> count_ok m count -> NoDup rms ->
  forall st, (forall rm, rm ∈ rms -> rm ∈ machines) -> seen_ok (seen st) ->
  CREDITS_IN_MESSAGE * Z.of_nat (length (credit_wr st)) + total (seen st) + sum_over (counted count) rms
    < CREDITS_IN_MESSAGE * CREDIT_SS_BATCH_ ->
  exists st' new, forge_credits_loop m count rms st = Done st' /\
    fc_effect m st st' new (fun vc r => zb (bool_decide (r ∈ rms)) * count vc r).
Proof.
  intros Hm Hc. induction 1 as [|rm rms Hnin _ IH]; intros st Hin Hs Hb.
  { exists st, []. split; [done|]. apply fc_effect_refl; [done|]. intros.
    by rewrite bool_decide_false by apply not_elem_of_nil. }
  cbn [forge_credits_loop sum_over] in *. assert (Hrm : rm ∈ machines) by (apply Hin; left).
  rewrite (fc_message_count_eq m) by done. pose proof (counted_le m count rm Hc Hrm) as Hle.
  assert (Hone : exists st1 n1, forge_credits_to m count rm (seqZ 0 (counted count rm)) st = Done st1 /\
    fc_effect m st st1 n1 (fun vc r => zb (r =? rm) * count vc rm)).
  { destruct (decide (rm = m)) as [->|Hne].
    - exists st, []. unfold counted. rewrite !(co_self _ _ Hc). split; [done|].
      apply fc_effect_refl; [done|]. intros. rewrite (co_self _ _ Hc). lia.
    - assert (0 <= sum_over (counted count) rms).
      { apply sum_over_nonneg. intros r. unfold counted. pose proof (co_nonneg _ _ Hc ACK_VC r).
        pose proof (co_nonneg _ _ Hc INV_VC r). pose proof (co_nonneg _ _ Hc UPD_VC r). lia. }
      destruct (forge_credits_to_ok m count rm (seqZ 0 (counted count rm)) Hm
        ltac:(by apply elem_of_others) st Hs) as (st1 & n1 & E1 & [F1 F2 F3 F4]).
      { rewrite length_seqZ, Z2Nat.id by lia. lia. }
      exists st1, n1. split; [done|]. split; try done. intros vc r Hcell. rewrite F4 by done.
      by rewrite (one_machine m). }
  destruct Hone as (st1 & n1 & E1 & He1). rewrite E1. cbn [obind].
  pose proof (fc_effect_length _ _ _ _ _ He1) as Hlen.
  assert (Htot : total (fun vc r => zb (r =? rm) * count vc rm) = counted count rm).
  { unfold total, counted. simpl. apply machines_spec in Hrm. change MACHINE_NUM with 4 in Hrm.
    assert (rm = 0 \/ rm = 1 \/ rm = 2 \/ rm = 3) as [-> | [-> | [-> | ->]]] by lia; cbn [Z.eqb Pos.eqb zb]; lia. }
  rewrite Htot in Hlen.
  destruct (IH st1) as (st2 & n2 & E2 & He2); [by intros; apply Hin; right|apply He1|lia|].
  exists st2, (n1 ++ n2). split; [done|]. apply (fc_effect_trans _ _ _ _ _ _ _ _ _ He1 He2).
  intros vc r _. destruct (Z.eqb_spec r rm) as [->|Hne].
  - rewrite (bool_decide_true (rm ∈ rm :: rms)) by left. rewrite (bool_decide_false (rm ∈ rms)) by done. cbn [zb]. lia.
  - rewrite (bool_decide_ext (r ∈ rm :: rms) (r ∈ rms)) by (rewrite elem_of_cons; tauto). cbn [zb]. lia.
Qed.

Lemma total_fc_eq m count : count_ok m count -> total_fc_message_count count = total count.
Proof.
  intros Hc. unfold total_fc_message_count. change (seqZ 0 MACHINE_NUM) with machines.
  assert (Hg : forall l t, (forall rm, rm ∈ l -> rm ∈ machines) -> 0 <= t ->
    t + sum_over (counted count) l <= LIN_CLT_BUF_SLOTS ->
    foldl (fun t rm_id => u16 (t + fc_message_count count rm_id)) t l = t + sum_over (counted count) l).
  { induction l as [|rm l IH]; intros t Hin Ht Hb; cbn [foldl sum_over] in *; [lia|].
    assert (Hrm : rm ∈ machines) by (apply Hin; left). pose proof (counted_le m count rm Hc Hrm).
    assert (0 <= sum_over (counted count) l).
    { apply sum_over_nonneg. intros r. unfold counted. pose proof (co_nonneg _ _ Hc ACK_VC r).
      pose proof (co_nonneg _ _ Hc INV_VC r). pose proof (co_nonneg _ _ Hc UPD_VC r). lia. }
    rewrite (fc_message_count_eq m), u16_small by (done || (unfold is_u16; rewrite slots_val in *; lia)).
    rewrite IH; [lia|by intros; apply Hin; right|lia|lia]. }
  rewrite Hg; [by rewrite total_counted|done|done|]. rewrite <- total_counted. apply Hc.
Qed.

(** The credits of a round: every message whose buffer was emptied counts towards
    one, and the completions it waits for are there. *)
Lemma forge_credits_LIN_ok m count s cq :
  m ∈ machines -> count_ok m count -> seen_ok s -> total count <= cq ->
  exists st, forge_credits_LIN m count s cq = Done (st, cq - total count) /\
    seen_ok (seen st) /\ Forall (is_credit m) (credit_wr st) /\
    (forall vc r, (vc, r) ∈ cells ->
      seen st vc r + CREDITS_IN_MESSAGE * wr_to m vc r (credit_wr st) = s vc r + count vc r) /\
    CREDITS_IN_MESSAGE * Z.of_nat (length (credit_wr st)) + total (seen st) = total s + total count.
Proof.
  intros Hm Hc Hs Hcq. unfold forge_credits_LIN. change (seqZ 0 MACHINE_NUM) with machines.
  destruct (forge_credits_loop_ok m count machines Hm Hc) with (st := mkFc s []) as (st & new & E & He).
  - by apply (bool_decide_unpack (NoDup machines)).
  - done.
  - done.
  - rewrite <- total_counted. pose proof (co_total _ _ Hc) as Ht. rewrite slots_val in Ht.
    destruct credits_val as [E30 _].
    assert (total s <= 29 * Z.of_nat (length cells)).
    { unfold total. rewrite <- (sum_over_const (fun _ => 29) 29 cells) by done. apply sum_over_le.
      intros [vc r] _. pose proof (Hs vc r). rewrite E30 in *. cbn [fst snd]. lia. }
    change (length cells) with 12%nat in *. change CREDIT_SS_BATCH_ with 126. rewrite E30. cbn [seen credit_wr length].
    change (total (fun vc r => s vc r)) with (total s). lia.
  - rewrite E. cbn [obind]. rewrite (total_fc_eq m) by done. unfold hrd_poll_cq.
    rewrite (proj2 (Z.leb_le _ _)) by done. cbn [obind]. exists st. split; [done|].
    pose proof (fc_effect_length _ _ _ _ _ He) as Hlen.
    assert (Ht : total (fun vc r => zb (bool_decide (r ∈ machines)) * count vc r) = total count).
    { apply sum_over_eq. intros [vc r] [_ Hr]%cells_spec. rewrite bool_decide_true by done. cbn [zb]. lia. }
    rewrite Ht in Hlen. destruct He as [F1 F2 F3 F4]. simpl in F2, Hlen. subst new.
    split_and!; try done.
    + intros vc r Hcell. rewrite F4 by done. apply cells_spec in Hcell as [_ Hr].
      rewrite bool_decide_true by done. cbn [zb seen]. lia.
Qed.

(** Receives are posted behind those that are there. *)
Lemma send_credits_ok m ib l n :
  ring_ok m ib l ->
  Z.of_nat (length l) + recvs ib + CREDITS_IN_MESSAGE * Z.of_nat n <= LIN_CLT_BUF_SLOTS ->
  ring_ok m (send_credits n ib) l /\ recvs (send_credits n ib) = recvs ib + CREDITS_IN_MESSAGE * Z.of_nat n.
Proof.
  intros [H1 H2 H3 H4 H5 H6 H7 H8] Hb.
  assert (Ek : Z.of_nat (n * Z.to_nat CREDITS_IN_MESSAGE) = CREDITS_IN_MESSAGE * Z.of_nat n)
    by (change CREDITS_IN_MESSAGE with 30; lia).
  destruct credits_val as [E30 _].
  split; [split; unfold send_credits; cbn [incoming_reqs pull_ptr push_ptr nic_ptr recvs]; rewrite ?Ek; try done; try lia|].
  - rewrite iter_MOD_ADD, Ek.
    + rewrite H5, Z.add_mod_idemp_l by done. f_equal. lia.
    + done.
    + rewrite H5. by apply Z.mod_pos_bound.
  - unfold send_credits. cbn [recvs]. lia.
Qed.

(** ** A whole round *)

(** What the client holds for channel [vc] of machine [s]: acknowledgements whose
    update waits to be sent, invalidations whose acknowledgement waits. *)
Definition held (vc s : Z) (senders : list Z) (b : inv_buffer) : Z :=
  zb (vc =? ACK_VC) * occ s senders + zb (vc =? INV_VC) * brc s (inv_to_send_ops b).

(** Receives that are not posted for machine [s] on [vc]: messages unread, held,
    or seen and not yet returned as a credit. *)
Definition load (c : client) (l : list cache_op) (senders : list Z) (vc s : Z) : Z :=
  cnt vc s l + held vc s senders (c_invs c) + c_seen c vc s.

(** [l] are the unread messages, [senders] the machines of the completed writes
    that wait for their update. *)
Record client_ok (m : Z) (c : client) (l : list cache_op) (senders : list Z) : Prop := {
  ck_ring : ring_ok m (c_inbox c) l;
  ck_acks : ackq_ok m (c_acks c) 0 senders;
  ck_invs : invb_ok m (c_invs c);
  ck_ledger : ledger_ok m (c_ledger c);
  ck_seen : seen_ok (c_seen c);
  ck_br_tx : 0 <= c_br_tx c;
  ck_ack_tx : 0 <= c_ack_tx c;
  ck_recvs : recvs (c_inbox c) + total (load c l senders) = LIN_CLT_BUF_SLOTS;
  ck_cq : c_coh_recv_cq c = total (fun vc s => cnt vc s l + held vc s senders (c_invs c))
}.

(** The cache keeps sender and kind of an update or acknowledgement. *)
Definition update_answer (op : cache_op) (x : cache_op * mica_resp) : Prop :=
  cid (meta x.1) = cid (meta op) /\ opcode x.1 = opcode op.
(** It may turn an invalidation into an acknowledgement. *)
Definition inv_answer (op : cache_op) (x : cache_op * mica_resp) : Prop :=
  cid (meta x.1) = cid (meta op) /\ opcode x.1 <> CACHE_OP_BRC.

Definition answers (kind : cache_op -> Prop) (R : cache_op -> cache_op * mica_resp -> Prop)
    (f : list cache_op -> list (cache_op * mica_resp)) : Prop :=
  forall l, Forall kind l -> Forall2 R l (f l).

Definition is_upd_or_ack (op : cache_op) : Prop := opcode op = CACHE_OP_UPD \/ opcode op = CACHE_OP_ACK.

(** Messages for [r] on [vc]. *)
Definition sent_on (vc r : Z) : list msg -> Z :=
  sum_over (fun x => zb ((vc_of (m_op x) =? vc) && (dst x =? r))).

Definition is_coh (m : Z) (x : msg) : Prop :=
  dst x ∈ others m /\ cid (meta (m_op x)) = m /\ is_coherence (opcode (m_op x)) = true.

Record round_effect (m : Z) (c : client) (l : list cache_op) (snd : list Z)
    (c' : client) (l' : list cache_op) (snd' : list Z) (out : sends) : Prop := {
  ro_client : client_ok m c' l' snd';
  ro_ring : exists read, l = read ++ l';
  ro_load : forall vc s, (vc, s) ∈ cells ->
    load c' l' snd' vc s + CREDITS_IN_MESSAGE * wr_to m vc s (credit_msgs out) = load c l snd vc s;
  ro_purse : forall vc r, 0 <= vc < VIRTUAL_CHANNELS -> r ∈ others m ->
    purse vc r (c_ledger c') + sent_on vc r (coherence out) = purse vc r (c_ledger c);
  ro_coherence : Forall (is_coh m) (coherence out);
  ro_credits : Forall (is_credit m) (credit_msgs out);
  ro_br : forall r, r ∈ others m ->
    c_br_tx c' = c_br_tx c + sent_on INV_VC r (coherence out) + sent_on UPD_VC r (coherence out);
  ro_ack : c_ack_tx c' = c_ack_tx c + sum_over (fun r => sent_on ACK_VC r (coherence out)) (others m);
  ro_fc : fc_slack (c_ledger c') - (MACHINE_NUM - 1) * (c_br_tx c' / CREDITS_IN_MESSAGE)
            - c_ack_tx c' / CREDITS_IN_MESSAGE
          = fc_slack (c_ledger c) - (MACHINE_NUM - 1) * (c_br_tx c / CREDITS_IN_MESSAGE)
            - c_ack_tx c / CREDITS_IN_MESSAGE
}.

(** The counters of messages, under changes that keep what they count. *)
Lemma cnt_app vc s l1 l2 : cnt vc s (l1 ++ l2) = cnt vc s l1 + cnt vc s l2.
Proof. apply sum_over_app. Qed.

Lemma cnt_split vc s l : cnt vc s l = cnt vc s (updates_of l) + cnt vc s (invs_of l).
Proof.
  induction l as [|op l IH]; [done|]. destruct (decide (is_inv op)) as [H|H].
  - destruct (split_inv op l H) as [-> ->]. unfold cnt in *. cbn [sum_over]. lia.
  - destruct (split_update op l H) as [-> ->]. unfold cnt in *. cbn [sum_over]. lia.
Qed.

Lemma cnt_ext vc s l l' :
  Forall2 (fun x y => cid (meta x) = cid (meta y) /\ opcode x = opcode y) l l' -> cnt vc s l = cnt vc s l'.
Proof.
  intros H. apply sum_over_ext. eapply Forall2_impl; [exact H|]. intros x y [E1 E2]. unfold vc_of. by rewrite E1, E2.
Qed.

Lemma acks_in_ext l l' :
  Forall2 (fun x y => cid (meta x) = cid (meta y) /\ opcode x = opcode y) l l' -> acks_in l = acks_in l'.
Proof. intros H. apply sum_over_ext. eapply Forall2_impl; [exact H|]. intros x y [_ ->]. done. Qed.

Lemma cnt_invs vc s l : Forall is_inv l ->
  cnt vc s l = zb (INV_VC =? vc) * occ s ((fun op => cid (meta op)) <$> l).
Proof.
  induction 1 as [|op l H _ IH]; [unfold occ, cnt; simpl; lia|]. unfold cnt, occ in *. rewrite fmap_cons. cbn [sum_over].
  rewrite IH. unfold vc_of, is_inv in *. rewrite H. change (CACHE_OP_INV =? CACHE_OP_ACK) with false.
  change (CACHE_OP_INV =? CACHE_OP_INV) with true. cbv iota.
  destruct (INV_VC =? vc), (cid (meta op) =? s); cbn [andb zb]; lia.
Qed.

Lemma sum_over_fmap {A B} (f : B -> Z) (g : A -> B) l : sum_over f (g <$> l) = sum_over (fun x => f (g x)) l.
Proof. induction l as [|x l IH]; [done|]. rewrite fmap_cons. cbn [sum_over]. by rewrite IH. Qed.

(** Nothing comes from a machine that no message comes from. *)
Lemma occ_none s l : Forall (fun c => c <> s) l -> occ s l = 0.
Proof.
  induction 1 as [|c l H _ IH]; [done|]. unfold occ in *. cbn [sum_over]. apply Z.eqb_neq in H. rewrite H, IH. done.
Qed.

Lemma cnt_none vc s l : Forall (fun op => cid (meta op) <> s) l -> cnt vc s l = 0.
Proof.
  induction 1 as [|op l H _ IH]; [done|]. unfold cnt in *. cbn [sum_over]. apply Z.eqb_neq in H.
  rewrite H, IH, andb_false_r. done.
Qed.

Lemma brc_none s l : Forall (fun op => opcode op = CACHE_OP_BRC -> cid (meta op) <> s) l -> brc s l = 0.
Proof.
  induction 1 as [|op l H _ IH]; [done|]. unfold brc in *. cbn [sum_over]. rewrite IH.
  destruct (Z.eqb_spec (opcode op) CACHE_OP_BRC) as [E|]; cbn [andb]; [|done]. apply Z.eqb_neq in H; [|done].
  rewrite H. done.
Qed.

Lemma others_ne m s : s ∈ others m -> s <> m.
Proof. by intros [_ ?]%elem_of_others. Qed.

Lemma no_self m l senders b vc :
  Forall (is_msg m) l -> Forall (fun c => c ∈ others m) senders -> invb_ok m b ->
  cnt vc m l + held vc m senders b = 0.
Proof.
  intros Hl Hs Hb. unfold held.
  rewrite cnt_none by (eapply Forall_impl; [exact Hl|]; intros op [_ H]; by apply others_ne).
  rewrite occ_none by (eapply Forall_impl; [exact Hs|]; intros; by apply others_ne).
  rewrite brc_none by (eapply Forall_impl; [apply Hb|]; intros; by apply others_ne; auto). lia.
Qed.

Lemma held_nonneg vc s senders b : 0 <= held vc s senders b.
Proof.
  unfold held. pose proof (occ_nonneg s senders). pose proof (brc_nonneg s (inv_to_send_ops b)).
  destruct (vc =? ACK_VC), (vc =? INV_VC); cbn [zb]; lia.
Qed.

(** ** The messages of a broadcast *)
Lemma sent_on_bcasts m vc r ops : r ∈ others m ->
  sent_on vc r (mjoin ((fun op => (fun d => mkMsg d op) <$> others m) <$> ops)) = on_vc vc ops.
Proof.
  intros Hr. induction ops as [|op ops IH]; [done|].
  change (mjoin ((fun op => (fun d => mkMsg d op) <$> others m) <$> (op :: ops))) with
    (((fun d => mkMsg d op) <$> others m) ++ mjoin ((fun op => (fun d => mkMsg d op) <$> others m) <$> ops)).
  unfold sent_on, on_vc in *. rewrite sum_over_app, IH, sum_over_fmap. cbn [sum_over m_op dst]. f_equal.
  destruct (vc_of op =? vc); cbn [andb]; [|by apply sum_over_zero].
  rewrite (sum_over_eq _ (fun d => zb (bool_decide (d = r)))).
  - rewrite sum_over_point by apply others_NoDup. by rewrite bool_decide_true.
  - intros d _. f_equal. destruct (Z.eqb_spec d r); symmetry; [by apply bool_decide_true|by apply bool_decide_false].
Qed.

(** ** Receiving: poll, cache, bookkeeping *)
Record received (m : Z) (c : client) (l : list cache_op) (snd : list Z) (p : polled) (rest : list cache_op)
    (count : count_array) (q : ack_queue) (snd1 : list Z) (b : inv_buffer) : Prop := {
  rc_ring : ring_ok m (po_inbox p) rest;
  rc_recvs : recvs (po_inbox p) = recvs (c_inbox c);
  rc_read : exists read, l = read ++ rest;
  rc_acks : ackq_ok m q 0 snd1;
  rc_invs : invb_ok m b;
  rc_small : small count (2 * BCAST_TO_CACHE_BATCH);
  rc_count : forall vc s, count vc s + held vc s snd1 b + cnt vc s rest
    = cnt vc s l + held vc s snd (c_invs c)
}.

Lemma ackq_size m q sent snd : ackq_ok m q sent snd -> Z.of_nat (length snd) <= BCAST_TO_CACHE_BATCH.
Proof. intros [_ H1 [H2 H3] _ _ _ _]. lia. Qed.

Lemma invb_size m b : invb_ok m b -> 0 <= inv_size b <= BCAST_TO_CACHE_BATCH.
Proof.
  intros [H1 _ H2 _]. rewrite H2, <- H1. split.
  - apply sum_over_nonneg. intros. apply zb_range.
  - apply sum_over_bound. intros. apply zb_range.
Qed.

Lemma poll_coherence_ok m c l snd :
  ring_ok m (c_inbox c) l -> ackq_ok m (c_acks c) 0 snd -> invb_ok m (c_invs c) ->
  exists p read rest, poll_coherence_LIN (c_inbox c) (c_update_ops c) (c_inv_ops c)
      (ack_size (c_acks c)) (inv_size (c_invs c)) = Done p /\ l = read ++ rest /\
    Z.of_nat (length read) <= BCAST_TO_CACHE_BATCH /\ recvs (po_inbox p) = recvs (c_inbox c) /\
    poll_result m (ack_size (c_acks c)) (inv_size (c_invs c)) p read rest [] [].
Proof.
  intros Hr Hq Hb. unfold poll_coherence_LIN. pose proof (invb_size m _ Hb).
  destruct (poll_loop_ok (Z.to_nat BCAST_TO_CACHE_BATCH) m (ack_size (c_acks c)) (inv_size (c_invs c))
    (mkPolled (c_inbox c) (c_update_ops c) 0 (c_inv_ops c) 0 0) l [] [] Hr) as (p & read & rest & E & El & Hlen & Hc & Hp).
  - split; try done; by constructor.
  - change (acks_in []) with 0. destruct (aq_room _ _ _ _ Hq). lia.
  - simpl. lia.
  - exists p, read, rest. split_and!; try done. rewrite batch_val in *. lia.
Qed.

(** Kinds of the polled messages. *)
Lemma read_kinds m read : Forall (is_msg m) read ->
  Forall (upd_or_ack m) (updates_of read) /\ Forall (fun op => is_inv op /\ cid (meta op) ∈ others m) (invs_of read).
Proof.
  intros H. split; apply Forall_forall; intros op [Hk Hin]%list_elem_of_filter;
    pose proof (proj1 (Forall_forall _ _) H op Hin) as [Ho Hc]; [|done].
  split; [done|]. unfold is_coherence, is_inv in *.
  destruct (Z.eqb_spec (opcode op) CACHE_OP_UPD), (Z.eqb_spec (opcode op) CACHE_OP_ACK),
    (Z.eqb_spec (opcode op) CACHE_OP_INV); try tauto. done.
Qed.

Lemma received_Forall (P : cache_op -> Prop) l l' :
  (forall x y, same_header x y -> P y -> P x) -> Forall2 received_as l l' -> Forall P l' -> Forall P l.
Proof.
  intros HP H. induction H as [|x y l l' Hxy%received_header _ IH]; intros H'; [done|].
  apply Forall_cons in H' as [H1 H2]. constructor; [by apply (HP x y)|by apply IH].
Qed.

Lemma Forall2_join {A B C} (R : A -> B -> Prop) (S : A -> C -> Prop) (T : B -> C -> Prop) l l1 l2 :
  (forall a b c, R a b -> S a c -> T b c) -> Forall2 R l l1 -> Forall2 S l l2 -> Forall2 T l1 l2.
Proof.
  intros HT H. revert l2. induction H as [|a b l l1 Hab _ IH]; intros l2 H2; inversion H2; subst; constructor; eauto.
Qed.

Lemma Forall_answers (R : cache_op -> cache_op * mica_resp -> Prop) (P : cache_op -> Prop) (Q : cache_op * mica_resp -> Prop) l l' :
  (forall op x, R op x -> P op -> Q x) -> Forall2 R l l' -> Forall P l -> Forall Q l'.
Proof.
  intros HQ H. induction H as [|op x l l' Hx _ IH]; intros H'; [done|].
  apply Forall_cons in H' as [H1 H2]. constructor; [by apply (HQ op x)|by apply IH].
Qed.

Section round.
Context (m : Z) (Hm : m ∈ machines).
Context (update_cache inv_cache : list cache_op -> list (cache_op * mica_resp)).
Context (Hupdates : answers is_upd_or_ack update_answer update_cache).
Context (Hinvs : answers is_inv inv_answer inv_cache).

Definition polled_updates (p : polled) : list (cache_op * mica_resp) :=
  update_cache (array_take (update_ops_i p) (po_update_ops p)).
Definition polled_invs (p : polled) : list (cache_op * mica_resp) :=
  inv_cache (array_take (inv_ops_i p) (po_inv_ops p)).

Lemma polled_updates_spec p ups iv : polled_as p ups iv -> Forall (upd_or_ack m) ups ->
  Forall2 (fun x y => cid (meta x) = cid (meta y) /\ opcode x = opcode y) (polled_updates p).*1 ups /\
  Forall (fun x => upd_or_ack m x.1) (polled_updates p).
Proof.
  intros [H1 _ _ _ _] Hk.
  assert (Hk1 : Forall (upd_or_ack m) (array_take (update_ops_i p) (po_update_ops p))).
  { eapply received_Forall; [|exact H1|exact Hk]. unfold upd_or_ack. by intros x y [-> ->]. }
  assert (Ha : Forall2 update_answer (array_take (update_ops_i p) (po_update_ops p)) (polled_updates p)).
  { apply Hupdates. eapply Forall_impl; [exact Hk1|]. by intros op [_ ?]. }
  split.
  - apply Forall2_fmap_l. eapply Forall2_join; [|exact Ha|exact H1].
    intros y x z [E1 E2] [E3 E4]%received_header. cbn [fst]. split; congruence.
  - eapply Forall_answers; [|exact Ha|exact Hk1]. unfold upd_or_ack. by intros op x [-> ->].
Qed.

Lemma polled_invs_spec p ups iv :
  polled_as p ups iv -> Forall (fun op => is_inv op /\ cid (meta op) ∈ others m) iv ->
  ((fun x => cid (meta x.1)) <$> polled_invs p) = ((fun op => cid (meta op)) <$> iv) /\
  Forall (fun x => cid (meta x.1) ∈ others m /\ opcode x.1 <> CACHE_OP_BRC) (polled_invs p).
Proof.
  intros [_ H1 _ _ _] Hk.
  assert (Hk1 : Forall (fun op => is_inv op /\ cid (meta op) ∈ others m) (array_take (inv_ops_i p) (po_inv_ops p))).
  { eapply received_Forall; [|exact H1|exact Hk]. unfold is_inv. by intros x y [-> ->]. }
  assert (Ha : Forall2 inv_answer (array_take (inv_ops_i p) (po_inv_ops p)) (polled_invs p)).
  { apply Hinvs. eapply Forall_impl; [exact Hk1|]. by intros op [? _]. }
  split.
  - apply list_eq_Forall2, Forall2_fmap. eapply Forall2_join; [|exact Ha|exact H1].
    intros y x z [E1 _] [E3 _]%received_header. cbn [fst]. congruence.
  - eapply Forall_answers; [|exact Ha|exact Hk1]. intros op x [E1 E2] [_ Hc]. split; [congruence|done].
Qed.

Lemma receive_ok c l snd : client_ok m c l snd ->
  exists p rest count1 count q b snd1,
    poll_coherence_LIN (c_inbox c) (c_update_ops c) (c_inv_ops c)
      (ack_size (c_acks c)) (inv_size (c_invs c)) = Done p /\
    update_ops_i p <= BCAST_TO_CACHE_BATCH /\
    updates_and_acks_bookkeeping (polled_updates p) (fun _ _ => 0, c_acks c) = Done (count1, q) /\
    invs_bookkeeping (polled_invs p) (count1, c_invs c) = Done (count, b) /\
    received m c l snd p rest count q snd1 b.
Proof.
  intros [K1 K2 K3 K4 K5 K6 K7 K8 K9].
  destruct (poll_coherence_ok m c l snd K1 K2 K3) as (p & read & rest & E & -> & Hlen & Hrecv & [R1 R2 R3 R4]).
  cbn [app] in *. assert (Hread : Forall (is_msg m) read) by exact (proj1 (proj1 (Forall_app _ _ _) (rg_msgs _ _ _ K1))).
  destruct (read_kinds m read Hread) as [Hku Hki].
  destruct (polled_updates_spec _ _ _ R2 Hku) as [U1 U2]. destruct (polled_invs_spec _ _ _ R2 Hki) as [I1 I2].
  assert (Hlu : length (polled_updates p) = length (updates_of read))
    by (rewrite <- (Forall2_length _ _ _ U1); by rewrite length_fmap).
  assert (Hli : length (polled_invs p) = length (invs_of read))
    by (rewrite <- (length_fmap (fun x => cid (meta x.1)) (polled_invs p)), I1; by rewrite length_fmap).
  assert (Hsplit : Z.of_nat (length (updates_of read)) + Z.of_nat (length (invs_of read)) = Z.of_nat (length read)).
  { clear. induction read as [|op read IH]; [done|]. destruct (decide (is_inv op)) as [H|H];
      [destruct (split_inv op read H) as [-> ->]|destruct (split_update op read H) as [-> ->]]; cbn [length]; lia. }
  rewrite batch_val in *.
  destruct (bookkeep_updates_ok m (polled_updates p) (fun _ _ => 0) (c_acks c) snd 0) as (count1 & q & new & E1 & C1 & Q1 & EQ1).
  { intros vc s. lia. }
  { lia. }
  { done. }
  { rewrite (acks_in_ext _ _ U1), batch_val. rewrite (aq_size _ _ _ _ K2) in R3. lia. }
  { done. }
  destruct (bookkeep_invs_ok m (polled_invs p) count1 (c_invs c) (0 + Z.of_nat (length (polled_updates p))))
    as (count & b & E2 & C2 & B2 & EQ2); try done; [lia|rewrite batch_val; lia|].
  exists p, rest, count1, count, q, b, (snd ++ new). split_and!; try done.
  { rewrite (pa_ups_i _ _ _ R2). lia. }
  split; try done.
  - by exists read.
  - rewrite batch_val. intros vc s. specialize (C2 vc s). lia.
  - intros vc s. specialize (EQ1 vc s). specialize (EQ2 vc s). rewrite I1 in EQ2.
    rewrite cnt_app, (cnt_split vc s read), (cnt_invs vc s (invs_of read)) by (eapply Forall_impl; [exact Hki|]; by intros ? [? _]).
    rewrite (cnt_ext _ _ _ _ U1) in EQ1. unfold held, occ in *. rewrite sum_over_app. lia.
Qed.

(** ** Sending *)
Lemma maybe_send_acks_ok n b count lg arr tx :
  invb_ok m b -> ledger_ok m lg -> small count n -> n + BCAST_TO_CACHE_BATCH < 2 ^ 16 -> 0 <= tx ->
  exists st, (if 0 <? inv_size b then send_acks m b count lg arr tx
              else Done (mkAcks b count lg arr tx 0 [])) = Done st /\ acks_sent m n b count lg tx st.
Proof.
  intros Hb Hl Hc Hn Htx. destruct (0 <? inv_size b); [by apply send_acks_ok|].
  eexists. split; [reflexivity|]. split; simpl; try done; try lia.
  - intros vc s. specialize (Hc vc s). rewrite batch_val. lia.
  - intros. unfold sent_to. simpl. lia.
Qed.

(** The messages of a round are its broadcasts and its acknowledgements. *)
Definition round_msgs (ops : list cache_op) (acks : list msg) : list msg :=
  mjoin ((fun op => (fun d => mkMsg d op) <$> others m) <$> ops) ++ acks.

Lemma on_vc_bcasts ops : Forall (is_bcast m) ops ->
  on_vc ACK_VC ops = 0 /\ on_vc INV_VC ops + on_vc UPD_VC ops = Z.of_nat (length ops).
Proof.
  induction 1 as [|op ops [_ Hop] _ [IH1 IH2]]; [done|]. unfold on_vc in *. cbn [sum_over length].
  assert (vc_of op = INV_VC \/ vc_of op = UPD_VC) as [-> | ->]
    by (unfold vc_of; destruct Hop as [-> | ->]; [by left|by right]).
  all: rewrite IH1; split; [done|]; cbn [Z.eqb Pos.eqb zb INV_VC UPD_VC]; lia.
Qed.

Lemma acks_sent_on vc r acks : Forall (is_ack_of m) acks -> sent_on vc r acks = zb (vc =? ACK_VC) * sent_to r acks.
Proof.
  induction 1 as [|x acks (_ & _ & Hx) _ IH]; [unfold sent_on, sent_to; simpl; lia|].
  unfold sent_on, sent_to in *. cbn [sum_over]. rewrite IH. unfold vc_of. rewrite Hx, Z.eqb_refl, (Z.eqb_sym ACK_VC vc).
  destruct (vc =? ACK_VC), (dst x =? r); cbn [andb zb]; lia.
Qed.

Lemma acks_sent_total acks : Forall (is_ack_of m) acks ->
  sum_over (fun r => sent_to r acks) (others m) = Z.of_nat (length acks).
Proof.
  induction 1 as [|x acks (Hd & _) _ IH]; [by apply sum_over_zero|]. unfold sent_to in *. cbn [sum_over length].
  rewrite sum_over_add, IH. rewrite (sum_over_eq _ (fun r => zb (bool_decide (r = dst x)))).
  - rewrite sum_over_point by apply others_NoDup. rewrite bool_decide_true by done. cbn [zb]. lia.
  - intros r _. f_equal. destruct (Z.eqb_spec (dst x) r); symmetry; [by apply bool_decide_true|by apply bool_decide_false].
Qed.

Lemma round_msgs_on vc r ops acks : Forall (is_ack_of m) acks -> r ∈ others m ->
  sent_on vc r (round_msgs ops acks) = on_vc vc ops + zb (vc =? ACK_VC) * sent_to r acks.
Proof.
  intros Ha Hr. unfold round_msgs. rewrite <- (acks_sent_on vc r acks Ha), <- (sent_on_bcasts m vc r ops Hr).
  apply sum_over_app.
Qed.

Lemma round_msgs_coh ops acks : Forall (is_bcast m) ops -> Forall (is_ack_of m) acks ->
  Forall (is_coh m) (round_msgs ops acks).
Proof.
  intros Ho Ha. apply Forall_app. split.
  - apply Forall_join, Forall_fmap. eapply Forall_impl; [exact Ho|]. intros op [Hc Hop]. unfold compose.
    apply Forall_fmap, Forall_forall. intros d Hd. unfold compose. split; [done|]. split; [done|]. cbn [m_op].
    destruct Hop as [-> | ->]; done.
  - eapply Forall_impl; [exact Ha|]. intros x (H1 & H2 & H3). unfold is_coh. by rewrite H3.
Qed.

Lemma total_le f g : (forall vc r, (vc, r) ∈ cells -> f vc r <= g vc r) -> total f <= total g.
Proof. intros H. apply sum_over_le. intros [vc r] Hc. by apply H. Qed.
Lemma total_ext f g : (forall vc r, (vc, r) ∈ cells -> f vc r = g vc r) -> total f = total g.
Proof. intros H. apply sum_over_eq. intros [vc r] Hc. by apply H. Qed.
Lemma total_add f g : total (fun vc r => f vc r + g vc r) = total f + total g.
Proof. unfold total. by rewrite <- sum_over_add. Qed.

(** Every unread message has its channel. *)
Lemma cnt_total l : Forall (is_msg m) l -> total (fun vc s => cnt vc s l) = Z.of_nat (length l).
Proof.
  induction 1 as [|op l [_ Hc] _ IH]; [by apply sum_over_zero|]. unfold total, cnt in *. cbn [sum_over length].
  rewrite sum_over_add, IH. rewrite (sum_over_eq _ (fun x => one_cell (vc_of op) (cid (meta op)) x.1 x.2)).
  - apply elem_of_others in Hc as [Hc _].
    assert (Hcell : (vc_of op, cid (meta op)) ∈ cells)
      by (apply cells_spec; split; [|done]; unfold vc_of; destruct vc_vals as (-> & -> & -> & ->); repeat zcase; lia).
    pose proof (total_one_cell _ _ Hcell) as H. unfold total in H. lia.
  - intros [vc s] _. unfold one_cell. cbn [fst snd]. by rewrite (Z.eqb_sym (vc_of op)), (Z.eqb_sym (cid (meta op))).
Qed.

(** Broadcasts, then acknowledgements. *)
Record dispatched (c : client) (l : list cache_op) (snd : list Z) (rest : list cache_op) (snd' : list Z)
    (bc : bcast_state) (ak : acks_state) : Prop := {
  ds_acks : ackq_ok m (bc_ack bc) 0 snd';
  ds_invs : invb_ok m (as_buffer ak);
  ds_ledger : ledger_ok m (as_ledger ak);
  ds_nonneg : forall vc s, 0 <= as_count ak vc s;
  ds_count : forall vc s, as_count ak vc s + held vc s snd' (as_buffer ak) + cnt vc s rest
    = cnt vc s l + held vc s snd (c_invs c);
  ds_purse : forall vc r, 0 <= vc < VIRTUAL_CHANNELS -> r ∈ others m ->
    purse vc r (as_ledger ak) + sent_on vc r (round_msgs (bc_sent bc) (as_sent ak)) = purse vc r (c_ledger c);
  ds_coh : Forall (is_coh m) (round_msgs (bc_sent bc) (as_sent ak));
  ds_br : forall r, r ∈ others m -> br_tx bc = c_br_tx c
    + sent_on INV_VC r (round_msgs (bc_sent bc) (as_sent ak))
    + sent_on UPD_VC r (round_msgs (bc_sent bc) (as_sent ak));
  ds_ack : sent_ack_tx ak = c_ack_tx c
    + sum_over (fun r => sent_on ACK_VC r (round_msgs (bc_sent bc) (as_sent ak))) (others m);
  ds_tx : 0 <= br_tx bc /\ 0 <= sent_ack_tx ak;
  ds_fc : fc_slack (as_ledger ak) - (MACHINE_NUM - 1) * (br_tx bc / CREDITS_IN_MESSAGE)
            - sent_ack_tx ak / CREDITS_IN_MESSAGE
          = fc_slack (c_ledger c) - (MACHINE_NUM - 1) * (c_br_tx c / CREDITS_IN_MESSAGE)
            - c_ack_tx c / CREDITS_IN_MESSAGE
}.

Lemma dispatch_ok c l snd p rest count q b snd1 ops arr1 arr2 :
  client_ok m c l snd -> received m c l snd p rest count q snd1 b ->
  exists bc ak snd', perform_broadcasts_LIN m ops q count (c_ledger c) arr1 (c_br_tx c) = Done bc /\
    (if 0 <? inv_size b then send_acks m b (bc_count bc) (bc_ledger bc) arr2 (c_ack_tx c)
     else Done (mkAcks b (bc_count bc) (bc_ledger bc) arr2 (c_ack_tx c) 0 [])) = Done ak /\
    dispatched c l snd rest snd' bc ak.
Proof.
  intros [K1 K2 K3 K4 K5 K6 K7 K8 K9] [R1 R2 R3 R4 R5 R6 R7].
  pose proof (ackq_size _ _ _ _ R4) as Hsnd1. rewrite batch_val in R6, Hsnd1.
  destruct (perform_broadcasts_ok m (2 * 500) ops q count (c_ledger c) arr1 (c_br_tx c) snd1 Hm R4 K4 R6
    ltac:(lia) K6) as (bc & popped & snd' & E4 & -> & [B1 B2 B3 B4 B5 B6 B7 B8]).
  rewrite length_app in Hsnd1.
  destruct (maybe_send_acks_ok (2 * 500 + Z.of_nat (length popped)) b (bc_count bc) (bc_ledger bc) arr2 (c_ack_tx c)
    R5 B2 B3 ltac:(rewrite batch_val; lia) K7) as (ak & E5 & [A1 A2 A3 A4 A5 A6 A7 A8]).
  exists bc, ak, snd'. split; [done|]. split; [done|].
  destruct (on_vc_bcasts _ B4) as [Hv1 Hv2].
  split; try done.
  - intros. apply A3.
  - intros vc s. specialize (R7 vc s). specialize (B5 vc s). specialize (A5 vc s). unfold held in *.
    unfold occ in *. rewrite sum_over_app in R7. lia.
  - intros vc r Hvc Hr. rewrite round_msgs_on by done. specialize (B6 vc r Hvc Hr). specialize (A6 vc r Hvc Hr). lia.
  - by apply round_msgs_coh.
  - intros r Hr. rewrite !round_msgs_on by done. change (INV_VC =? ACK_VC) with false.
    change (UPD_VC =? ACK_VC) with false. cbn [zb]. lia.
  - rewrite A7, <- (acks_sent_total _ A4). f_equal. apply sum_over_eq. intros r Hr.
    rewrite round_msgs_on, Hv1 by done. change (ACK_VC =? ACK_VC) with true. cbn [zb]. lia.
  - lia.
  - change (MACHINE_NUM - 1) with 3. lia.
Qed.

(** The counters the credits are forged from. *)
Lemma dispatched_count c l snd rest snd' bc ak :
  client_ok m c l snd -> dispatched c l snd rest snd' bc ak ->
  count_ok m (as_count ak) /\ total (as_count ak) <= c_coh_recv_cq c.
Proof.
  intros [K1 K2 K3 K4 K5 K6 K7 K8 K9] [_ _ _ D1 D2 _ _ _ _ _ _].
  assert (Hle : forall vc s, as_count ak vc s <= cnt vc s l + held vc s snd (c_invs c)).
  { intros vc s. specialize (D2 vc s). pose proof (cnt_nonneg vc s rest). pose proof (held_nonneg vc s snd' (as_buffer ak)). lia. }
  assert (Htot : total (as_count ak) <= c_coh_recv_cq c) by (rewrite K9; apply total_le; intros; apply Hle).
  split; [|done]. split; [done| |].
  - intros vc. pose proof (Hle vc m) as H. rewrite (no_self m l snd (c_invs c)) in H; [|apply K1|apply K2|done].
    specialize (D1 vc m). lia.
  - assert (c_coh_recv_cq c + total (c_seen c) = total (load c l snd)).
    { rewrite K9, <- total_add. by apply total_ext. }
    pose proof (total_nonneg _ K5). pose proof (rg_recvs _ _ _ K1). lia.
Qed.

(** A round of a client whose state is consistent ends, for all answers of the
    cache, all requests and all arrivals of credits. *)
Lemma flow_round_ok c l snd ops arr1 arr2 : client_ok m c l snd ->
  exists c' l' snd' ops' out, flow_round m update_cache inv_cache ops arr1 arr2 c = Done (c', ops', out) /\
    round_effect m c l snd c' l' snd' out.
Proof.
  intros Hck. destruct (receive_ok c l snd Hck) as (p & rest & count1 & count & q & b & snd1 & E1 & Eu & E2 & E3 & Hrc).
  destruct (dispatch_ok c l snd p rest count q b snd1 ops arr1 arr2 Hck Hrc) as (bc & ak & snd' & E4 & E5 & Hds).
  destruct (dispatched_count _ _ _ _ _ _ _ Hck Hds) as [Hc Hcq].
  destruct (forge_credits_LIN_ok m (as_count ak) (c_seen c) (c_coh_recv_cq c) Hm Hc (ck_seen _ _ _ _ Hck) Hcq)
    as (fc & E6 & F1 & F2 & F3 & F4).
  unfold flow_round. rewrite E1. cbn [obind]. rewrite (proj2 (Z.leb_le _ _) Eu). cbn [c_assert obind].
  fold (polled_updates p). fold (polled_invs p). rewrite E2. cbn [obind]. rewrite E3. cbn [obind].
  rewrite E4. cbn [obind]. rewrite E5. cbn [obind]. rewrite E6. cbn [obind].
  fold (round_msgs (bc_sent bc) (as_sent ak)). clear E1 Eu E2 E3 E4 E5 E6.
  destruct Hck as [K1 K2 K3 K4 K5 K6 K7 K8 K9]. destruct Hrc as [R1 R2 R3 R4 R5 R6 R7].
  destruct Hds as [D1 D2 D3 D4 D5 D6 D7 D8 D9 [D10 D10'] D11].
  set (c' := mkClient _ _ _ _ _ _ _ _ _ _).
  assert (Hload : forall vc s, (vc, s) ∈ cells ->
    load c' rest snd' vc s + CREDITS_IN_MESSAGE * wr_to m vc s (credit_wr fc) = load c l snd vc s).
  { intros vc s Hcell. specialize (F3 vc s Hcell). specialize (D5 vc s). unfold load, c'. cbn [c_seen c_invs]. lia. }
  assert (Htot : total (load c' rest snd') + CREDITS_IN_MESSAGE * Z.of_nat (length (credit_wr fc)) = total (load c l snd)).
  { rewrite <- (credits_total m _ F2). unfold total at 2. rewrite <- sum_over_scale.
    rewrite <- (total_ext _ _ Hload). unfold total. by rewrite <- sum_over_add. }
  assert (Hcqs : total (fun vc s => cnt vc s rest + held vc s snd' (as_buffer ak)) + total (as_count ak) = c_coh_recv_cq c).
  { rewrite K9, <- total_add. apply total_ext. intros vc s _. specialize (D5 vc s). lia. }
  assert (Hlen : Z.of_nat (length rest) <= total (load c' rest snd')).
  { rewrite <- (cnt_total rest (rg_msgs _ _ _ R1)). apply total_le. intros vc s _. unfold load.
    pose proof (held_nonneg vc s snd' (c_invs c')). pose proof (F1 vc s). change (c_seen c') with (seen fc). lia. }
  destruct (send_credits_ok m (po_inbox p) rest (length (credit_wr fc)) R1) as [S1 S2]; [lia|].
  eexists c', rest, snd', _, _. split; [reflexivity|].
  split; cbn [credit_msgs coherence]; try done.
  split; try done.
  - change (c_inbox c') with (send_credits (length (credit_wr fc)) (po_inbox p)). lia.
  - change (c_coh_recv_cq c') with (c_coh_recv_cq c - total (as_count ak)). change (c_invs c') with (as_buffer ak). lia.
Qed.

End round.
