(* ===== verification/FlowSystem.v ===== *)
(** * Credits and receives over all machines

    The client threads with the same local id, one per machine, exchange the
    messages of [Flow]: coherence messages over one unreliable queue pair and
    credit messages over another.  A message that finds no posted receive is
    dropped ([nic_receive], [fc_receive]).  In every reachable state the credits
    of a channel, the messages and the buffer space they stand for add up, so
    that no message is ever dropped, every round ends and no credit is lost.

    A round is one step: messages are delivered between the rounds, in any
    order. *)
From stdpp Require Import relations.
From S2P Require Import Prelude Config Optik Layout City Mica MicaLog Cache CacheSpec Network Flow FlowSpec FlowRound.

Record system := mkSys {
  clients : Z -> client;
  wire : list msg;
  fc_wire : list (Z * Z)
}.

(** The network card writes a message into the slot of the oldest posted
    receive, as many bytes as were sent. *)
Definition nic_receive (op : cache_op) (c : client) : option client :=
  let ib := c_inbox c in
  if 0 <? recvs ib then
    let slot := incoming_reqs ib (nic_ptr ib) in
    let slot := if opcode op =? CACHE_OP_UPD then recv_put_req slot op else recv_get_req slot op in
    Some (mkClient (mkInbox (fupd (incoming_reqs ib) (nic_ptr ib) slot) (pull_ptr ib) (push_ptr ib)
                      (HRD_MOD_ADD (nic_ptr ib) LIN_CLT_BUF_SLOTS) (recvs ib - 1))
            (c_coh_recv_cq c + 1) (c_update_ops c) (c_inv_ops c) (c_acks c) (c_invs c) (c_ledger c)
            (c_seen c) (c_br_tx c) (c_ack_tx c))
  else None.

(** A credit message carries only its immediate. *)
Definition fc_receive (imm : Z) (c : client) : option client :=
  let lg := c_ledger c in
  if Z.of_nat (length (credit_cq lg)) <? fc_recvs lg then
    Some (mkClient (c_inbox c) (c_coh_recv_cq c) (c_update_ops c) (c_inv_ops c) (c_acks c) (c_invs c)
            (mkLedger (credits lg) (credit_cq lg ++ [imm]) (fc_recvs lg)) (c_seen c) (c_br_tx c) (c_ack_tx c))
  else None.

Definition set_client (m : Z) (c : client) (s : system) : system :=
  mkSys (fupd (clients s) m c) (wire s) (fc_wire s).

Inductive sys_step (s : system) : system -> Prop :=
| step_round m update_cache inv_cache ops arr1 arr2 c' ops' out :
    m ∈ machines ->
    answers is_upd_or_ack update_answer update_cache ->
    answers is_inv inv_answer inv_cache ->
    flow_round m update_cache inv_cache ops arr1 arr2 (clients s m) = Done (c', ops', out) ->
    sys_step s (mkSys (fupd (clients s) m c') (wire s ++ coherence out) (fc_wire s ++ credit_msgs out))
| step_receive x l c' :
    wire s ≡ₚ x :: l -> nic_receive (m_op x) (clients s (dst x)) = Some c' ->
    sys_step s (mkSys (fupd (clients s) (dst x) c') l (fc_wire s))
| step_drop x l :
    wire s ≡ₚ x :: l -> nic_receive (m_op x) (clients s (dst x)) = None ->
    sys_step s (mkSys (clients s) l (fc_wire s))
| step_fc_receive x l c' :
    fc_wire s ≡ₚ x :: l -> fc_receive x.2 (clients s x.1) = Some c' ->
    sys_step s (mkSys (fupd (clients s) x.1 c') (wire s) l)
| step_fc_drop x l :
    fc_wire s ≡ₚ x :: l -> fc_receive x.2 (clients s x.1) = None ->
    sys_step s (mkSys (clients s) (wire s) l).

Definition sys_start (fresh : Z -> cache_op) (fresh_invs : list cache_op) : system :=
  mkSys (fun _ => client_start fresh fresh_invs) [] [].

Definition sys_reach (fresh : Z -> cache_op) (fresh_invs : list cache_op) : system -> Prop :=
  rtc sys_step (sys_start fresh fresh_invs).

(** ** What is on its way *)

(** Coherence messages from [m] to [r] on [vc]. *)
Definition in_flight (m vc r : Z) : list msg -> Z :=
  sum_over (fun x => zb ((cid (meta (m_op x)) =? m) && (vc_of (m_op x) =? vc) && (dst x =? r))).

(** Credit messages to [m]. *)
Definition fc_to (m : Z) : list (Z * Z) -> Z := sum_over (fun x => zb (x.1 =? m)).

(** Unread messages of a ring, from its bytes. *)
Definition unread (ib : inbox) : list cache_op :=
  filter (fun op => opcode op <> 0)
    ((fun i => incoming_reqs ib ((pull_ptr ib + 1 + i) mod LIN_CLT_BUF_SLOTS)) <$> seqZ 0 LIN_CLT_BUF_SLOTS).

(** Machines of the completed writes whose update waits. *)
Definition waiting_updates (q : ack_queue) : list Z :=
  (fun i => cid (meta (ack_bcast_ops q ((ack_pop_ptr q + i) mod BCAST_TO_CACHE_BATCH)))) <$> seqZ 0 (ack_size q).

(** Credits of [m] for [r] on [vc], wherever they are. *)
Definition all_credits (s : system) (m vc r : Z) : Z :=
  let c := clients s m in
  let d := clients s r in
  purse vc r (c_ledger c)
  + CREDITS_IN_MESSAGE * wr_to r vc m (fc_wire s)
  + in_flight m vc r (wire s)
  + load d (unread (c_inbox d)) (waiting_updates (c_acks d)) vc m.

Lemma filter_all {A} (P : A -> Prop) `{!forall x, Decision (P x)} l : Forall P l -> filter P l = l.
Proof. induction 1; [done|]. rewrite filter_cons_True by done. by f_equal. Qed.
Lemma filter_none {A} (P : A -> Prop) `{!forall x, Decision (P x)} l : Forall (fun x => ~ P x) l -> filter P l = [].
Proof. induction 1; [done|]. by rewrite filter_cons_False. Qed.

(** A queue read by position. *)
Lemma fmap_seqZ_eq {A} (f : Z -> A) l :
  (forall i x, l !! i = Some x -> f (Z.of_nat i) = x) -> f <$> seqZ 0 (Z.of_nat (length l)) = l.
Proof.
  intros H. apply list_eq. intros i. rewrite list_lookup_fmap. destruct (l !! i) as [x|] eqn:E.
  - rewrite (proj2 (lookup_seqZ 0 (Z.of_nat (length l)) i (Z.of_nat i))) by (apply lookup_lt_Some in E; lia).
    simpl. f_equal. by apply H.
  - apply lookup_ge_None in E. rewrite lookup_seqZ_ge by lia. done.
Qed.

Lemma unread_spec m ib l : ring_ok m ib l -> unread ib = l.
Proof.
  intros [H1 H2 H3 H4 H5 H6 H7 H8]. unfold unread.
  set (f := fun i => incoming_reqs ib ((pull_ptr ib + 1 + i) mod LIN_CLT_BUF_SLOTS)).
  replace LIN_CLT_BUF_SLOTS with (Z.of_nat (length l) + (LIN_CLT_BUF_SLOTS - Z.of_nat (length l))) by lia.
  rewrite seqZ_app, fmap_app, filter_app by lia. rewrite (fmap_seqZ_eq f l H6), filter_all, filter_none.
  - by rewrite app_nil_r.
  - apply Forall_fmap, Forall_forall. intros i Hi%elem_of_seqZ. unfold compose, f. rewrite H8 by lia. tauto.
  - eapply Forall_impl; [exact H7|]. intros op [Hop _] E. by rewrite E in Hop.
Qed.

Lemma waiting_updates_spec m q snd : ackq_ok m q 0 snd -> waiting_updates q = snd.
Proof.
  intros [H1 H2 H3 H4 H5 H6 H7]. unfold waiting_updates. rewrite H2, Z.add_0_l.
  exact (fmap_seqZ_eq (fun i => cid (meta (ack_bcast_ops q ((ack_pop_ptr q + i) mod BCAST_TO_CACHE_BATCH)))) snd H5).
Qed.

(** ** Deliveries *)
Lemma ring_push m ib l op op' :
  ring_ok m ib l -> 0 < recvs ib -> is_msg m op -> same_header op' op ->
  ring_ok m (mkInbox (fupd (incoming_reqs ib) (nic_ptr ib) op') (pull_ptr ib) (push_ptr ib)
               (HRD_MOD_ADD (nic_ptr ib) LIN_CLT_BUF_SLOTS) (recvs ib - 1)) (l ++ [op']).
Proof.
  intros [H1 H2 H3 H4 H5 H6 H7 H8] Hr [M1 M2] [S1 S2].
  assert (Hn : 0 <= nic_ptr ib < LIN_CLT_BUF_SLOTS) by (rewrite H4; by apply Z.mod_pos_bound).
  assert (Hne : forall i, 0 <= i < LIN_CLT_BUF_SLOTS -> i <> Z.of_nat (length l) ->
    (pull_ptr ib + 1 + i) mod LIN_CLT_BUF_SLOTS <> nic_ptr ib).
  { intros i Hi Hn'. rewrite H4. apply ring_inj; lia. }
  assert (Hlen : Z.of_nat (length (l ++ [op'])) = Z.of_nat (length l) + 1) by (rewrite length_app; simpl; lia).
  split; cbn [incoming_reqs pull_ptr push_ptr nic_ptr recvs]; rewrite ?Hlen; try done; try lia.
  - rewrite HRD_MOD_ADD_mod by (done || lia). rewrite H4, Z.add_mod_idemp_l by done. f_equal. lia.
  - rewrite HRD_MOD_ADD_mod by (done || lia). rewrite H5, Z.add_mod_idemp_l by done. f_equal. lia.
  - intros i x [[Hlt Hi]|[-> <-]]%lookup_snoc_Some.
    + rewrite fupd_ne by (apply Hne; lia). by apply H6.
    + by rewrite <- H4, fupd_eq.
  - apply Forall_app. split; [done|]. constructor; [|done]. split; congruence.
  - intros i Hi. rewrite fupd_ne by (apply Hne; lia). apply H8. lia.
Qed.

Lemma cnt_snoc vc s l op op' : same_header op' op ->
  cnt vc s (l ++ [op']) = cnt vc s l + one_cell (vc_of op) (cid (meta op)) vc s.
Proof.
  intros [E1 E2]. rewrite cnt_app. unfold cnt at 2, one_cell, vc_of. cbn [sum_over]. rewrite E1, E2.
  rewrite (Z.eqb_sym vc), (Z.eqb_sym s). lia.
Qed.

Lemma vc_of_range op : 0 <= vc_of op < VIRTUAL_CHANNELS.
Proof. unfold vc_of. destruct vc_vals as (-> & -> & -> & ->). repeat zcase; lia. Qed.

(** A message that finds a receive is one more unread message. *)
Lemma nic_receive_ok m c l snd op :
  client_ok m c l snd -> 0 < recvs (c_inbox c) -> is_msg m op ->
  exists c' l', nic_receive op c = Some c' /\ client_ok m c' l' snd /\
    c_ledger c' = c_ledger c /\ c_br_tx c' = c_br_tx c /\ c_ack_tx c' = c_ack_tx c /\
    forall vc s, load c' l' snd vc s = load c l snd vc s + one_cell (vc_of op) (cid (meta op)) vc s.
Proof.
  intros [K1 K2 K3 K4 K5 K6 K7 K8 K9] Hr Hop. unfold nic_receive. rewrite (proj2 (Z.ltb_lt _ _) Hr).
  set (slot := if opcode op =? CACHE_OP_UPD then _ else _).
  assert (Hs : same_header slot op) by (unfold slot; by destruct (opcode op =? CACHE_OP_UPD)).
  set (c' := mkClient _ _ _ _ _ _ _ _ _ _). clearbody slot.
  assert (Hcell : (vc_of op, cid (meta op)) ∈ cells).
  { apply cells_spec. split; [apply vc_of_range|]. by destruct (proj1 (elem_of_others _ _) (ms_cid _ _ Hop)). }
  assert (Hload : forall vc s, load c' (l ++ [slot]) snd vc s
                               = load c l snd vc s + one_cell (vc_of op) (cid (meta op)) vc s).
  { intros vc s. unfold load, c'. cbn [c_invs c_seen]. rewrite (cnt_snoc _ _ _ op) by done. lia. }
  eexists c', (l ++ [slot]). split; [done|]. split; [|done].
  pose proof (total_one_cell _ _ Hcell) as H1.
  split; try done.
  - by apply (ring_push _ _ _ op).
  - rewrite (total_ext _ _ (fun vc s _ => Hload vc s)), total_add, H1.
    change (recvs (c_inbox c')) with (recvs (c_inbox c) - 1). lia.
  - change (c_coh_recv_cq c') with (c_coh_recv_cq c + 1). rewrite K9, <- H1, <- total_add. apply total_ext.
    intros vc s _. rewrite (cnt_snoc _ _ _ op) by done. change (c_invs c') with (c_invs c). lia.
Qed.

Lemma credit_channel_spec src vc :
  src ∈ machines -> 0 <= vc < VIRTUAL_CHANNELS -> credit_channel (src + vc * MACHINE_NUM) = (vc, src).
Proof.
  intros Hs Hvc. apply machines_spec in Hs. unfold credit_channel. change MACHINE_NUM with 4 in *.
  destruct vc_vals as (Ev & -> & -> & ->). rewrite Ev in Hvc.
  assert (vc = 0 \/ vc = 1 \/ vc = 2) as [-> | [-> | ->]] by lia; repeat zcase; f_equal; lia.
Qed.

Lemma purse_snoc src vc0 vc r lg : src ∈ machines -> 0 <= vc0 < VIRTUAL_CHANNELS ->
  purse vc r (mkLedger (credits lg) (credit_cq lg ++ [src + vc0 * MACHINE_NUM]) (fc_recvs lg))
  = purse vc r lg + CREDITS_IN_MESSAGE * one_cell vc0 src vc r.
Proof.
  intros Hs Hvc. unfold purse, cred. cbn [credits credit_cq]. rewrite sum_over_app. cbn [sum_over].
  rewrite credit_channel_spec by done. unfold one_cell.
  destruct (Z.eqb_spec vc vc0), (Z.eqb_spec r src); cbn [andb];
    first [rewrite bool_decide_true by congruence | rewrite bool_decide_false by congruence]; cbn [zb]; lia.
Qed.

(** A credit message that finds a receive fills the purse. *)
Lemma fc_receive_ok m c l snd src vc :
  client_ok m c l snd -> 0 < fc_slack (c_ledger c) -> src ∈ others m -> 0 <= vc < VIRTUAL_CHANNELS ->
  purse vc src (c_ledger c) + CREDITS_IN_MESSAGE <= CREDITS_FOR_EACH_CLIENT ->
  exists c', fc_receive (src + vc * MACHINE_NUM) c = Some c' /\ client_ok m c' l snd /\
    fc_slack (c_ledger c') = fc_slack (c_ledger c) - 1 /\ c_br_tx c' = c_br_tx c /\ c_ack_tx c' = c_ack_tx c /\
    (forall vc' s, load c' l snd vc' s = load c l snd vc' s) /\
    forall vc' r, purse vc' r (c_ledger c') = purse vc' r (c_ledger c) + CREDITS_IN_MESSAGE * one_cell vc src vc' r.
Proof.
  intros [K1 K2 K3 K4 K5 K6 K7 K8 K9] Hf Hsrc Hvc Hp. unfold fc_receive, fc_slack in *.
  rewrite (proj2 (Z.ltb_lt _ _)) by lia. set (c' := mkClient _ _ _ _ _ _ _ _ _ _).
  assert (Hsrc' : src ∈ machines) by (by apply elem_of_others in Hsrc as [? _]).
  assert (Hpurse : forall vc' r, purse vc' r (c_ledger c') = purse vc' r (c_ledger c) + CREDITS_IN_MESSAGE * one_cell vc src vc' r)
    by (intros; by apply purse_snoc).
  exists c'. split; [done|]. split; [|split_and!; try done].
  - split; try done. split. intros vc' r Hvc' Hr. destruct (lo_credits _ _ K4 vc' r Hvc' Hr) as [C1 C2].
    split; [done|]. rewrite Hpurse. unfold one_cell.
    destruct (Z.eqb_spec vc' vc) as [->|], (Z.eqb_spec r src) as [->|]; cbn [andb zb]; lia.
  - unfold c'. cbn [c_ledger fc_recvs credit_cq]. rewrite length_app. simpl. lia.
Qed.

(** ** The invariant

    [S m vc r] messages were sent from [m] to [r] on [vc], for which [r] has sent
    [R m vc r] credit messages so far. *)
Definition returned (R : Z -> Z -> Z -> Z) (m r : Z) : Z := R m ACK_VC r + R m INV_VC r + R m UPD_VC r.

Record sys_inv (s : system) (ring : Z -> list cache_op) (snd : Z -> list Z) (S R : Z -> Z -> Z -> Z) : Prop := {
  si_client : forall m, m ∈ machines -> client_ok m (clients s m) (ring m) (snd m);
  si_wire : Forall (fun x => cid (meta (m_op x)) ∈ machines /\ is_coh (cid (meta (m_op x))) x) (wire s);
  si_fc_wire : Forall (fun x => exists src, src ∈ machines /\ is_credit src x) (fc_wire s);
  si_self : forall m vc, m ∈ machines -> 0 <= vc < VIRTUAL_CHANNELS -> load (clients s m) (ring m) (snd m) vc m = 0;
  si_sent : forall m vc r, m ∈ machines -> 0 <= vc < VIRTUAL_CHANNELS -> r ∈ others m ->
    S m vc r = in_flight m vc r (wire s) + load (clients s r) (ring r) (snd r) vc m + CREDITS_IN_MESSAGE * R m vc r;
  si_purse : forall m vc r, m ∈ machines -> 0 <= vc < VIRTUAL_CHANNELS -> r ∈ others m ->
    purse vc r (c_ledger (clients s m)) + CREDITS_IN_MESSAGE * wr_to r vc m (fc_wire s) + S m vc r
    = CREDITS_FOR_EACH_CLIENT + CREDITS_IN_MESSAGE * R m vc r;
  si_br : forall m r, m ∈ machines -> r ∈ others m -> S m INV_VC r + S m UPD_VC r = c_br_tx (clients s m);
  si_ack : forall m, m ∈ machines -> sum_over (S m ACK_VC) (others m) = c_ack_tx (clients s m);
  si_fc : forall m, m ∈ machines -> fc_slack (c_ledger (clients s m)) - fc_to m (fc_wire s)
    = (MACHINE_NUM - 1) * (c_br_tx (clients s m) / CREDITS_IN_MESSAGE) + c_ack_tx (clients s m) / CREDITS_IN_MESSAGE
      - sum_over (returned R m) (others m)
}.

Lemma in_flight_nonneg m vc r l : 0 <= in_flight m vc r l.
Proof. apply sum_over_nonneg. intros. apply zb_range. Qed.

Lemma load_nonneg m c l snd vc s : client_ok m c l snd -> 0 <= load c l snd vc s.
Proof.
  intros H. unfold load. pose proof (cnt_nonneg vc s l). pose proof (held_nonneg vc s snd (c_invs c)).
  pose proof (ck_seen _ _ _ _ H vc s). lia.
Qed.

Lemma others_sym m r : m ∈ machines -> r ∈ others m -> m ∈ others r.
Proof. rewrite !elem_of_others. intros ? [? ?]. split; [done|congruence]. Qed.

Lemma others_machines m r : r ∈ others m -> r ∈ machines.
Proof. by intros [? _]%elem_of_others. Qed.

Lemma length_others m : m ∈ machines -> length (others m) = 3%nat.
Proof.
  intros H. apply machines_spec in H. change MACHINE_NUM with 4 in H.
  assert (m = 0 \/ m = 1 \/ m = 2 \/ m = 3) as [-> | [-> | [-> | ->]]] by lia; reflexivity.
Qed.

(** What [r] keeps for [m], with what is on the wire, is at most the credits. *)
Lemma load_bound s ring snd S R m vc r :
  sys_inv s ring snd S R -> m ∈ machines -> 0 <= vc < VIRTUAL_CHANNELS -> r ∈ others m ->
  purse vc r (c_ledger (clients s m)) + CREDITS_IN_MESSAGE * wr_to r vc m (fc_wire s)
  + in_flight m vc r (wire s) + load (clients s r) (ring r) (snd r) vc m = CREDITS_FOR_EACH_CLIENT.
Proof.
  intros [_ _ _ _ I1 I2 _ _ _] Hm Hvc Hr. specialize (I1 m vc r Hm Hvc Hr). specialize (I2 m vc r Hm Hvc Hr). lia.
Qed.

Lemma purse_nonneg s ring snd S R m vc r :
  sys_inv s ring snd S R -> m ∈ machines -> 0 <= vc < VIRTUAL_CHANNELS -> r ∈ others m ->
  0 <= purse vc r (c_ledger (clients s m)).
Proof.
  intros HI Hm Hvc Hr. destruct (lo_credits _ _ (ck_ledger _ _ _ _ (si_client _ _ _ _ _ HI m Hm)) vc r Hvc Hr) as [H _].
  unfold purse. pose proof (cred_nonneg vc r (credit_cq (c_ledger (clients s m)))). destruct credits_val. lia.
Qed.

(** A message on the wire has a receive. *)
Lemma recvs_bound s ring snd S R m vc r :
  sys_inv s ring snd S R -> m ∈ machines -> 0 <= vc < VIRTUAL_CHANNELS -> r ∈ others m ->
  in_flight m vc r (wire s) <= recvs (c_inbox (clients s r)).
Proof.
  intros HI Hm Hvc Hr. pose proof (others_machines _ _ Hr) as Hrm. destruct credits_val as [E30 E60].
  pose proof (ck_recvs _ _ _ _ (si_client _ _ _ _ _ HI r Hrm)) as Hrec.
  assert (total (load (clients s r) (ring r) (snd r)) <=
          total (fun vc' m' => CREDITS_FOR_EACH_CLIENT * zb (negb (m' =? r)) - in_flight m vc r (wire s) * one_cell vc m vc' m')) as Hle.
  { apply total_le. intros vc' m' [Hvc' Hm']%cells_spec. unfold one_cell.
    destruct (Z.eqb_spec m' r) as [->|Hne]; cbn [negb zb].
    - rewrite (si_self _ _ _ _ _ HI) by done. apply others_ne in Hr. apply Z.eqb_neq in Hr. rewrite Hr, andb_false_r.
      cbn [zb]. lia.
    - assert (Hr' : r ∈ others m') by (by apply elem_of_others). pose proof (load_bound s ring snd S R m' vc' r HI Hm' Hvc' Hr').
      pose proof (purse_nonneg s ring snd S R m' vc' r HI Hm' Hvc' Hr'). pose proof (wr_to_nonneg r vc' m' (fc_wire s)).
      pose proof (in_flight_nonneg m' vc' r (wire s)).
      destruct (Z.eqb_spec vc' vc) as [->|], (Z.eqb_spec m' m) as [->|]; cbn [andb zb]; lia. }
  assert (Ht : total (fun vc' m' => CREDITS_FOR_EACH_CLIENT * zb (negb (m' =? r)) - in_flight m vc r (wire s) * one_cell vc m vc' m')
               = 540 - in_flight m vc r (wire s)).
  { assert (total (one_cell vc m) = 1) by (apply total_one_cell, cells_spec; done).
    assert (E : total (fun vc' m' => CREDITS_FOR_EACH_CLIENT * zb (negb (m' =? r))) = 540).
    { apply machines_spec in Hrm. change MACHINE_NUM with 4 in Hrm.
      assert (r = 0 \/ r = 1 \/ r = 2 \/ r = 3) as [-> | [-> | [-> | ->]]] by lia; reflexivity. }
    rewrite <- E. unfold total in *.
    rewrite (sum_over_eq _ (fun x => CREDITS_FOR_EACH_CLIENT * zb (negb (x.2 =? r))
      + - in_flight m vc r (wire s) * one_cell vc m x.1 x.2)) by (intros; lia).
    rewrite sum_over_add, !sum_over_scale. lia. }
  rewrite slots_val in Hrec. lia.
Qed.

(** A machine has sent fewer credits back than it has receives posted. *)
Lemma returned_bound s ring snd S R m :
  sys_inv s ring snd S R -> m ∈ machines ->
  sum_over (returned R m) (others m)
  <= (MACHINE_NUM - 1) * (c_br_tx (clients s m) / CREDITS_IN_MESSAGE) + c_ack_tx (clients s m) / CREDITS_IN_MESSAGE.
Proof.
  intros HI Hm. destruct credits_val as [E30 _]. rewrite E30. change (MACHINE_NUM - 1) with 3.
  assert (Hle : forall vc r, 0 <= vc < VIRTUAL_CHANNELS -> r ∈ others m -> 30 * R m vc r <= S m vc r).
  { intros vc r Hvc Hr. pose proof (si_sent _ _ _ _ _ HI m vc r Hm Hvc Hr) as H. rewrite E30 in H.
    pose proof (in_flight_nonneg m vc r (wire s)). pose proof (others_machines _ _ Hr) as Hrm.
    pose proof (load_nonneg r _ _ _ vc m (si_client _ _ _ _ _ HI r Hrm)). lia. }
  rewrite (sum_over_eq _ (fun r => R m ACK_VC r + (R m INV_VC r + R m UPD_VC r))) by (intros; unfold returned; lia).
  rewrite sum_over_add.
  assert (sum_over (fun r => R m INV_VC r + R m UPD_VC r) (others m) <= 3 * (c_br_tx (clients s m) / 30)).
  { transitivity (sum_over (fun _ => c_br_tx (clients s m) / 30) (others m)).
    - apply sum_over_le. intros r Hr. pose proof (Hle INV_VC r ltac:(done) Hr). pose proof (Hle UPD_VC r ltac:(done) Hr).
      pose proof (si_br _ _ _ _ _ HI m r Hm Hr). apply Z.div_le_lower_bound; lia.
    - rewrite (sum_over_const _ (c_br_tx (clients s m) / 30)) by done. rewrite length_others by done. lia. }
  assert (sum_over (fun r => R m ACK_VC r) (others m) <= c_ack_tx (clients s m) / 30).
  { apply Z.div_le_lower_bound; [lia|]. rewrite <- (si_ack _ _ _ _ _ HI m Hm), <- sum_over_scale.
    apply sum_over_le. intros r Hr. by apply Hle. }
  rewrite Z.add_comm. by apply Z.add_le_mono.
Qed.

Lemma slack_bound s ring snd S R m :
  sys_inv s ring snd S R -> m ∈ machines -> fc_to m (fc_wire s) <= fc_slack (c_ledger (clients s m)).
Proof.
  intros HI Hm. pose proof (si_fc _ _ _ _ _ HI m Hm). pose proof (returned_bound s ring snd S R m HI Hm). lia.
Qed.

(** ** The invariant is kept *)
Lemma in_flight_coh a m vc r l : Forall (is_coh a) l -> in_flight m vc r l = zb (m =? a) * sent_on vc r l.
Proof.
  induction 1 as [|x l (_ & Hc & _) _ IH]; [unfold in_flight, sent_on; simpl; lia|].
  unfold in_flight, sent_on in *. cbn [sum_over]. rewrite IH, Hc, (Z.eqb_sym a m), <- andb_assoc.
  destruct (m =? a); cbn [andb zb]; lia.
Qed.

Lemma wr_to_of a r vc m l : Forall (is_credit a) l -> a ∈ machines -> r ∈ machines ->
  wr_to r vc m l = zb (r =? a) * wr_to a vc m l.
Proof.
  intros Hl Ha Hr. destruct (Z.eqb_spec r a) as [->|Hne]; cbn [zb]; [lia|]. rewrite Z.mul_0_l. apply sum_over_zero.
  intros x Hx. destruct (proj1 (Forall_forall _ _) Hl x Hx) as (_ & vc' & Hvc & ->).
  rewrite machines_spec in *. change MACHINE_NUM with 4 in *. rewrite (proj2 (Z.eqb_neq (a + vc' * 4) (r + vc * 4))), andb_false_r by lia. done.
Qed.

Lemma fc_to_of a m l : Forall (is_credit a) l ->
  fc_to m l = wr_to a ACK_VC m l + wr_to a INV_VC m l + wr_to a UPD_VC m l.
Proof.
  induction 1 as [|x l (_ & vc & Hvc & Hx) _ IH]; [done|]. unfold fc_to, wr_to in *. cbn [sum_over]. rewrite IH, Hx.
  change MACHINE_NUM with 4. change VIRTUAL_CHANNELS with 3 in Hvc. change ACK_VC with 0. change INV_VC with 1.
  change UPD_VC with 2. destruct (x.1 =? m); cbn [andb zb]; [|lia].
  repeat zcase; cbn [zb]; lia.
Qed.

Lemma fc_to_self a l : Forall (is_credit a) l -> fc_to a l = 0.
Proof.
  intros Hl. apply sum_over_zero. intros x Hx. destruct (proj1 (Forall_forall _ _) Hl x Hx) as [Hd _].
  apply others_ne in Hd. by rewrite (proj2 (Z.eqb_neq _ _)).
Qed.

Lemma wr_to_app m vc r l1 l2 : wr_to m vc r (l1 ++ l2) = wr_to m vc r l1 + wr_to m vc r l2.
Proof. apply sum_over_app. Qed.
Lemma in_flight_app m vc r l1 l2 : in_flight m vc r (l1 ++ l2) = in_flight m vc r l1 + in_flight m vc r l2.
Proof. apply sum_over_app. Qed.
Lemma fc_to_app m l1 l2 : fc_to m (l1 ++ l2) = fc_to m l1 + fc_to m l2.
Proof. apply sum_over_app. Qed.

Section kept.
Context (s : system) (ring : Z -> list cache_op) (snd : Z -> list Z) (S R : Z -> Z -> Z -> Z).
Context (HI : sys_inv s ring snd S R).

Lemma returned_round a m out : Forall (is_credit a) (credit_msgs out) -> a ∈ machines -> m ∈ machines ->
  sum_over (returned (fun m vc r => R m vc r + zb (r =? a) * wr_to a vc m (credit_msgs out)) m) (others m)
  = sum_over (returned R m) (others m) + fc_to m (credit_msgs out).
Proof.
  intros Hc Ha Hm.
  rewrite (sum_over_eq _ (fun r => returned R m r + fc_to m (credit_msgs out) * zb (bool_decide (r = a)))).
  - rewrite sum_over_add, sum_over_scale, sum_over_point by apply others_NoDup. f_equal.
    destruct (decide (m = a)) as [->|Hne].
    + rewrite fc_to_self by done. lia.
    + rewrite bool_decide_true by (by apply elem_of_others). cbn [zb]. lia.
  - intros r _. unfold returned. rewrite (fc_to_of a m) by done.
    destruct (Z.eqb_spec r a); [rewrite bool_decide_true by done|rewrite bool_decide_false by done]; cbn [zb]; lia.
Qed.

Lemma inv_round a c' l' snd' out :
  a ∈ machines -> round_effect a (clients s a) (ring a) (snd a) c' l' snd' out ->
  sys_inv (mkSys (fupd (clients s) a c') (wire s ++ coherence out) (fc_wire s ++ credit_msgs out))
    (fupd ring a l') (fupd snd a snd')
    (fun m vc r => S m vc r + zb (m =? a) * sent_on vc r (coherence out))
    (fun m vc r => R m vc r + zb (r =? a) * wr_to a vc m (credit_msgs out)).
Proof.
  intros Ha [O1 O2 O3 O4 O5 O6 O7 O8 O9]. destruct HI as [I1 I2 I3 I4 I5 I6 I7 I8 I9].
  split; cbn [clients wire fc_wire].
  - intros m Hm. unfold fupd. destruct (Z.eqb_spec m a) as [->|]; [done|by apply I1].
  - apply Forall_app. split; [done|]. eapply Forall_impl; [exact O5|]. intros x Hx. pose proof Hx as (_ & -> & _). done.
  - apply Forall_app. split; [done|]. eapply Forall_impl; [exact O6|]. intros x Hx. by exists a.
  - intros m vc Hm Hvc. unfold fupd. destruct (Z.eqb_spec m a) as [->|]; [|by apply I4].
    specialize (O3 vc a ltac:(by apply cells_spec)). rewrite (I4 a vc Ha Hvc) in O3.
    pose proof (load_nonneg a c' l' snd' vc a O1). pose proof (wr_to_nonneg a vc a (credit_msgs out)).
    destruct credits_val. lia.
  - intros m vc r Hm Hvc Hr. rewrite in_flight_app, (in_flight_coh a m vc r (coherence out)) by done. rewrite (I5 m vc r Hm Hvc Hr).
    unfold fupd. destruct (Z.eqb_spec r a) as [->|]; cbn [zb]; [|lia].
    specialize (O3 vc m ltac:(by apply cells_spec)). lia.
  - intros m vc r Hm Hvc Hr. specialize (I6 m vc r Hm Hvc Hr). pose proof (others_machines _ _ Hr).
    rewrite wr_to_app, (wr_to_of a r vc m (credit_msgs out)) by done. unfold fupd. destruct (Z.eqb_spec m a) as [->|]; cbn [zb]; [|lia].
    specialize (O4 vc r Hvc Hr). lia.
  - intros m r Hm Hr. specialize (I7 m r Hm Hr). unfold fupd. destruct (Z.eqb_spec m a) as [->|]; cbn [zb]; [|lia].
    specialize (O7 r Hr). lia.
  - intros m Hm. specialize (I8 m Hm). unfold fupd. rewrite sum_over_add, sum_over_scale.
    destruct (Z.eqb_spec m a) as [->|]; cbn [zb]; lia.
  - intros m Hm. specialize (I9 m Hm). rewrite fc_to_app, returned_round by done. unfold fupd.
    destruct (Z.eqb_spec m a) as [->|]; [|lia]. rewrite (fc_to_self a (credit_msgs out)) by done. lia.
Qed.

(** A message is delivered. *)
Lemma inv_receive x l : wire s ≡ₚ x :: l ->
  exists c' l', nic_receive (m_op x) (clients s (dst x)) = Some c' /\
    sys_inv (mkSys (fupd (clients s) (dst x) c') l (fc_wire s)) (fupd ring (dst x) l') snd S R.
Proof.
  intros Hw. pose proof (si_wire _ _ _ _ _ HI) as Hx. rewrite Hw in Hx. apply Forall_cons in Hx as [[Hm Hx] Hl].
  set (m := cid (meta (m_op x))) in *. destruct Hx as (Hd & _ & Ho). set (d := dst x) in *.
  pose proof (others_machines _ _ Hd) as Hdm. pose proof (vc_of_range (m_op x)) as Hvc.
  assert (Hfl : forall m' vc' r', in_flight m' vc' r' (wire s)
    = in_flight m' vc' r' l + zb (d =? r') * one_cell (vc_of (m_op x)) m vc' m').
  { intros. unfold in_flight. rewrite Hw. cbn [sum_over]. fold m d. unfold one_cell.
    rewrite (Z.eqb_sym m m'), (Z.eqb_sym vc').
    destruct (m' =? m), (vc_of (m_op x) =? vc'), (d =? r'); cbn [andb zb]; lia. }
  assert (Hrecv : 0 < recvs (c_inbox (clients s d))).
  { pose proof (recvs_bound s ring snd S R m (vc_of (m_op x)) d HI Hm Hvc Hd) as H. rewrite Hfl in H.
    pose proof (in_flight_nonneg m (vc_of (m_op x)) d l). unfold one_cell in H. rewrite !Z.eqb_refl in H. cbn [andb zb] in H. lia. }
  destruct (nic_receive_ok d _ _ _ (m_op x) (si_client _ _ _ _ _ HI d Hdm) Hrecv) as (c' & l' & E & N1 & N2 & N3 & N4 & N5).
  { split; [done|]. by apply others_sym. }
  exists c', l'. split; [done|]. destruct HI as [I1 I2 I3 I4 I5 I6 I7 I8 I9].
  assert (Hsame : forall m', c_ledger (fupd (clients s) d c' m') = c_ledger (clients s m') /\
    c_br_tx (fupd (clients s) d c' m') = c_br_tx (clients s m') /\ c_ack_tx (fupd (clients s) d c' m') = c_ack_tx (clients s m')).
  { intros m'. unfold fupd. by destruct (Z.eqb_spec m' d) as [->|]. }
  assert (Hload : forall m' vc' r', load (fupd (clients s) d c' r') (fupd ring d l' r') (snd r') vc' m'
    = load (clients s r') (ring r') (snd r') vc' m' + zb (d =? r') * one_cell (vc_of (m_op x)) m vc' m').
  { intros. unfold fupd. rewrite (Z.eqb_sym d r'). destruct (Z.eqb_spec r' d) as [->|]; cbn [zb]; [|lia].
    rewrite N5. fold m. lia. }
  split; cbn [clients wire fc_wire]; try done.
  - intros m' Hm'. unfold fupd. destruct (Z.eqb_spec m' d) as [->|]; [done|by apply I1].
  - intros m' vc' Hm' Hvc'. rewrite Hload, I4 by done. unfold one_cell.
    destruct (Z.eqb_spec d m') as [<-|]; cbn [zb]; [|lia]. apply others_ne in Hd. apply Z.eqb_neq in Hd.
    rewrite Hd, andb_false_r. cbn [zb]. lia.
  - intros m' vc' r' Hm' Hvc' Hr'. rewrite (I5 m' vc' r' Hm' Hvc' Hr'), Hfl, Hload. lia.
  - intros m' vc' r' Hm' Hvc' Hr'. destruct (Hsame m') as (-> & _). by apply I6.
  - intros m' r' Hm' Hr'. destruct (Hsame m') as (_ & -> & _). by apply I7.
  - intros m' Hm'. destruct (Hsame m') as (_ & _ & ->). by apply I8.
  - intros m' Hm'. destruct (Hsame m') as (-> & -> & ->). by apply I9.
Qed.

(** A credit message is delivered. *)
Lemma inv_fc_receive x l : fc_wire s ≡ₚ x :: l ->
  exists c', fc_receive x.2 (clients s x.1) = Some c' /\
    sys_inv (mkSys (fupd (clients s) x.1 c') (wire s) l) ring snd S R.
Proof.
  intros Hw. pose proof (si_fc_wire _ _ _ _ _ HI) as Hx. rewrite Hw in Hx.
  apply Forall_cons in Hx as [(src & Hsrc & Hd & vc & Hvc & Eimm) Hl].
  destruct x as [d imm]. cbn [fst Datatypes.snd] in *. subst imm. pose proof (others_machines _ _ Hd) as Hdm.
  pose proof (others_sym _ _ Hsrc Hd) as Hsd. destruct credits_val as [E30 E60].
  assert (Hwr : forall r' vc' m', 0 <= vc' < VIRTUAL_CHANNELS -> r' ∈ machines ->
    wr_to r' vc' m' (fc_wire s) = wr_to r' vc' m' l + zb (m' =? d) * one_cell vc src vc' r').
  { intros r' vc' m' Hvc' Hr'. unfold wr_to. rewrite Hw. cbn [sum_over fst Datatypes.snd]. rewrite (Z.eqb_sym d m').
    rewrite machines_spec in *. change MACHINE_NUM with 4 in *. unfold one_cell.
    destruct (m' =? d), (Z.eqb_spec vc' vc), (Z.eqb_spec r' src), (Z.eqb_spec (src + vc * 4) (r' + vc' * 4)); cbn [andb zb]; lia. }
  assert (Hto : forall m', fc_to m' (fc_wire s) = fc_to m' l + zb (m' =? d)).
  { intros m'. unfold fc_to. rewrite Hw. cbn [sum_over fst]. rewrite (Z.eqb_sym d m'). lia. }
  assert (Hone : one_cell vc src vc src = 1) by (unfold one_cell; by rewrite !Z.eqb_refl).
  assert (Hslack : 0 < fc_slack (c_ledger (clients s d))).
  { pose proof (slack_bound s ring snd S R d HI Hdm) as H. rewrite Hto, Z.eqb_refl in H. cbn [zb] in H.
    assert (0 <= fc_to d l) by (apply sum_over_nonneg; intros; apply zb_range). lia. }
  destruct (fc_receive_ok d _ _ _ src vc (si_client _ _ _ _ _ HI d Hdm) Hslack Hsd Hvc) as (c' & E & N1 & N2 & N3 & N4 & N5 & N6).
  { pose proof (load_bound s ring snd S R d vc src HI Hdm Hvc Hsd) as H.
    rewrite Hwr, Z.eqb_refl, Hone in H by done. cbn [zb] in H. pose proof (wr_to_nonneg src vc d l).
    pose proof (in_flight_nonneg d vc src (wire s)).
    pose proof (load_nonneg src _ _ _ vc d (si_client _ _ _ _ _ HI src Hsrc)). lia. }
  exists c'. split; [done|]. destruct HI as [I1 I2 I3 I4 I5 I6 I7 I8 I9].
  assert (Hload : forall m' vc' r', load (fupd (clients s) d c' r') (ring r') (snd r') vc' m'
    = load (clients s r') (ring r') (snd r') vc' m').
  { intros. unfold fupd. destruct (Z.eqb_spec r' d) as [->|]; [apply N5|done]. }
  split; cbn [clients wire fc_wire]; try done.
  - intros m' Hm'. unfold fupd. destruct (Z.eqb_spec m' d) as [->|]; [done|by apply I1].
  - intros m' vc' Hm' Hvc'. rewrite Hload. by apply I4.
  - intros m' vc' r' Hm' Hvc' Hr'. rewrite Hload. by apply I5.
  - intros m' vc' r' Hm' Hvc' Hr'. pose proof (others_machines _ _ Hr'). specialize (I6 m' vc' r' Hm' Hvc' Hr').
    rewrite Hwr in I6 by done. unfold fupd. destruct (Z.eqb_spec m' d) as [->|]; cbn [zb] in I6; [rewrite N6|]; lia.
  - intros m' r' Hm' Hr'. rewrite (I7 m' r' Hm' Hr'). unfold fupd. by destruct (Z.eqb_spec m' d) as [->|].
  - intros m' Hm'. rewrite (I8 m' Hm'). unfold fupd. by destruct (Z.eqb_spec m' d) as [->|].
  - intros m' Hm'. specialize (I9 m' Hm'). rewrite Hto in I9. revert I9. unfold fupd.
    destruct (Z.eqb_spec m' d) as [E'|]; cbn [zb]; [rewrite E', N2, N3, N4|]; lia.
Qed.

End kept.

(** ** Reachable states *)

(** Allocated memory: [inv_to_send_ops] has its size, and no slot of
    [ack_bcast_ops] looks like an acknowledgement that waits. *)
Record fresh_ok (fresh : Z -> cache_op) (fresh_invs : list cache_op) : Prop := {
  fr_opcode : forall p, opcode (fresh p) <> CACHE_OP_ACK;
  fr_length : Z.of_nat (length fresh_invs) = BCAST_TO_CACHE_BATCH
}.

Lemma brc_start s l : brc s (set_opcode EMPTY <$> l) = 0.
Proof. apply brc_none, Forall_fmap, Forall_forall. intros op _. unfold compose. done. Qed.

Lemma client_start_ok m fresh fresh_invs :
  m ∈ machines -> fresh_ok fresh fresh_invs ->
  client_ok m (client_start fresh fresh_invs) [] [] /\
  forall vc s, load (client_start fresh fresh_invs) [] [] vc s = 0.
Proof.
  intros Hm [F1 F2].
  assert (Hload : forall vc s, load (client_start fresh fresh_invs) [] [] vc s = 0).
  { intros vc s. unfold load, held. cbn [client_start setup_coh_ops c_invs c_seen inv_to_send_ops]. rewrite brc_start.
    unfold cnt, occ. simpl. lia. }
  split; [|done]. split.
  - unfold client_start, setup_coh_ops. cbn [c_inbox].
    split; cbn [pull_ptr recvs nic_ptr push_ptr incoming_reqs]; done.
  - split; try done; simpl; lia.
  - split; cbn [client_start setup_coh_ops c_invs inv_to_send_ops inv_push_ptr inv_size].
    + by rewrite length_fmap.
    + done.
    + symmetry. apply sum_over_zero. intros op (y & -> & _)%list_elem_of_fmap. done.
    + apply Forall_fmap, Forall_forall. intros op _. done.
  - split. intros vc r Hvc Hr. unfold purse, cred. cbn [client_start setup_coh_ops c_ledger credit_cq sum_over credits]. unfold setup_credits.
    repeat zcase; done.
  - intros vc r. done.
  - done.
  - done.
  - assert (E : total (load (client_start fresh fresh_invs) [] []) = 0) by (apply sum_over_zero; intros; apply Hload).
    by rewrite E.
  - symmetry. apply sum_over_zero. intros [vc s] _. specialize (Hload vc s). unfold load in Hload.
    change (c_seen (client_start fresh fresh_invs) vc s) with 0 in Hload. cbn [fst snd]. lia.
Qed.

Lemma sys_start_inv fresh fresh_invs : fresh_ok fresh fresh_invs ->
  sys_inv (sys_start fresh fresh_invs) (fun _ => []) (fun _ => []) (fun _ _ _ => 0) (fun _ _ _ => 0).
Proof.
  intros Hf. assert (H := fun m Hm => client_start_ok m fresh fresh_invs Hm Hf).
  split; cbn [sys_start clients wire fc_wire]; try done.
  - intros m Hm. by apply H.
  - intros m vc Hm _. by apply (H m Hm).
  - intros m vc r Hm Hvc Hr. rewrite (proj2 (H m Hm)). done.
  - intros m vc r Hm Hvc Hr. unfold purse, cred, wr_to. cbn [client_start setup_coh_ops c_ledger credits credit_cq sum_over].
    unfold setup_credits.
    repeat zcase; done.
  - intros m Hm. by apply sum_over_zero.
  - intros m Hm. rewrite (sum_over_zero (returned _ m)) by done. done.
Qed.

Lemma sys_step_inv s s' : sys_step s s' ->
  (exists ring snd S R, sys_inv s ring snd S R) -> exists ring snd S R, sys_inv s' ring snd S R.
Proof.
  intros Hstep (ring & snd & S & R & HI).
  destruct Hstep as [m update_cache inv_cache ops arr1 arr2 c' ops' out Hm Hu Hi E|x l c' Hw E|x l Hw E|x l c' Hw E|x l Hw E].
  - destruct (flow_round_ok m Hm update_cache inv_cache Hu Hi _ _ _ ops arr1 arr2 (si_client _ _ _ _ _ HI m Hm))
      as (c1 & l' & snd' & ops1 & out1 & E1 & He). rewrite E in E1. injection E1 as <- <- <-.
    eexists _, _, _, _. by apply (inv_round s ring snd S R).
  - destruct (inv_receive s ring snd S R HI x l Hw) as (c1 & l' & E1 & HI'). rewrite E in E1. injection E1 as <-. eauto.
  - destruct (inv_receive s ring snd S R HI x l Hw) as (c1 & l' & E1 & HI'). congruence.
  - destruct (inv_fc_receive s ring snd S R HI x l Hw) as (c1 & E1 & HI'). rewrite E in E1. injection E1 as <-. eauto.
  - destruct (inv_fc_receive s ring snd S R HI x l Hw) as (c1 & E1 & HI'). congruence.
Qed.

Lemma sys_reach_inv fresh fresh_invs s : fresh_ok fresh fresh_invs -> sys_reach fresh fresh_invs s ->
  exists ring snd S R, sys_inv s ring snd S R.
Proof.
  intros Hf Hr. assert (H0 : exists ring snd S R, sys_inv (sys_start fresh fresh_invs) ring snd S R)
    by (eexists _, _, _, _; by apply sys_start_inv).
  unfold sys_reach in Hr. induction Hr as [|s1 s2 s3 H12 _ IH]; [done|]. by apply IH, (sys_step_inv s1).
Qed.

(** ** The cache's answers *)

(** What the batch functions of the cache answer to the polled messages; [resp]
    is the array of responses before. *)
Definition cache_answers (cache : mica_kv -> list (cache_op * mica_resp) -> outcome (mica_kv * list (cache_op * mica_resp)))
    (kv : mica_kv) (resp : nat -> mica_resp) (l : list cache_op) : list (cache_op * mica_resp) :=
  let l := imap (fun i op => (op, resp i)) l in
  match cache kv l with Done (_, out) => out | _ => l end.

Definition keeps (R : cache_op -> cache_op -> Prop) (h : handler) : Prop :=
  forall vp e op r e' op' r', h vp e op r = Done (e', op', r') -> R op op'.

Lemma cache_exec_keeps (R : cache_op -> cache_op -> Prop) skips h : (forall op, R op op) -> keeps R h ->
  forall l kv kv' out, cache_exec skips h kv l = Done (kv', out) -> Forall2 (fun x y => R x.1.1 y.1) l out.
Proof.
  intros Hrefl Hh. induction l as [|[[op r] ptr] l IH]; intros kv kv' out H; simpl in H; [by injection H as <- <-|].
  apply obind_Done_inv in H as ([[kv1 op1] r1] & H1 & H).
  apply obind_Done_inv in H as ([kv2 rest] & H2 & H). injection H as <- <-. constructor; [|by eapply IH].
  cbn [fst]. unfold cache_exec_one in H1. destruct (skips r); [by injection H1 as <- <- <-|].
  destruct ptr as [p|]; [|by injection H1 as <- <- <-]. destruct (_ =? _); [|by injection H1 as <- <- <-].
  apply obind_Done_inv in H1 as ([[e' op'] r'] & Hx & H1). injection H1 as <- <- <-. by eapply Hh.
Qed.

Lemma cache_answers_ok (R : cache_op -> cache_op -> Prop) skips h kv resp l : (forall op, R op op) -> keeps R h ->
  Forall2 (fun op x => R op x.1) l (cache_answers (cache_batch skips h) kv resp l).
Proof.
  intros Hrefl Hh. unfold cache_answers.
  assert (H0 : Forall2 (fun op (x : cache_op * mica_resp) => op = x.1) l (imap (fun i op => (op, resp i)) l)).
  { generalize resp as f. induction l as [|op l IH]; intros f; constructor; [done|apply IH]. }
  assert (Hsame : Forall2 (fun op x => R op x.1) l (imap (fun i op => (op, resp i)) l)).
  { eapply Forall2_impl; [exact H0|]. by intros op x ->. }
  destruct (cache_batch skips h kv _) as [[kv' out]| |] eqn:E; [|done|done]. apply cache_exec_keeps with (R := R) in E; [|done|done].
  apply Forall2_fmap_l in E. cbn [fst] in E.
  eapply Forall2_join with (R := fun (x : cache_op * mica_resp) op => op = x.1); [|apply Forall2_flip, H0|exact E].
  intros x op y -> H. exact H.
Qed.

Definition keeps_header (op op' : cache_op) : Prop := cid (meta op') = cid (meta op) /\ opcode op' = opcode op.

Lemma lin_upd_header : keeps keeps_header (fun _ => lin_upd).
Proof.
  intros vp e op r e' op' r' H. unfold lin_upd in H. apply obind_Done_inv in H as (? & _ & H).
  apply obind_Done_inv in H as (e1 & _ & H). destruct (_ && _);
    apply obind_Done_inv in H as (e2 & _ & H); by injection H as <- <- <-.
Qed.

Lemma lin_ack_header m : keeps keeps_header (fun _ => lin_ack m).
Proof.
  intros vp e op r e' op' r' H. unfold lin_ack in H. apply obind_Done_inv in H as (e1 & _ & H).
  apply obind_Done_inv in H as ([e2 r2] & _ & H). by injection H as <- <- <-.
Qed.

(** Whatever the state of the cache, its answers are as a round needs them. *)
Lemma lin_updates_answers m kv resp :
  answers is_upd_or_ack update_answer
    (cache_answers (cache_batch_op_lin_non_stalling_sessions_with_cache_op m) kv resp).
Proof.
  intros l _. apply (cache_answers_ok keeps_header); [done|]. intros vp e op r e' op' r' H. unfold lin_with_cache_op in H.
  destruct (_ =? CACHE_OP_UPD); [by apply (lin_upd_header vp) in H|].
  destruct (_ =? CACHE_OP_ACK); [by apply (lin_ack_header m vp) in H|].
  destruct (_ =? CACHE_OP_BRC); [by injection H as <- <- <-|done].
Qed.

Lemma lin_invs_answers m kv resp :
  answers is_inv inv_answer
    (cache_answers (cache_batch_op_lin_non_stalling_sessions_with_small_cache_op m) kv resp).
Proof.
  intros l Hl. pose (R := fun op op' => cid (meta op') = cid (meta op) /\ (is_inv op -> opcode op' <> CACHE_OP_BRC)).
  assert (Ha := cache_answers_ok R lin_skips (lin_with_small_cache_op m) kv resp l).
  assert (H : Forall2 (fun op x => R op x.1) l (cache_answers (cache_batch_op_lin_non_stalling_sessions_with_small_cache_op m) kv resp l)).
  { apply Ha; [intros op; split; [done|by intros ->]|]. intros vp e op r e' op' r' H. unfold lin_with_small_cache_op in H.
    destruct (_ =? CACHE_OP_INV); [|done]. unfold lin_inv in H. apply obind_Done_inv in H as (e1 & _ & H).
    apply obind_Done_inv in H as ([e2 r2] & _ & H). injection H as <- <- <-. by split. }
  clear Ha. induction H as [|op x l out [H1 H2] _ IH]; [done|]. apply Forall_cons in Hl as [Hop Hl].
  constructor; [by split; [|apply H2]|by apply IH].
Qed.

(** ** Flow control is safe and keeps its credits *)

(** C15: no message is dropped.  In every reachable state of the machines, each
    coherence message on its way finds a posted receive at its destination, and
    each credit message one of the receives posted for credits, in whatever order
    they are delivered. *)
Theorem no_message_lost fresh fresh_invs s :
  fresh_ok fresh fresh_invs -> sys_reach fresh fresh_invs s ->
  (forall x, x ∈ wire s -> exists c', nic_receive (m_op x) (clients s (dst x)) = Some c') /\
  (forall x, x ∈ fc_wire s -> exists c', fc_receive x.2 (clients s x.1) = Some c').
Proof.
  intros Hf Hr. destruct (sys_reach_inv _ _ _ Hf Hr) as (ring & snd & S & R & HI). split.
  - intros x [l Hl]%elem_of_Permutation. destruct (inv_receive s ring snd S R HI x l Hl) as (c' & _ & E & _). eauto.
  - intros x [l Hl]%elem_of_Permutation. destruct (inv_fc_receive s ring snd S R HI x l Hl) as (c' & E & _). eauto.
Qed.

(** Every round ends.  In every reachable state the round of every client
    returns: no loop spins, the completions it waits for are there and no
    assertion fails, for any requests, any credits that arrive and any answers of
    the cache; and the credit messages it forges fit the array [credit_wr]. *)
Theorem rounds_complete fresh fresh_invs s m update_cache inv_cache ops arr1 arr2 :
  fresh_ok fresh fresh_invs -> sys_reach fresh fresh_invs s -> m ∈ machines ->
  answers is_upd_or_ack update_answer update_cache -> answers is_inv inv_answer inv_cache ->
  exists c' ops' out, flow_round m update_cache inv_cache ops arr1 arr2 (clients s m) = Done (c', ops', out) /\
    Z.of_nat (length (credit_msgs out)) <= MAX_CREDIT_WRS.
Proof.
  intros Hf Hr Hm Hu Hi. destruct (sys_reach_inv _ _ _ Hf Hr) as (ring & snd & S & R & HI).
  pose proof (si_client _ _ _ _ _ HI m Hm) as Hc.
  destruct (flow_round_ok m Hm update_cache inv_cache Hu Hi _ _ _ ops arr1 arr2 Hc)
    as (c' & l' & snd' & ops' & out & E & [O1 _ O3 _ _ O6 _ _ _]).
  exists c', ops', out. split; [done|]. rewrite <- (credits_total m _ O6).
  assert (Ht : total (load c' l' snd') + CREDITS_IN_MESSAGE * total (fun vc s => wr_to m vc s (credit_msgs out))
               = total (load (clients s m) (ring m) (snd m))).
  { unfold total. rewrite <- sum_over_scale, <- sum_over_add. apply sum_over_eq. intros [vc r] Hcell. by apply O3. }
  pose proof (ck_recvs _ _ _ _ Hc) as Hrec. pose proof (rg_recvs _ _ _ (ck_ring _ _ _ _ Hc)).
  assert (0 <= total (load c' l' snd')) by (apply sum_over_nonneg; intros; by apply (load_nonneg m)).
  destruct credits_val as [E30 _]. rewrite slots_val, E30 in *. change MAX_CREDIT_WRS with 18. lia.
Qed.

Lemma brc_waiting s l : waiting_invs l = 0 -> brc s l = 0.
Proof.
  intros H. pose proof (brc_nonneg s l).
  assert (brc s l <= waiting_invs l); [|lia]. apply sum_over_le. intros op _.
  destruct (opcode op =? CACHE_OP_BRC), (cid (meta op) =? s); cbn [andb zb]; lia.
Qed.

(** C16: no credit is lost or made.  For every pair of machines and every virtual
    channel the credits of the sender, the credit messages on their way, the
    messages on their way and the buffer space in use at the receiver add up to
    the initial credits in every reachable state.  Once the receiver has handled
    everything and the network is empty the sender has more than the credits of
    one message back. *)
Theorem credits_conserved fresh fresh_invs s m vc r :
  fresh_ok fresh fresh_invs -> sys_reach fresh fresh_invs s ->
  m ∈ machines -> 0 <= vc < VIRTUAL_CHANNELS -> r ∈ others m ->
  all_credits s m vc r = CREDITS_FOR_EACH_CLIENT /\
  (wire s = [] -> fc_wire s = [] -> unread (c_inbox (clients s r)) = [] ->
   ack_size (c_acks (clients s r)) = 0 -> inv_size (c_invs (clients s r)) = 0 ->
   CREDITS_IN_MESSAGE < purse vc r (c_ledger (clients s m)) <= CREDITS_FOR_EACH_CLIENT).
Proof.
  intros Hf Hr Hm Hvc Hro. destruct (sys_reach_inv _ _ _ Hf Hr) as (ring & snd & S & R & HI).
  pose proof (others_machines _ _ Hro) as Hrm. pose proof (si_client _ _ _ _ _ HI r Hrm) as Hc.
  assert (E : all_credits s m vc r = CREDITS_FOR_EACH_CLIENT).
  { unfold all_credits. rewrite (unread_spec _ _ _ (ck_ring _ _ _ _ Hc)), (waiting_updates_spec _ _ _ (ck_acks _ _ _ _ Hc)).
    by apply (load_bound s ring snd S R). }
  split; [done|]. intros W1 W2 W3 W4 W5. unfold all_credits in E. rewrite W1, W2, W3 in E.
  pose proof (ck_seen _ _ _ _ Hc vc m) as Hseen. destruct credits_val as [E30 E60].
  unfold load, held, waiting_updates in E. rewrite W4 in E. change (seqZ 0 0) with (@nil Z) in E. cbn [fmap list_fmap] in E.
  rewrite (brc_waiting m) in E by (rewrite <- (ib_size _ _ (ck_invs _ _ _ _ Hc)); done).
  unfold cnt, occ, in_flight, wr_to in E. cbn [sum_over] in E. lia.
Qed.

(** *** Example: a write of machine 0 is broadcast *)
Definition demo_slot : cache_op := mkOp fresh_meta 0 0 0 0 0 (replicate 46 0).
Definition demo_memory : Z -> cache_op := fun _ => demo_slot.
Definition demo_invs : list cache_op := replicate (Z.to_nat BCAST_TO_CACHE_BATCH) demo_slot.
Definition no_answer (l : list cache_op) : list (cache_op * mica_resp) := (fun op => (op, mkResp CACHE_MISS 0 None)) <$> l.

Lemma demo_fresh_ok : fresh_ok demo_memory demo_invs.
Proof. split; [done|]. unfold demo_invs. by rewrite length_replicate. Qed.

Lemma no_answer_updates : answers is_upd_or_ack update_answer no_answer.
Proof. intros l _. apply Forall2_fmap_r, Forall_Forall2_diag, Forall_true. by intros op. Qed.
Lemma no_answer_invs : answers is_inv inv_answer no_answer.
Proof.
  intros l H. apply Forall2_fmap_r, Forall_Forall2_diag. eapply Forall_impl; [exact H|]. intros op Hop. split; [done|].
  cbn [fst]. unfold is_inv in Hop. by rewrite Hop.
Qed.

Definition flow_demo_round (s : system) (m : Z) (ops : list cache_op) : system :=
  match flow_round m no_answer no_answer ops [] [] (clients s m) with
  | Done (c', _, out) => mkSys (fupd (clients s) m c') (wire s ++ coherence out) (fc_wire s ++ credit_msgs out)
  | _ => s
  end.

Definition demo_sent : system :=
  flow_demo_round (sys_start demo_memory demo_invs) 0 [set_opcode CACHE_OP_BRC demo_slot].

Lemma demo_sent_reach : sys_reach demo_memory demo_invs demo_sent.
Proof.
  assert (H0 : 0 ∈ machines) by (by apply machines_spec). unfold demo_sent, flow_demo_round.
  destruct (flow_round 0 no_answer no_answer _ [] [] _) as [[[c' ops'] out]| |] eqn:E; [|apply rtc_refl|apply rtc_refl].
  eapply rtc_once, step_round; [exact H0|apply no_answer_updates|apply no_answer_invs|exact E].
Qed.

(** The invalidations reach the three other machines. *)
Lemma no_message_lost_witness :
  dst <$> wire demo_sent = [1; 2; 3] /\
  forall x, x ∈ wire demo_sent -> exists c', nic_receive (m_op x) (clients demo_sent (dst x)) = Some c'.
Proof.
  split; [vm_compute; reflexivity|].
  exact (proj1 (no_message_lost demo_memory demo_invs demo_sent demo_fresh_ok demo_sent_reach)).
Defined.

Lemma rounds_complete_witness :
  exists c' ops' out,
    flow_round 1 (cache_answers (cache_batch_op_lin_non_stalling_sessions_with_cache_op 1)
                    demo_cache (fun _ => mkResp EMPTY 0 None))
      no_answer [] [] [] (clients demo_sent 1) = Done (c', ops', out) /\
    Z.of_nat (length (credit_msgs out)) <= MAX_CREDIT_WRS.
Proof.
  apply (rounds_complete demo_memory demo_invs demo_sent 1); [exact demo_fresh_ok|exact demo_sent_reach| | |exact no_answer_invs].
  - by apply machines_spec.
  - apply lin_updates_answers.
Defined.

Lemma credits_conserved_witness :
  purse INV_VC 1 (c_ledger (clients demo_sent 0)) = 59 /\ all_credits demo_sent 0 INV_VC 1 = 60.
Proof.
  split; [vm_compute; reflexivity|].
  apply (credits_conserved demo_memory demo_invs demo_sent 0 INV_VC 1 demo_fresh_ok demo_sent_reach);
    [by apply machines_spec|done|]. apply elem_of_others. by rewrite machines_spec.
Defined.
