(* ===== verification/Signaling.v ===== *)
(** * Selective signaling of RDMA sends (inline_util.h, main.h)

    A send to the network card occupies a slot of the send queue until its
    completion, or that of a later send of the queue, is polled.  The code asks
    for a completion ([IBV_SEND_SIGNALED]) only every so many sends and polls
    for it just before the next request is due: the poll happens while a batch
    of work requests is being put together, before the batch is posted, and
    [hrd_poll_cq] waits.  If the signaled request were part of that same batch
    the thread would wait for ever; the constants [*_SS_BATCH] of main.h are
    chosen against this, with a comment for the broadcasts.

    This file models the signaling of the LIN client: broadcasts and
    acknowledgements share one queue, credits have their own.  The same code is
    used for the remote requests ([forge_remote_wr]), for the workers' answers
    ([request_bookkeeping]) and for the credits of the SC version
    ([create_credits_SC]).

    The card completes the sends of a queue in their order. *)
From S2P Require Import Prelude Config.

(** The sends posted and not yet reclaimed, oldest first: signaled or not. *)
Definition send_queue : Type := list bool.

(** [hrd_poll_cq(cq, 1, &wc)]: waits for a completion; with it every slot up to
    the signaled send is free. *)
Fixpoint poll_completion (q : send_queue) : outcome send_queue :=
  match q with
  | [] => Spin
  | true :: q => Done q
  | false :: q => poll_completion q
  end.

(** [ibv_post_send] on a queue of [depth] slots; [CPE] exits on its error. *)
Definition ibv_post_send (depth : Z) (wrs q : send_queue) : outcome send_queue :=
  let* _ := c_assert (Z.of_nat (length q + length wrs) <=? depth) in Done (q ++ wrs).

(** The signaling of [n] requests of one batch, from request number [tx] on:
    the flags of the batch, the next number, and the queue after the polls. *)
Fixpoint forge (ss_batch : Z) (n : nat) (tx : Z) (q : send_queue) : outcome (send_queue * Z * send_queue) :=
  match n with
  | O => Done ([], tx, q)
  | S n =>
      let signaled := tx mod ss_batch =? 0 in
      let* q := if tx mod ss_batch =? ss_batch - 1 then poll_completion q else Done q in
      let* (wrs, tx, q) := forge ss_batch n (tx + 1) q in
      Done (signaled :: wrs, tx, q)
  end.

(** A batch of [n] requests: forged, then posted if there are any. *)
Definition send_batch (depth ss_batch : Z) (n : nat) (tx : Z) (q : send_queue) : outcome (Z * send_queue) :=
  let* (wrs, tx, q) := forge ss_batch n tx q in
  if 0 <? Z.of_nat n then let* q := ibv_post_send depth wrs q in Done (tx, q) else Done (tx, q).

(** [send_acks], [forge_credits_LIN], [create_credits_SC], the remote requests
    of a client and the answers of a worker. *)
Definition send_acks_signals (depth : Z) := send_batch depth ACK_SS_BATCH.
Definition forge_credits_signals := send_batch LIN_CLIENT_SEND_CR_Q_DEPTH CREDIT_SS_BATCH.
Definition create_credits_SC_signals := send_batch SC_CLIENT_SEND_CR_Q_DEPTH SC_CREDIT_SS_BATCH.
Definition remote_signals := send_batch CLIENT_SEND_REM_Q_DEPTH CLIENT_SS_BATCH.
Definition worker_signals := send_batch WORKER_SEND_Q_DEPTH WORKER_SS_BATCH.

(** ** Broadcasts

    The flag goes to the first work request of the batch, whichever broadcast
    of it asks for the completion, and the counter is incremented before it is
    compared. *)
Definition forge_bcast_signal (ss_batch : Z) (x : bool * Z * send_queue) : outcome (bool * Z * send_queue) :=
  let '(first, br_tx, q) := x in
  let first := first || (br_tx mod ss_batch =? 0) in
  let br_tx := br_tx + 1 in
  let* q := if br_tx mod ss_batch =? ss_batch - 1 then poll_completion q else Done q in
  Done (first, br_tx, q).

(** [post_credit_recvs_and_batch_bcasts_to_NIC]: [br_i] broadcasts of
    [MESSAGES_IN_BCAST] work requests each. *)
Definition post_bcasts (depth : Z) (br_i : nat) (first : bool) (q : send_queue) : outcome send_queue :=
  if 0 <? Z.of_nat br_i
  then ibv_post_send depth (first :: replicate (br_i * Z.to_nat MESSAGES_IN_BCAST - 1) false) q
  else Done q.

(** The loop of [perform_broadcasts_LIN] over [n] broadcasts. *)
Fixpoint broadcast_signals (depth ss_batch : Z) (n br_i : nat) (x : bool * Z * send_queue) : outcome (Z * send_queue) :=
  match n with
  | O =>
      let '(first, br_tx, q) := x in
      let* q := post_bcasts depth br_i first q in Done (br_tx, q)
  | S n =>
      let* (first, br_tx, q) := forge_bcast_signal ss_batch x in
      if Z.of_nat (S br_i) =? MAX_BCAST_BATCH then
        let* q := post_bcasts depth (S br_i) first q in broadcast_signals depth ss_batch n 0 (false, br_tx, q)
      else broadcast_signals depth ss_batch n (S br_i) (first, br_tx, q)
  end.

(** ** Rounds of the LIN client: so many broadcasts, acknowledgements, credits *)
Record sends_state := mkSt { st_br_tx : Z; st_ack_tx : Z; st_credit_tx : Z; st_coh : send_queue; st_fc : send_queue }.

Definition signal_round (depth ss_batch : Z) (r : nat * nat * nat) (st : sends_state) : outcome sends_state :=
  let '(bcasts, acks, credits) := r in
  let* (b, q) := broadcast_signals depth ss_batch bcasts 0 (false, st_br_tx st, st_coh st) in
  let* (a, q) := send_acks_signals depth acks (st_ack_tx st) q in
  let* (c, fc) := forge_credits_signals credits (st_credit_tx st) (st_fc st) in
  Done (mkSt b a c q fc).

Fixpoint signal_rounds (depth ss_batch : Z) (l : list (nat * nat * nat)) (st : sends_state) : outcome sends_state :=
  match l with
  | [] => Done st
  | r :: l => let* st := signal_round depth ss_batch r st in signal_rounds depth ss_batch l st
  end.

Definition sends_start : sends_state := mkSt 0 0 0 [] [].

(** ** Counting signaled sends *)
Definition signaled (q : send_queue) : Z := foldr (fun b n => zb b + n) 0 q.

Lemma signaled_app q1 q2 : signaled (q1 ++ q2) = signaled q1 + signaled q2.
Proof. induction q1 as [|b q1 IH]; simpl; lia. Qed.

Lemma signaled_replicate n : signaled (replicate n false) = 0.
Proof. induction n; simpl; lia. Qed.

Lemma poll_completion_some q : 0 < signaled q ->
  exists q', poll_completion q = Done q' /\ signaled q' = signaled q - 1 /\ (length q' <= length q)%nat.
Proof.
  induction q as [|[] q IH]; simpl; intros H; [lia| |].
  - exists q. split; [done|]. lia.
  - destruct (IH ltac:(lia)) as (q' & E & Hs & Hl). exists q'. split; [done|]. lia.
Qed.

(** Requests before [tx] that asked for a completion, and polls before [tx]. *)
Definition asked_before (B tx : Z) : Z := (tx + B - 1) / B.
Definition polled_before (B tx : Z) : Z := tx / B.

Lemma polled_succ B t : 0 < B -> 0 <= t ->
  polled_before B (t + 1) = polled_before B t + zb (t mod B =? B - 1).
Proof. apply div_succ. Qed.

Lemma asked_succ B t : 0 < B -> 0 <= t -> asked_before B (t + 1) = asked_before B t + zb (t mod B =? 0).
Proof.
  intros HB Ht. unfold asked_before. pose proof (Z.div_mod t B ltac:(lia)) as E. pose proof (Z.mod_pos_bound t B HB).
  replace ((t + 1 + B - 1) / B) with (t / B + 1)
    by (replace (t + 1 + B - 1) with (t + 1 * B) by lia; rewrite Z.div_add; lia).
  destruct (Z.eqb_spec (t mod B) 0); cbn [zb].
  - replace ((t + B - 1) / B) with (t / B); [lia|]. apply (Z.div_unique _ _ _ (B - 1)); nia.
  - replace ((t + B - 1) / B) with (t / B + 1); [lia|]. apply (Z.div_unique _ _ _ (t mod B - 1)); nia.
Qed.

Lemma asked_bound B s k : 0 < B -> B * k + 1 <= s -> k + 1 <= asked_before B s.
Proof. intros HB Hs. unfold asked_before. apply Z.div_le_lower_bound; nia. Qed.

Lemma asked_polled B t : 0 < B -> polled_before B t <= asked_before B t.
Proof. intros HB. unfold asked_before, polled_before. apply Z.div_le_mono; lia. Qed.

Lemma asked_mono B s t : 0 < B -> s <= t -> asked_before B s <= asked_before B t.
Proof. intros HB H. unfold asked_before. apply Z.div_le_mono; lia. Qed.

(** A batch smaller than the signaling period: every poll finds a request that
    an earlier batch posted.  [base] counts completions of other sends. *)
Lemma forge_ok B base s n t q :
  0 < B -> 0 <= s <= t -> 0 <= base -> t - s + Z.of_nat n <= B - 1 ->
  signaled q = base + asked_before B s - polled_before B t ->
  exists wrs q', forge B n t q = Done (wrs, t + Z.of_nat n, q') /\
    signaled q' = base + asked_before B s - polled_before B (t + Z.of_nat n) /\
    signaled wrs = asked_before B (t + Z.of_nat n) - asked_before B t /\
    length wrs = n /\ (length q' <= length q)%nat.
Proof.
  revert t q. induction n as [|n IH]; intros t q HB Hs Hb Hn Hq.
  { exists [], q. rewrite Z.add_0_r. split; [done|]. simpl. lia. }
  cbn [forge].
  assert (Hp : exists q1, (if t mod B =? B - 1 then poll_completion q else Done q) = Done q1 /\
    signaled q1 = base + asked_before B s - polled_before B (t + 1) /\ (length q1 <= length q)%nat).
  { rewrite polled_succ by lia. destruct (Z.eqb_spec (t mod B) (B - 1)) as [Et|_]; cbn [zb]; [|exists q; split; [done|lia]].
    pose proof (Z.div_mod t B ltac:(lia)) as E. rewrite Et in E.
    assert (polled_before B t + 1 <= asked_before B s) by (apply asked_bound; unfold polled_before; nia).
    destruct (poll_completion_some q ltac:(lia)) as (q1 & E1 & H1 & Hl). exists q1. split; [done|lia]. }
  destruct Hp as (q1 & -> & H1 & Hl1). cbn [obind].
  destruct (IH (t + 1) q1 HB ltac:(lia) Hb ltac:(lia) H1) as (wrs & q' & E & H2 & H3 & H4 & H5).
  rewrite E. cbn [obind]. exists ((t mod B =? 0) :: wrs), q'.
  replace (t + Z.of_nat (S n)) with (t + 1 + Z.of_nat n) by lia. split; [done|]. split; [done|].
  rewrite asked_succ in H3 by lia. cbn [signaled foldr length]. fold (signaled wrs). lia.
Qed.

(** The queue holds the completions asked for and not yet polled, next to
    [base] others. *)
Definition batch_inv (B base tx : Z) (q : send_queue) : Prop :=
  0 <= tx /\ 0 <= base /\ signaled q = base + asked_before B tx - polled_before B tx.

(** A computation that ends well, or fails to post on a queue of [depth] slots
    that would need more than [need]. *)
Definition posted_or_full {A} (depth need : Z) (o : outcome A) (P : A -> Prop) : Prop :=
  (exists a, o = Done a /\ P a) \/ (o = AssertFailed /\ depth < need).

Lemma ibv_post_send_ok depth wrs q :
  posted_or_full depth (Z.of_nat (length q + length wrs)) (ibv_post_send depth wrs q) (fun q' => q' = q ++ wrs).
Proof.
  unfold posted_or_full, ibv_post_send. destruct (Z.leb_spec (Z.of_nat (length q + length wrs)) depth); [left|right]; simpl; eauto.
Qed.

Lemma send_batch_ok depth B base n tx q :
  0 < B -> Z.of_nat n <= B - 1 -> batch_inv B base tx q ->
  posted_or_full depth (Z.of_nat (length q + n)) (send_batch depth B n tx q)
    (fun x => x.1 = tx + Z.of_nat n /\ batch_inv B base x.1 x.2 /\ (length x.2 <= length q + n)%nat).
Proof.
  intros HB Hn (Ht & Hb & Hq). unfold send_batch.
  destruct (forge_ok B base tx n tx q HB ltac:(lia) Hb ltac:(lia) Hq) as (wrs & q1 & E & H1 & H2 & H3 & H4).
  rewrite E. cbn [obind]. destruct (Z.ltb_spec 0 (Z.of_nat n)) as [Hn0|Hn0].
  - destruct (ibv_post_send_ok depth wrs q1) as [(q2 & E2 & ->)|[E2 Hd]]; rewrite E2; cbn [obind];
      [left|right; split; [done|lia]].
    exists (tx + Z.of_nat n, q1 ++ wrs). split; [done|]. cbn [fst snd]. split; [done|]. split; [|rewrite length_app; lia].
    split; [lia|]. split; [done|]. rewrite signaled_app. lia.
  - left. eexists. split; [reflexivity|]. cbn [fst snd]. replace (Z.of_nat n) with 0 in * by lia. rewrite Z.add_0_r in *.
    split; [done|]. split; [|lia]. split; [done|]. split; [done|]. lia.
Qed.

(** Broadcasts: one more poll when the counter is incremented first. *)
Definition bcast_sends_inv (B base tx : Z) (q : send_queue) : Prop :=
  0 <= tx /\ 0 <= base /\ signaled q = base + asked_before B tx - polled_before B (tx + 1).

(** Inside a batch that started at [s]: [first] says that one of its broadcasts
    asked for a completion. *)
Definition forging_inv (B base s : Z) (x : bool * Z * send_queue) : Prop :=
  let '(first, tx, q) := x in
  0 <= s <= tx /\ 0 <= base /\ zb first = asked_before B tx - asked_before B s /\
  signaled q = base + asked_before B s - polled_before B (tx + 1).

Lemma asked_once B s t : 0 < B -> 0 <= s <= t -> t - s <= B -> asked_before B t <= asked_before B s + 1.
Proof.
  intros HB Hs Ht. unfold asked_before. replace ((s + B - 1) / B + 1) with ((s + B - 1 + 1 * B) / B) by (rewrite Z.div_add; lia).
  apply Z.div_le_mono; lia.
Qed.

Lemma forge_bcast_signal_ok B base s first tx q :
  MAX_BCAST_BATCH + 2 <= B -> tx - s < MAX_BCAST_BATCH -> forging_inv B base s (first, tx, q) ->
  exists first' q', forge_bcast_signal B (first, tx, q) = Done (first', tx + 1, q') /\
    forging_inv B base s (first', tx + 1, q') /\ (length q' <= length q)%nat.
Proof.
  change MAX_BCAST_BATCH with 4. intros HB Hs (Ht & Hb & Hf & Hq). unfold forge_bcast_signal.
  assert (Hp : exists q', (if (tx + 1) mod B =? B - 1 then poll_completion q else Done q) = Done q' /\
    signaled q' = base + asked_before B s - polled_before B (tx + 1 + 1) /\ (length q' <= length q)%nat).
  { rewrite polled_succ by lia. destruct (Z.eqb_spec ((tx + 1) mod B) (B - 1)) as [Et|_]; cbn [zb]; [|exists q; split; [done|lia]].
    pose proof (Z.div_mod (tx + 1) B ltac:(lia)) as E. rewrite Et in E.
    assert (polled_before B (tx + 1) + 1 <= asked_before B s) by (apply asked_bound; unfold polled_before; nia).
    destruct (poll_completion_some q ltac:(lia)) as (q1 & E1 & H1 & Hl). exists q1. split; [done|lia]. }
  destruct Hp as (q' & -> & H1 & Hl). cbn [obind]. eexists _, q'. split; [reflexivity|]. split; [|done].
  split; [lia|]. split; [done|]. split; [|done].
  pose proof (asked_once B s (tx + 1) ltac:(lia) ltac:(lia) ltac:(lia)) as H2. rewrite asked_succ in H2 |- * by lia.
  destruct first, (tx mod B =? 0); cbn [zb orb] in *; lia.
Qed.

Lemma post_bcasts_ok depth B base s br_i first q :
  forging_inv B base s (first, s + Z.of_nat br_i, q) ->
  posted_or_full depth (Z.of_nat (length q + 3 * br_i)) (post_bcasts depth br_i first q)
    (fun q' => bcast_sends_inv B base (s + Z.of_nat br_i) q' /\ (length q' <= length q + 3 * br_i)%nat).
Proof.
  intros (Ht & Hb & Hf & Hq). unfold post_bcasts. destruct (Z.ltb_spec 0 (Z.of_nat br_i)) as [H0|H0].
  - set (wrs := first :: replicate (br_i * Z.to_nat MESSAGES_IN_BCAST - 1) false).
    assert (Hl : length wrs = (3 * br_i)%nat).
    { unfold wrs. cbn [length]. rewrite length_replicate. change (Z.to_nat MESSAGES_IN_BCAST) with 3%nat. lia. }
    assert (Hw : signaled wrs = zb first) by (unfold wrs; cbn [signaled foldr]; rewrite signaled_replicate; lia).
    destruct (ibv_post_send_ok depth wrs q) as [(q' & E & ->)|[E Hd]]; rewrite E; [left|right; split; [done|lia]].
    eexists. split; [reflexivity|]. rewrite length_app. split; [|lia].
    split; [lia|]. split; [done|]. rewrite signaled_app. lia.
  - left. exists q. split; [done|]. replace (Z.of_nat br_i) with 0 in * by lia. rewrite Z.add_0_r in *.
    split; [|lia]. split; [lia|]. split; [done|]. lia.
Qed.

Lemma posted_or_full_bind {A C} depth n1 n2 (o : outcome A) (k : A -> outcome C) P Q :
  posted_or_full depth n1 o P -> n1 <= n2 -> (forall a, P a -> posted_or_full depth n2 (k a) Q) ->
  posted_or_full depth n2 (obind o k) Q.
Proof.
  intros [(a & -> & Ha)|[-> Hd]] Hn Hk; [by apply Hk|]. right. split; [done|lia].
Qed.

Lemma posted_or_full_weaken {A} depth n1 n2 (o : outcome A) (P Q : A -> Prop) :
  posted_or_full depth n1 o P -> n1 <= n2 -> (forall a, P a -> Q a) -> posted_or_full depth n2 o Q.
Proof. intros [(a & -> & Ha)|[-> Hd]] Hn Hk; [left; eauto|right; split; [done|lia]]. Qed.

Lemma broadcast_signals_ok depth B base n br_i s first q :
  MAX_BCAST_BATCH + 2 <= B -> Z.of_nat br_i < MAX_BCAST_BATCH ->
  forging_inv B base s (first, s + Z.of_nat br_i, q) ->
  posted_or_full depth (Z.of_nat (length q + 3 * (br_i + n)))
    (broadcast_signals depth B n br_i (first, s + Z.of_nat br_i, q))
    (fun x => bcast_sends_inv B base x.1 x.2 /\ (length x.2 <= length q + 3 * (br_i + n))%nat).
Proof.
  intros HB. revert br_i s first q. induction n as [|n IH]; intros br_i s first q Hbr Hinv; cbn [broadcast_signals].
  - eapply posted_or_full_bind; [by apply post_bcasts_ok|lia|]. intros q' [H1 H2]. left. eexists. split; [reflexivity|].
    split; [done|]. simpl. lia.
  - destruct (forge_bcast_signal_ok B base s first (s + Z.of_nat br_i) q HB ltac:(lia) Hinv) as (f' & q' & E & Hi & Hl).
    rewrite E. cbn [obind]. replace (s + Z.of_nat br_i + 1) with (s + Z.of_nat (S br_i)) in * by lia.
    destruct (Z.eqb_spec (Z.of_nat (S br_i)) MAX_BCAST_BATCH) as [Em|Em].
    + eapply posted_or_full_bind; [by apply post_bcasts_ok|lia|]. intros q2 [(H1 & H2 & H3) H4].
      pose proof (IH 0%nat (s + Z.of_nat (S br_i)) false q2 ltac:(done)) as IH2. rewrite Z.add_0_r in IH2.
      eapply posted_or_full_weaken; [apply IH2|lia|].
      * split; [lia|]. split; [done|]. split; [cbn [zb]; lia|]. lia.
      * intros x [Hx1 Hx2]. split; [done|lia].
    + eapply posted_or_full_weaken; [apply (IH (S br_i) s f' q'); [lia|done]|lia|].
      intros x [Hx1 Hx2]. split; [done|lia].
Qed.

(** ** A queue of its own: exactly which sends are in it *)

(** The requests [lo] to [hi - 1]. *)
Definition window (B lo hi : Z) : send_queue := (fun i => i mod B =? 0) <$> seqZ lo (hi - lo).

(** The oldest request not reclaimed when [tx] have been forged: the last poll
    found the first request of the previous period. *)
Definition oldest (B tx : Z) : Z := if tx <? B then 0 else (tx / B - 1) * B + 1.

Lemma window_cons B lo hi : lo < hi -> window B lo hi = (lo mod B =? 0) :: window B (lo + 1) hi.
Proof.
  intros H. unfold window. rewrite seqZ_cons by lia. rewrite fmap_cons. f_equal.
  replace (hi - (lo + 1)) with (Z.pred (hi - lo)) by lia. by replace (lo + 1) with (Z.succ lo) by lia.
Qed.

Lemma window_app B lo mid hi : lo <= mid <= hi -> window B lo mid ++ window B mid hi = window B lo hi.
Proof.
  intros H. unfold window. rewrite <- fmap_app. f_equal. replace (hi - lo) with ((mid - lo) + (hi - mid)) by lia.
  rewrite seqZ_app by lia. f_equal. f_equal. lia.
Qed.

Lemma length_window B lo hi : length (window B lo hi) = Z.to_nat (hi - lo).
Proof. unfold window. by rewrite length_fmap, length_seqZ. Qed.

Lemma poll_window B m hi n lo :
  lo + Z.of_nat n = m -> m < hi -> m mod B = 0 -> (forall i, lo <= i < m -> i mod B <> 0) ->
  poll_completion (window B lo hi) = Done (window B (m + 1) hi).
Proof.
  revert lo. induction n as [|n IH]; intros lo Hn Hm H0 Hne; rewrite window_cons by lia; cbn [poll_completion].
  - replace lo with m by lia. by rewrite H0.
  - rewrite (proj2 (Z.eqb_neq _ _) (Hne lo ltac:(lia))). apply IH; [lia|done|done|]. intros i Hi. apply Hne. lia.
Qed.

Lemma between_multiples B k i : 0 < B -> (k - 1) * B < i < k * B -> i mod B <> 0.
Proof.
  intros HB Hi H0. pose proof (Z.div_mod i B ltac:(lia)) as E. rewrite H0, Z.add_0_r in E.
  assert (k - 1 < i / B) by nia. assert (i / B < k) by nia. lia.
Qed.

Lemma oldest_range B t : 0 < B -> 0 <= t -> 0 <= oldest B t <= t /\ t - oldest B t <= 2 * B - 2.
Proof.
  intros HB Ht. unfold oldest. pose proof (Z.div_mod t B ltac:(lia)). pose proof (Z.mod_pos_bound t B HB).
  destruct (Z.ltb_spec t B); [lia|]. assert (1 <= t / B) by (apply Z.div_le_lower_bound; lia). nia.
Qed.

Lemma oldest_succ B t : 0 < B -> 0 <= t -> oldest B (t + 1) = if t mod B =? B - 1 then t / B * B + 1 else oldest B t.
Proof.
  intros HB Ht. unfold oldest. rewrite div_succ by lia.
  pose proof (Z.div_mod t B ltac:(lia)). pose proof (Z.mod_pos_bound t B HB).
  destruct (Z.eqb_spec (t mod B) (B - 1)) as [E|E]; cbn [zb].
  - rewrite (proj2 (Z.ltb_ge (t + 1) B)); [nia|]. assert (0 <= t / B) by (apply Z.div_pos; lia). nia.
  - rewrite Z.add_0_r. destruct (Z.ltb_spec t B).
    + rewrite (proj2 (Z.ltb_lt (t + 1) B)); [done|]. rewrite Z.mod_small in E by lia. lia.
    + rewrite (proj2 (Z.ltb_ge (t + 1) B)) by lia. done.
Qed.

Lemma poll_oldest B s t :
  0 < B -> 0 <= s <= t -> t - s < B - 1 -> t mod B = B - 1 ->
  poll_completion (window B (oldest B t) s) = Done (window B (t / B * B + 1) s).
Proof.
  intros HB Hs Hts Et. pose proof (Z.div_mod t B ltac:(lia)) as E. assert (0 <= t / B) by (apply Z.div_pos; lia).
  destruct (oldest_range B t HB ltac:(lia)) as [Ho _].
  assert (Hle : oldest B t <= t / B * B) by (unfold oldest; destruct (_ <? _); nia).
  apply (poll_window B _ _ (Z.to_nat (t / B * B - oldest B t))); [lia|nia|apply Z.mod_mul; lia|].
  intros i Hi. unfold oldest in Hi. destruct (Z.ltb_spec t B) as [Hlt|Hge].
  - rewrite Z.div_small in Hi by lia. lia.
  - apply (between_multiples B (t / B)); [done|nia].
Qed.

Lemma forge_window B s n t :
  0 < B -> 0 <= s <= t -> t - s + Z.of_nat n <= B - 1 ->
  forge B n t (window B (oldest B t) s) =
    Done (window B t (t + Z.of_nat n), t + Z.of_nat n, window B (oldest B (t + Z.of_nat n)) s).
Proof.
  revert t. induction n as [|n IH]; intros t HB Hs Hn.
  { rewrite Z.add_0_r. unfold window at 2. by rewrite Z.sub_diag. }
  cbn [forge]. replace (t + Z.of_nat (S n)) with (t + 1 + Z.of_nat n) by lia.
  rewrite (window_cons B t) by lia.
  assert (Hp : (if t mod B =? B - 1 then poll_completion (window B (oldest B t) s) else Done (window B (oldest B t) s))
               = Done (window B (oldest B (t + 1)) s)).
  { rewrite oldest_succ by lia. destruct (Z.eqb_spec (t mod B) (B - 1)); [|done]. apply poll_oldest; lia. }
  rewrite Hp. cbn [obind]. rewrite IH by lia. done.
Qed.

(** With two signaling periods of room the posts never fail. *)
Lemma send_batch_window depth B n tx :
  0 < B -> 0 <= tx -> Z.of_nat n <= B - 1 -> 2 * B - 2 <= depth ->
  send_batch depth B n tx (window B (oldest B tx) tx) =
    Done (tx + Z.of_nat n, window B (oldest B (tx + Z.of_nat n)) (tx + Z.of_nat n)).
Proof.
  intros HB Ht Hn Hd. unfold send_batch. rewrite forge_window by lia. cbn [obind].
  destruct (Z.ltb_spec 0 (Z.of_nat n)) as [H0|H0]; [|replace (Z.of_nat n) with 0 by lia; by rewrite !Z.add_0_r].
  assert (Ho : oldest B (tx + Z.of_nat n) <= tx).
  { clear -HB Ht Hn. induction n as [|n IH]; [rewrite Z.add_0_r; by apply oldest_range|].
    replace (tx + Z.of_nat (S n)) with (tx + Z.of_nat n + 1) by lia. rewrite oldest_succ by lia.
    destruct (Z.eqb_spec ((tx + Z.of_nat n) mod B) (B - 1)) as [E|]; [|apply IH; lia].
    pose proof (Z.div_mod (tx + Z.of_nat n) B ltac:(lia)). nia. }
  destruct (oldest_range B (tx + Z.of_nat n) HB ltac:(lia)) as [Ho1 Ho2].
  unfold ibv_post_send. rewrite !length_window, (proj2 (Z.leb_le _ _)) by lia. cbn [c_assert obind].
  rewrite window_app by lia. done.
Qed.

(** ** Rounds *)
Definition sends_inv (B : Z) (st : sends_state) : Prop :=
  0 <= st_br_tx st /\ 0 <= st_ack_tx st /\ 0 <= st_credit_tx st /\
  signaled (st_coh st) = (asked_before B (st_br_tx st) - polled_before B (st_br_tx st + 1))
    + (asked_before ACK_SS_BATCH (st_ack_tx st) - polled_before ACK_SS_BATCH (st_ack_tx st)) /\
  st_fc st = window CREDIT_SS_BATCH (oldest CREDIT_SS_BATCH (st_credit_tx st)) (st_credit_tx st).

(** What bounds the sizes: the loop of [send_acks], the assertion of
    [forge_credits_LIN]. *)
Definition round_sizes (r : nat * nat * nat) : Prop :=
  Z.of_nat r.1.2 <= BCAST_TO_CACHE_BATCH /\ Z.of_nat r.2 <= CREDIT_SS_BATCH_.

(** Work requests of a round on the queue of broadcasts and acknowledgements. *)
Definition round_wrs (r : nat * nat * nat) : nat := 3 * r.1.1 + r.1.2.

Lemma signal_round_ok depth B r st :
  MAX_BCAST_BATCH + 2 <= B -> round_sizes r -> sends_inv B st ->
  posted_or_full depth (Z.of_nat (length (st_coh st) + round_wrs r)) (signal_round depth B r st)
    (fun st' => sends_inv B st' /\ (length (st_coh st') <= length (st_coh st) + round_wrs r)%nat).
Proof.
  intros HB [Ha Hc] (H1 & H2 & H3 & H4 & H5). destruct r as [[nb na] nc]. cbn [fst snd] in *. unfold signal_round.
  change MAX_BCAST_BATCH with 4 in HB.
  assert (HA : 0 < ACK_SS_BATCH) by done. assert (HAn : BCAST_TO_CACHE_BATCH <= ACK_SS_BATCH - 1) by done.
  pose proof (asked_polled ACK_SS_BATCH (st_ack_tx st) HA).
  pose proof (broadcast_signals_ok depth B (asked_before ACK_SS_BATCH (st_ack_tx st) - polled_before ACK_SS_BATCH (st_ack_tx st))
    nb 0 (st_br_tx st) false (st_coh st) HB ltac:(done)) as Hbr. rewrite Z.add_0_r in Hbr.
  eapply posted_or_full_bind; [apply Hbr|unfold round_wrs; simpl; lia|].
  { split; [lia|]. split; [lia|]. split; [cbn [zb]; lia|]. lia. }
  intros [b q] [(Hb1 & _ & Hb2) Hb3]. cbn [fst snd] in *.
  assert (0 <= asked_before B b - polled_before B (b + 1)).
  { unfold asked_before, polled_before. pose proof (Z.div_le_mono (b + 1) (b + B - 1) B ltac:(lia) ltac:(lia)). lia. }
  eapply posted_or_full_bind.
  { unfold send_acks_signals.
    apply (send_batch_ok depth ACK_SS_BATCH (asked_before B b - polled_before B (b + 1))); [done|lia|].
    split; [done|]. split; [done|]. lia. }
  { unfold round_wrs. simpl. lia. }
  intros [a q2] Hx. cbn [fst snd] in Hx. destruct Hx as (-> & (Ha1 & _ & Ha2) & Ha3).
  rewrite H5. unfold forge_credits_signals. rewrite send_batch_window;
    [|reflexivity|exact H3|change CREDIT_SS_BATCH_ with (CREDIT_SS_BATCH - 1) in Hc; lia|vm_compute; discriminate].
  cbn [obind]. left. eexists. split; [reflexivity|]. unfold round_wrs. cbn [st_coh fst snd]. split; [|lia].
  unfold sends_inv. cbn [st_br_tx st_ack_tx st_credit_tx st_coh st_fc]. split_and!; try lia. done.
Qed.

Fixpoint total_wrs (l : list (nat * nat * nat)) : nat :=
  match l with [] => 0%nat | r :: l => (round_wrs r + total_wrs l)%nat end.

Lemma signal_rounds_ok depth B l st :
  MAX_BCAST_BATCH + 2 <= B -> Forall round_sizes l -> sends_inv B st ->
  posted_or_full depth (Z.of_nat (length (st_coh st) + total_wrs l)) (signal_rounds depth B l st) (sends_inv B).
Proof.
  intros HB Hl. revert st. induction Hl as [|r l Hr _ IH]; intros st Hst; cbn [signal_rounds total_wrs].
  { left. by exists st. }
  eapply posted_or_full_bind; [by apply signal_round_ok|lia|]. intros st' [H1 H2].
  eapply posted_or_full_weaken; [by apply IH|lia|done].
Qed.

Lemma sends_start_inv B : 2 <= B -> sends_inv B sends_start.
Proof.
  intros HB. unfold sends_inv, sends_start. cbn [st_br_tx st_ack_tx st_credit_tx st_coh st_fc signaled foldr].
  unfold asked_before, polled_before. rewrite (Z.div_small (0 + B - 1)), (Z.div_small (0 + 1)) by lia.
  split; [lia|]. split; [lia|]. split; [lia|]. split; [reflexivity|reflexivity].
Qed.

(** C17: selective signaling never deadlocks the LIN client.  For any number of
    rounds, with any number of broadcasts and the batches of acknowledgements
    and credits the code builds, no poll for a completion waits for a send that
    is not posted, though broadcasts and acknowledgements share a queue: the
    rounds complete on a large enough queue, and end at worst with a failed
    post on a smaller one; the queue of the credits is large enough.  The
    constant for broadcasts is tight: with less than MAX_BCAST_BATCH + 2 the
    first full batch waits for ever. *)
Theorem lin_sends_complete l :
  Forall round_sizes l ->
  (forall depth, signal_rounds depth BROADCAST_SS_BATCH l sends_start <> Spin) /\
  (forall depth, Z.of_nat (total_wrs l) <= depth ->
     exists st, signal_rounds depth BROADCAST_SS_BATCH l sends_start = Done st /\
       Z.of_nat (length (st_fc st)) <= LIN_CLIENT_SEND_CR_Q_DEPTH) /\
  (forall depth B, 2 <= B < MAX_BCAST_BATCH + 2 ->
     signal_rounds depth B [(Z.to_nat MAX_BCAST_BATCH, O, O)] sends_start = Spin).
Proof.
  intros Hl.
  assert (Hok : forall depth, posted_or_full depth (Z.of_nat (total_wrs l)) (signal_rounds depth BROADCAST_SS_BATCH l sends_start)
            (sends_inv BROADCAST_SS_BATCH)).
  { intros depth. apply (signal_rounds_ok depth BROADCAST_SS_BATCH l sends_start); [done|done|by apply sends_start_inv]. }
  split_and!.
  - intros depth. destruct (Hok depth) as [(st & -> & _)|[-> _]]; done.
  - intros depth Hd. destruct (Hok depth) as [(st & E & _ & _ & Ht & _ & Hfc)|[_ H]]; [|lia].
    exists st. split; [done|]. rewrite Hfc, length_window.
    destruct (oldest_range CREDIT_SS_BATCH (st_credit_tx st) ltac:(done) Ht) as [Ho1 Ho2].
    change LIN_CLIENT_SEND_CR_Q_DEPTH with (2 * CREDIT_SS_BATCH + 13). lia.
  - intros depth B HB. change MAX_BCAST_BATCH with 4 in HB.
    assert (B = 2 \/ B = 3 \/ B = 4 \/ B = 5) as [-> |[-> |[-> | ->]]] by lia; reflexivity.
Qed.

(** The queue of broadcasts and acknowledgements is not large enough: 13 rounds
    with 50 acknowledgements and nothing else need more slots than it has,
    because only the first of them asked for a completion that was polled. *)
Lemma ack_queue_exceeded :
  signal_rounds LIN_CLIENT_SEND_BR_Q_DEPTH BROADCAST_SS_BATCH (replicate 13 (O, 50%nat, O)) sends_start = AssertFailed /\
  Forall round_sizes (replicate 13 (O, 50%nat, O)).
Proof.
  split; [vm_compute; reflexivity|]. apply Forall_replicate. split; vm_compute; discriminate.
Qed.

(** ** A concrete instance *)
Definition busy_rounds : list (nat * nat * nat) := [(10%nat, 60%nat, 6%nat); (40%nat, 500%nat, 18%nat); (3%nat, 1%nat, 0%nat)].

Lemma lin_sends_complete_witness :
  (forall depth, signal_rounds depth BROADCAST_SS_BATCH busy_rounds sends_start <> Spin) /\
  (exists st, signal_rounds 1000 BROADCAST_SS_BATCH busy_rounds sends_start = Done st /\ st_ack_tx st = 561).
Proof.
  assert (H : Forall round_sizes busy_rounds) by (repeat (apply Forall_cons_2; [split; vm_compute; discriminate|]); apply Forall_nil_2).
  split; [apply (lin_sends_complete busy_rounds H)|].
  destruct (proj1 (proj2 (lin_sends_complete busy_rounds H)) 1000 ltac:(vm_compute; discriminate)) as (st & E & _).
  exists st. split; [exact E|]. vm_compute in E. injection E as <-. reflexivity.
Defined.
