(* ===== verification/Remotes.v ===== *)
(** * Remote requests of the LIN client over RDMA (client-lin.c, inline_util.h, util.c)

    The LIN client keeps receives posted for the answers to its remote requests:
    [WINDOW_SIZE] before its loop, and in every iteration as many as it sent
    requests in the previous one ([refill_recvs]); [poll_and_send_remotes] waits
    for the answers to the previous batch and posts the new one.  Datagrams are
    unreliable: an answer that finds no posted receive is lost, and the wait
    for it would not end.  This file models the bookkeeping of both functions
    and shows that no answer is lost, that the receive queue is never
    overfilled and that no assertion fails.

    The contents of the work requests are not modelled (the call that fills
    them is commented out in [handle_cold_requests]), nor are the statistics.
    Also here: how a worker divides its request buffer among its queue pairs. *)
From stdpp Require Import relations.
From S2P Require Import Prelude Config.

Record remotes := mkRem {
  outstanding_rem_reqs : Z;   (** a [uint32_t] *)
  remote_tot_tx : Z;
  posted : Z;                 (** receives posted and not used *)
  in_flight : Z;              (** requests whose answers are on their way *)
  answers : Z;                (** completions of receives not yet polled *)
  lost : Z                    (** answers that found no receive *)
}.

(** [ibv_post_recv] of [n] receives on a queue of [CLIENT_RECV_REM_Q_DEPTH]. *)
Definition post_receives (n : Z) (st : remotes) : outcome remotes :=
  let* _ := c_assert (posted st + n <=? CLIENT_RECV_REM_Q_DEPTH) in
  Done (mkRem (outstanding_rem_reqs st) (remote_tot_tx st) (posted st + n) (in_flight st) (answers st) (lost st)).

Definition refill_recvs (rem_req_i : Z) (st : remotes) : outcome remotes :=
  if 0 <? rem_req_i then
    let* _ := c_assert (rem_req_i <=? WINDOW_SIZE) in
    post_receives rem_req_i st
  else Done st.

(** The first half of [poll_and_send_remotes]. *)
Definition poll_remotes (previous_wr_i prev_rem_req_i : Z) (st : remotes) : outcome remotes :=
  if (ENABLE_MULTI_BATCHES =? 0) && (0 <? previous_wr_i) then
    if answers st <? prev_rem_req_i then Spin
    else
      let* _ := c_assert (prev_rem_req_i <=? MAX_REMOTE_RECV_WCS) in
      Done (mkRem (u32 (outstanding_rem_reqs st - previous_wr_i)) (remote_tot_tx st) (posted st) (in_flight st)
              (answers st - prev_rem_req_i) (lost st))
  else Done st.

(** The second half. *)
Definition send_remotes (wr_i rem_req_i : Z) (st : remotes) : outcome remotes :=
  if 0 <? wr_i then
    let* _ := c_assert ((rem_req_i <=? wr_i * MAX_COALESCE_PER_MACH) &&
                        (wr_i <=? WORKERS_PER_MACHINE * WS_PER_WORKER * (MACHINE_NUM - 1)) && (wr_i <=? WINDOW_SIZE)) in
    let out := u32 (outstanding_rem_reqs st + wr_i) in
    let* _ := c_assert (out <=? MAX_OUTSTANDING_REQS) in
    Done (mkRem out (remote_tot_tx st + wr_i) (posted st) (in_flight st + wr_i) (answers st) (lost st))
  else Done st.

Definition poll_and_send_remotes (previous_wr_i prev_rem_req_i wr_i rem_req_i : Z) (st : remotes) : outcome remotes :=
  let* st := poll_remotes previous_wr_i prev_rem_req_i st in send_remotes wr_i rem_req_i st.

(** The card takes an answer into a posted receive, or drops it. *)
Definition arrive (st : remotes) : remotes :=
  if 0 <? posted st
  then mkRem (outstanding_rem_reqs st) (remote_tot_tx st) (posted st - 1) (in_flight st - 1) (answers st + 1) (lost st)
  else mkRem (outstanding_rem_reqs st) (remote_tot_tx st) (posted st) (in_flight st - 1) (answers st) (lost st + 1).

(** ** The loop

    Before [refill_recvs] or before [poll_and_send_remotes], with the number of
    requests of the previous batch ([wr_i] and [rem_req_i] are equal without
    coalescing). *)
Inductive loop_point := Top | Sending.

Record remote_loop := mkRl { rl_at : loop_point; rl_prev : Z; rl_st : remotes }.

(** [setup]: receives preposted before the loop. *)
Definition remote_start : remote_loop := mkRl Top 0 (mkRem 0 0 WINDOW_SIZE 0 0 0).

(** [n]: requests of the next batch, which [handle_cold_requests] limits to
    [WINDOW_SIZE]. *)
Inductive remote_step (s : remote_loop) : outcome remote_loop -> Prop :=
| remote_refill o : rl_at s = Top -> refill_recvs (rl_prev s) (rl_st s) = o ->
    remote_step s (let* st := o in Done (mkRl Sending (rl_prev s) st))
| remote_send n o : rl_at s = Sending -> 0 <= n <= WINDOW_SIZE ->
    poll_and_send_remotes (rl_prev s) (rl_prev s) n n (rl_st s) = o -> o <> Spin ->
    remote_step s (let* st := o in Done (mkRl Top n st))
| remote_arrive : 0 < in_flight (rl_st s) -> remote_step s (Done (mkRl (rl_at s) (rl_prev s) (arrive (rl_st s)))).

Inductive remote_reaches : remote_loop -> Prop :=
| remote_init : remote_reaches remote_start
| remote_next s s' : remote_reaches s -> remote_step s (Done s') -> remote_reaches s'.

Record remotes_inv (s : remote_loop) : Prop := {
  ri_prev : 0 <= rl_prev s <= WINDOW_SIZE;
  ri_answers : 0 <= answers (rl_st s) /\ 0 <= in_flight (rl_st s) /\
    answers (rl_st s) + in_flight (rl_st s) = rl_prev s;
  ri_lost : lost (rl_st s) = 0;
  ri_out : outstanding_rem_reqs (rl_st s) = rl_prev s;
  ri_posted : posted (rl_st s) = WINDOW_SIZE - answers (rl_st s) + (match rl_at s with Top => 0 | Sending => rl_prev s end)
}.

Lemma remote_start_inv : remotes_inv remote_start.
Proof. split; simpl; unfold WINDOW_SIZE; lia. Qed.

Lemma poll_remotes_ok prev st :
  0 <= prev <= WINDOW_SIZE -> answers st = prev -> outstanding_rem_reqs st = prev ->
  poll_remotes prev prev st = Done (mkRem 0 (remote_tot_tx st) (posted st) (in_flight st) 0 (lost st)).
Proof.
  intros Hp Ha Ho. destruct st as [out tx pos fly ans lo]. simpl in *. subst. unfold poll_remotes.
  change (ENABLE_MULTI_BATCHES =? 0) with true. cbn [andb answers outstanding_rem_reqs remote_tot_tx posted in_flight lost].
  destruct (Z.ltb_spec 0 prev); [|by replace prev with 0 by lia].
  rewrite Z.ltb_irrefl, (proj2 (Z.leb_le prev MAX_REMOTE_RECV_WCS)) by apply Hp. cbn [c_assert obind]. by rewrite Z.sub_diag.
Qed.

Lemma send_remotes_ok n st :
  0 <= n <= WINDOW_SIZE -> outstanding_rem_reqs st = 0 ->
  send_remotes n n st = Done (mkRem n (remote_tot_tx st + n) (posted st) (in_flight st + n) (answers st) (lost st)).
Proof.
  change WINDOW_SIZE with 512. intros Hn Ho. destruct st as [out tx pos fly ans lo]. simpl in Ho. subst. unfold send_remotes.
  destruct (Z.ltb_spec 0 n); [|replace n with 0 by lia; by rewrite !Z.add_0_r].
  rewrite (proj2 (Z.leb_le n (n * MAX_COALESCE_PER_MACH))) by (change MAX_COALESCE_PER_MACH with 3; lia).
  rewrite (proj2 (Z.leb_le n (WORKERS_PER_MACHINE * WS_PER_WORKER * (MACHINE_NUM - 1))))
    by (change (WORKERS_PER_MACHINE * WS_PER_WORKER * (MACHINE_NUM - 1)) with 6000; lia).
  rewrite (proj2 (Z.leb_le n WINDOW_SIZE)) by (change WINDOW_SIZE with 512; lia). cbn [andb c_assert obind outstanding_rem_reqs].
  rewrite Z.add_0_l, u32_small, (proj2 (Z.leb_le n MAX_OUTSTANDING_REQS)) by (change MAX_OUTSTANDING_REQS with 6000; unfold is_u32; lia).
  done.
Qed.

(** Until all answers are in, [poll_and_send_remotes] waits. *)
Lemma poll_remotes_waits prev st : 0 <= answers st < prev -> poll_remotes prev prev st = Spin.
Proof.
  intros Ha. unfold poll_remotes. change (ENABLE_MULTI_BATCHES =? 0) with true.
  rewrite (proj2 (Z.ltb_lt 0 prev)), (proj2 (Z.ltb_lt (answers st) prev)) by lia. done.
Qed.

(** Every assertion holds and every post fits its queue. *)
Lemma remote_step_inv s o : remotes_inv s -> remote_step s o -> exists s', o = Done s' /\ remotes_inv s'.
Proof.
  intros [H1 H2 H3 H4 H5] Hs. destruct Hs as [o Ha E|n o Ha Hn E Hspin|Hfly]; try rewrite Ha in H5.
  - subst o. unfold refill_recvs, post_receives. destruct (Z.ltb_spec 0 (rl_prev s)) as [Hp|Hp].
    + change WINDOW_SIZE with 512 in *. change CLIENT_RECV_REM_Q_DEPTH with 1029.
      rewrite !(proj2 (Z.leb_le _ _)) by lia. cbn [c_assert obind]. eexists. split; [reflexivity|].
      split; simpl; change WINDOW_SIZE with 512; lia.
    + cbn [obind]. eexists. split; [reflexivity|]. split; simpl; lia.
  - unfold poll_and_send_remotes in E. assert (Hall : answers (rl_st s) = rl_prev s).
    { destruct (Z.lt_ge_cases (answers (rl_st s)) (rl_prev s)) as [Hlt|]; [|lia].
      rewrite poll_remotes_waits in E by lia. by subst o. }
    rewrite poll_remotes_ok in E by done. cbn [obind] in E. rewrite send_remotes_ok in E by done. subst o.
    cbn [obind]. eexists. split; [reflexivity|]. split; simpl; lia.
  - eexists. split; [reflexivity|]. unfold arrive.
    assert (0 < posted (rl_st s)) by (rewrite H5; destruct (rl_at s); lia).
    rewrite (proj2 (Z.ltb_lt _ _)) by done. split; simpl; lia.
Qed.

Lemma remote_reaches_inv s : remote_reaches s -> remotes_inv s.
Proof.
  induction 1 as [|s s' _ IH Hs]; [apply remote_start_inv|]. by destruct (remote_step_inv s _ IH Hs) as (s1 & [= ->] & H1).
Qed.

(** Deliveries alone end the wait. *)
Lemma answers_arrive k s : remotes_inv s -> in_flight (rl_st s) = Z.of_nat k ->
  exists s', rtc (fun a b => remote_step a (Done b)) s s' /\ rl_at s' = rl_at s /\ rl_prev s' = rl_prev s /\
    in_flight (rl_st s') = 0 /\ remotes_inv s'.
Proof.
  revert s. induction k as [|k IH]; intros s Hs Hk; [by exists s|].
  assert (Hstep : remote_step s (Done (mkRl (rl_at s) (rl_prev s) (arrive (rl_st s))))) by (constructor; lia).
  destruct (remote_step_inv s _ Hs Hstep) as (s1 & [= <-] & H1).
  destruct (IH _ H1) as (s2 & Hr & E1 & E2 & E3 & H2).
  { unfold arrive. simpl. destruct (0 <? _); simpl; lia. }
  exists s2. split_and!; [by eapply rtc_l|done|done|done|done].
Qed.


(** A hundred requests are sent, one answer arrived, receives were posted again. *)
Definition demo_remotes : remote_loop := mkRl Sending 100 (mkRem 100 100 611 99 1 0).

Lemma demo_remotes_reach : remote_reaches demo_remotes.
Proof.
  assert (R1 : remote_reaches (mkRl Sending 0 (mkRem 0 0 512 0 0 0))).
  { eapply remote_next; [apply remote_init|]. by apply (remote_refill remote_start (Done (mkRem 0 0 512 0 0 0))). }
  assert (R2 : remote_reaches (mkRl Top 100 (mkRem 100 100 512 100 0 0))).
  { eapply remote_next; [exact R1|]. by apply (remote_send (mkRl Sending 0 (mkRem 0 0 512 0 0 0)) 100 (Done (mkRem 100 100 512 100 0 0))). }
  assert (R3 : remote_reaches (mkRl Top 100 (mkRem 100 100 511 99 1 0))).
  { eapply remote_next; [exact R2|]. by apply (remote_arrive (mkRl Top 100 (mkRem 100 100 512 100 0 0))). }
  eapply remote_next; [exact R3|]. by apply (remote_refill (mkRl Top 100 (mkRem 100 100 511 99 1 0)) (Done (mkRem 100 100 611 99 1 0))).
Qed.


(** ** The buffer space of a worker ([setup_the_buffer_space])

    [clts] is the array [clts_per_qp] the caller passes in, which the function
    increments; [qps] stands for [WORKER_NUM_UD_QPS]. *)
Section buffer_space.
Context (machine_id qps : Z).

Definition count_clients (clts : Z -> Z) : Z -> Z :=
  foldl (fun f x => fupd f ((x.2 + x.1) mod qps) (u16 (f ((x.2 + x.1) mod qps) + 1))) clts
    (m ← filter (fun i => i <> machine_id) (seqZ 0 MACHINE_NUM); (fun c => (m, c)) <$> seqZ 0 CLIENTS_PER_MACHINE).

(** [per_qp_buf_slots] and [qp_buf_base]. *)
Definition buf_slots (clts : Z -> Z) (i : Z) : Z := u32 (clts i * WS_PER_WORKER).

Fixpoint buf_base (clts : Z -> Z) (i : nat) : Z :=
  match i with O => 0 | S i => u32 (buf_base clts i + buf_slots clts (Z.of_nat i)) end.

Definition setup_the_buffer_space (clts : Z -> Z) : (Z -> Z) * (Z -> Z) * (nat -> Z) :=
  let clts := count_clients clts in (clts, buf_slots clts, buf_base clts).
End buffer_space.

(** With the configured queue pair and a zeroed array the worker has a slot for
    every request the clients of the other machines may have outstanding; the
    array [run_worker] passes is not initialised. *)
Lemma buffer_space_configured m : 0 <= m < MACHINE_NUM ->
  let '(clts, slots, base) := setup_the_buffer_space m WORKER_NUM_UD_QPS (fun _ => 0) in
  clts 0 = (MACHINE_NUM - 1) * CLIENTS_PER_MACHINE /\
  slots 0 = WS_PER_WORKER * CLIENTS_PER_MACHINE * (MACHINE_NUM - 1) /\ base 0%nat = 0.
Proof.
  unfold MACHINE_NUM. intros Hm. assert (m = 0 \/ m = 1 \/ m = 2 \/ m = 3) as [-> |[-> |[-> | ->]]] by lia;
    vm_compute; done.
Qed.
