(* ===== verification/LinRound.v ===== *)
(** * A round of the LIN client with its cache (src/ccKVS/client-lin.c)

    The coherence part of the loop of [run_client]: what was received goes to
    the cache, the requests of the batch are probed, and the messages that the
    answers call for are sent.  [Flow] leaves the cache's answers open; here the
    batch functions of [Cache] are called on the machine's cache, in the order of
    the code.  The round is then a round of [Flow], so that its results on
    credits and buffers apply, and no buffer ever holds a value that does not fit
    its C type. *)
From S2P Require Import Prelude Config Optik Layout City Mica MicaLog Cache CacheSpec Network.
From S2P Require Import Flow FlowSpec FlowRound FlowSystem.

(** ** The round *)

(** What a client thread keeps between two rounds: the buffers and credits of
    [Flow], the arrays of responses of the cache and the requests of the last
    batch with their responses. *)
Record thread := mkThread {
  t_client : client;
  update_resp : nat -> mica_resp;
  inv_resp : nat -> mica_resp;
  t_ops : list cache_op;
  t_resp : list mica_resp
}.

(** The first elements of an array of operations, with the array of responses. *)
Definition with_resp (resp : nat -> mica_resp) (l : list cache_op) : list (cache_op * mica_resp) :=
  imap (fun i op => (op, resp i)) l.

Definition resp_put (l : list mica_resp) (resp : nat -> mica_resp) : nat -> mica_resp :=
  fun i => default (resp i) (l !! i).

(** Requests whose invalidation is to be sent, or acknowledgements. *)
Definition is_brc (op : cache_op) : Prop := opcode op = CACHE_OP_BRC.
#[export] Instance is_brc_dec op : Decision (is_brc op).
Proof. unfold is_brc. apply _. Defined.

Section round.
Context (machine_id : Z).

(** [batch] is the batch of [batch_from_trace_to_cache] after it was filled, [kv]
    the cache; [arr1] and [arr2] are the arrivals of credits as in [Flow]. *)
Definition lin_round (batch : list (cache_op * mica_resp)) (arr1 arr2 : list nat) (kv : mica_kv)
    (t : thread) : outcome (mica_kv * thread * sends) :=
  let c := t_client t in
  let* p := poll_coherence_LIN (c_inbox c) (c_update_ops c) (c_inv_ops c)
              (ack_size (c_acks c)) (inv_size (c_invs c)) in
  let* _ := c_assert (update_ops_i p <=? BCAST_TO_CACHE_BATCH) in
  let* (kv, ups) := cache_batch_op_lin_non_stalling_sessions_with_cache_op machine_id kv
                      (with_resp (update_resp t) (array_take (update_ops_i p) (po_update_ops p))) in
  let* (count, q) := updates_and_acks_bookkeeping ups (fun _ _ => 0, c_acks c) in
  let* (kv, ops) := cache_batch_op_lin_non_stalling_sessions machine_id kv batch in
  let* (kv, invs) := cache_batch_op_lin_non_stalling_sessions_with_small_cache_op machine_id kv
                       (with_resp (inv_resp t) (array_take (inv_ops_i p) (po_inv_ops p))) in
  let* (count, b) := invs_bookkeeping invs (count, c_invs c) in
  let* bc := perform_broadcasts_LIN machine_id ops.*1 q count (c_ledger c) arr1 (c_br_tx c) in
  let* ak :=
    if 0 <? inv_size b then send_acks machine_id b (bc_count bc) (bc_ledger bc) arr2 (c_ack_tx c)
    else Done (mkAcks b (bc_count bc) (bc_ledger bc) arr2 (c_ack_tx c) 0 []) in
  let* (fc, cq) := forge_credits_LIN machine_id (as_count ak) (c_seen c) (c_coh_recv_cq c) in
  let ib := send_credits (length (credit_wr fc)) (po_inbox p) in
  let c := mkClient ib cq (array_put ups.*1 (po_update_ops p)) (array_put invs.*1 (po_inv_ops p))
             (bc_ack bc) (as_buffer ak) (as_ledger ak) (seen fc) (br_tx bc) (sent_ack_tx ak) in
  Done (kv, mkThread c (resp_put ups.*2 (update_resp t)) (resp_put invs.*2 (inv_resp t))
              (bc_ops bc) ops.*2,
        mkSends (mjoin ((fun op => (fun d => mkMsg d op) <$> others machine_id) <$> bc_sent bc)
                 ++ as_sent ak) (credit_wr fc)).

(** ** The steps of a round *)
Record round_run (batch : list (cache_op * mica_resp)) (arr1 arr2 : list nat) (kv : mica_kv) (t : thread)
    (p : polled) (ups ops invs : list (cache_op * mica_resp)) (kv1 kv2 kv3 : mica_kv)
    (count1 count2 : count_array) (q : ack_queue) (b : inv_buffer) (bc : bcast_state) (ak : acks_state)
    (fc : fc_state) (cq : Z) : Prop := {
  rr_poll : poll_coherence_LIN (c_inbox (t_client t)) (c_update_ops (t_client t)) (c_inv_ops (t_client t))
              (ack_size (c_acks (t_client t))) (inv_size (c_invs (t_client t))) = Done p;
  rr_room : update_ops_i p <= BCAST_TO_CACHE_BATCH;
  rr_ups : cache_batch_op_lin_non_stalling_sessions_with_cache_op machine_id kv
             (with_resp (update_resp t) (array_take (update_ops_i p) (po_update_ops p))) = Done (kv1, ups);
  rr_acks : updates_and_acks_bookkeeping ups (fun _ _ => 0, c_acks (t_client t)) = Done (count1, q);
  rr_ops : cache_batch_op_lin_non_stalling_sessions machine_id kv1 batch = Done (kv2, ops);
  rr_invs : cache_batch_op_lin_non_stalling_sessions_with_small_cache_op machine_id kv2
              (with_resp (inv_resp t) (array_take (inv_ops_i p) (po_inv_ops p))) = Done (kv3, invs);
  rr_buffer : invs_bookkeeping invs (count1, c_invs (t_client t)) = Done (count2, b);
  rr_bcast : perform_broadcasts_LIN machine_id ops.*1 q count2 (c_ledger (t_client t)) arr1
               (c_br_tx (t_client t)) = Done bc;
  rr_send : (if 0 <? inv_size b
             then send_acks machine_id b (bc_count bc) (bc_ledger bc) arr2 (c_ack_tx (t_client t))
             else Done (mkAcks b (bc_count bc) (bc_ledger bc) arr2 (c_ack_tx (t_client t)) 0 [])) = Done ak;
  rr_credits : forge_credits_LIN machine_id (as_count ak) (c_seen (t_client t)) (c_coh_recv_cq (t_client t))
               = Done (fc, cq)
}.

Definition round_result (t : thread) (p : polled) (ups ops invs : list (cache_op * mica_resp))
    (bc : bcast_state) (ak : acks_state) (fc : fc_state) (cq : Z) : thread * sends :=
  (mkThread
     (mkClient (send_credits (length (credit_wr fc)) (po_inbox p)) cq (array_put ups.*1 (po_update_ops p))
        (array_put invs.*1 (po_inv_ops p)) (bc_ack bc) (as_buffer ak) (as_ledger ak) (seen fc) (br_tx bc)
        (sent_ack_tx ak))
     (resp_put ups.*2 (update_resp t)) (resp_put invs.*2 (inv_resp t)) (bc_ops bc) ops.*2,
   mkSends (round_msgs machine_id (bc_sent bc) (as_sent ak)) (credit_wr fc)).

Lemma lin_round_inv batch arr1 arr2 kv t kv' t' out :
  lin_round batch arr1 arr2 kv t = Done (kv', t', out) ->
  exists p ups ops invs kv1 kv2 count1 count2 q b bc ak fc cq,
    round_run batch arr1 arr2 kv t p ups ops invs kv1 kv2 kv' count1 count2 q b bc ak fc cq /\
    (t', out) = round_result t p ups ops invs bc ak fc cq.
Proof.
  unfold lin_round. intros H.
  apply obind_Done_inv in H as (p & E1 & H). apply obind_Done_inv in H as ([] & E2 & H).
  apply obind_Done_inv in H as ([kv1 ups] & E3 & H). apply obind_Done_inv in H as ([count1 q] & E4 & H).
  apply obind_Done_inv in H as ([kv2 ops] & E5 & H). apply obind_Done_inv in H as ([kv3 invs] & E6 & H).
  apply obind_Done_inv in H as ([count2 b] & E7 & H). apply obind_Done_inv in H as (bc & E8 & H).
  apply obind_Done_inv in H as (ak & E9 & H). apply obind_Done_inv in H as ([fc cq] & E10 & H).
  injection H as <- <- <-. exists p, ups, ops, invs, kv1, kv2, count1, count2, q, b, bc, ak, fc, cq.
  split; [|done]. split; try done. unfold c_assert in E2. destruct (Z.leb_spec (update_ops_i p) BCAST_TO_CACHE_BATCH); done.
Qed.

Lemma round_run_Done batch arr1 arr2 kv t p ups ops invs kv1 kv2 kv3 count1 count2 q b bc ak fc cq :
  round_run batch arr1 arr2 kv t p ups ops invs kv1 kv2 kv3 count1 count2 q b bc ak fc cq ->
  lin_round batch arr1 arr2 kv t
  = Done (kv3, (round_result t p ups ops invs bc ak fc cq).1, (round_result t p ups ops invs bc ak fc cq).2).
Proof.
  intros [E1 E2 E3 E4 E5 E6 E7 E8 E9 E10]. unfold lin_round. rewrite E1. cbn [obind].
  rewrite (proj2 (Z.leb_le _ _) E2). cbn [c_assert obind]. rewrite E3. cbn [obind]. rewrite E4. cbn [obind].
  rewrite E5. cbn [obind]. rewrite E6. cbn [obind]. rewrite E7. cbn [obind]. rewrite E8. cbn [obind].
  rewrite E9. cbn [obind]. by rewrite E10.
Qed.

(** A round of [Flow] with the answers of the cache completes the round. *)
Lemma flow_lin_round batch arr1 arr2 kv t p ups ops invs kv1 kv2 kv3 c' ops' out :
  poll_coherence_LIN (c_inbox (t_client t)) (c_update_ops (t_client t)) (c_inv_ops (t_client t))
    (ack_size (c_acks (t_client t))) (inv_size (c_invs (t_client t))) = Done p ->
  cache_batch_op_lin_non_stalling_sessions_with_cache_op machine_id kv
    (with_resp (update_resp t) (array_take (update_ops_i p) (po_update_ops p))) = Done (kv1, ups) ->
  cache_batch_op_lin_non_stalling_sessions machine_id kv1 batch = Done (kv2, ops) ->
  cache_batch_op_lin_non_stalling_sessions_with_small_cache_op machine_id kv2
    (with_resp (inv_resp t) (array_take (inv_ops_i p) (po_inv_ops p))) = Done (kv3, invs) ->
  flow_round machine_id
    (cache_answers (cache_batch_op_lin_non_stalling_sessions_with_cache_op machine_id) kv (update_resp t))
    (cache_answers (cache_batch_op_lin_non_stalling_sessions_with_small_cache_op machine_id) kv2 (inv_resp t))
    ops.*1 arr1 arr2 (t_client t) = Done (c', ops', out) ->
  lin_round batch arr1 arr2 kv t
  = Done (kv3, mkThread c' (resp_put ups.*2 (update_resp t)) (resp_put invs.*2 (inv_resp t)) ops' ops.*2, out).
Proof.
  intros E1 E2 E3 E4 H. unfold lin_round. unfold flow_round, cache_answers in H. rewrite E1 in H |- *. cbn [obind] in H |- *.
  destruct (c_assert _); [|done|done]. cbn [obind] in H |- *. rewrite E2. unfold with_resp in E2, E4. rewrite E2 in H.
  cbn [obind]. destruct (updates_and_acks_bookkeeping _ _) as [[count q]| |]; [|done|done]. cbn [obind] in H |- *.
  rewrite E3. cbn [obind]. unfold with_resp. rewrite E4 in H |- *. cbn [obind].
  destruct (invs_bookkeeping _ _) as [[count2 b]| |]; [|done|done]. cbn [obind] in H |- *.
  destruct (perform_broadcasts_LIN _ _ _ _ _ _ _) as [bc| |]; [|done|done]. cbn [obind] in H |- *.
  destruct (if 0 <? inv_size b then _ else _) as [ak| |]; [|done|done]. cbn [obind] in H |- *.
  destruct (forge_credits_LIN _ _ _ _) as [[fc cq]| |]; [|done|done]. cbn [obind] in H |- *.
  injection H as <- <- <-. done.
Qed.

(** It is a round of [Flow] with the answers of the cache. *)
Lemma round_run_flow batch arr1 arr2 kv t p ups ops invs kv1 kv2 kv3 count1 count2 q b bc ak fc cq :
  round_run batch arr1 arr2 kv t p ups ops invs kv1 kv2 kv3 count1 count2 q b bc ak fc cq ->
  flow_round machine_id
    (cache_answers (cache_batch_op_lin_non_stalling_sessions_with_cache_op machine_id) kv (update_resp t))
    (cache_answers (cache_batch_op_lin_non_stalling_sessions_with_small_cache_op machine_id) kv2 (inv_resp t))
    ops.*1 arr1 arr2 (t_client t)
  = Done (t_client (round_result t p ups ops invs bc ak fc cq).1, bc_ops bc,
          (round_result t p ups ops invs bc ak fc cq).2).
Proof.
  intros [E1 E2 E3 E4 E5 E6 E7 E8 E9 E10]. unfold flow_round. rewrite E1. cbn [obind].
  rewrite (proj2 (Z.leb_le _ _) E2). cbn [c_assert obind]. unfold cache_answers. fold (with_resp (update_resp t)).
  fold (with_resp (inv_resp t)). unfold with_resp in E3, E6. rewrite E3. cbn [obind]. rewrite E4. cbn [obind].
  rewrite E6. rewrite E7. cbn [obind]. rewrite E8. cbn [obind]. rewrite E9. cbn [obind]. by rewrite E10.
Qed.
End round.

Lemma Forall_fst {A B} (P : A -> Prop) (l : list (A * B)) : Forall P l.*1 <-> Forall (fun x => P x.1) l.
Proof. apply Forall_fmap. Qed.
Lemma Forall_snd {A B} (P : B -> Prop) (l : list (A * B)) : Forall P l.*2 <-> Forall (fun x => P x.2) l.
Proof. apply Forall_fmap. Qed.

(** ** Typed memory *)
Record typed (c : client) : Prop := {
  ty_incoming : forall i, op_fits (incoming_reqs (c_inbox c) i);
  ty_updates : forall i, op_fits (c_update_ops c i);
  ty_invs : forall i, op_fits (c_inv_ops c i);
  ty_acks : forall i, op_fits (ack_bcast_ops (c_acks c) i);
  ty_buffer : Forall op_fits (inv_to_send_ops (c_invs c))
}.

Lemma fupd_fits f p op : (forall i : Z, op_fits (f i)) -> op_fits op -> forall i, op_fits (fupd f p op i).
Proof. intros H Hop i. unfold fupd. zcase; auto. Qed.

Lemma recv_msg_fits slot op : op_fits slot -> op_fits op -> op_fits (recv_msg slot op).
Proof. intros. unfold recv_msg. destruct (_ =? _); [by apply recv_put_req_fits|by apply recv_get_req_fits]. Qed.

Lemma set_opcode_fits n op : is_u8 n -> op_fits op -> op_fits (set_opcode n op).
Proof. intros ? []. by split. Qed.

Lemma set_cid_fits n op : op_fits op -> op_fits (set_meta (set_cid (u8 n) (meta op)) op).
Proof. intros [[] ? ? ? ? ? ? ?]. split; try done. split; try done. apply u8_range. Qed.

Lemma set_len_fits n op : is_u8 n -> op_fits op -> op_fits (set_val_len n op).
Proof. intros ? []. by split. Qed.

Lemma array_put_fits l a : Forall op_fits l -> (forall i, op_fits (a i)) -> forall i, op_fits (array_put l a i).
Proof.
  intros Hl Ha i. unfold array_put. destruct (0 <=? i); [|done]. destruct (l !! Z.to_nat i) as [op|] eqn:E; [|exact (Ha i)].
  exact (Forall_lookup_1 _ _ _ _ Hl E).
Qed.

Create HintDb fits.
#[export] Hint Resolve fupd_fits recv_put_req_fits recv_get_req_fits recv_msg_fits set_opcode_fits set_cid_fits set_len_fits : fits.
#[export] Hint Extern 1 (is_u8 _) => unfold is_u8; done : fits.

(** *** Polling *)
Record poll_typed (p : polled) : Prop := {
  pt_incoming : forall i, op_fits (incoming_reqs (po_inbox p) i);
  pt_updates : forall i, op_fits (po_update_ops p i);
  pt_invs : forall i, op_fits (po_inv_ops p i)
}.

Lemma poll_one_typed acks invs p p' :
  poll_one acks invs p = Done (Some p') -> poll_typed p -> poll_typed p'.
Proof.
  intros H [H1 H2 H3]. unfold poll_one in H. destruct (negb _) in H; [by apply obind_Done_inv in H as (? & _ & ?)|].
  destruct (negb _) in H; (destruct (_ + _ =? _) in H; [done|]); apply obind_Done_inv in H as (? & _ & H);
    apply obind_Done_inv in H as (? & _ & H); injection H as <-;
    split; cbn [po_inbox po_update_ops po_inv_ops incoming_reqs clear_slot]; auto with fits.
  apply fupd_fits; [done|]. destruct (_ =? _); auto with fits.
Qed.

Lemma poll_loop_typed n acks invs : forall p p',
  poll_loop n acks invs p = Done p' -> poll_typed p -> poll_typed p'.
Proof.
  induction n as [|n IH]; intros p p' H Hp; simpl in H; [by injection H as <-|].
  apply obind_Done_inv in H as ([p1|] & E & H); [|by injection H as <-].
  apply (IH p1); [done|]. by apply (poll_one_typed acks invs p).
Qed.

(** *** Bookkeeping *)
Lemma updates_bookkeeping_typed l : forall count q count' q',
  updates_and_acks_bookkeeping l (count, q) = Done (count', q') -> Forall op_fits l.*1 ->
  (forall i, op_fits (ack_bcast_ops q i)) -> forall i, op_fits (ack_bcast_ops q' i).
Proof.
  induction l as [|[op r] l IH]; intros count q count' q' H Hl Hq; simpl in H; [by injection H as <- <-|].
  rewrite fmap_cons in Hl. apply Forall_cons in Hl as [Hop Hl].
  apply obind_Done_inv in H as ([c1 q1] & E & H). apply (IH c1 q1 count' q'); [done|done|].
  destruct (opcode op =? CACHE_OP_UPD); [by injection E as <- <-|].
  destruct (resp_type r =? CACHE_LAST_ACK_SUCCESS); [|by injection E as <- <-].
  apply obind_Done_inv in E as (? & _ & E). injection E as <- <-. cbn [ack_bcast_ops].
  apply fupd_fits; [done|]. by apply set_len_fits.
Qed.

Lemma nth_fits n l op : Forall op_fits l -> op_fits op -> op_fits (nth n l op).
Proof. intros Hl Hop. destruct (nth_in_or_default n l op) as [H| ->]; [|done]. by apply (proj1 (List.Forall_forall _ _) Hl). Qed.

Lemma invs_bookkeeping_typed l : forall count b count' b',
  invs_bookkeeping l (count, b) = Done (count', b') -> Forall op_fits l.*1 ->
  Forall op_fits (inv_to_send_ops b) -> Forall op_fits (inv_to_send_ops b').
Proof.
  induction l as [|[op r] l IH]; intros count b count' b' H Hl Hb; [by injection H as <- <-|].
  cbn [invs_bookkeeping] in H. rewrite fmap_cons in Hl. apply Forall_cons in Hl as [Hop Hl].
  apply obind_Done_inv in H as ([c1 b1] & E & H). apply (IH c1 b1 count' b'); [done|done|].
  unfold bookkeep_inv in E. set (k := find_inv_slot _ _ _ _) in E. clearbody k.
  destruct (negb _) in E; [by injection E as <- <-|].
  apply obind_Done_inv in E as (? & _ & E). apply obind_Done_inv in E as (? & _ & E). injection E as <- <-.
  cbn [inv_to_send_ops]. apply Forall_insert; [done|]. apply set_opcode_fits; [done|].
  apply recv_get_req_fits; [by apply nth_fits|done].
Qed.

(** *** Sending *)
Record bcast_typed (st : bcast_state) : Prop := {
  bt_acks : forall i, op_fits (ack_bcast_ops (bc_ack st) i);
  bt_ops : Forall op_fits (bc_ops st);
  bt_sent : Forall op_fits (bc_sent st)
}.

Lemma post_credit_recvs_same st st' : post_credit_recvs st = Done st' ->
  bc_ops st' = bc_ops st /\ bc_ack st' = bc_ack st /\ bc_sent st' = bc_sent st /\ updates_sent st' = updates_sent st.
Proof.
  unfold post_credit_recvs. destruct (0 <? _); [|by intros [= <-]]. intros H.
  apply obind_Done_inv in H as (? & _ & H). by injection H as <-.
Qed.

Lemma finish_bcast_same vc st st' : finish_bcast vc st = Done st' ->
  bc_ops st' = bc_ops st /\ bc_ack st' = bc_ack st /\ bc_sent st' = bc_sent st /\ updates_sent st' = updates_sent st.
Proof.
  unfold finish_bcast. destruct (_ =? _); [|by intros [= <-]]. intros H.
  apply obind_Done_inv in H as (st1 & E & H). injection H as <-. by apply post_credit_recvs_same in E.
Qed.

Lemma forge_bcast_typed m op_i st : bcast_typed st -> bcast_typed (forge_bcast_wrs_LIN m op_i st).
Proof.
  intros [H1 H2 H3]. unfold forge_bcast_wrs_LIN. destruct (op_i <? CACHE_BATCH_SIZE).
  - set (op := set_meta _ _).
    assert (Hop : op_fits op) by (apply set_cid_fits, set_opcode_fits; [done|]; by apply nth_fits).
    split; cbn [bc_ack bc_ops bc_sent]; [done|by apply Forall_insert|].
    apply Forall_app. split; [done|]. by constructor.
  - assert (Hop := set_cid_fits m _ (H1 (ack_pop_ptr (bc_ack st)))).
    split; cbn [bc_ack bc_ops bc_sent ack_bcast_ops]; [by apply fupd_fits|done|].
    apply Forall_app. split; [done|]. by constructor.
Qed.

Lemma bcast_typed_same st st' : bc_ops st' = bc_ops st -> bc_ack st' = bc_ack st -> bc_sent st' = bc_sent st ->
  bcast_typed st -> bcast_typed st'.
Proof. intros E1 E2 E3 [H1 H2 H3]. by split; rewrite ?E1, ?E2, ?E3. Qed.

Lemma mark_update_typed q : (forall i, op_fits (ack_bcast_ops q i)) -> forall i, op_fits (ack_bcast_ops (mark_update q) i).
Proof. intros H. apply fupd_fits; [done|]. by apply set_opcode_fits. Qed.

Lemma bcast_loop_typed m fuel : forall op_i st st',
  bcast_loop m fuel op_i st = Done st' -> bcast_typed st -> bcast_typed st'.
Proof.
  induction fuel as [|fuel IH]; intros op_i st st' H Hst; [done|]. cbn [bcast_loop] in H.
  destruct (_ <? _) in H; [|by injection H as <-].
  destruct (_ && _) in H; [by eapply IH|].
  set (st1 := if op_i <? CACHE_BATCH_SIZE then st else _) in H.
  assert (H1 : bcast_typed st1).
  { unfold st1. destruct (op_i <? _); [done|]. destruct Hst as [A1 A2 A3]. split; try done. by apply mark_update_typed. }
  clearbody st1. destruct (check_broadcast_credits m _ _ _) as [[ok arr] lg].
  assert (H2 : bcast_typed (set_bc_ledger arr lg st1)) by (by apply (bcast_typed_same st1)).
  destruct ok; [|destruct (op_i <? CACHE_BATCH_SIZE); [by eapply IH|by injection H as <-]].
  apply obind_Done_inv in H as (st2 & E & H). apply finish_bcast_same in E as (E1 & E2 & E3 & _).
  eapply IH; [exact H|]. by apply (bcast_typed_same _ _ E1 E2 E3), forge_bcast_typed.
Qed.

Lemma perform_broadcasts_typed m ops q count lg arr tx st :
  perform_broadcasts_LIN m ops q count lg arr tx = Done st ->
  Forall op_fits ops -> (forall i, op_fits (ack_bcast_ops q i)) -> bcast_typed st.
Proof.
  intros H Ho Hq. unfold perform_broadcasts_LIN in H. apply obind_Done_inv in H as (st1 & E & H).
  apply bcast_loop_typed in E; [|by split]. apply obind_Done_inv in H as (st2 & E2 & H).
  apply post_credit_recvs_same in E2 as (E3 & E4 & E5 & _).
  pose proof (bcast_typed_same _ _ E3 E4 E5 E) as [A1 A2 A3]. injection H as <-. by split.
Qed.

Record acks_typed (st : acks_state) : Prop := {
  at_buffer : Forall op_fits (inv_to_send_ops (as_buffer st));
  at_sent : Forall (fun x => op_fits (m_op x)) (as_sent st)
}.

Lemma send_ack_typed m i st : acks_typed st -> acks_typed (send_ack m i st).
Proof.
  intros [H1 H2]. unfold send_ack. destruct (inv_to_send_ops (as_buffer st) !! i) as [op|] eqn:E; [|done].
  destruct (negb _); [done|]. destruct (if credits _ _ _ =? 0 then _ else _) as [arr lg].
  destruct (_ =? 0); [by split|]. set (op' := set_meta _ _).
  assert (Hop : op_fits op') by (apply set_cid_fits, set_opcode_fits; [done|]; exact (Forall_lookup_1 _ _ _ _ H1 E)).
  split; cbn [as_buffer inv_to_send_ops as_sent]; [by apply Forall_insert|].
  apply Forall_app. split; [done|]. by constructor.
Qed.

Lemma send_acks_loop_typed m l : forall st,
  acks_typed st -> acks_typed (foldl (fun st i => send_ack m i st) st l).
Proof. induction l as [|i l IH]; intros st Hst; [done|]. cbn [foldl]. by apply IH, send_ack_typed. Qed.

Lemma send_acks_typed m b count lg arr tx :
  Forall op_fits (inv_to_send_ops b) ->
  match send_acks m b count lg arr tx with Done st => acks_typed st | _ => True end.
Proof.
  intros Hb. unfold send_acks. generalize (seq 0 (Z.to_nat BCAST_TO_CACHE_BATCH)) as slots. intros slots.
  assert (H0 : acks_typed (mkAcks b count lg arr tx 0 [])) by (by split).
  apply (send_acks_loop_typed m slots) in H0. destruct H0 as [A1 A2].
  destruct (c_assert _); [|done|done]. cbn [obind]. destruct (c_assert _); by cbn [obind].
Qed.

Lemma maybe_send_acks_typed m b count lg arr tx st :
  (if 0 <? inv_size b then send_acks m b count lg arr tx else Done (mkAcks b count lg arr tx 0 [])) = Done st ->
  Forall op_fits (inv_to_send_ops b) -> acks_typed st.
Proof.
  intros H Hb. destruct (0 <? inv_size b); [|injection H as <-; by split].
  pose proof (send_acks_typed m b count lg arr tx Hb) as Ht. by rewrite H in Ht.
Qed.

(** *** The whole round, for answers of the cache that fit *)
Lemma round_run_typed m batch arr1 arr2 kv t p ups ops invs kv1 kv2 kv3 count1 count2 q b bc ak fc cq :
  round_run m batch arr1 arr2 kv t p ups ops invs kv1 kv2 kv3 count1 count2 q b bc ak fc cq ->
  typed (t_client t) -> Forall op_fits ups.*1 -> Forall op_fits ops.*1 -> Forall op_fits invs.*1 ->
  poll_typed p /\ bcast_typed bc /\ acks_typed ak /\ typed (t_client (round_result m t p ups ops invs bc ak fc cq).1).
Proof.
  intros [E1 _ _ E4 _ _ E7 E8 E9 _] [H1 H2 H3 H4 H5] Hu Ho Hi.
  assert (Hp : poll_typed p) by (eapply poll_loop_typed; [exact E1|by split]).
  pose proof (updates_bookkeeping_typed _ _ _ _ _ E4 Hu H4) as Hq.
  pose proof (invs_bookkeeping_typed _ _ _ _ _ E7 Hi H5) as Hb.
  pose proof (perform_broadcasts_typed _ _ _ _ _ _ _ _ E8 Ho Hq) as Hbc.
  pose proof (maybe_send_acks_typed _ _ _ _ _ _ _ E9 Hb) as Hak. destruct Hp as [P1 P2 P3].
  split_and!; [done|done|done|]. destruct Hbc, Hak.
  split; cbn [round_result fst t_client c_inbox c_update_ops c_inv_ops c_acks c_invs]; try done; by apply array_put_fits.
Qed.
