(* ===== verification/LinContent.v ===== *)
(** * Where the messages of a LIN client are

    A coherence message of the protocol is at every moment in exactly one place:
    on the wire, in the receive ring, or still to be forged from a request of the
    batch, from a waiting invalidation or from the queue of completed writes.
    The lemmas of this file follow the contents of the messages through the
    functions of a round; the equivalence [≡ₘ] forgets the order of messages and
    the bytes of a buffer slot that no receiver reads. *)
From S2P Require Import Prelude Config Optik Layout City Mica MicaLog Cache CacheSpec Network.
From S2P Require Import Flow FlowSpec FlowRound FlowSystem LinRound.

(** ** What a message carries *)
Record content := mkContent {
  ct_meta : cache_meta;
  ct_bkt : Z;
  ct_server : Z;
  ct_tag : Z;
  ct_opcode : Z;
  ct_body : option (Z * list Z)
}.

Definition op_content (op : cache_op) : content :=
  mkContent (meta op) (bkt op) (server op) (tag op) (opcode op)
    (if opcode op =? CACHE_OP_UPD then Some (val_len op, take (Z.to_nat HERD_VALUE_SIZE) (value op)) else None).

Definition msg_content (x : msg) : Z * content := (dst x, op_content (m_op x)).

Definition ct_key (c : content) : Z := key_word (mkOp (ct_meta c) (ct_bkt c) (ct_server c) (ct_tag c) 0 0 []).

Lemma ct_key_word op : ct_key (op_content op) = key_word op.
Proof. reflexivity. Qed.

(** The same messages in any order. *)
Definition msgs_equiv (l1 l2 : list msg) : Prop := msg_content <$> l1 ≡ₚ msg_content <$> l2.
Declare Scope lin_scope.
Infix "≡ₘ" := msgs_equiv (at level 70, no associativity) : lin_scope.
#[local] Open Scope lin_scope.

#[export] Instance msgs_equiv_equivalence : Equivalence msgs_equiv.
Proof.
  unfold msgs_equiv. split; [intros l; done|intros l1 l2; by symmetry|].
  intros l1 l2 l3 H1 H2. by rewrite H1.
Qed.

#[export] Instance msgs_equiv_app : Proper (msgs_equiv ==> msgs_equiv ==> msgs_equiv) (@app msg).
Proof. intros l1 l2 H12 l3 l4 H34. unfold msgs_equiv in *. by rewrite !fmap_app, H12, H34. Qed.

#[export] Instance msgs_equiv_Permutation : subrelation (≡ₚ) msgs_equiv.
Proof. intros l1 l2 H. unfold msgs_equiv. by rewrite H. Qed.

Lemma msgs_equiv_Forall2 l1 l2 : Forall2 (fun x y => msg_content x = msg_content y) l1 l2 -> l1 ≡ₘ l2.
Proof.
  intros H. unfold msgs_equiv. assert (E : msg_content <$> l1 = msg_content <$> l2); [|by rewrite E].
  apply list_eq_Forall2, Forall2_fmap. exact H.
Qed.

(** Messages forged from operations, one list for each. *)
Lemma bind_equiv (f : cache_op -> list msg) l1 l2 :
  Forall2 (fun x y => f x ≡ₘ f y) l1 l2 -> l1 ≫= f ≡ₘ l2 ≫= f.
Proof. induction 1 as [|x y l1 l2 Hxy _ IH]; [done|]. rewrite !bind_cons. by rewrite Hxy, IH. Qed.

Lemma recv_content slot op : op_fits op -> op_content (recv_msg slot op) = op_content op.
Proof.
  intros Hf. unfold recv_msg, op_content. destruct (opcode op =? CACHE_OP_UPD) eqn:E; cbn [recv_put_req recv_get_req opcode]; rewrite E; [|done].
  f_equal. f_equal. f_equal. change (Z.to_nat HERD_VALUE_SIZE) with 32%nat. by apply take_recv_put_req.
Qed.

(** A received copy with the content of the message is the copy itself. *)
Lemma recv_same x op : op_fits x -> op_content x = op_content op -> recv_msg x op = x.
Proof.
  intros Hf E. injection E as E1 E2 E3 E4 E5 E6. unfold recv_msg. rewrite E5 in E6. destruct (opcode op =? CACHE_OP_UPD).
  - unfold recv_put_req. rewrite <- E1, <- E2, <- E3, <- E4, <- E5. injection E6 as <- E7. rewrite <- E7, take_drop. by destruct x.
  - unfold recv_get_req. rewrite <- E1, <- E2, <- E3, <- E4, <- E5. by destruct x.
Qed.

(** ** The messages of a client *)

(** Completed writes of the queue, in order, after [sent] were sent. *)
Definition queued (q : ack_queue) (sent : Z) : list cache_op :=
  (fun i => ack_bcast_ops q ((ack_pop_ptr q + i) mod BCAST_TO_CACHE_BATCH)) <$> seqZ 0 (ack_size q - sent).

(** The update that will be sent for an operation of the queue; its length was
    set when it was queued. *)
Definition queued_upd (m : Z) (op : cache_op) : list msg :=
  (fun b => mkMsg b (set_opcode CACHE_OP_UPD (set_meta (set_cid (u8 m) (meta op)) op))) <$> others m.

Definition send_inv (m : Z) (op : cache_op) : list msg := if decide (is_brc op) then bcast_inv m op else [].
Definition wait_ack (m : Z) (op : cache_op) : list msg := if decide (is_brc op) then [forge_ack m op] else [].

Definition batch_msgs (m : Z) (ops : list cache_op) : list msg := ops ≫= send_inv m.
Definition queue_msgs (m : Z) (q : ack_queue) (sent : Z) : list msg := queued q sent ≫= queued_upd m.
Definition buffer_msgs (m : Z) (b : inv_buffer) : list msg := inv_to_send_ops b ≫= wait_ack m.

Definition client_msgs (m : Z) (c : client) (ops : list cache_op) : list msg :=
  (mkMsg m <$> unread (c_inbox c)) ++ batch_msgs m ops ++ queue_msgs m (c_acks c) 0 ++ buffer_msgs m (c_invs c).

Lemma bind_insert_perm {A B} (f : A -> list B) l i x y :
  l !! i = Some y -> (<[i := x]> l ≫= f) ++ f y ≡ₚ f x ++ (l ≫= f).
Proof.
  revert i. induction l as [|z l IH]; intros [|i] H; simplify_eq/=.
  - by rewrite <- app_assoc, (Permutation_app_comm (l ≫= f) (f y)).
  - rewrite <- app_assoc, (IH i H), app_assoc, (Permutation_app_comm (f z)), <- app_assoc. done.
Qed.

Lemma filter_Forall {A} (P Q : A -> Prop) `{!forall x, Decision (Q x)} l : Forall P l -> Forall P (filter Q l).
Proof. intros Hl. apply Forall_forall. intros x [_ Hx]%list_elem_of_filter. by apply (proj1 (Forall_forall _ _) Hl). Qed.

(** ** Polling *)
Lemma polled_content m p ups iv :
  polled_as p ups iv -> Forall op_fits ups -> Forall op_fits iv ->
  (mkMsg m <$> array_take (update_ops_i p) (po_update_ops p))
  ++ (mkMsg m <$> array_take (inv_ops_i p) (po_inv_ops p)) ≡ₘ (mkMsg m <$> ups) ++ (mkMsg m <$> iv).
Proof.
  intros [H1 H2 _ _ _] Hu Hi.
  assert (Hc : forall l l', Forall2 received_as l l' -> Forall op_fits l' -> (mkMsg m <$> l) ≡ₘ (mkMsg m <$> l')).
  { intros l l' H Hf. apply msgs_equiv_Forall2, Forall2_fmap.
    induction H as [|x y l l' [slot ->] _ IH]; [constructor|]. apply Forall_cons in Hf as [Hy Hf].
    constructor; [|by apply IH]. unfold msg_content. cbn [dst m_op]. by rewrite recv_content. }
  by rewrite (Hc _ _ H1 Hu), (Hc _ _ H2 Hi).
Qed.

Lemma split_read m l : (mkMsg m <$> updates_of l) ++ (mkMsg m <$> invs_of l) ≡ₘ mkMsg m <$> l.
Proof.
  apply msgs_equiv_Permutation. rewrite <- fmap_app. f_equiv. unfold updates_of, invs_of.
  induction l as [|op l IH]; [done|]. rewrite !filter_cons.
  destruct (decide (is_inv op)), (decide (~ is_inv op)); try tauto; simpl; [by rewrite <- Permutation_middle, IH|by rewrite IH].
Qed.

(** ** Bookkeeping *)

(** The updates that the answer of the cache to an acknowledgement calls for. *)
Definition update_msgs (m : Z) (x : cache_op * mica_resp) : list msg :=
  if opcode x.1 =? CACHE_OP_UPD then []
  else if resp_type x.2 =? CACHE_LAST_ACK_SUCCESS then bcast_upd m x.1 else [].

Lemma queued_push m q senders n op :
  ackq_ok m q 0 senders -> Z.of_nat (length senders) < BCAST_TO_CACHE_BATCH ->
  queued (mkAckQ (fupd (ack_bcast_ops q) (ack_push_ptr q) (set_val_len n op))
            (HRD_MOD_ADD (ack_push_ptr q) BCAST_TO_CACHE_BATCH) (ack_pop_ptr q) (u16 (ack_size q + 1))) 0
  = queued q 0 ++ [set_val_len n op].
Proof.
  intros [H1 H2 [_ H3] H4 _ _ _] Hl. unfold queued. cbn [ack_bcast_ops ack_pop_ptr ack_size]. rewrite batch_val in *.
  rewrite u16_small by (unfold is_u16; lia). rewrite !Z.sub_0_r, seqZ_app by lia. rewrite fmap_app. f_equal.
  - apply list_fmap_ext. intros k i Hi%lookup_seqZ. rewrite fupd_ne; [done|]. rewrite H4. apply ring_inj; lia.
  - rewrite (seqZ_cons _ 1) by lia. cbn [fmap list_fmap]. rewrite Z.add_0_l, H4, H2, Z.add_0_l, fupd_eq. done.
Qed.

Lemma bookkeeping_queue m l : forall count q senders count' q',
  updates_and_acks_bookkeeping l (count, q) = Done (count', q') -> ackq_ok m q 0 senders ->
  Z.of_nat (length senders) + acks_in l.*1 <= BCAST_TO_CACHE_BATCH -> Forall (fun x => upd_or_ack m x.1) l ->
  queue_msgs m q' 0 = queue_msgs m q 0 ++ (l ≫= update_msgs m).
Proof.
  induction l as [|[op r] l IH]; intros count q senders count' q' H Hq Hl Hm.
  { injection H as <- <-. by rewrite app_nil_r. }
  apply Forall_cons in Hm as [[Hc Hop] Hm]. rewrite fmap_cons in Hl.
  change (acks_in ((op, r).1 :: l.*1)) with (zb (opcode op =? CACHE_OP_ACK) + acks_in l.*1) in Hl.
  assert (0 <= acks_in l.*1) by (apply sum_over_nonneg; intros; apply zb_range).
  pose proof (zb_range (opcode op =? CACHE_OP_ACK)). rewrite bind_cons. unfold update_msgs at 1. cbn [fst snd] in *.
  cbn [updates_and_acks_bookkeeping] in H. apply obind_Done_inv in H as ([c1 q1] & E & H). unfold bookkeep_update in E.
  destruct (opcode op =? CACHE_OP_UPD) eqn:EU.
  { injection E as <- <-. apply (IH _ _ senders) in H; [done|done|lia|done]. }
  destruct (resp_type r =? CACHE_LAST_ACK_SUCCESS).
  2: { injection E as <- <-. apply (IH _ _ senders) in H; [done|done|lia|done]. }
  apply obind_Done_inv in E as (? & _ & E).
  assert (Hop' : opcode op = CACHE_OP_ACK) by (destruct Hop as [Hop|Hop]; [by rewrite Hop in EU|done]).
  rewrite Hop' in Hl. change (zb (CACHE_OP_ACK =? CACHE_OP_ACK)) with 1 in Hl.
  destruct (ackq_push m q senders op (Z.shiftr HERD_VALUE_SIZE SHIFT_BITS) Hq Hc ltac:(lia)) as [_ Hq1].
  injection E as <- <-. apply (IH _ _ (senders ++ [cid (meta op)])) in H;
    [|done|rewrite length_app; simpl; lia|done].
  rewrite H. unfold queue_msgs. rewrite (queued_push m q senders) by (done || lia).
  rewrite bind_app, <- app_assoc. simpl. by rewrite app_nil_r.
Qed.

(** The acknowledgement that the answer to an invalidation calls for. *)
Definition ack_msgs (m : Z) (x : cache_op * mica_resp) : list msg :=
  if resp_type x.2 =? CACHE_INV_SUCCESS then [forge_ack m x.1] else [].

Lemma bookkeeping_buffer m l : forall count b count' b',
  invs_bookkeeping l (count, b) = Done (count', b') -> invb_ok m b ->
  inv_size b + Z.of_nat (length l) <= BCAST_TO_CACHE_BATCH ->
  Forall (fun x => cid (meta x.1) ∈ others m /\ opcode x.1 <> CACHE_OP_BRC) l ->
  buffer_msgs m b' ≡ₘ buffer_msgs m b ++ (l ≫= ack_msgs m).
Proof.
  induction l as [|[op r] l IH]; intros count b count' b' H Hb Hl Hm.
  { injection H as <- <-. by rewrite app_nil_r. }
  apply Forall_cons in Hm as [[Hc Hop] Hm]. cbn [length fst] in *. rewrite Nat2Z.inj_succ in Hl.
  cbn [invs_bookkeeping] in H. apply obind_Done_inv in H as ([c1 b1] & E & H).
  destruct (bookkeep_inv_ok m op r (fun _ _ => 0) b 0 ltac:(intros vc s; lia) ltac:(lia) Hb ltac:(lia) Hc Hop)
    as (c2 & b2 & E2 & _ & Hb2 & Hs2 & _).
  assert (Heq : b1 = b2 /\ buffer_msgs m b1 ≡ₘ ack_msgs m (op, r) ++ buffer_msgs m b).
  { unfold bookkeep_inv in E, E2. unfold ack_msgs. cbn [fst snd].
    destruct (resp_type r =? CACHE_INV_SUCCESS); cbn [negb] in E, E2; [|injection E as <- <-; by injection E2 as <- <-].
    destruct (free_slot m b Hb ltac:(lia)) as (_ & old & Hold & Hfree).
    set (k := find_inv_slot _ _ _ _) in *. clearbody k.
    apply obind_Done_inv in E as (? & _ & E). apply obind_Done_inv in E as (? & _ & E). injection E as <- <-.
    apply obind_Done_inv in E2 as (? & _ & E2). apply obind_Done_inv in E2 as (? & _ & E2). injection E2 as <- <-.
    split; [done|]. unfold buffer_msgs. cbn [inv_to_send_ops].
    match goal with |- context [<[_ := ?s]> _] => pose proof (bind_insert_perm (wait_ack m) _ _ s old Hold) as Hp end.
    unfold wait_ack at 2 in Hp. rewrite decide_False, app_nil_r in Hp by done. rewrite Hp.
    unfold wait_ack at 1. rewrite decide_True by done.
    apply msgs_equiv_app; [|done]. apply msgs_equiv_Forall2. by repeat constructor. }
  destruct Heq as [-> Heq]. apply IH in H; [|done|lia|done]. rewrite H, Heq, bind_cons.
  by rewrite (msgs_equiv_Permutation _ _ (Permutation_app_comm (ack_msgs m (op, r)) (buffer_msgs m b))), <- app_assoc.
Qed.

(** ** Broadcasts *)
Definition bcast_msgs (m : Z) (ops : list cache_op) : list msg := ops ≫= fun op => (fun d => mkMsg d op) <$> others m.

(** What is still to be broadcast and what has been. *)
Definition pending (m : Z) (st : bcast_state) : list msg :=
  batch_msgs m (bc_ops st) ++ queue_msgs m (bc_ack st) (updates_sent st) ++ bcast_msgs m (bc_sent st).

Lemma queued_upd_opcode m n op : queued_upd m (set_opcode n op) = queued_upd m op.
Proof. done. Qed.

Lemma queue_mark m q sent : queue_msgs m (mark_update q) sent = queue_msgs m q sent.
Proof.
  unfold queue_msgs, queued, mark_update. cbn [ack_bcast_ops ack_pop_ptr ack_size].
  generalize (seqZ 0 (ack_size q - sent)) as l. intros l. rewrite !list_fmap_bind. unfold compose.
  induction l as [|i l IH]; [done|]. rewrite !bind_cons, IH. f_equal. unfold fupd. zcase; [|done].
  rewrite queued_upd_opcode. congruence.
Qed.

Lemma queued_pop m q sent c senders op :
  ackq_ok m q sent (c :: senders) ->
  queued q sent = ack_bcast_ops q (ack_pop_ptr q)
    :: queued (mkAckQ (fupd (ack_bcast_ops q) (ack_pop_ptr q) op) (ack_push_ptr q)
                 (HRD_MOD_ADD (ack_pop_ptr q) BCAST_TO_CACHE_BATCH) (ack_size q)) (sent + 1).
Proof.
  intros [H1 H2 [H3 H3'] _ _ _ _]. unfold queued. cbn [ack_bcast_ops ack_pop_ptr ack_size]. rewrite batch_val in *.
  cbn [length] in H2. rewrite seqZ_cons by lia. rewrite fmap_cons. f_equal; [by rewrite Z.add_0_r, Z.mod_small|].
  rewrite HRD_MOD_ADD_mod by lia. replace (Z.pred (ack_size q - sent)) with (ack_size q - (sent + 1)) by lia.
  change (Z.succ 0) with (1 + 0). rewrite <- fmap_add_seqZ, <- list_fmap_compose.
  apply list_fmap_ext. intros k i Hi%lookup_seqZ. unfold compose. rewrite Z.add_mod_idemp_l by done.
  rewrite Z.add_assoc. rewrite fupd_ne; [done|].
  pose proof (ring_inj 500 (ack_pop_ptr q) (1 + i) 0) as Hr. rewrite Z.add_0_r, (Z.mod_small (ack_pop_ptr q)), Z.add_assoc in Hr by lia.
  apply Hr; lia.
Qed.

Lemma bcast_msgs_snoc m l op : bcast_msgs m (l ++ [op]) = bcast_msgs m l ++ ((fun d => mkMsg d op) <$> others m).
Proof. unfold bcast_msgs. rewrite bind_app. simpl. by rewrite app_nil_r. Qed.

Lemma bcast_msgs_join m l : mjoin ((fun op => (fun d => mkMsg d op) <$> others m) <$> l) = bcast_msgs m l.
Proof. induction l as [|op l IH]; [done|]. unfold bcast_msgs in *. rewrite fmap_cons, bind_cons, <- IH. done. Qed.

Lemma pending_same m st st' : bc_ops st' = bc_ops st -> bc_ack st' = bc_ack st -> bc_sent st' = bc_sent st ->
  updates_sent st' = updates_sent st -> pending m st' = pending m st.
Proof. intros E1 E2 E3 E4. unfold pending. by rewrite E1, E2, E3, E4. Qed.

(** An invalidation moves from the batch to the wire. *)
Lemma pending_inv m op_i st op :
  (op_i <? CACHE_BATCH_SIZE) = true -> bc_ops st !! Z.to_nat op_i = Some op -> opcode op = CACHE_OP_BRC ->
  pending m (forge_bcast_wrs_LIN m op_i st) ≡ₘ pending m st.
Proof.
  intros Hi Hl Hop. unfold forge_bcast_wrs_LIN. rewrite Hi. rewrite (nth_lookup_Some _ _ _ _ Hl).
  set (op' := set_meta _ _). unfold pending. cbn [bc_ops bc_ack bc_sent updates_sent].
  rewrite bcast_msgs_snoc. change ((fun d => mkMsg d op') <$> others m) with (bcast_inv m op).
  pose proof (bind_insert_perm (send_inv m) _ _ op' op Hl) as Hp. unfold send_inv at 2 3 in Hp.
  rewrite (decide_False (P := is_brc op')), (decide_True (P := is_brc op)), app_nil_l in Hp by done.
  unfold batch_msgs. apply msgs_equiv_Permutation. rewrite <- Hp. solve_Permutation.
Qed.

(** An update moves from the queue to the wire. *)
Lemma pending_upd m op_i st c senders :
  (op_i <? CACHE_BATCH_SIZE) = false -> ackq_ok m (bc_ack st) (updates_sent st) (c :: senders) ->
  opcode (ack_bcast_ops (bc_ack st) (ack_pop_ptr (bc_ack st))) = CACHE_OP_UPD ->
  pending m (forge_bcast_wrs_LIN m op_i st) ≡ₘ pending m st.
Proof.
  intros Hi Hq Hop. unfold forge_bcast_wrs_LIN. rewrite Hi. set (op := ack_bcast_ops _ _) in *. set (op' := set_meta _ _).
  unfold pending. cbn [bc_ops bc_ack bc_sent updates_sent]. rewrite bcast_msgs_snoc.
  assert (Hu : u16 (updates_sent st + 1) = updates_sent st + 1).
  { destruct Hq as [_ H2 [H3 H3'] _ _ _ _]. cbn [length] in H2. rewrite batch_val in H3'. apply u16_small. unfold is_u16. lia. }
  rewrite Hu. unfold queue_msgs at 2. rewrite (queued_pop m _ _ c senders op' Hq). fold op. rewrite bind_cons.
  assert (E : queued_upd m op = (fun d => mkMsg d op') <$> others m).
  { unfold queued_upd, op'. rewrite <- Hop. by destruct op. }
  rewrite E. apply msgs_equiv_Permutation. unfold queue_msgs. solve_Permutation.
Qed.

Lemma bcast_loop_content m fuel : m ∈ machines -> forall op_i n st senders st',
  bcast_ok m n st senders -> 0 <= op_i -> updates_sent st = Z.max 0 (op_i - CACHE_BATCH_SIZE) ->
  bcast_loop m fuel op_i st = Done st' -> pending m st' ≡ₘ pending m st.
Proof.
  intros Hm. induction fuel as [|fuel IH]; intros op_i n st senders st' Hok Hi Hu H; [done|].
  cbn [bcast_loop] in H.
  destruct (Z.ltb_spec op_i (CACHE_BATCH_SIZE + ack_size (bc_ack st))) as [Hlt|]; [|by injection H as <-].
  destruct (Z.ltb_spec op_i CACHE_BATCH_SIZE) as [Hinv|Hinv]; cbn [andb] in H.
  - destruct (bc_ops st !! Z.to_nat op_i) as [op|] eqn:Hop; cbn [negb] in H;
      [|by apply (IH _ n st senders) in H; [|done|lia|lia]].
    destruct (Z.eqb_spec (opcode op) CACHE_OP_BRC) as [Hb|]; cbn [negb] in H;
      [|by apply (IH _ n st senders) in H; [|done|lia|lia]].
    destruct (check_broadcast_credits m (bc_arrivals st) (bc_ledger st) INV_VC) as [[[] arr] lg] eqn:Hck.
    + destruct (flow_bcast_inv_ok m n op_i st senders arr lg Hm Hinv Hok Hck) as (st1 & op1 & E & Hok1 & _ & Hu1 & _).
      rewrite E in H. cbn [obind] in H. apply (IH _ n st1 senders) in H; [|done|lia|lia]. rewrite H.
      apply finish_bcast_same in E as (E1 & E2 & E3 & E4). rewrite (pending_same m _ st1 E1 E2 E3 E4).
      rewrite (pending_inv m op_i _ op); [done|by apply Z.ltb_lt|done|done].
    + destruct (no_credits_ok m n st senders INV_VC arr lg (bc_ack st) Hok Hck (bo_ack _ _ _ _ Hok)) as [Hok' _].
      apply (IH CACHE_BATCH_SIZE n _ senders) in H; [|exact Hok'|lia|change (updates_sent st = 0); lia]. by rewrite H.
  - destruct (ackq_nonempty m n st senders op_i Hok Hinv ltac:(lia) Hlt) as (c & rest & ->).
    destruct (ackq_mark m _ _ _ _ (bo_ack _ _ _ _ Hok)) as (Q1 & _ & Q3).
    assert (Hmark : pending m (set_bc_ack (mark_update (bc_ack st)) st) = pending m st)
      by (unfold pending; cbn [bc_ops bc_ack bc_sent updates_sent set_bc_ack]; by rewrite queue_mark).
    destruct (check_broadcast_credits m _ _ UPD_VC) as [[[] arr] lg] eqn:Hck.
    + destruct (flow_bcast_upd_ok m n op_i st c rest arr lg Hm Hinv Hok Hck) as (st1 & op1 & E & Hok1 & _ & Hu1 & _).
      rewrite E in H. cbn [obind] in H. apply (IH _ (n + 1) st1 rest) in H; [|done|lia|lia]. rewrite H, <- Hmark.
      apply finish_bcast_same in E as (E1 & E2 & E3 & E4). rewrite (pending_same m _ st1 E1 E2 E3 E4).
      rewrite (pending_upd m op_i _ c rest); [done|by apply Z.ltb_ge|done|done].
    + injection H as <-. by rewrite <- Hmark.
Qed.

(** The broadcasts of a round. *)
Lemma broadcasts_content m n ops q count lg arr tx senders st :
  m ∈ machines -> ackq_ok m q 0 senders -> ledger_ok m lg -> small count n ->
  n + Z.of_nat (length senders) < 2 ^ 16 -> 0 <= tx ->
  perform_broadcasts_LIN m ops q count lg arr tx = Done st ->
  batch_msgs m (bc_ops st) ++ queue_msgs m (bc_ack st) 0 ++ bcast_msgs m (bc_sent st)
  ≡ₘ batch_msgs m ops ++ queue_msgs m q 0.
Proof.
  intros Hm Hq Hl Hc Hn Htx H. unfold perform_broadcasts_LIN in H.
  set (st0 := mkBcast ops q count lg arr 0 0 tx 0 []) in H.
  assert (Hok0 : bcast_ok m n st0 senders) by (split; simpl; try done; lia).
  assert (Hfuel : CACHE_BATCH_SIZE + ack_size (bc_ack st0) - 0
                  < Z.of_nat (S (Z.to_nat (CACHE_BATCH_SIZE + ack_size q))))
    by (pose proof (aq_size _ _ _ _ Hq); change CACHE_BATCH_SIZE with 600; simpl bc_ack; lia).
  revert H Hfuel. generalize (S (Z.to_nat (CACHE_BATCH_SIZE + ack_size q))) as fuel. intros fuel H Hfuel.
  destruct (bcast_loop_ok m fuel Hm 0 n st0 senders Hok0 ltac:(lia) eq_refl Hfuel)
    as (st1 & popped & rest & new & E & _ & Hok & _ & _).
  pose proof (bcast_loop_content m fuel Hm 0 n st0 senders st1 Hok0 ltac:(lia) eq_refl E) as Hp.
  rewrite E in H. cbn [obind] in H. apply obind_Done_inv in H as (st2 & E2 & H). injection H as <-.
  apply post_credit_recvs_same in E2 as (P1 & P2 & P3 & P4).
  unfold pending in Hp. change (bcast_msgs m (bc_sent st0)) with (@nil msg) in Hp. rewrite app_nil_r in Hp.
  change (bc_ops st0) with ops in Hp. change (bc_ack st0) with q in Hp. change (updates_sent st0) with 0 in Hp.
  cbn [bc_ops bc_ack bc_sent set_bc_ack]. rewrite P1, P2, P3, P4. rewrite <- Hp.
  replace (queue_msgs m (mkAckQ _ _ _ _) 0) with (queue_msgs m (bc_ack st1) (updates_sent st1)); [done|].
  unfold queue_msgs, queued. cbn [ack_bcast_ops ack_pop_ptr ack_size].
  destruct (bo_ack _ _ _ _ Hok) as [_ A2 [A3 A4] _ _ _ _]. rewrite batch_val in A4.
  rewrite u16_small by (unfold is_u16; lia). by rewrite Z.sub_0_r.
Qed.

(** ** Acknowledgements *)
Lemma send_ack_content m i st :
  buffer_msgs m (as_buffer (send_ack m i st)) ++ as_sent (send_ack m i st) ≡ₘ buffer_msgs m (as_buffer st) ++ as_sent st.
Proof.
  unfold send_ack. destruct (inv_to_send_ops (as_buffer st) !! i) as [op|] eqn:E; [|done].
  destruct (Z.eqb_spec (opcode op) CACHE_OP_BRC) as [Hop|]; cbn [negb]; [|done].
  destruct (if credits _ _ _ =? 0 then _ else _) as [arr lg]. destruct (_ =? 0); [done|].
  set (op' := set_meta _ _). cbn [as_buffer as_sent]. unfold buffer_msgs. cbn [inv_to_send_ops].
  pose proof (bind_insert_perm (wait_ack m) _ _ op' op E) as Hp. unfold wait_ack at 2 3 in Hp.
  rewrite (decide_False (P := is_brc op')), (decide_True (P := is_brc op)), app_nil_l in Hp by done.
  change (mkMsg (cid (meta op)) op') with (forge_ack m op). apply msgs_equiv_Permutation. rewrite <- Hp. solve_Permutation.
Qed.

Lemma send_acks_loop_content m l : forall st,
  let st' := foldl (fun st i => send_ack m i st) st l in
  buffer_msgs m (as_buffer st') ++ as_sent st' ≡ₘ buffer_msgs m (as_buffer st) ++ as_sent st.
Proof. induction l as [|i l IH]; intros st; [done|]. cbn [foldl]. rewrite IH. apply send_ack_content. Qed.

Lemma send_acks_content m b count lg arr tx :
  match send_acks m b count lg arr tx with
  | Done st => buffer_msgs m (as_buffer st) ++ as_sent st ≡ₘ buffer_msgs m b
  | _ => True
  end.
Proof.
  unfold send_acks. generalize (seq 0 (Z.to_nat BCAST_TO_CACHE_BATCH)) as slots. intros slots.
  pose proof (send_acks_loop_content m slots (mkAcks b count lg arr tx 0 [])) as H. cbv zeta in H.
  cbn [as_buffer as_sent] in H. rewrite app_nil_r in H.
  destruct (c_assert _); [|done|done]. cbn [obind]. destruct (c_assert _); by cbn [obind].
Qed.

Lemma maybe_send_acks_content m b count lg arr tx st :
  (if 0 <? inv_size b then send_acks m b count lg arr tx else Done (mkAcks b count lg arr tx 0 [])) = Done st ->
  buffer_msgs m (as_buffer st) ++ as_sent st ≡ₘ buffer_msgs m b.
Proof.
  destruct (0 <? inv_size b); [|intros [= <-]; cbn [as_buffer as_sent]; by rewrite app_nil_r].
  intros H. pose proof (send_acks_content m b count lg arr tx) as Hc. by rewrite H in Hc.
Qed.

(** ** The whole round *)
Section round_content.
Context (m : Z) (Hm : m ∈ machines).
Context (batch : list (cache_op * mica_resp)) (arr1 arr2 : list nat) (kv : mica_kv) (t : thread).
Context (p : polled) (ups ops invs : list (cache_op * mica_resp)) (kv1 kv2 kv3 : mica_kv).
Context (count1 count2 : count_array) (q : ack_queue) (b : inv_buffer) (bc : bcast_state) (ak : acks_state).
Context (fc : fc_state) (cq : Z).
Context (Hrun : round_run m batch arr1 arr2 kv t p ups ops invs kv1 kv2 kv3 count1 count2 q b bc ak fc cq).
Context (l : list cache_op) (snd : list Z) (Hck : client_ok m (t_client t) l snd).

Let update_cache := cache_answers (cache_batch_op_lin_non_stalling_sessions_with_cache_op m) kv (update_resp t).
Let inv_cache := cache_answers (cache_batch_op_lin_non_stalling_sessions_with_small_cache_op m) kv2 (inv_resp t).

Lemma run_polled_updates : polled_updates update_cache p = ups.
Proof using Hrun.
  unfold polled_updates, update_cache, cache_answers. pose proof (rr_ups _ _ _ _ _ _ _ _ _ _ _ _ _ _ _ _ _ _ _ _ _ Hrun) as E.
  unfold with_resp in E. by rewrite E.
Qed.

Lemma run_polled_invs : polled_invs inv_cache p = invs.
Proof using Hrun.
  unfold polled_invs, inv_cache, cache_answers. pose proof (rr_invs _ _ _ _ _ _ _ _ _ _ _ _ _ _ _ _ _ _ _ _ _ Hrun) as E.
  unfold with_resp in E. by rewrite E.
Qed.

(** What was polled. *)
Lemma run_read : exists read rest, l = read ++ rest /\ ring_ok m (po_inbox p) rest /\
  polled_as p (updates_of read) (invs_of read) /\
  ack_size (c_acks (t_client t)) + acks_in (updates_of read) <= BCAST_TO_CACHE_BATCH /\
  inv_size (c_invs (t_client t)) + Z.of_nat (length (invs_of read)) <= BCAST_TO_CACHE_BATCH.
Proof using Hrun Hck.
  destruct Hck as [K1 K2 K3 _ _ _ _ _ _].
  destruct (poll_coherence_ok m _ l snd K1 K2 K3) as (p' & read & rest & E & El & _ & _ & [R1 R2 R3 R4]).
  rewrite (rr_poll _ _ _ _ _ _ _ _ _ _ _ _ _ _ _ _ _ _ _ _ _ Hrun) in E. injection E as <-. by exists read, rest.
Qed.

Definition polled_msgs : list msg :=
  (mkMsg m <$> array_take (update_ops_i p) (po_update_ops p)) ++ (mkMsg m <$> array_take (inv_ops_i p) (po_inv_ops p)).

Lemma ring_fits ib l' : ring_ok m ib l' -> (forall i, op_fits (incoming_reqs ib i)) -> Forall op_fits l'.
Proof using.
  intros Hr Hf. apply Forall_lookup_2. intros i op Hi. rewrite <- (rg_slots _ _ _ Hr i op Hi). apply Hf.
Qed.

Lemma run_ring : typed (t_client t) ->
  mkMsg m <$> unread (c_inbox (t_client t)) ≡ₘ polled_msgs ++ (mkMsg m <$> unread (po_inbox p)).
Proof using Hrun Hck.
  intros Ht. pose proof (ck_ring _ _ _ _ Hck) as K1. rewrite (unread_spec _ _ _ K1).
  destruct run_read as (read & rest & -> & Hr & Hp & _). rewrite (unread_spec _ _ _ Hr), fmap_app.
  apply msgs_equiv_app; [|done]. unfold polled_msgs.
  assert (Hf : Forall op_fits read) by (pose proof (ring_fits _ _ K1 (ty_incoming _ Ht)) as H; by apply Forall_app in H as [? _]).
  rewrite (polled_content m p _ _ Hp), split_read; [done|by apply filter_Forall|by apply filter_Forall].
Qed.

(** The queues after the cache answered. *)
Lemma run_received : exists snd1,
  queue_msgs m q 0 = queue_msgs m (c_acks (t_client t)) 0 ++ (ups ≫= update_msgs m) /\
  buffer_msgs m b ≡ₘ buffer_msgs m (c_invs (t_client t)) ++ (invs ≫= ack_msgs m) /\
  ackq_ok m q 0 snd1 /\ small count2 (2 * BCAST_TO_CACHE_BATCH).
Proof using Hrun Hck.
  pose proof (lin_updates_answers m kv (update_resp t)) as Hu. pose proof (lin_invs_answers m kv2 (inv_resp t)) as Hi.
  destruct (receive_ok m _ _ Hu Hi _ l snd Hck) as (p' & rest' & c1 & c2 & q' & b' & snd1 & E1 & _ & E2 & E3 & Hrc).
  rewrite (rr_poll _ _ _ _ _ _ _ _ _ _ _ _ _ _ _ _ _ _ _ _ _ Hrun) in E1. injection E1 as <-.
  fold update_cache in E2. fold inv_cache in E3. rewrite run_polled_updates in E2. rewrite run_polled_invs in E3.
  pose proof (rr_acks _ _ _ _ _ _ _ _ _ _ _ _ _ _ _ _ _ _ _ _ _ Hrun) as Ea. rewrite E2 in Ea. injection Ea as -> ->.
  pose proof (rr_buffer _ _ _ _ _ _ _ _ _ _ _ _ _ _ _ _ _ _ _ _ _ Hrun) as Eb. rewrite E3 in Eb. injection Eb as -> ->.
  destruct run_read as (read & rest & El & Hr & Hp & Hra & Hri).
  assert (Hread : Forall (is_msg m) read).
  { pose proof (rg_msgs _ _ _ (ck_ring _ _ _ _ Hck)) as Hl. rewrite El in Hl. by apply Forall_app in Hl as [? _]. }
  destruct (read_kinds m read Hread) as [Hku Hki].
  destruct (polled_updates_spec m _ Hu _ _ _ Hp Hku) as [U1 U2]. fold update_cache in U1, U2. rewrite run_polled_updates in U1, U2.
  destruct (polled_invs_spec m _ Hi _ _ _ Hp Hki) as [I1 I2]. fold inv_cache in I1, I2. rewrite run_polled_invs in I1, I2.
  exists snd1. destruct Hrc. split_and!; try done.
  - eapply bookkeeping_queue; [exact E2|apply Hck| |done].
    rewrite (acks_in_ext _ _ U1). pose proof (aq_size _ _ _ _ (ck_acks _ _ _ _ Hck)). lia.
  - eapply bookkeeping_buffer; [exact E3|apply Hck| |done].
    rewrite <- (length_fmap (fun x => cid (meta x.1)) invs), I1, length_fmap. done.
Qed.

(** Everything the client has, and what it sent, after the round. *)
Lemma run_msgs :
  client_msgs m (t_client (round_result m t p ups ops invs bc ak fc cq).1) (bc_ops bc)
    ++ round_msgs m (bc_sent bc) (as_sent ak)
  ≡ₘ (mkMsg m <$> unread (po_inbox p)) ++ batch_msgs m ops.*1
     ++ (queue_msgs m (c_acks (t_client t)) 0 ++ (ups ≫= update_msgs m))
     ++ buffer_msgs m (c_invs (t_client t)) ++ (invs ≫= ack_msgs m).
Proof using Hrun Hck Hm.
  destruct run_received as (snd1 & Eq & Eb & Hq & Hc).
  pose proof (ackq_size _ _ _ _ Hq) as Hs. rewrite batch_val in Hs, Hc.
  pose proof (broadcasts_content m (2 * 500) ops.*1 q count2 _ arr1 _ snd1 bc Hm Hq (ck_ledger _ _ _ _ Hck) Hc
    ltac:(lia) (ck_br_tx _ _ _ _ Hck) (rr_bcast _ _ _ _ _ _ _ _ _ _ _ _ _ _ _ _ _ _ _ _ _ Hrun)) as Hb.
  pose proof (maybe_send_acks_content _ _ _ _ _ _ _ (rr_send _ _ _ _ _ _ _ _ _ _ _ _ _ _ _ _ _ _ _ _ _ Hrun)) as Ha.
  rewrite <- Eq, <- Eb, <- Ha. rewrite (app_assoc (batch_msgs m ops.*1)), <- Hb.
  unfold client_msgs. cbn [round_result fst t_client c_inbox c_acks c_invs].
  change (unread (send_credits _ _)) with (unread (po_inbox p)). unfold round_msgs.
  rewrite bcast_msgs_join. apply msgs_equiv_Permutation.
  solve_Permutation.
Qed.
End round_content.
