(* ===== verification/LinServe.v ===== *)
(** * What the LIN cache answers a batch of requests (src/ccKVS/cache.c)

    The requests of a batch are reads, writes and writes whose invalidation was
    not sent yet.  For each the possible answers of
    [cache_batch_op_lin_non_stalling_sessions], by whether its key is cached. *)
From S2P Require Import Prelude Config Optik Layout City Mica MicaLog Cache CacheSpec Network.
From S2P Require Import ScProtocol Flow FlowSpec FlowRound FlowSystem LinRound.

(** ** Client requests *)
Definition request_ok (op : cache_op) : Prop :=
  op_fits op /\ (is_brc op \/ client_put op \/ opcode op = CACHE_OP_GET).

(** ** The answers *)
Inductive lin_served (cached : Prop) : cache_op * mica_resp -> cache_op * mica_resp -> Prop :=
| served_later op r : resp_type r = UNSERVED_CACHE_MISS -> lin_served cached (op, r) (op, r)
| served_miss op r r' : ~ cached -> resp_type r' = CACHE_MISS -> lin_served cached (op, r) (op, r')
| served_read op r st r' :
    cached -> opcode op = CACHE_OP_GET -> is_u8 st ->
    resp_type r' = CACHE_GET_SUCCESS \/ resp_type r' = CACHE_GET_STALL ->
    lin_served cached (op, r) (set_meta (set_state st (meta op)) op, r')
| served_kept op r r' :
    cached -> opcode op = CACHE_OP_PUT ->
    resp_type r' = CACHE_PUT_FAIL \/ resp_type r' = CACHE_PUT_STALL -> lin_served cached (op, r) (op, r')
| served_write op r op' r' :
    cached -> opcode op = CACHE_OP_PUT -> opcode op' = CACHE_OP_BRC -> op_fits op' -> key_word op' = key_word op ->
    resp_type r' = CACHE_PUT_SUCCESS -> lin_served cached (op, r) (op', r')
| served_sent op r : cached -> is_brc op -> lin_served cached (op, r) (op, r).

Lemma lin_served_iff P Q x y : (P <-> Q) -> lin_served P x y -> lin_served Q x y.
Proof.
  intros HPQ [op r H|op r r' H1 H2|op r st r' H1 H2 H3 H4|op r r' H1 H2 H3|op r op' r' H1 H2 H3 H4 H5 H6|op r H1 H2];
    [by apply served_later|apply served_miss|apply served_read|apply served_kept|apply served_write|apply served_sent]; tauto.
Qed.

Definition all_wf (F : Z -> option entry) : Prop := forall k e, F k = Some e -> lin_wf e.

Lemma lin_skips_unserved r : lin_skips r = true -> resp_type r = UNSERVED_CACHE_MISS.
Proof.
  unfold lin_skips. change (ENABLE_WAKE_UP =? 1) with false. cbn [andb]. rewrite orb_false_r. by intros H%Z.eqb_eq.
Qed.

Section serve.
Context (m : Z) (Hm : m ∈ machines).

Lemma lin_serve_hit e op r vp e' op' r' :
  lin_wf e -> request_ok op -> lin_op m vp e op r = Done (e', op', r') -> lin_wf e' /\ lin_served True (op, r) (op', r').
Proof using Hm.
  intros He [Hf Hop] E. pose proof (lin_op_HandlerOk m (machines_u8 m Hm)) as Hok.
  assert (Hleg : legal (e_val_len e) op).
  { split; [done| |].
    - intros H. unfold is_brc in Hop. destruct Hop as [Hop|[(_ & Hop & _)|Hop]]; rewrite Hop in H; destruct H as [H|H]; try discriminate H.
      unfold lin_op in E. rewrite Hop in E. cbn in E. unfold lin_put in E.
      destruct (Z.eqb_spec (val_len op) (e_val_len e)); [done|discriminate E].
    - intros H. exfalso. unfold is_brc in Hop. destruct Hop as [Hop|[(_ & Hop & _)|Hop]]; rewrite Hop in H;
        destruct H as [H|[H|H]]; discriminate H. }
  assert (Hin : opcode op ∈ [CACHE_OP_GET; CACHE_OP_PUT; CACHE_OP_UPD; CACHE_OP_INV; CACHE_OP_ACK; CACHE_OP_BRC]).
  { unfold is_brc in Hop. destruct Hop as [-> |[(_ & -> & _)| ->]]; apply list_elem_of_In; simpl; tauto. }
  destruct (handler_runs (HandlerOk := Hok) vp e op r He Hleg Hin) as (e1 & op1 & r1 & E1 & Hw & _).
  rewrite E in E1. injection E1 as <- <- <-. split; [done|]. unfold lin_op in E.
  destruct Hop as [Hop|[(_ & Hop & _)|Hop]].
  - unfold is_brc in Hop. rewrite Hop in E. cbn in E. injection E as <- <- <-. by apply served_sent.
  - rewrite Hop in E. cbn in E.
    assert (Hv : val_len op = e_val_len e) by (apply Hleg; by left).
    rewrite (lin_put_eq m e op r He Hv) in E. cbv zeta in E. destruct (decide_put _ _); injection E as <- <- <-.
    + apply served_write; try done. destruct Hf as [[] ? ? ? ? ? ? ?].
      split; try done. split; try done; [apply u8_range|apply u32_range].
    + apply served_kept; try done. by left.
    + apply served_kept; try done. by right.
  - rewrite Hop in E. cbn in E. rewrite (lin_get_eq vp e op r He) in E. cbv zeta in E. injection E as <- <- <-.
    destruct He as [He Hs _]. apply served_read; try done.
    + unfold VALID_STATE, WRITE_REPLAY_STATE in Hs. unfold is_u8.
      destruct (_ =? INVALID_STATE); [by vm_compute|]. destruct (_ =? WRITE_STATE); [by vm_compute|lia].
    + by destruct (state (e_meta e) =? VALID_STATE); [left|right].
Qed.

Lemma lin_serve_all addr l : forall F F' out,
  all_wf F -> Forall (fun x => request_ok x.1) l ->
  view_exec lin_skips (lin_op m) addr F l = Done (F', out) ->
  Forall2 (fun x y => lin_served (is_Some (F (key_word x.1))) x y) l out.
Proof using Hm.
  induction l as [|[op r] l IH]; intros F F' out HF Hl E; cbn [view_exec] in E; [by injection E as _ <-|].
  apply Forall_cons in Hl as [Hop Hl]. apply obind_Done_inv in E as ([[F1 op1] r1] & E1 & E).
  apply obind_Done_inv in E as ([F2 rest] & E2 & E). injection E as _ <-. unfold view_exec_one in E1.
  assert (H1 : all_wf F1 /\ (forall k, is_Some (F1 k) <-> is_Some (F k)) /\
    lin_served (is_Some (F (key_word op))) (op, r) (op1, r1)).
  { destruct (lin_skips r) eqn:Hr.
    { injection E1 as <- <- <-. split_and!; try done. by apply served_later, lin_skips_unserved. }
    destruct (F (key_word op)) as [e|] eqn:He.
    - apply obind_Done_inv in E1 as ([[e1 op2] r2] & E3 & E1). injection E1 as <- <- <-.
      destruct (lin_serve_hit e op r _ e1 op2 r2 (HF _ _ He) Hop E3) as [Hw Hs]. split_and!.
      + intros k e2. unfold fupd. zcase; [by intros [= <-]|apply HF].
      + intros k. unfold fupd. zcase; [|done]. subst. rewrite He. split; by eexists.
      + eapply lin_served_iff; [|exact Hs]. split; [by eexists|done].
    - injection E1 as <- <- <-. split_and!; try done. apply served_miss; [|done]. by intros [? [=]]. }
  destruct H1 as (HF1 & Hd & Hs). constructor; [exact Hs|].
  eapply Forall2_impl; [exact (IH F1 F2 rest HF1 Hl E2)|]. intros x y H. cbn beta in *.
  eapply lin_served_iff; [|exact H]. apply Hd.
Qed.
End serve.
