(* ===== verification/LinTrack.v ===== *)
(** * Simulation of the protocol by a machine's cache batches

    [tracks F l] relates the caches [F] of all machines and the messages [l],
    wherever they are, to [LinProtocol]: for every cached key the protocol can
    reach, from the state [C0] gives for the key, a state in which each machine
    has the object that its cache holds, and whose network contains exactly the
    messages of [l] for that key.
    Each operation that a batch function of the cache executes is matched by at
    most one step of the protocol. *)
From stdpp Require Import relations.
From S2P Require Import Prelude Config Optik Layout City Mica MicaLog Cache CacheSpec Network.
From S2P Require Import ScProtocol LinSpec LinProtocol Flow FlowSpec FlowRound FlowSystem LinRound LinContent LinServe.
#[local] Open Scope lin_scope.

(** ** Messages of one key *)
Definition key_bag (k : Z) (l : list msg) : list (Z * content) :=
  filter (fun x => ct_key x.2 = k) (msg_content <$> l).

#[export] Instance key_bag_proper k : Proper (msgs_equiv ==> (≡ₚ)) (key_bag k).
Proof. intros l1 l2 H. unfold msgs_equiv in H. unfold key_bag. by rewrite H. Qed.

Lemma key_bag_app k l1 l2 : key_bag k (l1 ++ l2) = key_bag k l1 ++ key_bag k l2.
Proof. unfold key_bag. by rewrite fmap_app, filter_app. Qed.

Lemma key_bag_all k l : Forall (fun x => key_word (m_op x) = k) l -> key_bag k l = msg_content <$> l.
Proof. intros H. apply filter_all, Forall_fmap. eapply Forall_impl; [exact H|]. intros x Hx. unfold compose. by simpl. Qed.

Lemma key_bag_other k l : Forall (fun x => key_word (m_op x) <> k) l -> key_bag k l = [].
Proof. intros H. apply filter_none, Forall_fmap. eapply Forall_impl; [exact H|]. intros x Hx. unfold compose. by simpl. Qed.

(** All messages of the list are about the key [k]. *)
Definition about (k : Z) (l : list msg) : Prop := Forall (fun x => key_word (m_op x) = k) l.

Lemma about_other k k' l : about k l -> k <> k' -> key_bag k' l = [].
Proof. intros H Hne. apply key_bag_other. eapply Forall_impl; [exact H|]. intros x Hx. simpl in Hx. congruence. Qed.

Lemma about_bcast k op l : key_word op = k -> about k ((fun b => mkMsg b op) <$> l).
Proof. intros H. apply Forall_fmap, Forall_true. intros b. exact H. Qed.

Lemma fmap_perm_inv {A B} (f : A -> B) l x rest :
  f <$> l ≡ₚ x :: rest -> exists l1 y l2, l = l1 ++ y :: l2 /\ f y = x /\ f <$> (l1 ++ l2) ≡ₚ rest.
Proof.
  intros H. assert (Hx : x ∈ f <$> l) by (rewrite H; left).
  apply list_elem_of_fmap in Hx as (y & -> & (l1 & l2 & ->)%list_elem_of_split). exists l1, y, l2.
  split; [done|]. split; [done|]. rewrite fmap_app, fmap_cons in H.
  rewrite <- Permutation_middle in H. rewrite fmap_app. by apply (Permutation_cons_inv (a := f y)).
Qed.

(** ** The relation, for runs of the protocol from the states [C0] *)
Section tracks.
Context (C0 : Z -> option lin_config) (HC0 : forall k c, C0 k = Some c -> lin_inv_ok c).

Definition tracked_key (k : Z) (F : Z -> Z -> option entry) (l : list msg) : Prop :=
  match C0 k with
  | Some c0 => exists c, rtc lin_step c0 c /\ (forall m, m ∈ machines -> F m k = Some (lin_obj c m)) /\
      msg_content <$> lin_net c ≡ₚ key_bag k l
  | None => (forall m, m ∈ machines -> F m k = None) /\ key_bag k l = []
  end.

Definition tracks (F : Z -> Z -> option entry) (l : list msg) : Prop := forall k, tracked_key k F l.

Lemma tracked_key_ext k F F' l l' :
  (forall m, m ∈ machines -> F' m k = F m k) -> key_bag k l' ≡ₚ key_bag k l -> tracked_key k F l -> tracked_key k F' l'.
Proof using.
  intros HF Hl. unfold tracked_key. destruct (C0 k) as [c0|].
  - intros (c & Hr & Ho & Hn). exists c. split_and!; [done| |by rewrite Hl].
    intros m Hm. rewrite HF by done. by apply Ho.
  - intros [Ho Hn]. split; [intros m Hm; rewrite HF by done; by apply Ho|].
    rewrite Hn in Hl. by apply Permutation_nil_r in Hl.
Qed.

Lemma tracks_equiv F F' l l' : (forall m k, F' m k = F m k) -> l' ≡ₘ l -> tracks F l -> tracks F' l'.
Proof using. intros HF Hl H k. apply (tracked_key_ext k F F' l l'); [done|by rewrite Hl|done]. Qed.

Lemma tracks_cached F l m k : m ∈ machines -> tracks F l -> is_Some (F m k) <-> is_Some (C0 k).
Proof using.
  intros Hm H. specialize (H k). unfold tracked_key in H. destruct (C0 k) as [c0|].
  - destruct H as (c & _ & Ho & _). rewrite (Ho m Hm). split; by eexists.
  - destruct H as [Ho _]. rewrite (Ho m Hm). done.
Qed.

(** One object of one machine changes, with messages about its key. *)
Lemma tracks_step F l m k e' new old rest :
  tracks F (old ++ rest) -> about k new -> about k old -> l = new ++ rest ->
  tracked_key k (fupd F m (fupd (F m) k (Some e'))) l -> tracks (fupd F m (fupd (F m) k (Some e'))) l.
Proof using.
  intros H Hnew Hold -> Hk k'. destruct (Z.eq_dec k' k) as [->|Hne]; [done|].
  apply (tracked_key_ext k' F _ (old ++ rest)); [| |done].
  - intros m' _. unfold fupd. repeat zcase; congruence.
  - rewrite !key_bag_app. rewrite (about_other k k' new), (about_other k k' old) by congruence. done.
Qed.

(** A message anywhere is a message of the protocol. *)
Lemma tracks_msg F l x : tracks F l -> x ∈ l ->
  exists c0 c y, C0 (key_word (m_op x)) = Some c0 /\ rtc lin_step c0 c /\
    (forall m, m ∈ machines -> F m (key_word (m_op x)) = Some (lin_obj c m)) /\
    y ∈ lin_net c /\ msg_content y = msg_content x /\ lin_ok c /\ lin_msg_ok y.
Proof using HC0.
  intros H Hx. specialize (H (key_word (m_op x))). unfold tracked_key in H.
  assert (Hin : msg_content x ∈ key_bag (key_word (m_op x)) l)
    by (apply list_elem_of_filter; split; [done|by apply list_elem_of_fmap_2]).
  destruct (C0 (key_word (m_op x))) as [c0|] eqn:E0.
  - destruct H as (c & Hr & Ho & Hn). rewrite <- Hn in Hin. apply list_elem_of_fmap in Hin as (y & Ey & Hy).
    destruct (lin_steps_inv c0 c (HC0 _ _ E0) Hr) as ([Hok _] & _). exists c0, c, y. split_and!; try done.
    exact (proj1 (Forall_forall _ _) (lo_msgs _ Hok) y Hy).
  - destruct H as [_ Hn]. rewrite Hn in Hin. by apply not_elem_of_nil in Hin.
Qed.

(** The message that is executed, in the protocol's network. *)
Lemma tracks_head F m op l : tracks F (mkMsg m op :: l) ->
  exists c0 c l1 y l2, C0 (key_word op) = Some c0 /\ rtc lin_step c0 c /\ lin_ok c /\
    (forall b, b ∈ machines -> F b (key_word op) = Some (lin_obj c b)) /\
    lin_net c = l1 ++ mkMsg m y :: l2 /\ op_content op = op_content y /\ lin_msg_ok (mkMsg m y) /\
    msg_content <$> (l1 ++ l2) ≡ₚ key_bag (key_word op) l.
Proof using HC0.
  intros H. specialize (H (key_word op)). unfold tracked_key in H.
  assert (Hb : key_bag (key_word op) (mkMsg m op :: l) = msg_content (mkMsg m op) :: key_bag (key_word op) l)
    by (unfold key_bag; rewrite fmap_cons, filter_cons_True by done; done).
  rewrite Hb in H. destruct (C0 (key_word op)) as [c0|] eqn:E0; [|by destruct H].
  destruct H as (c & Hr & Ho & Hn). destruct (fmap_perm_inv _ _ _ _ Hn) as (l1 & [d y] & l2 & El & Ey & Hrest).
  injection Ey as -> Ey. destruct (lin_steps_inv c0 c (HC0 _ _ E0) Hr) as ([Hok _] & _).
  destruct (msgs_split _ _ _ _ Hok El) as [Hy _].
  exists c0, c, l1, y, l2. split_and!; try done.
  unfold op_content in *. cbn [m_op] in Ey. congruence.
Qed.

(** What the protocol's message says of the copy that is executed. *)
Lemma content_msg_ok op y m : op_fits op -> op_content op = op_content y -> lin_msg_ok (mkMsg m y) ->
  msg_ok op /\ (opcode op = CACHE_OP_UPD -> val_len op = HERD_VALUE_SIZE).
Proof using.
  intros Hf E [_ _ [_ Hev] _ Hlen]. cbn [m_op] in *. injection E as E1 _ _ _ E5 E6. split; [split; congruence|].
  intros Hop. rewrite <- E5, Hop in E6. simpl in E6. injection E6 as -> _. apply Hlen. congruence.
Qed.

Lemma same_handlers m vp e op r :
  lin_with_cache_op m vp e op r = lin_with_cache_op m 0 e op r /\
  lin_with_small_cache_op m vp e op r = lin_with_small_cache_op m 0 e op r.
Proof using. done. Qed.

Lemma recv_get_same op y : op_fits op -> op_content op = op_content y -> opcode op <> CACHE_OP_UPD -> recv_get_req op y = op.
Proof using.
  intros Hf E Hop. pose proof (recv_same op y Hf E) as H. unfold recv_msg in H. injection E as _ _ _ _ E5 _.
  rewrite E5 in Hop. apply Z.eqb_neq in Hop. by rewrite Hop in H.
Qed.
Lemma recv_put_same op y : op_fits op -> op_content op = op_content y -> opcode op = CACHE_OP_UPD -> recv_put_req op y = op.
Proof using.
  intros Hf E Hop. pose proof (recv_same op y Hf E) as H. unfold recv_msg in H. injection E as _ _ _ _ E5 _.
  rewrite E5 in Hop. by rewrite Hop in H.
Qed.

(** The object of machine [m] after a step. *)
Lemma objs_fupd (F : Z -> Z -> option entry) k c m e' net :
  (forall b, b ∈ machines -> F b k = Some (lin_obj c b)) ->
  forall b, b ∈ machines ->
  fupd F m (fupd (F m) k (Some e')) b k = Some (lin_obj (mkLin (fupd (lin_obj c) m e') net) b).
Proof using. intros H b Hb. cbn [lin_obj]. unfold fupd. destruct (Z.eqb_spec b m); [by rewrite Z.eqb_refl|by apply H]. Qed.

Lemma net_equiv k old new l : msg_content <$> old ≡ₚ key_bag k l -> about k new ->
  msg_content <$> (old ++ new) ≡ₚ key_bag k (new ++ l).
Proof using. intros H Hn. by rewrite key_bag_app, (key_bag_all k new), fmap_app, H, Permutation_app_comm by done. Qed.

(** An update or acknowledgement is executed. *)
Lemma track_update F m op r addr Fm' op' r' l :
  m ∈ machines -> tracks F (mkMsg m op :: l) -> op_fits op -> is_upd_or_ack op -> lin_skips r = false ->
  view_exec_one lin_skips (lin_with_cache_op m) addr (F m) op r = Done (Fm', op', r') ->
  tracks (fupd F m Fm') (update_msgs m (op', r') ++ l) /\ op' = op /\ lin_skips r' = false.
Proof using HC0.
  intros Hm Ht Hf Hop Hr E. destruct (tracks_head F m op l Ht) as (c0 & c & l1 & y & l2 & E0 & Hreach & Hok & Ho & Hn & Hc & Hy & Hrest).
  destruct (content_msg_ok op y m Hf Hc Hy) as [Hmo Hlen]. destruct (lo_obj _ Hok m Hm) as [Hw Hl].
  unfold view_exec_one in E. rewrite Hr, (Ho m Hm) in E. apply obind_Done_inv in E as ([[e' op1] r1] & E & E').
  injection E' as <- <- <-. set (k := key_word op) in *.
  assert (Hsame : opcode op = opcode y) by (by injection Hc).
  assert (Hold : about k [mkMsg m op]) by (by constructor).
  destruct Hop as [Hop|Hop].
  - assert (Eu : lin_upd (lin_obj c m) op r = Done (e', op1, r1)) by (unfold lin_with_cache_op in E; by rewrite Hop in E).
    rewrite lin_upd_eq in Eu by (done || apply Hw || (rewrite Hl; by apply Hlen)).
    assert (Heq : op1 = op /\ lin_skips r1 = false) by (destruct (_ && _) in Eu; injection Eu as _ <- <-; done).
    destruct Heq as [-> Hs]. split; [|done]. unfold update_msgs. cbn [fst]. rewrite Hop. cbn [app].
    apply (tracks_step F l m k e' [] [mkMsg m op] l); try done; [by constructor|]. unfold tracked_key. rewrite E0.
    eexists. split; [|split; [apply (objs_fupd F k c m e' (l1 ++ l2)), Ho|exact Hrest]]. eapply rtc_r; [exact Hreach|]. right.
    eapply lin_deliver_upd; [exact Hn|congruence|exact Hf|]. rewrite (recv_put_same op y) by done. exact E.
  - assert (Ea : lin_ack m (lin_obj c m) op r = Done (e', op1, r1)) by (unfold lin_with_cache_op in E; by rewrite Hop in E).
    rewrite lin_ack_eq in Ea by done.
    assert (Heq : op1 = op /\ lin_skips r1 = false).
    { destruct (_ && _) in Ea; injection Ea as _ <- <-; [|done]. by destruct (_ =? 1). }
    destruct Heq as [-> Hs]. split; [|done]. unfold update_msgs. cbn [fst snd]. rewrite Hop. cbn [Z.eqb]. simpl (_ =? CACHE_OP_UPD). cbv iota.
    set (new := if resp_type r1 =? CACHE_LAST_ACK_SUCCESS then _ else _).
    assert (Hnew : about k new) by (unfold new; destruct (resp_type r1 =? _); [by apply about_bcast|constructor]).
    apply (tracks_step F _ m k e' new [mkMsg m op] l); try done. unfold tracked_key. rewrite E0.
    eexists. split; [|split; [apply (objs_fupd F k c m e' ((l1 ++ l2) ++ new)), Ho|by apply net_equiv]].
    eapply rtc_r; [exact Hreach|]. right.
    eapply lin_deliver_ack; [exact Hn|congruence|exact Hf|]. rewrite (recv_get_same op y) by (done || by rewrite Hop). exact E.
Qed.

(** An invalidation is executed. *)
Lemma track_inv F m op r addr Fm' op' r' l :
  m ∈ machines -> tracks F (mkMsg m op :: l) -> op_fits op -> is_inv op -> lin_skips r = false ->
  view_exec_one lin_skips (lin_with_small_cache_op m) addr (F m) op r = Done (Fm', op', r') ->
  tracks (fupd F m Fm') (ack_msgs m (op', r') ++ l) /\ op' = set_opcode CACHE_OP_ACK op /\ lin_skips r' = false.
Proof using HC0.
  intros Hm Ht Hf Hop Hr E. destruct (tracks_head F m op l Ht) as (c0 & c & l1 & y & l2 & E0 & Hreach & Hok & Ho & Hn & Hc & Hy & Hrest).
  destruct (content_msg_ok op y m Hf Hc Hy) as [Hmo _]. destruct (lo_obj _ Hok m Hm) as [Hw _].
  unfold view_exec_one in E. rewrite Hr, (Ho m Hm) in E. apply obind_Done_inv in E as ([[e' op1] r1] & E & E').
  injection E' as <- <- <-. set (k := key_word op) in *.
  assert (Hsame : opcode op = opcode y) by (by injection Hc).
  assert (Hold : about k [mkMsg m op]) by (by constructor).
  assert (Ei : lin_inv m (lin_obj c m) op r = Done (e', op1, r1)) by (unfold lin_with_small_cache_op in E; by rewrite Hop in E).
  rewrite lin_inv_eq in Ei by done.
  assert (Heq : op1 = set_opcode CACHE_OP_ACK op /\ lin_skips r1 = false) by (destruct (ts_ltb _ _); injection Ei as _ <- <-; done).
  destruct Heq as [-> Hs]. split; [|done]. unfold ack_msgs. cbn [fst snd].
  set (new := if resp_type r1 =? CACHE_INV_SUCCESS then _ else _).
  assert (Hnew : about k new) by (unfold new; destruct (resp_type r1 =? _); [by constructor|constructor]).
  apply (tracks_step F _ m k e' new [mkMsg m op] l); try done. unfold tracked_key. rewrite E0.
  eexists. split; [|split; [apply (objs_fupd F k c m e' ((l1 ++ l2) ++ new)), Ho|by apply net_equiv]].
  eapply rtc_r; [exact Hreach|]. right.
  eapply lin_deliver_inv; [exact Hn|congruence|exact Hf|]. rewrite (recv_get_same op y) by (done || by rewrite Hop). exact E.
Qed.

(** ** Requests of the batch *)
(** An accepted write got the version after the object's: 0 means that the 32-bit
    counter wrapped around. *)
Definition not_wrapped (op : cache_op) : Prop := is_brc op -> version (meta op) <> 0.

Lemma send_inv_brc m op : is_brc op -> send_inv m op = bcast_inv m op.
Proof using. intros H. unfold send_inv. by rewrite decide_True. Qed.
Lemma send_inv_not m op : ~ is_brc op -> send_inv m op = [].
Proof using. intros H. unfold send_inv. by rewrite decide_False. Qed.

Lemma tracks_same F m l : tracks F l -> tracks (fupd F m (F m)) l.
Proof using. apply tracks_equiv; [|done]. intros m' k'. unfold fupd. by destruct (Z.eqb_spec m' m) as [->|]. Qed.

Lemma tracks_same_obj F m k e l : F m k = Some e -> tracks F l -> tracks (fupd F m (fupd (F m) k (Some e))) l.
Proof using.
  intros He. apply tracks_equiv; [|done]. intros m' k'. unfold fupd.
  destruct (Z.eqb_spec m' m) as [->|]; [|done]. by destruct (Z.eqb_spec k' k) as [->|].
Qed.

(** A cached object on machine [m]. *)
Lemma tracks_obj F l m k e : m ∈ machines -> tracks F l -> F m k = Some e ->
  exists c0 c, C0 k = Some c0 /\ rtc lin_step c0 c /\ lin_ok c /\ e = lin_obj c m /\
    (forall b, b ∈ machines -> F b k = Some (lin_obj c b)) /\ msg_content <$> lin_net c ≡ₚ key_bag k l.
Proof using HC0.
  intros Hm H He. specialize (H k). unfold tracked_key in H. destruct (C0 k) as [c0|] eqn:E0.
  - destruct H as (c & Hr & Ho & Hn). exists c0, c. destruct (lin_steps_inv c0 c (HC0 _ _ E0) Hr) as ([Hok _] & _).
    split_and!; try done. specialize (Ho m Hm). congruence.
  - destruct H as [Ho _]. specialize (Ho m Hm). congruence.
Qed.

Lemma wrap_free v : is_u32 v -> v mod 2 = 0 -> u32 (v + 2) <> 0 -> v + 2 < 2 ^ 32.
Proof using.
  intros [H1 H2] He Hu. destruct (Z.lt_ge_cases (v + 2) (2 ^ 32)) as [|Hge]; [done|exfalso].
  assert (v = 2 ^ 32 - 2) as -> by (Z.div_mod_to_equations; lia). by apply Hu.
Qed.

(** A write is executed. *)
Lemma track_put F m op r addr Fm' op' r' l :
  m ∈ machines -> tracks F l -> client_put op -> lin_skips r = false -> not_wrapped op' ->
  view_exec_one lin_skips (lin_op m) addr (F m) op r = Done (Fm', op', r') ->
  tracks (fupd F m Fm') (send_inv m op' ++ l) /\ op_fits op'.
Proof using HC0.
  intros Hm Ht (Hf & Hop & Hvl) Hr Hnw E. unfold view_exec_one in E. rewrite Hr in E.
  assert (Hno : ~ is_brc op) by (unfold is_brc; by rewrite Hop).
  destruct (F m (key_word op)) as [e|] eqn:He.
  2:{ injection E as <- <- <-. split; [|done]. rewrite send_inv_not by done. by apply tracks_same. }
  destruct (tracks_obj F l m _ e Hm Ht He) as (c0 & c & E0 & Hreach & Hok & -> & Ho & Hn). destruct (lo_obj _ Hok m Hm) as [Hw Hl].
  apply obind_Done_inv in E as ([[e' op1] r1] & E & E'). injection E' as <- <- <-. set (k := key_word op) in *.
  assert (E1 : lin_op m 0 (lin_obj c m) op r = Done (e', op1, r1)) by (unfold lin_op in *; by rewrite Hop in E |- *).
  pose proof E as E2. unfold lin_op in E2. rewrite Hop in E2. simpl in E2. rewrite lin_put_eq in E2 by (done || congruence).
  destruct (decide_put _ _); injection E2 as <- <- <-.
  2,3: split; [|done]; rewrite send_inv_not by done; by apply tracks_same_obj.
  match type of Hnw with not_wrapped ?o => set (op1 := o) in * end.
  assert (Hf1 : op_fits op1).
  { unfold op1. apply set_opcode_fits; [done|]. destruct Hf as [[] ? ? ? ? ? ? ?]. split; try done. split; try done.
    - apply u8_range.
    - apply u32_range. }
  split; [|done]. rewrite send_inv_brc by done. pose proof (ew_meta _ (lw_entry _ Hw)) as Hmeta.
  assert (Hver : version (e_meta (lin_obj c m)) + 2 < 2 ^ 32).
  { apply wrap_free; [apply Hmeta|apply Hmeta|]. apply (Hnw eq_refl). }
  assert (Hnew : about k (bcast_inv m op1)) by (by apply about_bcast).
  eapply (tracks_step F _ m k _ (bcast_inv m op1) [] l); try done; [by constructor|]. unfold tracked_key. rewrite E0.
  eexists. split; [|split; [apply (objs_fupd F k c m _ (lin_net c ++ bcast_inv m op1)), Ho|by apply net_equiv]].
  eapply rtc_r; [exact Hreach|]. left. exact (lin_local_put c m op r _ op1 _ Hm (conj Hf (conj Hop Hvl)) Hver E1).
Qed.

(** Any request of the batch is executed. *)
Lemma track_request F m op r addr Fm' op' r' l :
  m ∈ machines -> tracks F (send_inv m op ++ l) -> request_ok op -> not_wrapped op' ->
  view_exec_one lin_skips (lin_op m) addr (F m) op r = Done (Fm', op', r') ->
  tracks (fupd F m Fm') (send_inv m op' ++ l) /\ op_fits op'.
Proof using HC0.
  intros Hm Ht [Hf Hk] Hnw E. destruct (lin_skips r) eqn:Hr.
  { unfold view_exec_one in E. rewrite Hr in E. injection E as <- <- <-. split; [|done]. by apply tracks_same. }
  destruct Hk as [Hop|[Hop|Hop]].
  - assert (Hs : op' = op /\ forall k, Fm' k = F m k).
    { unfold view_exec_one in E. rewrite Hr in E. destruct (F m (key_word op)) as [e|] eqn:He.
      - unfold lin_op in E. rewrite Hop in E. simpl in E. injection E as <- <- <-. split; [done|].
        intros k. unfold fupd. by destruct (Z.eqb_spec k (key_word op)) as [->|].
      - by injection E as <- <- <-. }
    destruct Hs as [-> HF]. split; [|done]. eapply tracks_equiv; [|done|exact Ht].
    intros m' k. unfold fupd. destruct (Z.eqb_spec m' m) as [->|]; [apply HF|done].
  - rewrite send_inv_not in Ht by (unfold is_brc; by rewrite (proj1 (proj2 Hop))). by apply (track_put F m op r addr Fm' op' r' l).
  - assert (Hno : ~ is_brc op) by (unfold is_brc; by rewrite Hop). rewrite send_inv_not in Ht by done.
    unfold view_exec_one in E. rewrite Hr in E. destruct (F m (key_word op)) as [e|] eqn:He.
    2:{ injection E as <- <- <-. split; [|done]. rewrite send_inv_not by done. by apply tracks_same. }
    destruct (tracks_obj F _ m _ e Hm Ht He) as (c0 & c & E0 & Hreach & Hok & -> & Ho & Hn). destruct (lo_obj _ Hok m Hm) as [Hw Hl].
    apply obind_Done_inv in E as ([[e' op1] r1] & E & E'). injection E' as <- <- <-. set (k := key_word op) in *.
    assert (Hop1 : opcode op1 = CACHE_OP_GET /\ op_fits op1).
    { pose proof E as E1. unfold lin_op in E1. rewrite Hop in E1. simpl in E1. rewrite lin_get_eq in E1 by done.
      injection E1 as _ <- _. split; [done|]. destruct Hf as [[] ? ? ? ? ? ? ?]. split; try done. split; try done.
      destruct (state_cases _ (lw_state _ Hw)) as [Es|[Es|[Es|[Es|Es]]]]; rewrite Es; simpl; rewrite ?Es; unfold is_u8; done. }
    destruct Hop1 as [Hop1 Hf1]. split; [|done]. rewrite send_inv_not by (unfold is_brc; by rewrite Hop1).
    eapply (tracks_step F _ m k _ [] [] l); try done; [by constructor|by constructor|]. unfold tracked_key. rewrite E0.
    eexists. split; [|split; [apply (objs_fupd F k c m _ (lin_net c)), Ho|exact Hn]].
    eapply rtc_r; [exact Hreach|]. left. exact (lin_local_get c m _ op r _ op1 _ Hm Hop E).
Qed.

(** ** Batches *)
Section batch.
Context (m : Z) (Hm : m ∈ machines) (F : Z -> Z -> option entry).

Lemma fupd_twice Fm Fm' l : tracks (fupd (fupd F m Fm) m Fm') l -> tracks (fupd F m Fm') l.
Proof using. apply tracks_equiv; [|done]. intros m' k. unfold fupd. by destruct (_ =? _). Qed.

(** Operations one after the other, each with the messages it takes and sends. *)
Lemma track_exec (h : handler) addr (before after : cache_op * mica_resp -> list msg)
    (P Q R : cache_op * mica_resp -> Prop) :
  (forall F op r Fm' op' r' l, P (op, r) -> Q (op', r') -> tracks F (before (op, r) ++ l) ->
     view_exec_one lin_skips h addr (F m) op r = Done (Fm', op', r') ->
     tracks (fupd F m Fm') (after (op', r') ++ l) /\ R (op', r')) ->
  forall l Fm Fm' out rest, Forall P l -> Forall Q out -> tracks (fupd F m Fm) ((l ≫= before) ++ rest) ->
    view_exec lin_skips h addr Fm l = Done (Fm', out) ->
    tracks (fupd F m Fm') ((out ≫= after) ++ rest) /\ Forall R out.
Proof using.
  intros Hone. induction l as [|[op r] l IH]; intros Fm Fm' out rest HP HQ Ht E; simpl in E.
  { by injection E as <- <-. }
  apply obind_Done_inv in E as ([[F1 op1] r1] & E1 & E). apply obind_Done_inv in E as ([F2 out2] & E2 & E).
  injection E as <- <-. apply Forall_cons in HP as [HP1 HP]. apply Forall_cons in HQ as [HQ1 HQ].
  rewrite bind_cons, <- app_assoc in Ht. rewrite bind_cons.
  assert (E1' : view_exec_one lin_skips h addr (fupd F m Fm m) op r = Done (F1, op1, r1)) by (by rewrite fupd_eq).
  destruct (Hone _ _ _ _ _ _ _ HP1 HQ1 Ht E1') as [Ht1%fupd_twice HR1].
  assert (Ht2 : tracks (fupd F m F1) ((l ≫= before) ++ after (op1, r1) ++ rest)).
  { eapply tracks_equiv; [done| |exact Ht1]. apply msgs_equiv_Permutation. solve_Permutation. }
  destruct (IH _ _ _ _ HP HQ Ht2 E2) as [Ht3 HR]. split; [|by constructor].
  eapply tracks_equiv; [done| |exact Ht3]. apply msgs_equiv_Permutation. solve_Permutation.
Qed.

Lemma with_resp_fst resp us : (with_resp resp us).*1 = us.
Proof using. unfold with_resp. revert resp. induction us as [|op us IH]; intros resp; [done|]. simpl. f_equal. apply (IH (fun i => resp (S i))). Qed.

Lemma with_resp_Forall (P : cache_op -> Prop) (Q : mica_resp -> Prop) resp us :
  Forall P us -> (forall i, Q (resp i)) -> Forall (fun x => P x.1 /\ Q x.2) (with_resp resp us).
Proof using.
  intros H. unfold with_resp. revert resp. induction H as [|op us Hop _ IH]; intros resp HQ; [constructor|]. simpl. constructor; [split; [exact Hop|apply HQ]|].
  apply (IH (fun i => resp (S i))). intros. apply HQ.
Qed.

Lemma with_resp_msgs resp us : with_resp resp us ≫= (fun x => [mkMsg m x.1]) = mkMsg m <$> us.
Proof using.
  rewrite <- (with_resp_fst resp us) at 2. generalize (with_resp resp us) as l. intros l.
  induction l as [|x l IH]; [done|]. rewrite bind_cons, !fmap_cons, IH. done.
Qed.

Definition answer_ok (x : cache_op * mica_resp) : Prop := op_fits x.1 /\ lin_skips x.2 = false.

(** Messages that are executed are legal operations of the cache. *)
Lemma polled_legal Fm us rest op e :
  tracks (fupd F m Fm) ((mkMsg m <$> us) ++ rest) -> op ∈ us -> op_fits op -> Fm (key_word op) = Some e -> legal (e_val_len e) op.
Proof using HC0 Hm.
  intros Ht Hop Hf He. assert (Hx : mkMsg m op ∈ (mkMsg m <$> us) ++ rest)
    by (apply elem_of_app; left; by apply list_elem_of_fmap_2).
  destruct (tracks_msg _ _ _ Ht Hx) as (c0 & c & [d y] & E0 & Hr & Ho & Hy & Ec & Hok & Hym). injection Ec as -> Ec.
  assert (Hc : op_content op = op_content y) by (unfold op_content; cbn [m_op] in Ec; congruence).
  destruct (content_msg_ok op y m Hf Hc Hym) as [[_ Hev] Hlen].
  specialize (Ho m Hm). rewrite fupd_eq in Ho. cbn [m_op] in Ho. rewrite He in Ho. injection Ho as ->.
  destruct (lo_obj _ Hok m Hm) as [_ Hl]. split; [done| |done]. intros [Hop'|Hop']; [|rewrite Hl; by apply Hlen].
  destruct Hym as [_ _ _ Hcode _]. cbn [m_op] in Hcode. injection Hc as _ _ _ _ Hc _. rewrite <- Hc, Hop' in Hcode.
  apply list_elem_of_In in Hcode as [Hx'|[Hx'|[Hx'|[]]]]; done.
Qed.

Lemma updates_run kv Fm us resp rest :
  coupled lin_wf kv Fm -> tracks (fupd F m Fm) ((mkMsg m <$> us) ++ rest) ->
  Forall op_fits us -> Forall is_upd_or_ack us -> (forall i, lin_skips (resp i) = false) ->
  exists kv' Fm' out, cache_batch_op_lin_non_stalling_sessions_with_cache_op m kv (with_resp resp us) = Done (kv', out) /\
    coupled lin_wf kv' Fm' /\ tracks (fupd F m Fm') ((out ≫= update_msgs m) ++ rest) /\ Forall answer_ok out.
Proof using HC0 Hm.
  intros Hc Ht Hf Hk Hr. pose proof (lin_with_cache_op_HandlerOk m (machines_u8 m Hm)) as Hok.
  destruct (cache_exec_view lin_wf [CACHE_OP_UPD; CACHE_OP_ACK; CACHE_OP_BRC] (lin_with_cache_op m) lin_skips kv Fm
    (with_resp resp us) ((fun x => (x.1, x.2, kv_ptr kv x.1)) <$> with_resp resp us) (value_addr kv) Hc) as (kv' & Fm' & out & E & V & Hc').
  { apply Forall_forall. intros x Hx. assert (Hx1 : x.1 ∈ us) by (rewrite <- (with_resp_fst resp us); by apply list_elem_of_fmap_2).
    pose proof (proj1 (Forall_forall _ _) Hf _ Hx1) as Hfx. split_and!; [done| |intros e He; by eapply polled_legal].
    destruct (proj1 (Forall_forall _ _) Hk _ Hx1) as [-> | ->]; [left|right; left]. }
  { done. }
  { done. }
  exists kv', Fm', out. split; [done|]. split; [done|].
  refine (track_exec (lin_with_cache_op m) (value_addr kv) (fun x => [mkMsg m x.1]) (update_msgs m)
    (fun x => (op_fits x.1 /\ is_upd_or_ack x.1) /\ lin_skips x.2 = false) (fun _ => True) answer_ok _ _ Fm Fm' out rest _ _ _ V).
  - intros F' op r F'' op' r' l [[Hf1 Hk1] Hr1] _ Ht1 E1. cbn [fst snd app] in *.
    destruct (track_update F' m op r _ F'' op' r' l Hm Ht1 Hf1 Hk1 Hr1 E1) as (H1 & -> & H3). done.
  - apply (with_resp_Forall (fun op => op_fits op /\ is_upd_or_ack op) (fun r => lin_skips r = false)); [by apply Forall_and|done].
  - by apply Forall_true.
  - by rewrite with_resp_msgs.
Qed.

Lemma invs_run kv Fm us resp rest :
  coupled lin_wf kv Fm -> tracks (fupd F m Fm) ((mkMsg m <$> us) ++ rest) ->
  Forall op_fits us -> Forall is_inv us -> (forall i, lin_skips (resp i) = false) ->
  exists kv' Fm' out, cache_batch_op_lin_non_stalling_sessions_with_small_cache_op m kv (with_resp resp us) = Done (kv', out) /\
    coupled lin_wf kv' Fm' /\ tracks (fupd F m Fm') ((out ≫= ack_msgs m) ++ rest) /\ Forall answer_ok out.
Proof using HC0 Hm.
  intros Hc Ht Hf Hk Hr.
  destruct (cache_exec_view lin_wf [CACHE_OP_INV] (lin_with_small_cache_op m) lin_skips kv Fm
    (with_resp resp us) ((fun x => (x.1, x.2, kv_ptr kv x.1)) <$> with_resp resp us) (value_addr kv) Hc) as (kv' & Fm' & out & E & V & Hc').
  { apply Forall_forall. intros x Hx. assert (Hx1 : x.1 ∈ us) by (rewrite <- (with_resp_fst resp us); by apply list_elem_of_fmap_2).
    pose proof (proj1 (Forall_forall _ _) Hf _ Hx1) as Hfx. split_and!; [done| |intros e He; by eapply polled_legal].
    pose proof (proj1 (Forall_forall _ _) Hk _ Hx1) as ->. left. }
  { done. }
  { done. }
  exists kv', Fm', out. split; [done|]. split; [done|].
  refine (track_exec (lin_with_small_cache_op m) (value_addr kv) (fun x => [mkMsg m x.1]) (ack_msgs m)
    (fun x => (op_fits x.1 /\ is_inv x.1) /\ lin_skips x.2 = false) (fun _ => True) answer_ok _ _ Fm Fm' out rest _ _ _ V).
  - intros F' op r F'' op' r' l [[Hf1 Hk1] Hr1] _ Ht1 E1. cbn [fst snd app] in *.
    destruct (track_inv F' m op r _ F'' op' r' l Hm Ht1 Hf1 Hk1 Hr1 E1) as (H1 & -> & H3).
    split; [done|]. split; [by apply set_opcode_fits|done].
  - apply (with_resp_Forall (fun op => op_fits op /\ is_inv op) (fun r => lin_skips r = false)); [by apply Forall_and|done].
  - by apply Forall_true.
  - by rewrite with_resp_msgs.
Qed.

(** Invalidations complete on any cache. *)
Lemma invs_complete kv Fm us resp :
  coupled lin_wf kv Fm -> Forall (fun op => msg_ok op /\ is_inv op) us ->
  exists kv' out, cache_batch_op_lin_non_stalling_sessions_with_small_cache_op m kv (with_resp resp us) = Done (kv', out).
Proof using.
  intros Hc Hk.
  destruct (cache_exec_view lin_wf [CACHE_OP_INV] (lin_with_small_cache_op m) lin_skips kv Fm
    (with_resp resp us) ((fun x => (x.1, x.2, kv_ptr kv x.1)) <$> with_resp resp us) (value_addr kv) Hc) as (kv' & Fm' & out & E & _ & _);
    [|done|done|by exists kv', out].
  apply Forall_forall. intros x Hx. assert (Hx1 : x.1 ∈ us) by (rewrite <- (with_resp_fst resp us); by apply list_elem_of_fmap_2).
  destruct (proj1 (Forall_forall _ _) Hk _ Hx1) as [[Hf Hev] Hop]. unfold is_inv in Hop. rewrite Hop.
  split_and!; [done|left|]. intros e _. split; [done| |done]. rewrite Hop. by intros [?|?].
Qed.

Lemma batch_msgs_pairs (l : list (cache_op * mica_resp)) : l ≫= (fun x => send_inv m x.1) = batch_msgs m l.*1.
Proof using. unfold batch_msgs. induction l as [|x l IH]; [done|]. rewrite fmap_cons, !bind_cons, IH. done. Qed.

(** The batch of client requests completes, and is tracked unless a version
    wraps. *)
Lemma requests_run kv Fm (batch : list (cache_op * mica_resp)) rest :
  coupled lin_wf kv Fm -> tracks (fupd F m Fm) (batch_msgs m batch.*1 ++ rest) -> Forall (fun x => request_ok x.1) batch ->
  exists kv' Fm' out, cache_batch_op_lin_non_stalling_sessions m kv batch = Done (kv', out) /\
    coupled lin_wf kv' Fm' /\
    Forall2 (fun x y => lin_served (is_Some (C0 (key_word x.1))) x y) batch out /\
    (Forall (fun x => not_wrapped x.1) out ->
       tracks (fupd F m Fm') (batch_msgs m out.*1 ++ rest) /\ Forall (fun x => op_fits x.1) out).
Proof using HC0 Hm.
  intros Hc Ht Hk. pose proof (lin_op_HandlerOk m (machines_u8 m Hm)) as Hok.
  destruct (cache_exec_view lin_wf _ (lin_op m) lin_skips kv Fm batch
    ((fun x => (x.1, x.2, kv_ptr kv x.1)) <$> batch) (value_addr kv) Hc) as (kv' & Fm' & out & E & V & Hc').
  { eapply Forall_impl; [exact Hk|]. intros [op r] [Hf Hop]. cbn [fst] in *. split_and!; [done| |].
    - destruct Hop as [-> |[(_ & -> & _)| ->]]; apply list_elem_of_In; simpl; tauto.
    - intros e He. destruct (tracks_obj _ _ m _ e Hm Ht ltac:(by rewrite fupd_eq)) as (c0 & c & _ & _ & Hlok & -> & _).
      destruct (lo_obj _ Hlok m Hm) as [_ Hl]. rewrite Hl. unfold is_brc in Hop.
      destruct Hop as [Hop|[(_ & Hop & Hv)|Hop]]; split; try done; rewrite Hop; try (by intros [?|?]); by intros [?|[?|?]]. }
  { done. }
  { done. }
  exists kv', Fm', out. split; [done|]. split; [done|]. split.
  { eapply Forall2_impl; [exact (lin_serve_all m Hm _ _ Fm Fm' out (fun k e => cp_inv _ _ _ Hc k e) Hk V)|].
    intros x y H. eapply lin_served_iff; [|exact H]. rewrite <- (tracks_cached _ _ m _ Hm Ht). by rewrite fupd_eq. }
  intros Hnw. rewrite <- batch_msgs_pairs.
  refine (track_exec (lin_op m) (value_addr kv) (fun x => send_inv m x.1) (fun x => send_inv m x.1)
    (fun x => request_ok x.1) (fun x => not_wrapped x.1) (fun x => op_fits x.1) _ _ Fm Fm' out rest _ Hnw _ V).
  - intros F' op r F'' op' r' l Hr1 Hn1 Ht1 E1. cbn [fst snd] in *. by apply (track_request F' m op r (value_addr kv) F'' op' r' l).
  - done.
  - by rewrite batch_msgs_pairs.
Qed.
End batch.
End tracks.
