(* ===== verification/LinClients.v ===== *)
(** * All LIN clients on all machines

    Every machine runs [CLIENTS_PER_MACHINE] client threads on one cache; the
    threads with the same local id exchange messages with each other (a group).
    A step is a round of one thread, on its machine's cache, or an event of the
    network.  The results of [FlowSystem] hold in every group, and the caches of
    all machines with the messages of all groups are, key by key, a state of
    [LinProtocol]: its guarantees hold for the bytes in the caches' logs.

    Rounds are atomic: between machines only messages are shared, and a message
    that arrives during a round is one that arrives after its poll; that threads
    of one machine may also interleave inside a batch is the subject of
    [Interleave] and [LockedHandlers]. *)
From stdpp Require Import relations.
From S2P Require Import Prelude Config Optik Layout City Mica MicaLog Cache CacheSpec Network.
From S2P Require Import ScProtocol LinSpec LinProtocol Flow FlowSpec FlowRound FlowSystem LinRound LinContent LinServe LinTrack.
#[local] Open Scope lin_scope.

(** ** The system *)
Definition client_ids : list Z := seqZ 0 CLIENTS_PER_MACHINE.

(** The threads of one local id; the arrays by machine. *)
Record group := mkGroup {
  g_sys : system;
  g_update_resp : Z -> nat -> mica_resp;
  g_inv_resp : Z -> nat -> mica_resp;
  g_ops : Z -> list cache_op;
  g_resp : Z -> list mica_resp
}.

Definition thread_of (x : group) (m : Z) : thread :=
  mkThread (clients (g_sys x) m) (g_update_resp x m) (g_inv_resp x m) (g_ops x m) (g_resp x m).

Definition after_round (x : group) (m : Z) (t : thread) (out : sends) : group :=
  mkGroup (mkSys (fupd (clients (g_sys x)) m (t_client t)) (wire (g_sys x) ++ coherence out)
             (fc_wire (g_sys x) ++ credit_msgs out))
    (fupd (g_update_resp x) m (update_resp t)) (fupd (g_inv_resp x) m (inv_resp t))
    (fupd (g_ops x) m (t_ops t)) (fupd (g_resp x) m (t_resp t)).

Definition set_sys (s : system) (x : group) : group :=
  mkGroup s (g_update_resp x) (g_inv_resp x) (g_ops x) (g_resp x).

Record cluster := mkCluster { caches : Z -> mica_kv; groups : Z -> group }.

(** The batch of the next round: requests whose invalidation was not sent are
    carried over, copied to another slot; the rest are requests of clients. *)
Record refilled (old : list cache_op) (new : list (cache_op * mica_resp)) : Prop := {
  rf_carried : Forall2 (fun o n => exists slot, op_fits slot /\ n = recv_put_req slot o)
                 (filter is_brc old) (filter is_brc new.*1);
  rf_ops : Forall (fun x => request_ok x.1) new;
  rf_length : Z.of_nat (length new) <= CACHE_BATCH_SIZE
}.

(** The version of a write that was accepted, sent or not. *)
Definition versions_left (op : cache_op) : Prop :=
  opcode op = CACHE_OP_BRC \/ opcode op = CACHE_OP_INV -> version (meta op) <> 0.

Inductive net_step (s : system) : system -> Prop :=
| net_receive x l c' :
    wire s ≡ₚ x :: l -> nic_receive (m_op x) (clients s (dst x)) = Some c' ->
    net_step s (mkSys (fupd (clients s) (dst x) c') l (fc_wire s))
| net_drop x l :
    wire s ≡ₚ x :: l -> nic_receive (m_op x) (clients s (dst x)) = None ->
    net_step s (mkSys (clients s) l (fc_wire s))
| net_fc_receive x l c' :
    fc_wire s ≡ₚ x :: l -> fc_receive x.2 (clients s x.1) = Some c' ->
    net_step s (mkSys (fupd (clients s) x.1 c') (wire s) l)
| net_fc_drop x l :
    fc_wire s ≡ₚ x :: l -> fc_receive x.2 (clients s x.1) = None ->
    net_step s (mkSys (clients s) (wire s) l).

Inductive cluster_step (s : cluster) : cluster -> Prop :=
| cluster_round g m batch arr1 arr2 kv' t' out :
    g ∈ client_ids -> m ∈ machines -> refilled (g_ops (groups s g) m) batch ->
    lin_round m batch arr1 arr2 (caches s m) (thread_of (groups s g) m) = Done (kv', t', out) ->
    Forall versions_left (t_ops t') ->
    cluster_step s (mkCluster (fupd (caches s) m kv') (fupd (groups s) g (after_round (groups s g) m t' out)))
| cluster_network g s' :
    g ∈ client_ids -> net_step (g_sys (groups s g)) s' ->
    cluster_step s (mkCluster (caches s) (fupd (groups s) g (set_sys s' (groups s g)))).

(** At the start no request is carried over; the responses have type [EMPTY] in
    memory that holds anything. *)
Definition group_start (fresh : Z -> cache_op) (fresh_invs : list cache_op) (junk : nat -> mica_resp) : group :=
  mkGroup (sys_start fresh fresh_invs) (fun _ i => set_type EMPTY (junk i)) (fun _ i => set_type EMPTY (junk i))
    (fun _ => []) (fun _ => []).

Definition cluster_start (kv : Z -> mica_kv) (fresh : Z -> cache_op) (fresh_invs : list cache_op)
    (junk : nat -> mica_resp) : cluster :=
  mkCluster kv (fun _ => group_start fresh fresh_invs junk).

Definition cluster_reach (kv : Z -> mica_kv) (fresh : Z -> cache_op) (fresh_invs : list cache_op)
    (junk : nat -> mica_resp) : cluster -> Prop :=
  rtc cluster_step (cluster_start kv fresh fresh_invs junk).

(** ** All messages *)
Definition group_msgs (x : group) : list msg :=
  wire (g_sys x) ++ (machines ≫= fun m => client_msgs m (clients (g_sys x) m) (g_ops x m)).

Definition cluster_msgs (s : cluster) : list msg := client_ids ≫= fun g => group_msgs (groups s g).

(** One element of a family. *)
Lemma bind_split {A} (f : Z -> A) (h : Z -> A -> list msg) i l : NoDup l -> i ∈ l ->
  exists rest, (l ≫= (fun j => h j (f j))) ≡ₚ h i (f i) ++ rest /\
    forall x, (l ≫= (fun j => h j (fupd f i x j))) ≡ₚ h i x ++ rest.
Proof.
  intros Hnd (l1 & l2 & ->)%list_elem_of_split. apply NoDup_app in Hnd as (_ & Hd & [Hi _]%NoDup_cons).
  assert (Hout : forall x l', i ∉ l' -> (l' ≫= (fun j => h j (fupd f i x j))) = l' ≫= (fun j => h j (f j))).
  { intros x l' Hl'. induction l' as [|j l' IH]; [done|]. apply not_elem_of_cons in Hl' as [Hj Hl'].
    rewrite !bind_cons, (IH Hl'), fupd_ne by congruence. done. }
  exists ((l1 ≫= (fun j => h j (f j))) ++ (l2 ≫= (fun j => h j (f j)))). split; [|intros x].
  - rewrite bind_app, bind_cons. solve_Permutation.
  - rewrite bind_app, bind_cons, fupd_eq, !Hout; [solve_Permutation|done|].
    intros Hin. apply (Hd i Hin). left.
Qed.

Lemma bind_ext_fun {A B} (h1 h2 : A -> list B) l : (forall x, h1 x = h2 x) -> l ≫= h1 = l ≫= h2.
Proof. intros H. induction l as [|x l IH]; [done|]. by rewrite !bind_cons, IH, H. Qed.

Lemma client_split (cl : Z -> client) (ops : Z -> list cache_op) m : m ∈ machines ->
  exists rest, (machines ≫= (fun j => client_msgs j (cl j) (ops j))) ≡ₚ client_msgs m (cl m) (ops m) ++ rest /\
    forall c' o', (machines ≫= (fun j => client_msgs j (fupd cl m c' j) (fupd ops m o' j))) ≡ₚ client_msgs m c' o' ++ rest.
Proof.
  intros Hm. destruct (bind_split (fun j => (cl j, ops j)) (fun j x => client_msgs j x.1 x.2) m machines machines_NoDup Hm)
    as (rest & H1 & H2). exists rest. split; [exact H1|]. intros c' o'. rewrite <- (H2 (c', o')).
  rewrite (bind_ext_fun _ (fun j => client_msgs j (fupd (fun j => (cl j, ops j)) m (c', o') j).1
    (fupd (fun j => (cl j, ops j)) m (c', o') j).2)); [done|]. intros j. unfold fupd. by destruct (_ =? _).
Qed.

Lemma group_split (x : group) m : m ∈ machines ->
  exists rest, group_msgs x ≡ₚ wire (g_sys x) ++ client_msgs m (clients (g_sys x) m) (g_ops x m) ++ rest /\
    (forall t out, group_msgs (after_round x m t out)
       ≡ₚ (wire (g_sys x) ++ coherence out) ++ client_msgs m (t_client t) (t_ops t) ++ rest) /\
    (forall c' w fw, group_msgs (set_sys (mkSys (fupd (clients (g_sys x)) m c') w fw) x)
       ≡ₚ w ++ client_msgs m c' (g_ops x m) ++ rest).
Proof.
  intros Hm. destruct (client_split (clients (g_sys x)) (g_ops x) m Hm) as (rest & H1 & H2). exists rest.
  unfold group_msgs. split_and!.
  - by rewrite H1.
  - intros t out. cbn [after_round g_sys clients wire g_ops]. by rewrite H2.
  - intros c' w fw. cbn [set_sys g_sys clients wire g_ops]. rewrite <- (H2 c' (g_ops x m)). f_equiv.
    rewrite (bind_ext_fun _ (fun j => client_msgs j (fupd (clients (g_sys x)) m c' j) (fupd (g_ops x) m (g_ops x m) j))); [done|].
    intros j. f_equal. unfold fupd. by destruct (Z.eqb_spec j m) as [->|].
Qed.

Lemma client_ids_NoDup : NoDup client_ids.
Proof. apply NoDup_seqZ. Qed.

Lemma cluster_split s g : g ∈ client_ids ->
  exists rest, cluster_msgs s ≡ₚ group_msgs (groups s g) ++ rest /\
    forall kv x, cluster_msgs (mkCluster kv (fupd (groups s) g x)) ≡ₚ group_msgs x ++ rest.
Proof.
  intros Hg. destruct (bind_split (groups s) (fun _ x => group_msgs x) g client_ids client_ids_NoDup Hg) as (rest & H1 & H2).
  exists rest. split; [exact H1|]. intros kv x. exact (H2 x).
Qed.

(** ** The invariant *)
Record group_typed (x : group) : Prop := {
  gt_client : forall m, m ∈ machines -> typed (clients (g_sys x) m);
  gt_ops : forall m, m ∈ machines -> Forall op_fits (g_ops x m);
  gt_resp : forall m i, m ∈ machines -> lin_skips (g_update_resp x m i) = false /\ lin_skips (g_inv_resp x m i) = false;
  gt_wire : Forall (fun y => op_fits (m_op y)) (wire (g_sys x))
}.

Definition flow_ok (s : system) : Prop := exists ring snd S R, sys_inv s ring snd S R.

Record cluster_inv (C0 : Z -> option lin_config) (s : cluster) (F : Z -> Z -> option entry) : Prop := {
  ci_flow : forall g, g ∈ client_ids -> flow_ok (g_sys (groups s g));
  ci_typed : forall g, g ∈ client_ids -> group_typed (groups s g);
  ci_coupled : forall m, m ∈ machines -> coupled lin_wf (caches s m) (F m);
  ci_tracks : tracks C0 F (cluster_msgs s)
}.

Lemma net_step_sys s s' : net_step s s' -> sys_step s s'.
Proof.
  intros [x l c' H1 H2|x l H1 H2|x l c' H1 H2|x l H1 H2];
    [eapply step_receive|eapply step_drop|eapply step_fc_receive|eapply step_fc_drop]; eauto.
Qed.

Lemma flow_ok_client s m : flow_ok s -> m ∈ machines -> exists l snd, client_ok m (clients s m) l snd.
Proof. intros (ring & snd & S & R & H) Hm. exists (ring m), (snd m). exact (si_client _ _ _ _ _ H m Hm). Qed.

(** *** A round *)
Lemma refilled_msgs m old new : refilled old new -> batch_msgs m old ≡ₘ batch_msgs m new.*1.
Proof.
  intros [H _ _]. assert (Hf : forall l, batch_msgs m l = filter is_brc l ≫= bcast_inv m).
  { intros l. unfold batch_msgs. induction l as [|op l IH]; [done|]. rewrite bind_cons, filter_cons. unfold send_inv at 1.
    destruct (decide (is_brc op)); [rewrite bind_cons|]; by rewrite IH. }
  rewrite !Hf. apply bind_equiv. eapply Forall2_impl; [exact H|]. intros o n (slot & _ & ->).
  apply msgs_equiv_Forall2, Forall2_fmap, Forall_Forall2_diag, Forall_true. done.
Qed.

(** What the broadcasts do to the requests of the batch. *)
Definition sent_as (a b : cache_op) : Prop :=
  b = a \/ (is_brc a /\ opcode b = CACHE_OP_INV /\ version (meta b) = version (meta a) /\ key_word b = key_word a).

Lemma sent_as_trans l1 l2 l3 : Forall2 sent_as l1 l2 -> Forall2 sent_as l2 l3 -> Forall2 sent_as l1 l3.
Proof.
  intros H. revert l3. induction H as [|a b l1 l2 Hab _ IH]; intros l3 H3; inversion H3 as [|? c ? l3' Hbc H3']; subst; constructor; [|by apply IH].
  destruct Hab as [-> |(H1 & H2 & H3'' & H4'')]; [done|]. destruct Hbc as [-> |(H4 & _)]; [by right|]. unfold is_brc in H4. by rewrite H2 in H4.
Qed.

Lemma sent_as_refl l : Forall2 sent_as l l.
Proof. apply Forall_Forall2_diag, Forall_true. by left. Qed.

Lemma forge_sent_as m op_i st :
  ((op_i <? CACHE_BATCH_SIZE) = true -> exists op, bc_ops st !! Z.to_nat op_i = Some op /\ is_brc op) ->
  Forall2 sent_as (bc_ops st) (bc_ops (forge_bcast_wrs_LIN m op_i st)).
Proof.
  intros H. unfold forge_bcast_wrs_LIN. destruct (op_i <? CACHE_BATCH_SIZE); [|apply sent_as_refl].
  destruct (H eq_refl) as (op & Hl & Hop). cbn [bc_ops]. rewrite (nth_lookup_Some _ _ _ _ Hl).
  rewrite <- (list_insert_id (bc_ops st) (Z.to_nat op_i) op Hl) at 1. apply Forall2_insert; [apply sent_as_refl|].
  right. by split.
Qed.

Lemma bcast_loop_sent_as m fuel : forall op_i st st',
  bcast_loop m fuel op_i st = Done st' -> Forall2 sent_as (bc_ops st) (bc_ops st').
Proof.
  induction fuel as [|fuel IH]; intros op_i st st' H; [done|]. cbn [bcast_loop] in H.
  destruct (_ <? _) in H; [|injection H as <-; apply sent_as_refl].
  destruct ((op_i <? CACHE_BATCH_SIZE) && _) eqn:Hskip in H; [by apply IH in H|].
  set (st1 := if op_i <? CACHE_BATCH_SIZE then st else _) in H.
  assert (H1 : bc_ops st1 = bc_ops st) by (unfold st1; by destruct (op_i <? _)). clearbody st1.
  destruct (check_broadcast_credits m _ _ _) as [[ok arr] lg].
  destruct ok; [|destruct (op_i <? CACHE_BATCH_SIZE); [apply IH in H; by rewrite <- H1|injection H as <-; rewrite <- H1; apply sent_as_refl]].
  apply obind_Done_inv in H as (st2 & E & H). apply finish_bcast_same in E as (E1 & _). apply IH in H.
  eapply sent_as_trans; [|exact H]. rewrite E1, <- H1. apply (forge_sent_as m op_i (set_bc_ledger arr lg st1)).
  intros Hi. cbn [set_bc_ledger bc_ops]. rewrite H1. rewrite Hi in Hskip. cbn [andb] in Hskip.
  destruct (bc_ops st !! Z.to_nat op_i) as [op|]; [|done]. exists op. split; [done|].
  apply negb_false_iff, Z.eqb_eq in Hskip. done.
Qed.

Lemma broadcasts_sent_as m ops q count lg arr tx st :
  perform_broadcasts_LIN m ops q count lg arr tx = Done st -> Forall2 sent_as ops (bc_ops st).
Proof.
  unfold perform_broadcasts_LIN. generalize (S (Z.to_nat (CACHE_BATCH_SIZE + ack_size q))) as fuel. intros fuel H.
  apply obind_Done_inv in H as (st1 & E & H). apply bcast_loop_sent_as in E.
  apply obind_Done_inv in H as (st2 & E2 & H). apply post_credit_recvs_same in E2 as (E3 & _). injection H as <-.
  cbn [bc_ops set_bc_ack]. by rewrite E3.
Qed.

Lemma sent_not_wrapped ops ops' : Forall2 sent_as ops ops' -> Forall versions_left ops' -> Forall not_wrapped ops.
Proof.
  induction 1 as [|a b l1 l2 Hab _ IH]; intros Hv; [done|]. apply Forall_cons in Hv as [Hb Hv]. constructor; [|by apply IH].
  intros Ha. destruct Hab as [->|(_ & H1 & H2 & _)]; [apply Hb; by left|]. rewrite <- H2. apply Hb. by right.
Qed.

Lemma round_msgs_fits m ops acks : Forall op_fits ops -> Forall (fun x => op_fits (m_op x)) acks ->
  Forall (fun x => op_fits (m_op x)) (round_msgs m ops acks).
Proof.
  intros Ho Ha. apply Forall_app. split; [|done]. apply Forall_join, Forall_fmap. eapply Forall_impl; [exact Ho|].
  intros op Hop. unfold compose. apply Forall_fmap, Forall_true. intros d. exact Hop.
Qed.

Lemma resp_put_ok (P : mica_resp -> Prop) l resp : Forall P l -> (forall i, P (resp i)) -> forall i, P (resp_put l resp i).
Proof.
  intros Hl Hr i. unfold resp_put. destruct (l !! i) as [r|] eqn:E; [|apply Hr]. exact (Forall_lookup_1 _ _ _ _ Hl E).
Qed.

Section invariant.
Context (C0 : Z -> option lin_config) (HC0 : forall k c, C0 k = Some c -> lin_inv_ok c).

(** *** A thread's round on its machine's cache *)
Section thread_round.
Context (m : Z) (Hm : m ∈ machines) (F : Z -> Z -> option entry) (kv : mica_kv) (t : thread).
Context (l : list cache_op) (snd : list Z) (Hck : client_ok m (t_client t) l snd) (Hty : typed (t_client t)).
Context (Hresp : forall i, lin_skips (update_resp t i) = false /\ lin_skips (inv_resp t i) = false).
Context (batch : list (cache_op * mica_resp)) (Hbatch : Forall (fun x => request_ok x.1) batch).
Context (Hc : coupled lin_wf kv (F m)) (rest : list msg).
Context (Ht : tracks C0 F (client_msgs m (t_client t) batch.*1 ++ rest)).

Let polled_ups (p : polled) : list cache_op := array_take (update_ops_i p) (po_update_ops p).
Let polled_is (p : polled) : list cache_op := array_take (inv_ops_i p) (po_inv_ops p).

(** The messages of the round before the cache executes them. *)
Lemma round_polled : exists p,
  poll_coherence_LIN (c_inbox (t_client t)) (c_update_ops (t_client t)) (c_inv_ops (t_client t))
    (ack_size (c_acks (t_client t))) (inv_size (c_invs (t_client t))) = Done p /\
  Forall op_fits (polled_ups p) /\ Forall is_upd_or_ack (polled_ups p) /\
  Forall op_fits (polled_is p) /\ Forall is_inv (polled_is p) /\
  tracks C0 (fupd F m (F m))
    ((mkMsg m <$> polled_ups p) ++ batch_msgs m batch.*1 ++ (mkMsg m <$> polled_is p)
     ++ (mkMsg m <$> unread (po_inbox p)) ++ queue_msgs m (c_acks (t_client t)) 0
     ++ buffer_msgs m (c_invs (t_client t)) ++ rest).
Proof using Hck Hty Ht.
  destruct Hck as [K1 K2 K3 _ _ _ _ _ _].
  destruct (poll_coherence_ok m _ l snd K1 K2 K3) as (p & read & rest' & E & El & _ & _ & [R1 R2 R3 R4]).
  assert (Hp : poll_typed p) by (eapply poll_loop_typed; [exact E|destruct Hty; by split]).
  assert (Hread : Forall (is_msg m) read).
  { pose proof (rg_msgs _ _ _ K1) as Hl. rewrite El in Hl. by apply Forall_app in Hl as [? _]. }
  destruct (read_kinds m read Hread) as [Hku Hki]. destruct R2 as [P1 P2 P3 P4 P5]. cbn [app] in P1, P2.
  exists p. split_and!; try done.
  - apply Forall_fmap, Forall_true. intros i. apply Hp.
  - eapply received_Forall; [|exact P1|eapply Forall_impl; [exact Hku|by intros op [_ ?]]]. unfold is_upd_or_ack. by intros x y [_ ->].
  - apply Forall_fmap, Forall_true. intros i. apply Hp.
  - eapply received_Forall; [|exact P2|eapply Forall_impl; [exact Hki|by intros op [? _]]]. unfold is_inv. by intros x y [_ ->].
  - apply tracks_same. eapply tracks_equiv; [done| |exact Ht]. unfold client_msgs.
    rewrite (unread_spec _ _ _ K1), El, fmap_app, (unread_spec _ _ _ R1), <- (split_read m read).
    assert (Hf : Forall op_fits read) by (pose proof (ring_fits _ _ _ K1 (ty_incoming _ Hty)) as H; rewrite El in H; by apply Forall_app in H as [? _]).
    rewrite <- (polled_content m p (updates_of read) (invs_of read)); [|by split|by apply filter_Forall|by apply filter_Forall].
    apply msgs_equiv_Permutation. unfold polled_ups, polled_is. solve_Permutation.
Qed.

(** The round completes on the real cache. *)
Lemma round_completes arr1 arr2 : exists kv' t' out, lin_round m batch arr1 arr2 kv t = Done (kv', t', out).
Proof using HC0 Hm Hck Hty Hresp Hbatch Hc Ht.
  destruct round_polled as (p & E1 & Hf1 & Hk1 & Hf2 & Hk2 & Ht1).
  assert (Hr : forall i, lin_skips (update_resp t i) = false) by (intros i; apply Hresp).
  assert (Hmsg : Forall (fun op => msg_ok op /\ is_inv op) (polled_is p)).
  { apply Forall_forall. intros op Hop. pose proof (proj1 (Forall_forall _ _) Hk2 _ Hop) as Hi. split; [|done].
    pose proof (proj1 (Forall_forall _ _) Hf2 _ Hop) as Hfo. split; [done|].
    assert (Ht2 : tracks C0 (fupd F m (F m)) ((mkMsg m <$> polled_is p) ++ (mkMsg m <$> polled_ups p)
      ++ batch_msgs m batch.*1 ++ (mkMsg m <$> unread (po_inbox p)) ++ queue_msgs m (c_acks (t_client t)) 0
      ++ buffer_msgs m (c_invs (t_client t)) ++ rest))
      by (eapply tracks_equiv; [done| |exact Ht1]; apply msgs_equiv_Permutation; solve_Permutation).
    destruct (tracks_msg C0 HC0 _ _ (mkMsg m op) Ht2 ltac:(apply elem_of_app; left; by apply list_elem_of_fmap_2))
      as (e0 & c & y & _ & _ & Ho & _).
    specialize (Ho m Hm). rewrite fupd_eq in Ho. cbn [m_op] in Ho.
    apply (polled_legal C0 HC0 m Hm F _ _ _ op _ Ht2 Hop Hfo Ho). rewrite Hi. tauto. }
  destruct (updates_run C0 HC0 m Hm F kv (F m) (polled_ups p) (update_resp t) _ Hc Ht1 Hf1 Hk1 Hr) as (kv1 & F1 & ups & E2 & Hc1 & Ht2 & _).
  destruct (requests_run C0 HC0 m Hm F kv1 F1 batch ((ups ≫= update_msgs m) ++ (mkMsg m <$> polled_is p)
    ++ (mkMsg m <$> unread (po_inbox p)) ++ queue_msgs m (c_acks (t_client t)) 0
    ++ buffer_msgs m (c_invs (t_client t)) ++ rest) Hc1) as (kv2 & F2 & ops & E3 & Hc2 & _); [|done|].
  { eapply tracks_equiv; [done| |exact Ht2]. apply msgs_equiv_Permutation. solve_Permutation. }
  destruct (invs_complete m kv2 F2 (polled_is p) (inv_resp t) Hc2 Hmsg) as (kv3 & invs & E4).
  destruct (flow_round_ok m Hm _ _ (lin_updates_answers m kv (update_resp t)) (lin_invs_answers m kv2 (inv_resp t))
    _ l snd ops.*1 arr1 arr2 Hck) as (c' & l' & snd' & ops' & out & E5 & _).
  eexists _, _, _. exact (flow_lin_round m batch arr1 arr2 kv t p ups ops invs kv1 kv2 kv3 c' ops' out E1 E2 E3 E4 E5).
Qed.

(** What the cache answers the batch of the round. *)
Lemma round_served p ups ops kv1 kv2 :
  poll_coherence_LIN (c_inbox (t_client t)) (c_update_ops (t_client t)) (c_inv_ops (t_client t))
    (ack_size (c_acks (t_client t))) (inv_size (c_invs (t_client t))) = Done p ->
  cache_batch_op_lin_non_stalling_sessions_with_cache_op m kv (with_resp (update_resp t) (polled_ups p)) = Done (kv1, ups) ->
  cache_batch_op_lin_non_stalling_sessions m kv1 batch = Done (kv2, ops) ->
  Forall2 (fun x y => lin_served (is_Some (C0 (key_word x.1))) x y) batch ops /\
  Forall (fun x => is_brc x.1 -> is_Some (C0 (key_word x.1))) batch.
Proof using HC0 Hm Hck Hty Hresp Hbatch Hc Ht.
  intros R1 R3 R5. destruct round_polled as (p' & E1 & Hf1 & Hk1 & Hf2 & Hk2 & Ht1). rewrite R1 in E1. injection E1 as <-.
  assert (Hr : forall i, lin_skips (update_resp t i) = false) by (intros i; apply Hresp).
  destruct (updates_run C0 HC0 m Hm F kv (F m) (polled_ups p) (update_resp t) _ Hc Ht1 Hf1 Hk1 Hr) as (kv1' & F1 & ups' & E2 & Hc1 & Ht2 & _).
  rewrite R3 in E2. injection E2 as <- <-.
  destruct (requests_run C0 HC0 m Hm F kv1 F1 batch ((ups ≫= update_msgs m) ++ (mkMsg m <$> polled_is p)
    ++ (mkMsg m <$> unread (po_inbox p)) ++ queue_msgs m (c_acks (t_client t)) 0
    ++ buffer_msgs m (c_invs (t_client t)) ++ rest) Hc1) as (kv2' & F2 & ops' & E3 & _ & Hs & _); [|done|].
  { eapply tracks_equiv; [done| |exact Ht2]. apply msgs_equiv_Permutation. solve_Permutation. }
  rewrite R5 in E3. injection E3 as <- <-. split; [done|]. apply Forall_forall. intros x Hx Hb.
  destruct (lookup_lt_is_Some_2 (others m) 0) as [d Hd%list_elem_of_lookup_2]; [rewrite length_others by done; simpl; lia|].
  destruct (tracks_msg C0 HC0 _ _ (mkMsg d (forge_inv m x.1)) Ht) as (c0 & _ & _ & E0 & _).
  { apply elem_of_app. left. unfold client_msgs, batch_msgs. rewrite !elem_of_app. right. left.
    apply list_elem_of_bind. exists x.1. split; [|by apply list_elem_of_fmap_2]. rewrite send_inv_brc by done.
    unfold bcast_inv. apply list_elem_of_fmap. by exists d. }
  cbn [m_op] in E0. by exists c0.
Qed.

(** After the round the same key by key relation holds, with what was sent. *)
Lemma round_tracked arr1 arr2 kv' t' out :
  lin_round m batch arr1 arr2 kv t = Done (kv', t', out) -> Forall versions_left (t_ops t') ->
  exists Fm', coupled lin_wf kv' Fm' /\
    tracks C0 (fupd F m Fm') (client_msgs m (t_client t') (t_ops t') ++ coherence out ++ rest) /\
    typed (t_client t') /\ Forall op_fits (t_ops t') /\ Forall (fun x => op_fits (m_op x)) (coherence out) /\
    forall i, lin_skips (update_resp t' i) = false /\ lin_skips (inv_resp t' i) = false.
Proof using HC0 Hm Hck Hty Hresp Hbatch Hc Ht.
  intros H Hv. destruct (lin_round_inv _ _ _ _ _ _ _ _ _ H)
    as (p & ups & ops & invs & kv1 & kv2 & count1 & count2 & q & b & bc & ak & fc & cq & Hrun & Eres).
  destruct Hrun as [R1 R2 R3 R4 R5 R6 R7 R8 R9 R10] eqn:ER. clear ER.
  destruct round_polled as (p' & E1 & Hf1 & Hk1 & Hf2 & Hk2 & Ht1). rewrite R1 in E1. injection E1 as <-.
  injection Eres as -> ->. cbn [round_result fst Datatypes.snd t_ops coherence] in Hv |- *.
  assert (Hr : forall i, lin_skips (update_resp t i) = false) by (intros i; apply Hresp).
  assert (Hri : forall i, lin_skips (inv_resp t i) = false) by (intros i; apply Hresp).
  destruct (updates_run C0 HC0 m Hm F kv (F m) (polled_ups p) (update_resp t) _ Hc Ht1 Hf1 Hk1 Hr) as (kv1' & F1 & ups' & E2 & Hc1 & Ht2 & Ha1).
  unfold polled_ups in E2. rewrite R3 in E2. injection E2 as <- <-.
  destruct (requests_run C0 HC0 m Hm F kv1 F1 batch ((ups ≫= update_msgs m) ++ (mkMsg m <$> polled_is p)
    ++ (mkMsg m <$> unread (po_inbox p)) ++ queue_msgs m (c_acks (t_client t)) 0
    ++ buffer_msgs m (c_invs (t_client t)) ++ rest) Hc1) as (kv2' & F2 & ops' & E3 & Hc2 & _ & Ht3); [|done|].
  { eapply tracks_equiv; [done| |exact Ht2]. apply msgs_equiv_Permutation. solve_Permutation. }
  rewrite R5 in E3. injection E3 as <- <-.
  destruct Ht3 as [Ht3 Ha2].
  { apply Forall_fst, (sent_not_wrapped _ (bc_ops bc)); [by eapply broadcasts_sent_as|done]. }
  destruct (invs_run C0 HC0 m Hm F kv2 F2 (polled_is p) (inv_resp t) (batch_msgs m ops.*1 ++ (ups ≫= update_msgs m)
    ++ (mkMsg m <$> unread (po_inbox p)) ++ queue_msgs m (c_acks (t_client t)) 0
    ++ buffer_msgs m (c_invs (t_client t)) ++ rest) Hc2) as (kv3' & F3 & invs' & E4 & Hc3 & Ht4 & Ha3); [|done|done|done|].
  { eapply tracks_equiv; [done| |exact Ht3]. apply msgs_equiv_Permutation. solve_Permutation. }
  unfold polled_is in E4. rewrite R6 in E4. injection E4 as <- <-.
  assert (Hfits : forall x, Forall answer_ok x -> Forall op_fits x.*1)
    by (intros x Hx; apply Forall_fst; eapply Forall_impl; [exact Hx|]; by intros y [? _]).
  destruct (round_run_typed m batch arr1 arr2 kv t p ups ops invs kv1 kv2 kv' count1 count2 q b bc ak fc cq Hrun Hty
    (Hfits _ Ha1) (proj2 (Forall_fst _ _) Ha2) (Hfits _ Ha3)) as (_ & Hbt & Hat & Hty').
  exists F3. split; [done|]. split; [|split; [exact Hty'|split; [apply Hbt|split]]].
  - eapply tracks_equiv; [done| |exact Ht4].
    pose proof (run_msgs m Hm _ _ _ _ _ _ _ _ _ _ _ _ _ _ _ _ _ _ _ _ Hrun l snd Hck) as Hmsgs.
    rewrite app_assoc, Hmsgs. apply msgs_equiv_Permutation. solve_Permutation.
  - apply round_msgs_fits; [apply Hbt|apply Hat].
  - intros i. cbn [update_resp inv_resp]. split; apply resp_put_ok; try done;
      apply Forall_snd; (eapply Forall_impl; [eassumption|]); by intros y [_ ?].
Qed.
End thread_round.

(** The messages of a state, seen from a thread about to run [batch]. *)
Lemma thread_tracks s F g m batch :
  cluster_inv C0 s F -> g ∈ client_ids -> m ∈ machines -> refilled (g_ops (groups s g) m) batch ->
  exists rest, tracks C0 F (client_msgs m (clients (g_sys (groups s g)) m) batch.*1 ++ rest).
Proof using.
  intros [_ _ _ I4] Hg Hm Hrf. destruct (cluster_split s g Hg) as (r2 & Hs1 & _).
  destruct (group_split (groups s g) m Hm) as (r1 & Hg1 & _). exists (wire (g_sys (groups s g)) ++ r1 ++ r2).
  eapply tracks_equiv; [done| |exact I4]. rewrite (msgs_equiv_Permutation _ _ Hs1), (msgs_equiv_Permutation _ _ Hg1).
  unfold client_msgs. rewrite (refilled_msgs m _ _ Hrf). apply msgs_equiv_Permutation. solve_Permutation.
Qed.

Lemma cluster_completes s F g m batch arr1 arr2 :
  cluster_inv C0 s F -> g ∈ client_ids -> m ∈ machines -> refilled (g_ops (groups s g) m) batch ->
  exists kv' t' out, lin_round m batch arr1 arr2 (caches s m) (thread_of (groups s g) m) = Done (kv', t', out).
Proof using HC0.
  intros HI Hg Hm Hrf. destruct (thread_tracks s F g m batch HI Hg Hm Hrf) as [rest Ht]. destruct HI as [I1 I2 I3 _].
  destruct (flow_ok_client _ m (I1 g Hg) Hm) as (l & snd & Hck). destruct (I2 g Hg) as [G1 G2 G3 G4].
  exact (round_completes m Hm F (caches s m) (thread_of (groups s g) m) l snd Hck (G1 m Hm) (fun i => G3 m i Hm) batch
    (rf_ops _ _ Hrf) (I3 m Hm) rest Ht arr1 arr2).
Qed.

Lemma cluster_served s F g m batch arr1 arr2 p ups ops invs kv1 kv2 kv3 count1 count2 q b bc ak fc cq :
  cluster_inv C0 s F -> g ∈ client_ids -> m ∈ machines -> refilled (g_ops (groups s g) m) batch ->
  round_run m batch arr1 arr2 (caches s m) (thread_of (groups s g) m) p ups ops invs kv1 kv2 kv3 count1 count2 q b bc ak fc cq ->
  Forall2 (fun x y => lin_served (is_Some (C0 (key_word x.1))) x y) batch ops /\
  Forall (fun x => is_brc x.1 -> is_Some (C0 (key_word x.1))) batch.
Proof using HC0.
  intros HI Hg Hm Hrf [R1 _ R3 _ R5 _ _ _ _ _].
  destruct (thread_tracks s F g m batch HI Hg Hm Hrf) as [rest Ht]. destruct HI as [I1 I2 I3 _].
  destruct (flow_ok_client _ m (I1 g Hg) Hm) as (l & snd & Hck). destruct (I2 g Hg) as [G1 G2 G3 G4].
  exact (round_served m Hm F (caches s m) (thread_of (groups s g) m) l snd Hck (G1 m Hm) (fun i => G3 m i Hm) batch
    (rf_ops _ _ Hrf) (I3 m Hm) rest Ht p ups ops kv1 kv2 R1 R3 R5).
Qed.

Lemma cluster_inv_round s F g m batch arr1 arr2 kv' t' out :
  cluster_inv C0 s F -> g ∈ client_ids -> m ∈ machines -> refilled (g_ops (groups s g) m) batch ->
  lin_round m batch arr1 arr2 (caches s m) (thread_of (groups s g) m) = Done (kv', t', out) ->
  Forall versions_left (t_ops t') ->
  exists F', cluster_inv C0 (mkCluster (fupd (caches s) m kv') (fupd (groups s) g (after_round (groups s g) m t' out))) F'.
Proof using HC0.
  intros [I1 I2 I3 I4] Hg Hm Hrf E Hv. set (x := groups s g) in *. destruct (I2 g Hg) as [G1 G2 G3 G4]. fold x in G1, G2, G3, G4.
  destruct (flow_ok_client _ m (I1 g Hg) Hm) as (l & snd & Hck). fold x in Hck.
  destruct (cluster_split s g Hg) as (r2 & Hs1 & Hs2). destruct (group_split x m Hm) as (r1 & Hg1 & Hg2 & _). fold x in Hs1.
  assert (Ht : tracks C0 F (client_msgs m (t_client (thread_of x m)) batch.*1 ++ wire (g_sys x) ++ r1 ++ r2)).
  { eapply tracks_equiv; [done| |exact I4]. rewrite (msgs_equiv_Permutation _ _ Hs1), (msgs_equiv_Permutation _ _ Hg1).
    unfold client_msgs. cbn [thread_of t_client]. rewrite (refilled_msgs m _ _ Hrf). apply msgs_equiv_Permutation. solve_Permutation. }
  destruct (round_tracked m Hm F (caches s m) (thread_of x m) l snd Hck (G1 m Hm) (fun i => G3 m i Hm) batch (rf_ops _ _ Hrf)
    (I3 m Hm) _ Ht arr1 arr2 kv' t' out E Hv) as (Fm' & Hc & Ht' & T1 & T2 & T3 & T4).
  exists (fupd F m Fm'). split; cbn [caches groups].
  - intros g' Hg'. unfold fupd. destruct (Z.eqb_spec g' g) as [->|]; [|by apply I1]. cbn [after_round g_sys].
    destruct (lin_round_inv _ _ _ _ _ _ _ _ _ E) as (p & ups & ops & invs & kv1 & kv2 & count1 & count2 & q & b & bc & ak & fc & cq & Hrun & Eres).
    apply round_run_flow in Hrun. rewrite <- Eres in Hrun. cbn [fst Datatypes.snd] in Hrun.
    apply (sys_step_inv (g_sys x)); [|by apply I1].
    exact (step_round (g_sys x) m _ _ _ _ _ _ _ _ Hm (lin_updates_answers m _ _) (lin_invs_answers m _ _) Hrun).
  - intros g' Hg'. unfold fupd at 1. destruct (Z.eqb_spec g' g) as [->|]; [|by apply I2].
    split; cbn [after_round g_sys clients g_ops g_update_resp g_inv_resp wire].
    + intros m' Hm'. unfold fupd. destruct (_ =? _); [done|by apply G1].
    + intros m' Hm'. unfold fupd. destruct (_ =? _); [done|by apply G2].
    + intros m' i Hm'. unfold fupd. destruct (_ =? _); [apply T4|by apply G3].
    + by apply Forall_app.
  - intros m' Hm'. unfold fupd. destruct (Z.eqb_spec m' m) as [->|]; [done|by apply I3].
  - eapply tracks_equiv; [done| |exact Ht']. rewrite (msgs_equiv_Permutation _ _ (Hs2 _ _)), (msgs_equiv_Permutation _ _ (Hg2 _ _)).
    apply msgs_equiv_Permutation. solve_Permutation.
Qed.

(** *** The network *)

(** A received message is one more unread message. *)
Lemma receive_msgs m c l snd op c' ops :
  client_ok m c l snd -> is_msg m op -> op_fits op -> nic_receive op c = Some c' -> typed c ->
  client_msgs m c' ops ≡ₘ mkMsg m op :: client_msgs m c ops /\ typed c'.
Proof using.
  intros Hck Hop Hf E [T1 T2 T3 T4 T5]. unfold nic_receive in E.
  destruct (Z.ltb_spec 0 (recvs (c_inbox c))) as [Hr|]; [|done]. injection E as <-.
  fold (recv_msg (incoming_reqs (c_inbox c) (nic_ptr (c_inbox c))) op). set (slot := recv_msg _ op).
  assert (Hs : op_fits slot) by (by apply recv_msg_fits). split; [|split; try done; by apply fupd_fits].
  pose proof (ck_ring _ _ _ _ Hck) as K1.
  pose proof (ring_push m (c_inbox c) l op slot K1 Hr Hop ltac:(apply received_header; by eexists)) as K2.
  unfold client_msgs. cbn [c_inbox c_acks c_invs]. rewrite (unread_spec _ _ _ K1), (unread_spec _ _ _ K2), fmap_app.
  assert (Hm1 : [mkMsg m slot] ≡ₘ [mkMsg m op]).
  { apply msgs_equiv_Forall2. constructor; [|constructor]. unfold msg_content. cbn [dst m_op]. f_equal. by apply recv_content. }
  change (mkMsg m op :: ?l) with ([mkMsg m op] ++ l). cbn [fmap list_fmap]. rewrite Hm1.
  apply msgs_equiv_Permutation. solve_Permutation.
Qed.

Lemma cluster_inv_network s F g s' :
  cluster_inv C0 s F -> g ∈ client_ids -> net_step (g_sys (groups s g)) s' ->
  cluster_inv C0 (mkCluster (caches s) (fupd (groups s) g (set_sys s' (groups s g)))) F.
Proof using.
  intros [I1 I2 I3 I4] Hg Hn. set (x := groups s g) in *. destruct (I2 g Hg) as [G1 G2 G3 G4]. fold x in G1, G2, G3, G4.
  destruct (cluster_split s g Hg) as (r2 & Hs1 & Hs2). fold x in Hs1.
  enough (Hx : group_msgs (set_sys s' x) ≡ₘ group_msgs x /\ group_typed (set_sys s' x)).
  { destruct Hx as [Hmsgs Hty]. split; cbn [caches groups].
    - intros g' Hg'. unfold fupd. destruct (Z.eqb_spec g' g) as [->|]; [|by apply I1].
      apply (sys_step_inv (g_sys x)); [by apply net_step_sys|by apply I1].
    - intros g' Hg'. unfold fupd. destruct (Z.eqb_spec g' g) as [->|]; [done|by apply I2].
    - done.
    - eapply tracks_equiv; [done| |exact I4]. rewrite (msgs_equiv_Permutation _ _ (Hs2 _ _)), (msgs_equiv_Permutation _ _ Hs1). by rewrite Hmsgs. }
  destruct (I1 g Hg) as (ring & snd & S & R & HI). fold x in HI.
  destruct Hn as [y l c' Hw E|y l Hw E|y l c' Hw E|y l Hw E].
  - pose proof (si_wire _ _ _ _ _ HI) as Hy. rewrite Hw in Hy, G4. apply Forall_cons in Hy as [[Hcm (Hd & _ & Ho)] _].
    apply Forall_cons in G4 as [Hf G4]. pose proof (others_machines _ _ Hd) as Hdm.
    destruct (receive_msgs (dst y) _ _ _ (m_op y) c' (g_ops x (dst y)) (si_client _ _ _ _ _ HI _ Hdm)) as [Hmsgs Hty]; try done.
    { split; [done|]. by apply others_sym. }
    { by apply G1. }
    split.
    + destruct (group_split x (dst y) Hdm) as (r1 & Hg1 & _ & Hg3).
      rewrite (msgs_equiv_Permutation _ _ (Hg3 _ _ _)), (msgs_equiv_Permutation _ _ Hg1), Hmsgs, (msgs_equiv_Permutation _ _ Hw).
      destruct y as [d op]. cbn [dst m_op]. apply msgs_equiv_Permutation. solve_Permutation.
    + split; try done. cbn [set_sys g_sys clients]. intros m' Hm'. unfold fupd. destruct (_ =? _); [done|by apply G1].
  - destruct (inv_receive _ ring snd S R HI y l Hw) as (c1 & l' & E1 & _). congruence.
  - pose proof (si_fc_wire _ _ _ _ _ HI) as Hy. rewrite Hw in Hy. apply Forall_cons in Hy as [(src & Hsrc & Hd & _) _].
    pose proof (others_machines _ _ Hd) as Hdm. unfold fc_receive in E. destruct (_ <? _); [|done]. injection E as <-. split.
    + destruct (group_split x y.1 Hdm) as (r1 & Hg1 & _ & Hg3).
      rewrite (msgs_equiv_Permutation _ _ (Hg3 _ _ _)), (msgs_equiv_Permutation _ _ Hg1). done.
    + split; try done. cbn [set_sys g_sys clients]. intros m' Hm'. unfold fupd.
      destruct (Z.eqb_spec m' y.1) as [->|]; [|by apply G1]. destruct (G1 _ Hdm). by split.
  - split; [done|]. by split.
Qed.

Lemma cluster_step_inv s s' F : cluster_inv C0 s F -> cluster_step s s' -> exists F', cluster_inv C0 s' F'.
Proof using HC0.
  intros HI [g m batch arr1 arr2 kv' t' out Hg Hm Hrf E Hv|g s1 Hg Hn]; [by eapply cluster_inv_round|].
  exists F. by apply cluster_inv_network.
Qed.
End invariant.

(** ** Reachable states *)

(** At the start every machine's cache holds the same objects [F0], valid and
    unwritten, and the allocated memory is typed. *)
Record cluster_ready (kv : Z -> mica_kv) (fresh : Z -> cache_op) (fresh_invs : list cache_op)
    (F0 : Z -> option entry) : Prop := {
  cr_fresh : fresh_ok fresh fresh_invs;
  cr_slots : forall p, op_fits (fresh p);
  cr_invs : Forall op_fits fresh_invs;
  cr_caches : forall m, m ∈ machines -> coupled lin_initial (kv m) F0
}.

Definition start_configs (F0 : Z -> option entry) (k : Z) : option lin_config := lin_init <$> F0 k.

Lemma start_configs_ok kv fresh fresh_invs F0 : cluster_ready kv fresh fresh_invs F0 ->
  forall k c, start_configs F0 k = Some c -> lin_inv_ok c.
Proof.
  intros [_ _ _ H] k c Hk. unfold start_configs in Hk. destruct (F0 k) as [e0|] eqn:E; [|done]. injection Hk as <-.
  apply (lin_reach_inv e0); [|apply rtc_refl]. exact (cp_inv _ _ _ (H 0 ltac:(left)) k e0 E).
Qed.

Lemma client_start_msgs m fresh fresh_invs : m ∈ machines -> fresh_ok fresh fresh_invs ->
  client_msgs m (client_start fresh fresh_invs) [] = [].
Proof.
  intros Hm Hf. destruct (client_start_ok m fresh fresh_invs Hm Hf) as [Hck _]. unfold client_msgs.
  rewrite (unread_spec _ _ _ (ck_ring _ _ _ _ Hck)).
  assert (Hb : forall l, (set_opcode EMPTY <$> l) ≫= wait_ack m = []).
  { induction l as [|op l IH]; [done|]. rewrite fmap_cons, bind_cons, IH. done. }
  unfold buffer_msgs. cbn [client_start setup_coh_ops c_invs inv_to_send_ops]. rewrite Hb. done.
Qed.

Lemma cluster_start_msgs kv fresh fresh_invs junk : fresh_ok fresh fresh_invs ->
  cluster_msgs (cluster_start kv fresh fresh_invs junk) = [].
Proof.
  intros Hf. unfold cluster_msgs, cluster_start. cbn [groups]. generalize client_ids as l. intros l.
  assert (Hg : group_msgs (group_start fresh fresh_invs junk) = []).
  { unfold group_msgs, group_start. cbn [g_sys sys_start wire clients g_ops app]. unfold machines. rewrite !bind_cons.
    rewrite !client_start_msgs; try done; apply machines_spec; done. }
  induction l as [|g l IH]; [done|]. rewrite bind_cons, IH, Hg. done.
Qed.

Lemma client_start_typed fresh fresh_invs : (forall p, op_fits (fresh p)) -> Forall op_fits fresh_invs ->
  typed (client_start fresh fresh_invs).
Proof.
  intros Hf Hi. split; cbn [client_start setup_coh_ops c_inbox incoming_reqs c_update_ops c_inv_ops c_acks ack_bcast_ops c_invs inv_to_send_ops]; try done.
  - intros i. by apply set_opcode_fits.
  - apply Forall_fmap. eapply Forall_impl; [exact Hi|]. intros op Hop. by apply set_opcode_fits.
Qed.

Lemma cluster_start_inv kv fresh fresh_invs junk F0 : cluster_ready kv fresh fresh_invs F0 ->
  cluster_inv (start_configs F0) (cluster_start kv fresh fresh_invs junk) (fun _ => F0).
Proof.
  intros [Hf Hs Hi Hc]. split.
  - intros g _. eexists _, _, _, _. by apply sys_start_inv.
  - intros g _. split; cbn [cluster_start groups group_start g_sys sys_start clients g_ops g_update_resp g_inv_resp wire]; try done.
    intros m _. by apply client_start_typed.
  - intros m Hm. eapply coupled_weaken; [|by apply Hc]. by intros e [He _].
  - intros k. unfold tracked_key, start_configs. rewrite cluster_start_msgs by done. destruct (F0 k) as [e0|] eqn:E; cbn [fmap option_fmap option_map].
    + exists (lin_init e0). split; [apply rtc_refl|]. by split.
    + by split.
Qed.

Lemma cluster_steps_inv C0 s s' F : (forall k c, C0 k = Some c -> lin_inv_ok c) ->
  cluster_inv C0 s F -> rtc cluster_step s s' -> exists F', cluster_inv C0 s' F'.
Proof.
  intros HC HI Hs. revert F HI. induction Hs as [s|s s1 s' H1 _ IH]; intros F HI; [by exists F|].
  destruct (cluster_step_inv C0 HC s s1 F HI H1) as [F1 H2]. by apply (IH F1).
Qed.

Lemma cluster_reach_inv kv fresh fresh_invs junk F0 s :
  cluster_ready kv fresh fresh_invs F0 -> cluster_reach kv fresh fresh_invs junk s ->
  exists F, cluster_inv (start_configs F0) s F.
Proof.
  intros Hr. apply (cluster_steps_inv _ _ _ (fun _ => F0)); [by eapply start_configs_ok|by apply cluster_start_inv].
Qed.

(** The object of a key on every machine, and the protocol's state. *)
Lemma cluster_key C0 s F op c0 : cluster_inv C0 s F -> op_fits op -> C0 (key_word op) = Some c0 ->
  exists c, rtc lin_step c0 c /\
    (forall m, m ∈ machines -> cache_view (caches s m) (key_word op) = Some (lin_obj c m)) /\
    msg_content <$> lin_net c ≡ₚ key_bag (key_word op) (cluster_msgs s).
Proof.
  intros [_ _ H3 H4] Hf E. specialize (H4 (key_word op)). unfold tracked_key in H4. rewrite E in H4.
  destruct H4 as (c & Hr & Ho & Hn). exists c. split_and!; try done. intros m Hm.
  rewrite (cp_view _ _ _ (H3 m Hm)) by done. by apply Ho.
Qed.

(** A key that is in some cache was there at the start. *)
Lemma cached_key C0 s F op m e : cluster_inv C0 s F -> op_fits op -> m ∈ machines ->
  cache_view (caches s m) (key_word op) = Some e -> exists c0, C0 (key_word op) = Some c0.
Proof.
  intros [_ _ H3 H4] Hf Hm E. rewrite (cp_view _ _ _ (H3 m Hm)) in E by done. specialize (H4 (key_word op)). unfold tracked_key in H4.
  destruct (C0 (key_word op)) as [c0|]; [by exists c0|]. destruct H4 as [Ho _]. rewrite (Ho m Hm) in E. done.
Qed.

(** ** The clients implement the protocol *)

(** C3: the whole LIN client implements the protocol.  In every state that the
    client threads of all machines reach - polling, probing the cache, queueing,
    broadcasting within their credits, with messages delivered in any order -
    the caches hold, for every key, the objects of a reachable state of the
    protocol of [LinProtocol], and what is on the wires, in the receive rings, in
    the queues and in the batches is exactly that state's network.  A key that
    was not cached has no object and no message. *)
Theorem lin_clients_refine kv fresh fresh_invs junk F0 s op :
  cluster_ready kv fresh fresh_invs F0 -> cluster_reach kv fresh fresh_invs junk s -> op_fits op ->
  match F0 (key_word op) with
  | Some e0 => exists c, lin_reach e0 c /\
      (forall m, m ∈ machines -> cache_view (caches s m) (key_word op) = Some (lin_obj c m)) /\
      msg_content <$> lin_net c ≡ₚ key_bag (key_word op) (cluster_msgs s)
  | None => (forall m, m ∈ machines -> cache_view (caches s m) (key_word op) = None) /\
      key_bag (key_word op) (cluster_msgs s) = []
  end.
Proof.
  intros Hrd Hr Hf. destruct (cluster_reach_inv _ _ _ _ _ _ Hrd Hr) as [F HI]. destruct (F0 (key_word op)) as [e0|] eqn:E.
  - apply (cluster_key _ s F op (lin_init e0) HI Hf). unfold start_configs. by rewrite E.
  - destruct HI as [_ _ H3 H4]. specialize (H4 (key_word op)). unfold tracked_key, start_configs in H4. rewrite E in H4.
    destruct H4 as [Ho Hn]. split; [|done]. intros m Hm. rewrite (cp_view _ _ _ (H3 m Hm)) by done. by apply Ho.
Qed.

(** C4: linearizability in real time, for the bytes in the caches.  When an
    object is readable on one machine at timestamp T, then in that state and in
    every later one the object on every machine is at T or later: a later read
    that succeeds anywhere returns at least T, and all objects that are readable
    at the same moment have the same timestamp. *)
Theorem lin_clients_real_time kv fresh fresh_invs junk F0 s s' op a b ea eb :
  cluster_ready kv fresh fresh_invs F0 -> cluster_reach kv fresh fresh_invs junk s -> rtc cluster_step s s' ->
  op_fits op -> a ∈ machines -> b ∈ machines ->
  cache_view (caches s a) (key_word op) = Some ea -> state (e_meta ea) = VALID_STATE ->
  cache_view (caches s' b) (key_word op) = Some eb ->
  ts_le (ts_of (e_meta ea)) (eff_ts b (e_meta eb)) /\
  (state (e_meta eb) = VALID_STATE -> ts_le (ts_of (e_meta ea)) (ts_of (e_meta eb))) /\
  (state (e_meta eb) = VALID_STATE -> s' = s -> ts_of (e_meta ea) = ts_of (e_meta eb)).
Proof.
  intros Hrd Hr Hss Hf Ha Hb Ea Hva Eb. destruct (cluster_reach_inv _ _ _ _ _ _ Hrd Hr) as [F HI].
  destruct (cached_key _ s F op a ea HI Hf Ha Ea) as [c0 Hc0]. pose proof (start_configs_ok _ _ _ _ Hrd) as HC.
  destruct (cluster_key _ s F op c0 HI Hf Hc0) as (c & Hsc & Ho & Hn). rewrite (Ho a Ha) in Ea. injection Ea as <-.
  destruct (lin_steps_inv c0 c (HC _ _ Hc0) Hsc) as (Hci & _).
  set (C1 := fupd (start_configs F0) (key_word op) (Some c)).
  assert (HI1 : cluster_inv C1 s F).
  { destruct HI as [I1 I2 I3 I4]. split; try done. intros k. specialize (I4 k). unfold tracked_key, C1, fupd in *.
    destruct (Z.eqb_spec k (key_word op)) as [->|]; [|done]. exists c. split; [apply rtc_refl|]. split; [|done].
    intros m Hm. rewrite <- (Ho m Hm). symmetry. by apply (cp_view _ _ _ (I3 m Hm)). }
  destruct (cluster_steps_inv C1 s s' F) as [F' HI']; [|done|done|].
  { intros k c1. unfold C1, fupd. destruct (k =? key_word op); [by intros [= <-]|by apply HC]. }
  destruct (cluster_key C1 s' F' op c HI' Hf ltac:(apply fupd_eq)) as (c' & Hcc & Ho' & _).
  rewrite (Ho' b Hb) in Eb. injection Eb as <-. destruct (lin_steps_inv c c' Hci Hcc) as (Hci' & _ & Hmono).
  assert (Hle : ts_le (ts_of (e_meta (lin_obj c a))) (eff_ts b (e_meta (lin_obj c' b))))
    by (eapply ts_le_trans; [by apply (valid_least c a b Hci Ha Hb)|apply Hmono]).
  split_and!; [done|intros Hvb; by rewrite <- (valid_ts b (e_meta (lin_obj c' b)))|].
  intros Hvb ->. apply ts_le_antisym; [by rewrite <- (valid_ts b (e_meta (lin_obj c' b)))|].
  assert (Eb : lin_obj c' b = lin_obj c b) by (specialize (Ho b Hb); specialize (Ho' b Hb); congruence).
  rewrite Eb in *. rewrite <- (valid_ts a (e_meta (lin_obj c a))) by done. by apply (valid_least c b a Hci Hb Ha).
Qed.

(** C5: every write completes everywhere.  Whenever no message about a key is
    left - none on a wire, unread in a ring, waiting in a queue or to be sent from
    a batch - the object of the key is readable on every machine, with one and
    the same timestamp. *)
Theorem lin_clients_quiescent kv fresh fresh_invs junk F0 s op e0 :
  cluster_ready kv fresh fresh_invs F0 -> cluster_reach kv fresh fresh_invs junk s -> op_fits op ->
  F0 (key_word op) = Some e0 -> key_bag (key_word op) (cluster_msgs s) = [] ->
  exists T, forall m, m ∈ machines -> exists e, cache_view (caches s m) (key_word op) = Some e /\
    state (e_meta e) = VALID_STATE /\ ts_of (e_meta e) = T.
Proof.
  intros Hrd Hr Hf E0 Hq. destruct (cluster_reach_inv _ _ _ _ _ _ Hrd Hr) as [F HI].
  assert (Hc0 : start_configs F0 (key_word op) = Some (lin_init e0)) by (unfold start_configs; by rewrite E0).
  destruct (cluster_key _ s F op _ HI Hf Hc0) as (c & Hsc & Ho & Hn).
  destruct (lin_steps_inv _ c (start_configs_ok _ _ _ _ Hrd _ _ Hc0) Hsc) as ([_ Hi] & _).
  rewrite Hq in Hn. apply Permutation_nil_r, fmap_nil_inv in Hn. unfold abs_net in Hi. rewrite Hn in Hi.
  pose proof (quiescent_valid _ Hi) as Hqv. exists (ts_of (e_meta (lin_obj c 0))). intros m Hm. exists (lin_obj c m).
  split; [by apply Ho|]. destruct (Hqv 0 ltac:(by left)) as [Hv0 _]. destruct (Hqv m Hm) as [Hv Ht].
  apply phase_valid in Hv, Hv0. unfold abs_objs, abs_obj in Ht. cbn [a_ts] in Ht. rewrite !valid_ts in Ht by done. by split.
Qed.

(** Every round completes on the real cache.  In every reachable state, for
    every thread, every batch that carries over the unsent writes and every
    arrival of credits, the round returns: no assertion of the client or of the
    cache fails, no loop spins, no handler waits. *)
Theorem lin_clients_complete kv fresh fresh_invs junk F0 s g m batch arr1 arr2 :
  cluster_ready kv fresh fresh_invs F0 -> cluster_reach kv fresh fresh_invs junk s ->
  g ∈ client_ids -> m ∈ machines -> refilled (g_ops (groups s g) m) batch ->
  exists kv' t' out, lin_round m batch arr1 arr2 (caches s m) (thread_of (groups s g) m) = Done (kv', t', out).
Proof.
  intros Hrd Hr Hg Hm Hrf. destruct (cluster_reach_inv _ _ _ _ _ _ Hrd Hr) as [F HI].
  exact (cluster_completes _ (start_configs_ok _ _ _ _ Hrd) s F g m batch arr1 arr2 HI Hg Hm Hrf).
Qed.

(** ** Example: a write of machine 0 *)
Definition demo_junk : nat -> mica_resp := fun _ => mkResp EMPTY 0 None.
Definition demo_start : cluster := cluster_start (fun _ => demo_cache) demo_memory demo_invs demo_junk.

Lemma demo_slot_fits : op_fits demo_slot.
Proof.
  assert (H0 : is_u8 0) by done. split; try done. apply Forall_replicate. exact H0.
Qed.

Lemma demo_ready : cluster_ready (fun _ => demo_cache) demo_memory demo_invs (cache_view demo_cache).
Proof.
  split; [exact demo_fresh_ok|intros; exact demo_slot_fits|apply Forall_replicate, demo_slot_fits|].
  intros m _. eapply coupled_weaken; [|exact demo_cache_coupled]. intros e ->. exact fresh_lin_initial.
Qed.

Definition demo_write_batch : list (cache_op * mica_resp) := [(demo_cput, mkResp EMPTY 0 None)].

Lemma demo_refilled : refilled [] demo_write_batch.
Proof.
  split; [|constructor; [|constructor]|done].
  - rewrite !filter_none; [constructor|constructor; [|constructor]|constructor]. done.
  - split; [apply demo_legal; by left|]. right. left. split; [apply demo_legal; by left|done].
Qed.

(** The state after the round of machine 0's first client that writes the
    object. *)
Definition cluster_run (g m : Z) (batch : list (cache_op * mica_resp)) (s : cluster) : cluster :=
  match lin_round m batch [] [] (caches s m) (thread_of (groups s g) m) with
  | Done (kv', t', out) => mkCluster (fupd (caches s) m kv') (fupd (groups s) g (after_round (groups s g) m t' out))
  | _ => s
  end.
Definition demo_written : cluster := cluster_run 0 0 demo_write_batch demo_start.

Definition versions_leftb (op : cache_op) : bool :=
  negb ((opcode op =? CACHE_OP_BRC) || (opcode op =? CACHE_OP_INV)) || negb (version (meta op) =? 0).

Lemma versions_left_spec op : versions_leftb op = true -> versions_left op.
Proof.
  unfold versions_leftb. intros H Hop. apply orb_true_iff in H as [H|H]; [|by apply negb_true_iff, Z.eqb_neq in H].
  apply negb_true_iff, orb_false_iff in H as [H1 H2]. apply Z.eqb_neq in H1, H2. tauto.
Qed.

Lemma cluster_run_reach g m batch s :
  g ∈ client_ids -> m ∈ machines -> refilled (g_ops (groups s g) m) batch ->
  match lin_round m batch [] [] (caches s m) (thread_of (groups s g) m) with
  | Done (_, t', _) => forallb versions_leftb (t_ops t') | _ => true end = true ->
  rtc cluster_step s (cluster_run g m batch s).
Proof.
  intros Hg Hm Hrf Hv. unfold cluster_run. destruct (lin_round m batch [] [] _ _) as [[[kv' t'] out]| |] eqn:E; [|apply rtc_refl|apply rtc_refl].
  eapply rtc_once, cluster_round; [done|done|exact Hrf|exact E|]. apply Forall_forall. intros op Hop.
  apply versions_left_spec. by apply (proj1 (forallb_forall _ _) Hv), list_elem_of_In.
Qed.

Lemma demo_written_reach : cluster_reach (fun _ => demo_cache) demo_memory demo_invs demo_junk demo_written.
Proof.
  apply cluster_run_reach; [by apply elem_of_seqZ|by apply machines_spec|exact demo_refilled|]. vm_compute. reflexivity.
Qed.

Lemma demo_op_fits : op_fits demo_cput.
Proof. apply demo_legal. by left. Qed.

(** The three invalidations of the write are the protocol's network. *)
Lemma lin_clients_refine_witness :
  length (cluster_msgs demo_written) = 3%nat /\
  exists c, lin_reach fresh_entry c /\
    (forall m, m ∈ machines -> cache_view (caches demo_written m) (key_word demo_cput) = Some (lin_obj c m)) /\
    msg_content <$> lin_net c ≡ₚ key_bag (key_word demo_cput) (cluster_msgs demo_written).
Proof.
  split; [vm_compute; reflexivity|].
  exact (lin_clients_refine (fun _ => demo_cache) demo_memory demo_invs demo_junk (cache_view demo_cache) demo_written demo_cput
    demo_ready demo_written_reach demo_op_fits).
Defined.

(** Machine 1 still reads the old object while machine 0 writes it. *)
Lemma lin_clients_real_time_witness :
  exists ea eb, cache_view (caches demo_start 1) (key_word demo_cput) = Some ea /\
    cache_view (caches demo_written 0) (key_word demo_cput) = Some eb /\
    state (e_meta eb) = WRITE_STATE /\ ts_le (ts_of (e_meta ea)) (eff_ts 0 (e_meta eb)).
Proof.
  eexists _, _. split; [vm_compute; reflexivity|]. split; [vm_compute; reflexivity|]. split; [reflexivity|].
  refine (proj1 (lin_clients_real_time (fun _ => demo_cache) demo_memory demo_invs demo_junk (cache_view demo_cache) demo_start
    demo_written demo_cput 1 0 _ _ demo_ready (rtc_refl _ _) demo_written_reach demo_op_fits _ _ _ _ _));
    first [by apply machines_spec | vm_compute; reflexivity].
Defined.

(** The write completes: the first message on the wire is delivered, then the
    rounds of the machines. *)
Definition deliver_run (g : Z) (s : cluster) : cluster :=
  let x := g_sys (groups s g) in
  match wire x with
  | [] => s
  | y :: l =>
      match nic_receive (m_op y) (clients x (dst y)) with
      | Some c' => mkCluster (caches s)
                     (fupd (groups s) g (set_sys (mkSys (fupd (clients x) (dst y) c') l (fc_wire x)) (groups s g)))
      | None => s
      end
  end.

Lemma deliver_run_reach g s : g ∈ client_ids -> rtc cluster_step s (deliver_run g s).
Proof.
  intros Hg. unfold deliver_run. destruct (wire (g_sys (groups s g))) as [|y l] eqn:E; [apply rtc_refl|].
  destruct (nic_receive _ _) as [c'|] eqn:En; [|apply rtc_refl]. eapply rtc_once, cluster_network; [done|].
  eapply net_receive; [by rewrite E|exact En].
Qed.

(** A round without requests of its own, when nothing is carried over. *)
Definition idle_run (m : Z) (s : cluster) : cluster := cluster_run 0 m [] s.
Definition delivered (s : cluster) : cluster := Nat.iter 3 (deliver_run 0) s.
Definition others_idle (s : cluster) : cluster := idle_run 3 (idle_run 2 (idle_run 1 s)).
Definition demo_acked : cluster := delivered (others_idle (delivered demo_written)).
Definition demo_done : cluster := others_idle (delivered (idle_run 0 demo_acked)).

Lemma no_brc_refilled old : forallb (fun op => negb (opcode op =? CACHE_OP_BRC)) old = true -> refilled old [].
Proof.
  intros H. split; [|constructor|done]. rewrite (filter_none is_brc old); [constructor|].
  apply Forall_forall. intros op Hop%list_elem_of_In. apply (proj1 (forallb_forall _ _) H), negb_true_iff, Z.eqb_neq in Hop. done.
Qed.

Lemma idle_run_reach m s : m ∈ machines ->
  forallb (fun op => negb (opcode op =? CACHE_OP_BRC)) (g_ops (groups s 0) m) = true ->
  match lin_round m [] [] [] (caches s m) (thread_of (groups s 0) m) with
  | Done (_, t', _) => forallb versions_leftb (t_ops t') | _ => true end = true ->
  rtc cluster_step s (idle_run m s).
Proof. intros Hm Hb Hv. apply cluster_run_reach; [by apply elem_of_seqZ|done|by apply no_brc_refilled|done]. Qed.

Lemma delivered_reach s : rtc cluster_step s (delivered s).
Proof.
  unfold delivered. cbn [Nat.iter nat_rect]. assert (Hg : 0 ∈ client_ids) by (by apply elem_of_seqZ).
  etransitivity; [|by apply deliver_run_reach]. etransitivity; [|by apply deliver_run_reach]. by apply deliver_run_reach.
Qed.

Ltac idle_step := apply idle_run_reach; [by apply machines_spec|vm_compute; reflexivity|vm_compute; reflexivity].

Lemma demo_acked_reach : rtc cluster_step demo_written demo_acked.
Proof.
  unfold demo_acked, others_idle. etransitivity; [|apply delivered_reach].
  etransitivity; [|idle_step]. etransitivity; [|idle_step]. etransitivity; [|idle_step]. apply delivered_reach.
Qed.

Lemma demo_done_reach : cluster_reach (fun _ => demo_cache) demo_memory demo_invs demo_junk demo_done.
Proof.
  unfold cluster_reach. etransitivity; [exact demo_written_reach|]. etransitivity; [exact demo_acked_reach|].
  unfold demo_done, others_idle.
  etransitivity; [|idle_step]. etransitivity; [|idle_step]. etransitivity; [|idle_step].
  etransitivity; [|apply delivered_reach]. idle_step.
Qed.

(** Machine 3 reads the write of machine 0. *)
Lemma lin_clients_quiescent_witness :
  ts_of <$> (e_meta <$> cache_view (caches demo_done 3) (key_word demo_cput)) = Some (2, 0) /\
  exists T, forall m, m ∈ machines -> exists e, cache_view (caches demo_done m) (key_word demo_cput) = Some e /\
    state (e_meta e) = VALID_STATE /\ ts_of (e_meta e) = T.
Proof.
  split; [vm_compute; reflexivity|].
  apply (lin_clients_quiescent (fun _ => demo_cache) demo_memory demo_invs demo_junk (cache_view demo_cache) demo_done demo_cput
    fresh_entry demo_ready demo_done_reach demo_op_fits); [vm_compute; reflexivity|vm_compute; reflexivity].
Defined.

Lemma lin_clients_complete_witness :
  exists kv' t' out, lin_round 0 demo_write_batch [3%nat] [] (caches demo_start 0) (thread_of (groups demo_start 7) 0)
    = Done (kv', t', out).
Proof.
  apply (lin_clients_complete (fun _ => demo_cache) demo_memory demo_invs demo_junk (cache_view demo_cache) demo_start 7 0
    demo_write_batch [3%nat] [] demo_ready (rtc_refl _ _)); [by apply elem_of_seqZ|by apply machines_spec|exact demo_refilled].
Defined.
