(* ===== verification/ColdRequests.v ===== *)
(** * One pass of the client over its batch (include/ccKVS/inline_util.h)

    After the cache was probed, [handle_cold_requests] goes once over the
    arrays of operations, responses and key homes: hits are retired, misses are
    queued for the worker of their home machine, and what cannot be served in
    this round is copied to the arrays of the next round.  The main theorem:
    every request has exactly one of these fates.

    The three parallel arrays are a list of slots.  Local requests do not occur
    ([DISABLE_LOCALS] is 1 and the code asserts it), coalescing is off
    ([ENABLE_COALESCING] is 0); the RDMA work requests have been replaced by
    [add_erpc_request]. *)
From S2P Require Import Prelude Config Optik Layout City Mica MicaLog Cache CacheSpec Network Packets.

Record slot := mkSlot { s_op : cache_op; s_resp : mica_resp; s_home : key_home }.

Definition r_type (s : slot) : Z := resp_type (s_resp s).
Definition set_r_type (t : Z) (s : slot) : slot := mkSlot (s_op s) (set_type t (s_resp s)) (s_home s).

(** [req_type] and the two fields of [struct latency_flags] that a pass uses. *)
Inductive req_type :=
| NO_REQ | HOT_WRITE_REQ_BEFORE_SAVING_KEY | HOT_WRITE_REQ | HOT_READ_REQ | LOCAL_REQ | REMOTE_REQ.
Record latency_flags := mkLat { measured_req_flag : req_type; last_measured_op_i : nat }.

(** What a pass changes besides the arrays it walks over. *)
Record pass_state := mkPass {
  next : list slot;
  next_op_i : nat;
  hits : Z;
  hottest : Z -> Z;
  latency : latency_flags;
  rem_req_i : Z;
  wr_i : Z;
  outstanding : Z -> Z;
  for_each_worker : Z -> Z;
  ctx : client_ctx
}.

(** ** Copying a request to the next round *)
Definition copies_value (code : Z) : bool :=
  (code =? CACHE_OP_BRC) || (code =? CACHE_OP_PUT) || (code =? CACHE_OP_INV) || (code =? CACHE_OP_UPD).

(** [memcpy(next_ops + i, ops + op_i, size_of_op)]: 50 bytes, or for a GET the
    17 of a GET request and two more (length and first byte of the value). *)
Definition copy_request (dst src : cache_op) : cache_op :=
  if copies_value (opcode src) then recv_put_req dst src
  else mkOp (meta src) (bkt src) (server src) (tag src) (opcode src) (val_len src)
         (take 1 (value src) ++ drop 1 (value dst)).

Definition copy_slot (dst src : slot) : slot :=
  mkSlot (copy_request (s_op dst) (s_op src)) (s_resp src) (s_home src).

(** The first byte of the value names a tracked key. *)
Definition tracked (o : cache_op) : Z := nth 0 (value o) 0.

Definition follow_hot_key (op_i : nat) (s : slot) (n : nat) (hot : Z -> Z) : Z -> Z :=
  if (ENABLE_HOT_KEY_TRACKING =? 1) && (r_type s =? CACHE_GET_STALL) &&
     (tracked (s_op s) <? HOTTEST_KEYS_TO_TRACK) &&
     (hot (tracked (s_op s)) =? Z.of_nat op_i + 1)
  then fupd hot (tracked (s_op s)) (Z.of_nat n + 1) else hot.

Definition follow_latency (op_i n : nat) (l : latency_flags) : latency_flags :=
  if (MEASURE_LATENCY =? 1) && bool_decide (op_i = last_measured_op_i l) &&
     match measured_req_flag l with
     | LOCAL_REQ | HOT_READ_REQ | HOT_WRITE_REQ_BEFORE_SAVING_KEY => true
     | _ => false
     end
  then mkLat (measured_req_flag l) n else l.

Definition copy_op_to_next_op (op_i : nat) (s : slot) (st : pass_state) : outcome pass_state :=
  let* _ := c_assert (copies_value (opcode (s_op s)) || (opcode (s_op s) =? CACHE_OP_GET)) in
  let n := next_op_i st in
  Done (mkPass (alter (fun d => copy_slot d s) n (next st)) (S n) (hits st)
          (follow_hot_key op_i s n (hottest st)) (follow_latency op_i n (latency st))
          (rem_req_i st) (wr_i st) (outstanding st) (for_each_worker st) (ctx st)).

(** ** Retiring hits *)
Section pass.
Context (protocol machine_id local_client_id clt_gid : Z).

Definition is_lin : bool := protocol =? LINEARIZABILITY.

(** Requests that are over: reads served, writes sent out; under LIN also
    writes that lost against a higher session. *)
Definition finished (s : slot) : bool :=
  (r_type s =? CACHE_GET_SUCCESS) ||
  (if is_lin then (opcode (s_op s) =? CACHE_OP_INV) || (r_type s =? CACHE_PUT_FAIL)
   else opcode (s_op s) =? CACHE_OP_UPD).

(** A read stands for [val_len] more reads of the same key. *)
Definition hits_of (s : slot) : Z :=
  if (ENABLE_HOT_KEY_TRACKING =? 1) && (r_type s =? CACHE_GET_SUCCESS)
  then val_len (s_op s) + 1 else 1.

Definition forget_hot_key (op_i : nat) (s : slot) (hot : Z -> Z) : Z -> Z :=
  if is_lin && (ENABLE_HOT_KEY_TRACKING =? 1) && (r_type s =? CACHE_GET_SUCCESS) &&
     (tracked (s_op s) <? HOTTEST_KEYS_TO_TRACK) && (hot (tracked (s_op s)) =? Z.of_nat op_i + 1)
  then fupd hot (tracked (s_op s)) 0 else hot.

Definition finish (op_i : nat) (s : slot) (st : pass_state) : slot * pass_state :=
  (set_r_type EMPTY s,
   mkPass (next st) (next_op_i st) (hits st + hits_of s) (forget_hot_key op_i s (hottest st))
     (latency st) (rem_req_i st) (wr_i st) (outstanding st) (for_each_worker st) (ctx st)).

Definition retire (op_i : nat) (s : slot) (st : pass_state) : outcome (slot * pass_state) :=
  if finished s then Done (finish op_i s st)
  else let* st := copy_op_to_next_op op_i s st in Done (s, st).

(** What the bookkeeping expects of a hit; SC checks it on client 0 only. *)
Definition expected_hit (s : slot) : bool :=
  if is_lin then
    (r_type s =? CACHE_GET_SUCCESS) || (r_type s =? CACHE_PUT_SUCCESS) ||
    (r_type s =? CACHE_GET_STALL) || (r_type s =? CACHE_PUT_STALL) ||
    (r_type s =? CACHE_PUT_FAIL) || (opcode (s_op s) =? CACHE_OP_INV) ||
    (opcode (s_op s) =? CACHE_OP_BRC)
  else
    negb (local_client_id =? 0) ||
    (r_type s =? CACHE_GET_SUCCESS) || (r_type s =? CACHE_PUT_SUCCESS) ||
    (opcode (s_op s) =? CACHE_OP_UPD) || (opcode (s_op s) =? CACHE_OP_BRC).

Definition is_miss (s : slot) : bool :=
  (r_type s =? CACHE_MISS) || (r_type s =? UNSERVED_CACHE_MISS).

(** [cache_hit_bookkeeping_SC/_LIN]: retire hits up to the next miss; the slots
    walked over, the slots left. *)
Fixpoint cache_hit_bookkeeping (op_i : nat) (l : list slot) (st : pass_state)
    : outcome (list slot * list slot * pass_state) :=
  match l with
  | [] => Done ([], [], st)
  | s :: rest =>
      if is_miss s then Done ([], l, st)
      else
        let* _ := c_assert (expected_hit s) in
        let* (s, st) := retire op_i s st in
        let* (done, rest, st) := cache_hit_bookkeeping (S op_i) rest st in
        Done (s :: done, rest, st)
  end.

(** [run_through_rest_of_ops_SC/_LIN]: no more requests are issued. *)
Definition leave (s : slot) : slot :=
  if r_type s =? CACHE_MISS then set_r_type UNSERVED_CACHE_MISS s else s.

Fixpoint run_through_rest_of_ops (op_i : nat) (l : list slot) (st : pass_state)
    : outcome (list slot * pass_state) :=
  match l with
  | [] => Done ([], st)
  | s :: rest =>
      let s := leave s in
      let* _ := c_assert (is_lin || finished s || negb (r_type s =? EMPTY)) in
      let* (s, st) := retire op_i s st in
      let* (done, st) := run_through_rest_of_ops (S op_i) rest st in
      Done (s :: done, st)
  end.

(** ** Misses *)
Inductive control_flow_directive := no_cf_change | break_ | continue_.

Definition set_outstanding (f : Z -> Z) (st : pass_state) : pass_state :=
  mkPass (next st) (next_op_i st) (hits st) (hottest st) (latency st) (rem_req_i st) (wr_i st)
    f (for_each_worker st) (ctx st).

(** The worker of machine [rm_id] with room, for [BALANCE_REQS]. *)
Definition other_worker (rm_id wn : Z) (out : Z -> Z) : Z :=
  default wn (List.find (fun i => out (rm_id * WORKERS_PER_MACHINE + i) <? WS_PER_WORKER)
                (seqZ 0 WORKERS_PER_MACHINE)).

Definition handle_lack_of_credits_for_remotes (op_i : nat) (s : slot) (rm_id wn worker_id : Z)
    (st : pass_state) : outcome (control_flow_directive * Z * pass_state) :=
  let st := set_outstanding (fupd (outstanding st) worker_id (u8 (outstanding st worker_id - 1))) st in
  if KVS_BATCH * MACHINE_NUM <=? wr_i st then
    let* st := copy_op_to_next_op op_i s st in Done (break_, worker_id, st)
  else if BALANCE_REQS =? 1 then
    let worker_id := rm_id * WORKERS_PER_MACHINE + other_worker rm_id wn (outstanding st) in
    Done (no_cf_change, worker_id,
          set_outstanding (fupd (outstanding st) worker_id (u8 (outstanding st worker_id + 1))) st)
  else if FINISH_BATCH_ON_MISSING_CREDIT =? 1 then
    let* st := copy_op_to_next_op op_i s st in Done (break_, worker_id, st)
  else
    let* st := copy_op_to_next_op op_i s st in Done (continue_, worker_id, st).

Definition issue_remote (op_i : nat) (s : slot) (rm_id worker_id : Z) (st : pass_state)
    : outcome (slot * pass_state) :=
  let* c := add_erpc_request rm_id op_i (size_of_op (opcode (s_op s))) (ctx st) in
  Done (set_r_type EMPTY s,
        mkPass (next st) (next_op_i st) (hits st) (hottest st) (latency st)
          (rem_req_i st + 1) (wr_i st + 1) (outstanding st)
          (fupd (for_each_worker st) worker_id (for_each_worker st worker_id + 1)) c).

(** One miss: queued for its home machine, or kept for the next round. *)
Definition handle_miss (op_i : nat) (s : slot) (st : pass_state)
    : outcome (control_flow_directive * slot * pass_state) :=
  let* _ := c_assert (negb (opcode (s_op s) =? CACHE_OP_PUT) ||
                      (val_len (s_op s) =? Z.shiftr HERD_VALUE_SIZE SHIFT_BITS)) in
  let s := set_r_type UNSERVED_CACHE_MISS s in
  let rm_id := kh_machine (s_home s) in
  let* _ := c_assert ((DISABLE_LOCALS =? 0) || negb (rm_id =? machine_id)) in
  let wn := if ENABLE_THREAD_PARTITIONING_C_TO_W =? 1
            then (local_client_id + machine_id) mod ACTIVE_WORKERS_PER_MACHINE
            else kh_worker (s_home s) mod ACTIVE_WORKERS_PER_MACHINE in
  let worker_id := rm_id * WORKERS_PER_MACHINE + wn in
  let s := mkSlot (set_clt_gid clt_gid (s_op s)) (s_resp s) (s_home s) in
  let st := set_outstanding (fupd (outstanding st) worker_id (u8 (outstanding st worker_id + 1))) st in
  if KVS_BATCH <? outstanding st worker_id then
    let* (cf, worker_id, st) := handle_lack_of_credits_for_remotes op_i s rm_id wn worker_id st in
    match cf with
    | no_cf_change =>
        let* (s, st) := issue_remote op_i s rm_id worker_id st in Done (no_cf_change, s, st)
    | _ => Done (cf, s, st)
    end
  else
    let* (s, st) := issue_remote op_i s rm_id worker_id st in Done (no_cf_change, s, st).

(** The loop over the batch; the slots walked over and those left.  Every
    round consumes a slot or ends. *)
Fixpoint handle_cold_loop (fuel : nat) (op_i : nat) (l : list slot) (st : pass_state)
    : outcome (list slot * list slot * pass_state) :=
  match fuel with
  | O => Spin
  | S fuel =>
      match l with
      | [] => Done ([], [], st)
      | _ =>
          if rem_req_i st <? WINDOW_SIZE then
            let* (d1, l, st) := cache_hit_bookkeeping op_i l st in
            let op_i := (op_i + length d1)%nat in
            match l with
            | [] => Done (d1, [], st)
            | s :: l =>
                let* (cf, s, st) := handle_miss op_i s st in
                match cf with
                | break_ => Done (d1 ++ [s], l, st)
                | _ =>
                    let* (d2, l, st) := handle_cold_loop fuel (S op_i) l st in
                    Done (d1 ++ s :: d2, l, st)
                end
            end
          else Done ([], l, st)
      end
  end.

Definition handle_cold_requests (l : list slot) (st : pass_state)
    : outcome (list slot * pass_state) :=
  let* (d1, rest, st) := handle_cold_loop (S (length l)) 0 l st in
  let* (d2, st) := run_through_rest_of_ops (length d1) rest st in
  Done (d1 ++ d2, st).
End pass.

(** ** One fate per request *)
Inductive fate := Finished | Carried | Sent (rm : Z).

Section fates.
Context (protocol machine_id local_client_id clt_gid : Z).

(** Nothing but the queue of cold requests changes. *)
Definition only_queued (c c' : client_ctx) : Prop :=
  cbatch c' = cbatch c /\ creq_length c' = creq_length c /\
  cache_bufferused c' = cache_bufferused c /\ bufferused c' = bufferused c /\
  reqs_in_transit c' = reqs_in_transit c.

(** Slot [s] at [op_i] becomes [s'] with fate [f]. *)
Definition fate_step (op_i : nat) (f : fate) (s s' : slot) (st st' : pass_state) : Prop :=
  match f with
  | Finished =>
      finished protocol s = true /\ r_type s' = EMPTY /\ s_op s' = s_op s /\
      next st' = next st /\ next_op_i st' = next_op_i st /\ ctx st' = ctx st
  | Carried =>
      s_home s' = s_home s /\
      r_type s' = (if is_miss s then UNSERVED_CACHE_MISS else r_type s) /\
      (s_op s' = s_op s \/ (is_miss s = true /\ s_op s' = set_clt_gid clt_gid (s_op s))) /\
      (is_miss s = true \/ finished protocol s = false) /\
      next st' = alter (fun d => copy_slot d s') (next_op_i st) (next st) /\
      next_op_i st' = S (next_op_i st) /\ ctx st' = ctx st
  | Sent rm =>
      is_miss s = true /\ rm = kh_machine (s_home s) /\ r_type s' = EMPTY /\
      s_op s' = set_clt_gid clt_gid (s_op s) /\
      next st' = next st /\ next_op_i st' = next_op_i st /\ only_queued (ctx st) (ctx st') /\
      forall x, batch (ctx st') x
        = fupd (batch (ctx st)) rm (batch (ctx st) rm ++ [(op_i, size_of_op (opcode (s_op s)))]) x
  end.

(** The pointers to the hot reads follow a read that waits and are reset when it
    is served. *)
Definition hot_step (op_i : nat) (f : fate) (s s' : slot) (st st' : pass_state) : Prop :=
  hottest st' = match f with
                | Finished => forget_hot_key protocol op_i s (hottest st)
                | Carried => follow_hot_key op_i s' (next_op_i st) (hottest st)
                | Sent _ => hottest st
                end.

Inductive pass_rel : nat -> list slot -> list fate -> list slot -> pass_state -> pass_state -> Prop :=
| pass_nil op_i st : pass_rel op_i [] [] [] st st
| pass_cons op_i s l f fs s' l' st st1 st2 :
    fate_step op_i f s s' st st1 -> hot_step op_i f s s' st st1 -> pass_rel (S op_i) l fs l' st1 st2 ->
    pass_rel op_i (s :: l) (f :: fs) (s' :: l') st st2.

Lemma pass_app op_i l1 fs1 d1 l2 fs2 d2 st st1 st2 :
  pass_rel op_i l1 fs1 d1 st st1 -> pass_rel (op_i + length l1) l2 fs2 d2 st1 st2 ->
  pass_rel op_i (l1 ++ l2) (fs1 ++ fs2) (d1 ++ d2) st st2.
Proof.
  induction 1 as [|op_i s l f fs s' l' st st1 st3 H Hh _ IH]; intros H2; simpl in *.
  - by rewrite Nat.add_0_r in H2.
  - econstructor; [exact H|exact Hh|]. apply IH.
    by rewrite <- Nat.add_succ_r.
Qed.

Lemma pass_length op_i l fs d st st' :
  pass_rel op_i l fs d st st' -> length fs = length l /\ length d = length l.
Proof. induction 1 as [|? ? ? ? ? ? ? ? ? ? _ _ _ [? ?]]; simpl; lia. Qed.

(** The worker this client uses on machine [rm], and the room there. *)
Definition worker_of (rm : Z) : Z :=
  rm * WORKERS_PER_MACHINE + (local_client_id + machine_id) mod ACTIVE_WORKERS_PER_MACHINE.

(** [old rm]: requests in the queue of [rm] before the pass. *)
Definition room (old : Z -> Z) (st : pass_state) : Prop :=
  forall rm, rm ∈ machines ->
    Z.of_nat (length (batch (ctx st) rm)) = old rm + outstanding st (worker_of rm) /\
    0 <= outstanding st (worker_of rm) <= KVS_BATCH.

(** A queue the pass may fill up. *)
Definition queue_full (old : Z -> Z) : Prop := exists rm, rm ∈ machines /\ WINDOW_SIZE < old rm + KVS_BATCH.

Definition knows_opcode (s : slot) : Prop :=
  copies_value (opcode (s_op s)) = true \/ opcode (s_op s) = CACHE_OP_GET.

Record slot_ok (s : slot) : Prop := {
  sk_code : knows_opcode s;
  sk_busy : r_type s <> EMPTY;
  sk_hit : is_miss s = false -> expected_hit protocol local_client_id s = true;
  sk_put : is_miss s = true -> opcode (s_op s) = CACHE_OP_PUT -> val_len (s_op s) = HERD_VALUE_SIZE;
  sk_home : is_miss s = true -> kh_machine (s_home s) ∈ machines /\ kh_machine (s_home s) <> machine_id
}.

Lemma copy_ok op_i s st :
  knows_opcode s ->
  exists st', copy_op_to_next_op op_i s st = Done st' /\
    next st' = alter (fun d => copy_slot d s) (next_op_i st) (next st) /\
    next_op_i st' = S (next_op_i st) /\ ctx st' = ctx st /\ outstanding st' = outstanding st /\
    hottest st' = follow_hot_key op_i s (next_op_i st) (hottest st).
Proof.
  intros Hk. unfold copy_op_to_next_op.
  assert (E : copies_value (opcode (s_op s)) || (opcode (s_op s) =? CACHE_OP_GET) = true).
  { destruct Hk as [-> | ->]; [done|]. by rewrite orb_true_r. }
  rewrite E. cbn [c_assert obind]. by eexists.
Qed.

Lemma retire_ok op_i s st :
  knows_opcode s -> r_type s <> CACHE_MISS ->
  exists f s' st', retire protocol op_i s st = Done (s', st') /\ fate_step op_i f s s' st st' /\
    hot_step op_i f s s' st st' /\
    (f = Finished \/ f = Carried) /\ ctx st' = ctx st /\ outstanding st' = outstanding st.
Proof.
  intros Hk Hnm. unfold retire. destruct (finished protocol s) eqn:E.
  - exists Finished. eexists _, _. split; [reflexivity|]. split; [done|]. split; [done|]. split; [by left|done].
  - destruct (copy_ok op_i s st Hk) as (st' & E' & H1 & H2 & H3 & H4 & H5). exists Carried, s, st'.
    rewrite E'. cbn [obind]. split; [done|]. split; [|split; [done|split; [by right|done]]]. simpl. rewrite H3.
    split_and!; try done; [|by left|by right]. unfold is_miss. rewrite (proj2 (Z.eqb_neq _ _) Hnm).
    by destruct (Z.eqb_spec (r_type s) UNSERVED_CACHE_MISS).
Qed.

Lemma room_same old st st' :
  ctx st' = ctx st -> outstanding st' = outstanding st -> room old st -> room old st'.
Proof. intros H1 H2 H rm Hrm. rewrite H1, H2. by apply H. Qed.

Lemma hits_ok old op_i l st :
  Forall slot_ok l -> room old st ->
  exists fs d rest st', cache_hit_bookkeeping protocol local_client_id op_i l st = Done (d, rest, st') /\
    l = take (length d) l ++ rest /\ pass_rel op_i (take (length d) l) fs d st st' /\ room old st' /\
    match rest with [] => True | s :: _ => is_miss s = true end.
Proof.
  revert op_i st. induction l as [|s l IH]; intros op_i st Hl Hr.
  { exists [], [], [], st. split_and!; try done. constructor. }
  apply Forall_cons in Hl as [Hs Hl]. cbn [cache_hit_bookkeeping]. destruct (is_miss s) eqn:E.
  { exists [], [], (s :: l), st. split_and!; try done. constructor. }
  rewrite (sk_hit _ Hs E). cbn [c_assert obind].
  assert (Hnm : r_type s <> CACHE_MISS) by (intros Em; unfold is_miss in E; by rewrite Em in E).
  destruct (retire_ok op_i s st (sk_code _ Hs) Hnm) as (f & s' & st1 & E1 & Hf & Hh & _ & Hc & Ho).
  rewrite E1. cbn [obind].
  destruct (IH (S op_i) st1 Hl (room_same old _ _ Hc Ho Hr)) as (fs & d & rest & st2 & E2 & Hsplit & Hp & Hr2 & Hm).
  rewrite E2. cbn [obind]. exists (f :: fs), (s' :: d), rest, st2. split_and!; try done.
  - simpl. by f_equal.
  - simpl. by econstructor.
Qed.

Lemma finished_leave s : finished protocol (leave s) = finished protocol s.
Proof.
  unfold leave. destruct (Z.eqb_spec (r_type s) CACHE_MISS) as [E|]; [|done].
  unfold finished. rewrite E. done.
Qed.

Lemma fate_leave op_i f s s' st st' :
  fate_step op_i f (leave s) s' st st' -> f = Finished \/ f = Carried -> fate_step op_i f s s' st st'.
Proof.
  intros H Hf. unfold leave in H. destruct (Z.eqb_spec (r_type s) CACHE_MISS) as [E|]; [|done].
  assert (Hm : is_miss s = true) by (unfold is_miss; by rewrite E).
  destruct Hf as [-> | ->]; simpl in *.
  - destruct H as (H & ?). split; [|done]. revert H. rewrite <- (finished_leave s).
    unfold leave. by rewrite E.
  - destruct H as (? & Ht & H & _ & ?). rewrite Hm. split_and!; try tauto.
Qed.

Lemma hot_leave op_i f s s' st st' : hot_step op_i f (leave s) s' st st' -> hot_step op_i f s s' st st'.
Proof.
  unfold hot_step, leave. destruct (Z.eqb_spec (r_type s) CACHE_MISS) as [E|]; [|done]. intros ->.
  destruct f; try done. unfold forget_hot_key. by rewrite E.
Qed.

Lemma rest_ok op_i l st :
  Forall slot_ok l ->
  exists fs d st', run_through_rest_of_ops protocol op_i l st = Done (d, st') /\
    pass_rel op_i l fs d st st' /\ ctx st' = ctx st /\
    Forall (fun f => f = Finished \/ f = Carried) fs.
Proof.
  revert op_i st. induction l as [|s l IH]; intros op_i st Hl.
  { exists [], [], st. split_and!; try done. constructor. }
  apply Forall_cons in Hl as [Hs Hl]. cbn [run_through_rest_of_ops].
  assert (Hb : r_type (leave s) <> EMPTY).
  { unfold leave. destruct (_ =? _); [done|apply Hs]. }
  rewrite (proj2 (Z.eqb_neq _ _) Hb), orb_true_r. cbn [c_assert obind].
  assert (Hk : knows_opcode (leave s)).
  { unfold knows_opcode, leave. destruct (_ =? _); apply Hs. }
  assert (Hnm : r_type (leave s) <> CACHE_MISS).
  { unfold leave. by destruct (Z.eqb_spec (r_type s) CACHE_MISS). }
  destruct (retire_ok op_i (leave s) st Hk Hnm) as (f & s' & st1 & E1 & Hf & Hh & Hfc & Hc & _).
  rewrite E1. cbn [obind].
  destruct (IH (S op_i) st1 Hl) as (fs & d & st2 & E2 & Hp & Hc2 & Hall). rewrite E2. cbn [obind].
  exists (f :: fs), (s' :: d), st2. split_and!; try done.
  - econstructor; [by apply fate_leave|by apply hot_leave|done].
  - congruence.
  - by constructor.
Qed.

Lemma worker_inj rm rm' : worker_of rm = worker_of rm' -> rm = rm'.
Proof. unfold worker_of, WORKERS_PER_MACHINE. lia. Qed.

(** A miss is queued while its worker has room, else kept. *)
Lemma miss_ok old op_i s st :
  slot_ok s -> is_miss s = true -> room old st ->
  (exists cf f s' st', handle_miss machine_id local_client_id clt_gid op_i s st = Done (cf, s', st') /\
    fate_step op_i f s s' st st' /\ hot_step op_i f s s' st st' /\ room old st') \/
  (handle_miss machine_id local_client_id clt_gid op_i s st = AssertFailed /\ queue_full old).
Proof.
  intros Hs Hm Hr. destruct (sk_home _ Hs Hm) as [Hrm Hne]. destruct (Hr _ Hrm) as [Hlen Hcap].
  set (rm := kh_machine (s_home s)) in *. unfold handle_miss.
  assert (Hput : negb (opcode (s_op s) =? CACHE_OP_PUT) ||
                 (val_len (s_op s) =? Z.shiftr HERD_VALUE_SIZE SHIFT_BITS) = true).
  { destruct (Z.eqb_spec (opcode (s_op s)) CACHE_OP_PUT) as [E|]; [|done].
    by rewrite (sk_put _ Hs Hm E). }
  rewrite Hput. cbn [c_assert obind s_home set_r_type]. fold rm.
  rewrite (proj2 (Z.eqb_neq rm machine_id)) by done. cbn [negb c_assert obind orb].
  change (DISABLE_LOCALS =? 0) with false. cbn [c_assert obind orb].
  change (ENABLE_THREAD_PARTITIONING_C_TO_W =? 1) with true. cbv iota. fold (worker_of rm).
  set (s1 := mkSlot _ _ _). set (w := worker_of rm) in *.
  change KVS_BATCH with 100 in Hcap.
  assert (Hu : u8 (outstanding st w + 1) = outstanding st w + 1) by (apply u8_small; unfold is_u8; lia).
  cbn [outstanding set_outstanding]. rewrite fupd_eq, Hu.
  destruct (Z.ltb_spec KVS_BATCH (outstanding st w + 1)) as [Hfull|Hfree].
  - left. unfold handle_lack_of_credits_for_remotes.
    change (BALANCE_REQS =? 1) with false. change (FINISH_BATCH_ON_MISSING_CREDIT =? 1) with false. cbv iota.
    cbn [outstanding set_outstanding wr_i]. rewrite fupd_eq.
    set (st1 := set_outstanding (fupd _ w _) _).
    assert (Hk : knows_opcode s1) by apply Hs.
    destruct (copy_ok op_i s1 st1 Hk) as (st2 & E & H1 & H2 & H3 & H4 & H5).
    assert (Hstep : fate_step op_i Carried s s1 st st2).
    { simpl. rewrite H1, H2, H3, Hm. split_and!; try done; [by right|by left]. }
    assert (Hroom : room old st2).
    { intros x Hx. rewrite H3, H4. destruct (Hr x Hx) as [Hx1 Hx2]. unfold st1. simpl.
      unfold fupd. destruct (Z.eqb_spec (worker_of x) w) as [Ew|]; [|done].
      apply worker_inj in Ew. subst x. rewrite Z.add_simpl_r, u8_small by (unfold is_u8; lia).
      split; [done|]. unfold KVS_BATCH. lia. }
    rewrite E. cbn [obind]. destruct (_ <=? _); cbn [obind]; by eexists _, Carried, _, _.
  - unfold issue_remote, add_erpc_request. cbn [ctx set_outstanding].
    change KVS_BATCH with 100 in Hfree.
    destruct (Z.ltb_spec (Z.of_nat (length (batch (ctx st) rm))) WINDOW_SIZE) as [Hq|Hq]; cbn [c_assert obind].
    2:{ right. split; [done|]. exists rm. split; [done|]. change KVS_BATCH with 100. lia. }
    left. eexists no_cf_change, (Sent rm), _, _. split; [reflexivity|]. split.
    + simpl. split_and!; done.
    + split; [done|]. intros x Hx. simpl. destruct (Hr x Hx) as [Hx1 Hx2]. unfold fupd.
      destruct (Z.eqb_spec x rm) as [->|Hxr].
      * rewrite length_app. simpl. fold w. rewrite Z.eqb_refl. unfold KVS_BATCH in *. lia.
      * destruct (Z.eqb_spec (worker_of x) w) as [Ew|]; [by apply worker_inj in Ew|done].
Qed.

Lemma cold_loop_ok old fuel op_i l st :
  (length l < fuel)%nat -> Forall slot_ok l -> room old st ->
  let r := handle_cold_loop protocol machine_id local_client_id clt_gid fuel op_i l st in
  (exists fs d rest st', r = Done (d, rest, st') /\
    l = take (length d) l ++ rest /\ pass_rel op_i (take (length d) l) fs d st st' /\ room old st') \/
  (r = AssertFailed /\ queue_full old).
Proof.
  revert op_i l st. induction fuel as [|fuel IH]; intros op_i l st Hf Hl Hr; [lia|].
  cbn [handle_cold_loop]. destruct l as [|s0 l0] eqn:El.
  { left. exists [], [], [], st. split_and!; try done. constructor. }
  rewrite <- El in *. destruct (rem_req_i st <? WINDOW_SIZE).
  2:{ left. exists [], [], l, st. split_and!; try done. constructor. }
  destruct (hits_ok old op_i l st Hl Hr) as (fs & d & rest & st1 & E & Hsplit & Hp & Hr1 & Hmiss).
  rewrite E. cbn [obind]. destruct rest as [|s rest]; [left; by eexists fs, d, [], st1|].
  assert (Hls : Forall slot_ok (s :: rest)) by (rewrite Hsplit in Hl; by apply Forall_app in Hl as [_ ?]).
  apply Forall_cons in Hls as [Hs Hrest].
  destruct (miss_ok old (op_i + length d) s st1 Hs Hmiss Hr1) as [(cf & f & s' & st2 & E2 & Hstep & Hhot & Hr2)|[E2 Hq]].
  2:{ right. by rewrite E2. }
  rewrite E2. cbn [obind].
  assert (Hd : length (take (length d) l) = length d) by (symmetry; apply (pass_length _ _ _ _ _ _ Hp)).
  assert (Hlen : length l = (length d + S (length rest))%nat)
    by (rewrite Hsplit, length_app, Hd; done).
  assert (Hcat : l = (take (length d) l ++ [s]) ++ rest) by (rewrite <- app_assoc; exact Hsplit).
  assert (Hp1 : pass_rel op_i (take (length d) l ++ [s]) (fs ++ [f]) (d ++ [s']) st st2).
  { eapply pass_app; [exact Hp|]. rewrite Hd. econstructor; [exact Hstep|exact Hhot|constructor]. }
  assert (Htake : forall n, take (length d + S n) l = (take (length d) l ++ [s]) ++ take n rest).
  { intros n. rewrite Hcat at 1. rewrite take_app. rewrite length_app, Hd. simpl.
    rewrite take_ge by (rewrite length_app, Hd; simpl; lia). f_equal. f_equal. lia. }
  destruct cf.
  all: try (destruct (IH (S (op_i + length d)) rest st2 ltac:(lia) Hrest Hr2)
              as [(fs2 & d2 & rest2 & st3 & E3 & Hs3 & Hp3 & Hr3)|[E3 Hq]]; rewrite E3; cbn [obind];
            [left|by right]; exists ((fs ++ [f]) ++ fs2), (d ++ s' :: d2), rest2, st3;
            rewrite length_app; cbn [length]; rewrite Htake; split_and!;
            [done|rewrite <- app_assoc, <- Hs3; exact Hcat
            |replace (d ++ s' :: d2) with ((d ++ [s']) ++ d2) by (by rewrite <- app_assoc);
             eapply pass_app; [exact Hp1|];
             rewrite length_app, Hd; simpl; by replace (op_i + (length d + 1))%nat with (S (op_i + length d)) by lia
            |done]).
  left. exists (fs ++ [f]), (d ++ [s']), rest, st2. rewrite length_app. cbn [length]. rewrite Htake, app_nil_r.
  done.
Qed.
End fates.

(** ** Reading the outcome off the fates *)
Definition carried (fs : list fate) (l : list slot) : list slot :=
  omap (fun x => match x.1 with Carried => Some x.2 | _ => None end) (zip fs l).

Fixpoint sent_to (rm : Z) (op_i : nat) (fs : list fate) (l : list slot) : list (nat * Z) :=
  match fs, l with
  | f :: fs, s :: l =>
      match f with
      | Sent x => if x =? rm then (op_i, size_of_op (opcode (s_op s))) :: sent_to rm (S op_i) fs l
                  else sent_to rm (S op_i) fs l
      | _ => sent_to rm (S op_i) fs l
      end
  | _, _ => []
  end.

Lemma pass_carried protocol gid op_i l fs d st st' :
  pass_rel protocol gid op_i l fs d st st' ->
  next_op_i st' = (next_op_i st + length (carried fs d))%nat /\
  (forall j, (j < next_op_i st)%nat -> next st' !! j = next st !! j) /\
  (forall k s' dst, carried fs d !! k = Some s' -> next st !! (next_op_i st + k)%nat = Some dst ->
     next st' !! (next_op_i st + k)%nat = Some (copy_slot dst s')).
Proof.
  induction 1 as [|op_i s l f fs s' l' st st1 st2 Hf _ _ (IH1 & IH2 & IH3)].
  { split_and!; [simpl; lia|done|]. intros k s' dst [=]. }
  assert (Hkeep : next st1 = next st -> next_op_i st1 = next_op_i st ->
    carried (f :: fs) (s' :: l') = carried fs l' ->
    next_op_i st2 = (next_op_i st + length (carried (f :: fs) (s' :: l')))%nat /\
    (forall j, (j < next_op_i st)%nat -> next st2 !! j = next st !! j) /\
    (forall k s1 dst, carried (f :: fs) (s' :: l') !! k = Some s1 ->
       next st !! (next_op_i st + k)%nat = Some dst ->
       next st2 !! (next_op_i st + k)%nat = Some (copy_slot dst s1))).
  { intros E1 E2 ->. rewrite E1, E2 in *. done. }
  destruct f as [| |rm]; simpl in Hf.
  - destruct Hf as (_ & _ & _ & E1 & E2 & _). by apply Hkeep.
  - destruct Hf as (_ & _ & _ & _ & E1 & E2 & _).
    change (carried (Carried :: fs) (s' :: l')) with (s' :: carried fs l').
    rewrite E1, E2 in *. cbn [length]. split_and!.
    + rewrite IH1. lia.
    + intros j Hj. rewrite IH2 by lia. by rewrite list_lookup_alter_ne by lia.
    + intros [|k] s1 dst Hk Hd.
      * injection Hk as <-. rewrite Nat.add_0_r in *. rewrite IH2 by lia.
        by rewrite list_lookup_alter_eq, Hd.
      * replace (next_op_i st + S k)%nat with (S (next_op_i st) + k)%nat in * by lia.
        apply (IH3 k s1 dst Hk). by rewrite list_lookup_alter_ne by lia.
  - destruct Hf as (_ & _ & _ & _ & E1 & E2 & _). by apply Hkeep.
Qed.

Lemma pass_sent protocol gid op_i l fs d st st' rm :
  pass_rel protocol gid op_i l fs d st st' ->
  batch (ctx st') rm = batch (ctx st) rm ++ sent_to rm op_i fs l.
Proof.
  induction 1 as [|op_i s l f fs s' l' st st1 st2 Hf _ _ IH]; [by rewrite app_nil_r|].
  rewrite IH. cbn [sent_to]. destruct f as [| |x]; simpl in Hf.
  - destruct Hf as (_ & _ & _ & _ & _ & ->). done.
  - destruct Hf as (_ & _ & _ & _ & _ & _ & ->). done.
  - destruct Hf as (_ & _ & _ & _ & _ & _ & _ & ->). unfold fupd. rewrite (Z.eqb_sym x rm).
    destruct (Z.eqb_spec rm x) as [->|]; [by rewrite <- app_assoc|done].
Qed.

Lemma pass_fate protocol gid op_i l fs d st st' i f s s' :
  pass_rel protocol gid op_i l fs d st st' ->
  fs !! i = Some f -> l !! i = Some s -> d !! i = Some s' ->
  exists st1 st2, fate_step protocol gid (op_i + i) f s s' st1 st2.
Proof.
  intros H. revert i. induction H as [|op_i s0 l f0 fs s0' l' st st1 st2 Hf _ _ IH]; intros i; [done|].
  destruct i as [|i]; simpl.
  - intros [= <-] [= <-] [= <-]. rewrite Nat.add_0_r. eauto.
  - intros. rewrite <- Nat.add_succ_comm. eauto.
Qed.

(** The whole pass as one sequence of fates; it fails only when a queue gets
    longer than [WINDOW_SIZE]. *)
Lemma cold_pass_cases protocol mid lid gid l st :
  Forall (slot_ok protocol mid lid) l -> (forall w, outstanding st w = 0) ->
  let old rm := Z.of_nat (length (batch (ctx st) rm)) in
  (exists fs l' st', handle_cold_requests protocol mid lid gid l st = Done (l', st') /\
    pass_rel protocol gid 0 l fs l' st st' /\
    (forall rm, rm ∈ machines -> old rm <= Z.of_nat (length (batch (ctx st') rm)) <= old rm + KVS_BATCH)) \/
  (handle_cold_requests protocol mid lid gid l st = AssertFailed /\ queue_full old).
Proof.
  intros Hl Ho old.
  assert (Hr : room mid lid old st) by (intros rm _; rewrite Ho; unfold old, KVS_BATCH; lia).
  unfold handle_cold_requests.
  destruct (cold_loop_ok protocol mid lid gid old (S (length l)) 0 l st ltac:(lia) Hl Hr)
    as [(fs1 & d1 & rest & st1 & E1 & Hsplit & Hp1 & Hr1)|[E1 Hq]].
  2:{ right. by rewrite E1. }
  left. assert (Hd1 : length (take (length d1) l) = length d1) by (symmetry; apply (pass_length _ _ _ _ _ _ _ _ Hp1)).
  assert (Hrest : Forall (slot_ok protocol mid lid) rest)
    by (rewrite Hsplit in Hl; by apply Forall_app in Hl as [_ ?]).
  destruct (rest_ok protocol mid lid gid (length d1) rest st1 Hrest) as (fs2 & d2 & st2 & E2 & Hp2 & Hc2 & _).
  exists (fs1 ++ fs2), (d1 ++ d2), st2.
  rewrite E1. cbn [obind]. rewrite E2. split; [done|]. split.
  - rewrite Hsplit. eapply pass_app; [exact Hp1|]. by rewrite Hd1.
  - intros rm Hrm. rewrite Hc2. destruct (Hr1 rm Hrm). lia.
Qed.

Lemma cold_pass_ok protocol mid lid gid l st :
  Forall (slot_ok protocol mid lid) l ->
  (forall rm, batch (ctx st) rm = []) -> (forall w, outstanding st w = 0) ->
  exists fs l' st', handle_cold_requests protocol mid lid gid l st = Done (l', st') /\
    pass_rel protocol gid 0 l fs l' st st' /\
    (forall rm, rm ∈ machines -> Z.of_nat (length (batch (ctx st') rm)) <= KVS_BATCH).
Proof.
  intros Hl Hb Ho. destruct (cold_pass_cases protocol mid lid gid l st Hl Ho) as [(fs & l' & st' & E & Hp & Hc)|[_ (rm & _ & H)]].
  - exists fs, l', st'. split; [done|]. split; [done|]. intros rm Hrm. specialize (Hc rm Hrm). rewrite Hb in Hc. simpl in Hc. lia.
  - rewrite Hb in H. vm_compute in H. discriminate H.
Qed.

(** No request is lost or duplicated.  Starting a round with empty queues,
    [handle_cold_requests] completes on every batch the cache produced (no
    assertion fails, the loops end), and gives each request exactly one fate:
    finished (its response slot is emptied), queued once for its home machine,
    in order and with the size of its kind, or copied, in order, to the arrays
    of the next round (a miss marked as not served yet); no machine gets more
    than [KVS_BATCH] requests. *)
Theorem cold_requests_fates protocol mid lid gid l st :
  Forall (slot_ok protocol mid lid) l ->
  (forall rm, batch (ctx st) rm = []) -> (forall w, outstanding st w = 0) ->
  next_op_i st = 0%nat -> length (next st) = length l ->
  exists fs l' st', handle_cold_requests protocol mid lid gid l st = Done (l', st') /\
    length fs = length l /\ length l' = length l /\
    next_op_i st' = length (carried fs l') /\
    (forall k s' dst, carried fs l' !! k = Some s' -> next st !! k = Some dst ->
       next st' !! k = Some (copy_slot dst s')) /\
    (forall rm, batch (ctx st') rm = sent_to rm 0 fs l) /\
    (forall rm, rm ∈ machines -> Z.of_nat (length (sent_to rm 0 fs l)) <= KVS_BATCH) /\
    (forall i f s s', fs !! i = Some f -> l !! i = Some s -> l' !! i = Some s' ->
       match f with
       | Finished => finished protocol s = true /\ r_type s' = EMPTY
       | Carried => r_type s' = (if is_miss s then UNSERVED_CACHE_MISS else r_type s) /\ s_home s' = s_home s
       | Sent rm => is_miss s = true /\ rm = kh_machine (s_home s) /\ rm <> mid /\ r_type s' = EMPTY
       end /\ key_word (s_op s') = key_word (s_op s) /\ opcode (s_op s') = opcode (s_op s)).
Proof.
  intros Hl Hb Ho Hn Hlen.
  destruct (cold_pass_ok protocol mid lid gid l st Hl Hb Ho) as (fs & l' & st' & E & Hp & Hcap).
  destruct (pass_length _ _ _ _ _ _ _ _ Hp) as [Hfs Hd].
  destruct (pass_carried _ _ _ _ _ _ _ _ Hp) as (Hcn & _ & Hck). rewrite Hn in *.
  assert (Hsent : forall rm, batch (ctx st') rm = sent_to rm 0 fs l).
  { intros rm. by rewrite (pass_sent _ _ _ _ _ _ _ _ rm Hp), Hb. }
  exists fs, l', st'. split_and!; try done.
  - intros rm Hrm. rewrite <- Hsent. by apply Hcap.
  - intros i f s s' Hf Hs Hs'. destruct (pass_fate _ _ _ _ _ _ _ _ i f s s' Hp Hf Hs Hs') as (sa & sb & Hstep).
    assert (Hok : slot_ok protocol mid lid s) by (rewrite Forall_lookup in Hl; eauto).
    destruct f as [| |rm]; simpl in Hstep.
    + destruct Hstep as (H1 & H2 & -> & _). done.
    + destruct Hstep as (Hh & Ht & [-> |[_ ->]] & _); done.
    + destruct Hstep as (H1 & -> & H3 & -> & _). split; [|done]. split_and!; try done.
      by apply (sk_home _ _ _ _ Hok).
Qed.

(** ** Concrete instance: a read served by the cache, a write already
    broadcast, and a miss for machine 2. *)
Definition demo_slot (op : cache_op) (t : Z) : slot := mkSlot op (mkResp t 0 None) (mkHome 2 0).
Definition demo_slots : list slot :=
  [demo_slot demo_cget CACHE_GET_SUCCESS; demo_slot demo_upd CACHE_PUT_SUCCESS;
   demo_slot demo_cget CACHE_MISS].
Definition demo_pass : pass_state :=
  mkPass demo_slots 0 0 (fun _ => 0) (mkLat NO_REQ 0) 0 0 (fun _ => 0) (fun _ => 0) demo_ctx.

Lemma demo_slots_ok : Forall (slot_ok SEQUENTIAL_CONSISTENCY 1 0) demo_slots.
Proof.
  assert (Hg : knows_opcode (demo_slot demo_cget 0)) by (by right).
  assert (Hu : knows_opcode (demo_slot demo_upd 0)) by (by left).
  apply Forall_forall. intros s Hs%list_elem_of_In.
  destruct Hs as [<-|[<-|[<-|[]]]]; split; try done.
  intros _. split; [apply machines_spec; vm_compute; split; [discriminate|done]|done].
Qed.

Lemma cold_requests_fates_witness :
  exists fs l' st', handle_cold_requests SEQUENTIAL_CONSISTENCY 1 0 20 demo_slots demo_pass = Done (l', st') /\
    length fs = 3%nat /\ (forall rm, batch (ctx st') rm = sent_to rm 0 fs demo_slots).
Proof.
  destruct (cold_requests_fates SEQUENTIAL_CONSISTENCY 1 0 20 demo_slots demo_pass)
    as (fs & l' & st' & E & H1 & _ & _ & _ & H2 & _).
  - apply demo_slots_ok.
  - reflexivity.
  - reflexivity.
  - reflexivity.
  - reflexivity.
  - exists fs, l', st'. split; [exact E|]. split; [exact H1|exact H2].
Defined.

(** What happens to them: the first two are finished, the third goes to
    machine 2 as a 17-byte request. *)
Example demo_pass_result :
  match handle_cold_requests SEQUENTIAL_CONSISTENCY 1 0 20 demo_slots demo_pass with
  | Done (l, st) => (r_type <$> l, batch (ctx st) 2, next_op_i st) =
      ([EMPTY; EMPTY; EMPTY], [(2%nat, 17)], 0%nat)
  | _ => False
  end.
Proof. vm_compute. reflexivity. Qed.
