(* ===== verification/Trace.v ===== *)
(** * Filling a batch from the trace (src/ccKVS/cache.c, include/ccKVS/cache.h)

    [batch_from_trace_to_cache] appends requests of the client's trace to the
    requests carried over from the previous round until the batch is full, and
    probes the cache with the whole batch.  Reads of the hottest keys are
    merged: a read of a key that already has a read in the batch only
    increments that request's [val_len]; a write to the key ends the merging.
    The main theorem: per key, the batch stands for exactly the requests of the
    trace, in the order of the trace.

    The trace is the array of commands up to its [NOP] terminator.  Clock
    readings, [key_to_measure] and the latency histogram are left out of the
    latency marker here; [Latency] has them. *)
From S2P Require Import Prelude Config Optik Layout City Mica MicaLog Cache CacheSpec Network Packets ColdRequests.

(** ** The trace as the code reads it *)
Definition nop_cmd : trace_command := mkCmd NOP 0 0 0 (0, 0).
Definition trace_at (t : list trace_command) (it : nat) : trace_command := nth it t nop_cmd.

(** [trace_iter++; if (trace[trace_iter].opcode == NOP) trace_iter = 0] *)
Definition next_iter (t : list trace_command) (it : nat) : nat :=
  if tc_opcode (trace_at t (S it)) =? NOP then O else S it.

(** [hrd_fastrand]: the new seed and the number drawn. *)
Definition hrd_fastrand (seed : Z) : Z * Z :=
  let seed := u64 (seed * 1103515245 + 12345) in
  (seed, u32 (Z.shiftr seed 32)).

(** The bytes of "Armonia is the key to success!  ". *)
Definition armonia : list Z :=
  [65; 114; 109; 111; 110; 105; 97; 32; 105; 115; 32; 116; 104; 101; 32; 107;
   101; 121; 32; 116; 111; 32; 115; 117; 99; 99; 101; 115; 115; 33; 32; 32].

(** The bytes of the string, then a zero byte. *)
Definition str_to_binary (v str : list Z) (size : nat) : list Z :=
  take size str ++ [0] ++ drop (S size) v.

(** ** State of the loop *)
Record fill_state := mkFill {
  trace_iter : nat;
  fill_i : nat;
  slots : list slot;
  hot_keys : Z -> Z;
  lat : latency_flags;
  seed : Z;
  empty_reqs : Z
}.

Section fill.
Context (machine_id thread_id isSC batches_per_client : Z).
Context (trace : list trace_command).

(** [start_measurement]: the flag, and whether the request is marked for the
    measurement of its remote latency. *)
Definition measured_as (cmd : trace_command) (f : req_type) : req_type :=
  let f := if IS_LOCAL (tc_opcode cmd) then LOCAL_REQ
           else if IS_REMOTE (tc_opcode cmd) then REMOTE_REQ else f in
  if DISABLE_CACHE =? 0 then
    if tc_opcode cmd =? HOT_WRITE then
      if isSC =? 1 then HOT_WRITE_REQ_BEFORE_SAVING_KEY else HOT_WRITE_REQ
    else if tc_opcode cmd =? HOT_READ then HOT_READ_REQ else f
  else if IS_HOT (tc_opcode cmd) then
    if home_machine_id cmd =? machine_id then LOCAL_REQ else REMOTE_REQ
  else f.

Definition is_no_req (f : req_type) : bool := match f with NO_REQ => true | _ => false end.
Definition is_remote_req (f : req_type) : bool := match f with REMOTE_REQ => true | _ => false end.

Definition start_measurement (cmd : trace_command) (i : nat) (o : cache_op) (l : latency_flags)
    : outcome (cache_op * latency_flags) :=
  let* _ := c_assert (state (meta o) =? 0) in
  if is_no_req (measured_req_flag l) && (K_32 <? batches_per_client) && (thread_id =? 0) && (machine_id =? 0) then
    let f := measured_as cmd (measured_req_flag l) in
    let* _ := c_assert (negb (is_no_req f)) in
    Done (if is_remote_req f then set_meta (set_state 1 (meta o)) o else o, mkLat f i)
  else Done (o, l).

(** The session a request is issued in. *)
Definition session_of (rand : Z) : Z :=
  if ENABLE_MULTIPLE_SESSIONS =? 1
  then u8 (u8 (rand mod SESSIONS_PER_CLIENT) * CLIENTS_PER_MACHINE + thread_id)
  else u8 thread_id.

(** The request of a command, written over the old contents [o] of its slot. *)
Definition new_op (cmd : trace_command) (rand : Z) (o : cache_op) : cache_op :=
  let is_update := IS_WRITE (tc_opcode cmd) in
  let o := set_op_key (key_hash cmd) o in
  let o := if MEASURE_LATENCY =? 1 then set_meta (set_state 0 (meta o)) o else o in
  let o := set_opcode (if is_update then CACHE_OP_PUT else CACHE_OP_GET) o in
  let o := set_val_len (if is_update then u8 (Z.shiftr HERD_VALUE_SIZE SHIFT_BITS) else 0) o in
  set_meta (set_cid (session_of rand) (meta o)) o.

(** A command that takes a slot of its own. *)
Definition place (cmd : trace_command) (hot : Z -> Z) (tracks : bool) (st : fill_state) : outcome fill_state :=
  let i := fill_i st in
  match slots st !! i with
  | None => AssertFailed
  | Some s =>
      let o := if tracks && (isSC =? 1)
               then set_value (<[O := u8 (key_id cmd)]> (value (s_op s))) (s_op s) else s_op s in
      let* _ := c_assert ((0 <? WRITE_RATIO) || negb (IS_WRITE (tc_opcode cmd))) in
      let '(sd, rand) := if ENABLE_MULTIPLE_SESSIONS =? 1 then hrd_fastrand (seed st) else (seed st, 0) in
      let o := new_op cmd rand o in
      let* _ := c_assert (negb (IS_WRITE (tc_opcode cmd)) || (0 <? val_len o)) in
      let* (o, l) := if MEASURE_LATENCY =? 1 then start_measurement cmd i o (lat st) else Done (o, lat st) in
      let o := if opcode o =? CACHE_OP_PUT
               then set_value (str_to_binary (value o) armonia (Z.to_nat HERD_VALUE_SIZE)) o else o in
      let r := set_type (if DISABLE_CACHE =? 1 then CACHE_MISS else EMPTY) (s_resp s) in
      let home := mkHome (u8 (home_machine_id cmd)) (u8 (home_worker_id cmd)) in
      Done (mkFill (next_iter trace (trace_iter st)) (S i) (<[i := mkSlot o r home]> (slots st))
              hot l sd (empty_reqs st + 1))
  end.

(** A read merged into the request at [op_i]. *)
Definition merge (op_i : nat) (st : fill_state) : outcome fill_state :=
  match slots st !! op_i with
  | None => AssertFailed
  | Some s =>
      let* _ := c_assert (opcode (s_op s) =? CACHE_OP_GET) in
      let* _ := c_assert (val_len (s_op s) <? 255) in
      let s := mkSlot (set_val_len (u8 (val_len (s_op s) + 1)) (s_op s)) (s_resp s) (s_home s) in
      Done (mkFill (next_iter trace (trace_iter st)) (fill_i st) (<[op_i := s]> (slots st))
              (hot_keys st) (lat st) (seed st) (empty_reqs st))
  end.

Definition tracked_cmd (cmd : trace_command) : bool :=
  (ENABLE_HOT_KEY_TRACKING =? 1) && (DISABLE_CACHE =? 0) && (key_id cmd <? HOTTEST_KEYS_TO_TRACK).

(** The body of the loop. *)
Definition fill_step (st : fill_state) : outcome fill_state :=
  let cmd := trace_at trace (trace_iter st) in
  let k := key_id cmd in
  if tracked_cmd cmd then
    if IS_READ (tc_opcode cmd) then
      if hot_keys st k =? 0 then place cmd (fupd (hot_keys st) k (u16 (Z.of_nat (fill_i st) + 1))) true st
      else merge (Z.to_nat (hot_keys st k - 1)) st
    else place cmd (fupd (hot_keys st) k 0) false st
  else place cmd (hot_keys st) false st.

Definition fill_more (st : fill_state) : bool :=
  (Z.of_nat (fill_i st) <? CACHE_BATCH_SIZE) &&
  negb (tc_opcode (trace_at trace (trace_iter st)) =? NOP).

Fixpoint fill_loop (fuel : nat) (st : fill_state) : outcome fill_state :=
  match fuel with
  | O => Spin
  | S fuel => if fill_more st then let* st := fill_step st in fill_loop fuel st else Done st
  end.

(** What the function asserts of the requests carried over. *)
Definition carried_ok (s : slot) : bool :=
  negb (r_type s =? EMPTY) &&
  negb ((r_type s =? CACHE_GET_SUCCESS) || (opcode (s_op s) =? CACHE_OP_INV) || (r_type s =? CACHE_PUT_FAIL)).

(** At most 256 commands per request of the batch. *)
Definition fill_fuel : nat := Z.to_nat (256 * CACHE_BATCH_SIZE + 1).

(** The state before the loop; SC forgets the reads of the previous batch. *)
Definition fill_start (it next_op_i : nat) (l : list slot) (hot : Z -> Z) (la : latency_flags) : fill_state :=
  let hot := if (ENABLE_HOT_KEY_TRACKING =? 1) && (isSC =? 0)
             then fun k => if (0 <=? k) && (k <? HOTTEST_KEYS_TO_TRACK) then 0 else hot k else hot in
  mkFill it next_op_i l hot la 0xdeadbeef 0.

Definition fill_batch (it next_op_i : nat) (l : list slot) (hot : Z -> Z) (la : latency_flags)
    : outcome fill_state :=
  let* _ := c_assert (forallb carried_ok (take next_op_i l)) in
  fill_loop fill_fuel (fill_start it next_op_i l hot la).

(** [hot_request_bookkeeping_for_latency_measurements], on the flag. *)
Definition hot_request_bookkeeping (la : latency_flags) (l : list slot) : latency_flags :=
  let t := default EMPTY (r_type <$> (l !! last_measured_op_i la)) in
  let flag f := mkLat f (last_measured_op_i la) in
  match measured_req_flag la with
  | HOT_READ_REQ => if (t =? CACHE_GET_SUCCESS) || (t =? CACHE_PUT_SUCCESS) then flag NO_REQ else la
  | HOT_WRITE_REQ =>
      if (isSC =? 0) && ((t =? CACHE_GET_SUCCESS) || (t =? CACHE_PUT_SUCCESS)) then flag NO_REQ else la
  | HOT_WRITE_REQ_BEFORE_SAVING_KEY =>
      if (isSC =? 1) && (t =? CACHE_PUT_SUCCESS) then flag HOT_WRITE_REQ
      else if (isSC =? 1) && (t =? CACHE_PUT_FAIL) then flag NO_REQ else la
  | _ => la
  end.

(** The slots after the cache answered for the first of them. *)
Definition answered (l : list slot) (ans : list (cache_op * mica_resp)) : list slot :=
  zip_with (fun s x => mkSlot x.1 x.2 (s_home s)) l ans ++ drop (length ans) l.

Definition batch_from_trace_to_cache (it next_op_i : nat) (l : list slot) (hot : Z -> Z)
    (la : latency_flags) (kv : mica_kv) : outcome (fill_state * mica_kv) :=
  let* st := fill_batch it next_op_i l hot la in
  let batch := (fun s => (s_op s, s_resp s)) <$> take (fill_i st) (slots st) in
  let* (kv, ans) :=
    if DISABLE_CACHE =? 0 then
      if isSC =? 1 then cache_batch_op_lin_non_stalling_sessions machine_id kv batch
      else cache_batch_op_sc machine_id kv batch
    else Done (kv, batch) in
  let l := answered (slots st) ans in
  let la := if (MEASURE_LATENCY =? 1) && (DISABLE_CACHE =? 0)
            then hot_request_bookkeeping (lat st) l else lat st in
  let* _ := c_assert (forallb (fun s => negb (r_type s =? RETRY)) l) in
  Done (mkFill (trace_iter st) (fill_i st) l (hot_keys st) la (seed st) (empty_reqs st), kv).
End fill.

(** ** What a batch stands for *)

(** A read stands for [val_len] more reads of its key. *)
Definition expand_slot (s : slot) : list (Z * bool) :=
  if opcode (s_op s) =? CACHE_OP_GET
  then replicate (S (Z.to_nat (val_len (s_op s)))) (key_word (s_op s), true)
  else [(key_word (s_op s), false)].
Definition requests (l : list slot) : list (Z * bool) := l ≫= expand_slot.

Definition cmd_word (c : trace_command) : Z := (key_hash c).2.
Definition cmd_request (c : trace_command) : Z * bool := (cmd_word c, IS_READ (tc_opcode c)).
Definition on_key (w : Z) (l : list (Z * bool)) : list (Z * bool) := filter (fun x => x.1 = w) l.

(** The next [n] commands from position [it]. *)
Fixpoint commands (t : list trace_command) (it n : nat) : list trace_command :=
  match n with
  | O => []
  | S n => trace_at t it :: commands t (next_iter t it) n
  end.

Record cmd_ok (c : trace_command) : Prop := {
  ck_opcode : IS_READ (tc_opcode c) = negb (IS_WRITE (tc_opcode c));
  ck_nop : tc_opcode c <> NOP;
  ck_key : is_u32 (key_id c);
  ck_hash : is_u64 (key_hash c).1 /\ is_u64 (key_hash c).2
}.

(** Commands of a trace carry distinct key words exactly for distinct keys. *)
Definition trace_ok (t : list trace_command) : Prop :=
  Forall cmd_ok t /\
  forall c1 c2, c1 ∈ t -> c2 ∈ t -> (cmd_word c1 = cmd_word c2 <-> key_id c1 = key_id c2).

(** The pointers name the last request of their key, and it is a read. *)
Definition tracking (t : list trace_command) (hot : Z -> Z) (l : list slot) (n : nat) : Prop :=
  forall k, 0 <= k < HOTTEST_KEYS_TO_TRACK -> hot k <> 0 ->
    exists p s, hot k = Z.of_nat p + 1 /\ (p < n)%nat /\ l !! p = Some s /\
      opcode (s_op s) = CACHE_OP_GET /\
      (exists c, c ∈ t /\ key_id c = k /\ cmd_word c = key_word (s_op s)) /\
      (forall q s', (p < q < n)%nat -> l !! q = Some s' -> key_word (s_op s') <> key_word (s_op s)).

(** Merging changes the length of a read only. *)
Definition slot_grows (s s' : slot) : Prop :=
  s_resp s' = s_resp s /\ s_home s' = s_home s /\
  exists n, s_op s' = set_val_len n (s_op s) /\ val_len (s_op s) <= n /\
    (opcode (s_op s) <> CACHE_OP_GET -> n = val_len (s_op s)).

(** A request just read from command [c]. *)
Definition fresh_slot (c : trace_command) (s : slot) : Prop :=
  r_type s = EMPTY /\ s_home s = mkHome (u8 (home_machine_id c)) (u8 (home_worker_id c)) /\
  opcode (s_op s) = (if IS_WRITE (tc_opcode c) then CACHE_OP_PUT else CACHE_OP_GET) /\
  key_word (s_op s) = cmd_word c /\
  (IS_WRITE (tc_opcode c) = true ->
     val_len (s_op s) = HERD_VALUE_SIZE /\ take (Z.to_nat HERD_VALUE_SIZE) (value (s_op s)) = armonia).

(** [n] iterations of the loop. *)
Inductive fill_runs (mid tid isSC bpc : Z) (t : list trace_command) : nat -> fill_state -> fill_state -> Prop :=
| fill_runs_none st : fill_runs mid tid isSC bpc t O st st
| fill_runs_next n st st1 st' :
    fill_more t st = true -> fill_step mid tid isSC bpc t st = Done st1 ->
    fill_runs mid tid isSC bpc t n st1 st' -> fill_runs mid tid isSC bpc t (S n) st st'.

(** The next command of the trace is a read of one of the hottest keys, and the
    last request of that key in the batch is a read that already stands for
    256 reads: a [val_len] of 255 cannot be incremented. *)
Definition merge_full (t : list trace_command) (st : fill_state) : Prop :=
  let c := trace_at t (trace_iter st) in
  IS_READ (tc_opcode c) = true /\ key_id c < HOTTEST_KEYS_TO_TRACK /\
  exists p s, (p < fill_i st)%nat /\ slots st !! p = Some s /\ opcode (s_op s) = CACHE_OP_GET /\
    val_len (s_op s) = 255 /\ key_word (s_op s) = cmd_word c /\
    forall q s', (p < q < fill_i st)%nat -> slots st !! q = Some s' -> key_word (s_op s') <> cmd_word c.

(** After [n] iterations from [st0] that put the next [n] commands of the trace
    in the batch, the loop is at a read that cannot be merged. *)
Definition merge_overflows (mid tid isSC bpc : Z) (t : list trace_command) (st0 : fill_state) (n : nat) : Prop :=
  exists st, fill_runs mid tid isSC bpc t n st0 st /\ fill_more t st = true /\ merge_full t st /\
    trace_iter st = Nat.iter n (next_iter t) (trace_iter st0) /\
    forall w, on_key w (requests (take (fill_i st) (slots st)))
      = on_key w (requests (take (fill_i st0) (slots st0))) ++ on_key w (cmd_request <$> commands t (trace_iter st0) n).

Lemma slot_grows_refl s : slot_grows s s.
Proof. split; [done|]. split; [done|]. exists (val_len (s_op s)). by destruct s as [[] ? ?]. Qed.

Lemma slot_grows_trans s1 s2 s3 : slot_grows s1 s2 -> slot_grows s2 s3 -> slot_grows s1 s3.
Proof.
  intros (R1 & H1 & n1 & E1 & L1 & K1) (R2 & H2 & n2 & E2 & L2 & K2). rewrite E1 in *. simpl in *.
  split; [congruence|]. split; [congruence|]. exists n2. rewrite E2. split; [done|]. split; [lia|].
  intros Hg. rewrite K2 by done. auto.
Qed.

Lemma set_op_key_fits k o : op_fits o -> is_u64 k.1 -> is_u64 k.2 -> op_fits (set_op_key k o).
Proof.
  intros [Hm ? ? ? ? ? Hl Hb] H1 H2. unfold set_op_key.
  split; simpl; auto using u32_range, u16_range.
  - split; simpl; try (apply Z.mod_pos_bound; lia).
    rewrite Z.shiftr_div_pow2 by lia. unfold is_u32. unfold is_u64 in H1.
    split; [apply Z.div_pos; lia|apply Z.div_lt_upper_bound; lia].
  - rewrite Z.shiftr_div_pow2 by lia. unfold is_u16. unfold is_u64 in H2.
    split; [apply Z.div_pos; lia|apply Z.div_lt_upper_bound; lia].
Qed.

Lemma set_op_key_word k o : op_fits o -> is_u64 k.1 -> is_u64 k.2 -> key_word (set_op_key k o) = k.2.
Proof.
  intros Ho H1 H2. rewrite key_word_eq by by apply set_op_key_fits. simpl.
  unfold u32, u16. rewrite !Z.shiftr_div_pow2 by lia. unfold is_u64 in H2.
  change (2 ^ 48) with (2 ^ 32 * 2 ^ 16). rewrite <- Z.div_div by lia.
  pose proof (Z.div_mod (k.2) (2 ^ 32) ltac:(lia)).
  pose proof (Z.div_mod (k.2 / 2 ^ 32) (2 ^ 16) ltac:(lia)). lia.
Qed.

Lemma set_val_len_fits n o : is_u8 n -> op_fits o -> op_fits (set_val_len n o).
Proof. intros Hn []. by split. Qed.
Lemma set_value_fits v o : length v = max_value_len -> Forall is_u8 v -> op_fits o -> op_fits (set_value v o).
Proof. intros Hl Hv []. by split. Qed.

(** *** Requests of arrays *)
Lemma requests_app l1 l2 : requests (l1 ++ l2) = requests l1 ++ requests l2.
Proof. unfold requests. by rewrite bind_app. Qed.
Lemma requests_one s : requests [s] = expand_slot s.
Proof. apply app_nil_r. Qed.
Lemma on_key_app w l1 l2 : on_key w (l1 ++ l2) = on_key w l1 ++ on_key w l2.
Proof. apply filter_app. Qed.

Lemma on_key_other w s : key_word (s_op s) <> w -> on_key w (expand_slot s) = [].
Proof.
  intros Hn. unfold expand_slot, on_key. destruct (_ =? _).
  - induction (S (Z.to_nat (val_len (s_op s)))) as [|n IH]; [done|]. simpl.
    by rewrite filter_cons_False.
  - by rewrite filter_cons_False.
Qed.

Lemma on_key_others w l : Forall (fun s => key_word (s_op s) <> w) l -> on_key w (requests l) = [].
Proof.
  induction 1 as [|s l Hs _ IH]; [done|]. change (s :: l) with ([s] ++ l).
  by rewrite requests_app, on_key_app, IH, requests_one, on_key_other.
Qed.

Lemma take_insert_next {A} (l : list A) i x :
  (i < length l)%nat -> take (S i) (<[i := x]> l) = take i l ++ [x].
Proof.
  intros Hi. rewrite (take_S_r _ _ x) by by apply list_lookup_insert_eq.
  by rewrite take_insert_ge.
Qed.

(** ** The steps of the loop *)
Section fill_steps.
Context (machine_id thread_id isSC batches_per_client : Z).
Context (trace : list trace_command) (Htrace : trace_ok trace).

Lemma new_op_ok cmd rand o :
  cmd_ok cmd -> op_fits o ->
  let o' := new_op thread_id cmd rand o in
  op_fits o' /\ key_word o' = cmd_word cmd /\ state (meta o') = 0 /\ value o' = value o /\
  opcode o' = (if IS_WRITE (tc_opcode cmd) then CACHE_OP_PUT else CACHE_OP_GET) /\
  val_len o' = (if IS_WRITE (tc_opcode cmd) then HERD_VALUE_SIZE else 0).
Proof using Type.
  intros [_ _ _ [H1 H2]] Ho. pose proof (set_op_key_fits _ _ Ho H1 H2) as Hf.
  pose proof (set_op_key_word _ _ Ho H1 H2) as Hw.
  unfold new_op. cbv zeta. change (MEASURE_LATENCY =? 1) with true. cbn [negb].
  split_and!; try done.
  destruct Hf as [[] ? ? ? ? ? ? ?]. split; try done.
  - split; simpl; try done.
    unfold session_of. change (ENABLE_MULTIPLE_SESSIONS =? 1) with true. apply u8_range.
  - simpl. destruct (IS_WRITE _); unfold is_u8, CACHE_OP_PUT, CACHE_OP_GET; lia.
  - simpl. destruct (IS_WRITE _); [apply u8_range|unfold is_u8; lia].
Qed.

Lemma start_measurement_ok cmd i o l :
  cmd_ok cmd -> op_fits o -> state (meta o) = 0 ->
  exists o' l', start_measurement machine_id thread_id isSC batches_per_client cmd i o l = Done (o', l') /\
    op_fits o' /\ key_word o' = key_word o /\ opcode o' = opcode o /\ val_len o' = val_len o /\
    value o' = value o.
Proof using Type.
  intros [Hop _ _ _] Ho Hs. unfold start_measurement. rewrite Hs. cbn [c_assert obind Z.eqb].
  destruct (_ && _ && _ && _) eqn:Eb; [|by exists o, l].
  assert (Hf : is_no_req (measured_as machine_id isSC cmd (measured_req_flag l)) = false).
  { unfold measured_as. change (DISABLE_CACHE =? 0) with true. cbn iota.
    unfold IS_READ, IS_WRITE, IS_LOCAL, IS_REMOTE in *.
    destruct (tc_opcode cmd =? HOT_WRITE); [by destruct (isSC =? 1)|].
    destruct (tc_opcode cmd =? HOT_READ); [done|].
    by destruct (tc_opcode cmd =? LOCAL_WRITE), (tc_opcode cmd =? LOCAL_READ), (tc_opcode cmd =? REMOTE_WRITE),
      (tc_opcode cmd =? REMOTE_READ). }
  rewrite Hf. cbn [c_assert obind negb]. do 2 eexists. split; [reflexivity|].
  destruct (is_remote_req _); [|done]. split_and!; try done.
  destruct Ho as [[] ? ? ? ? ? ? ?]. by split.
Qed.

Lemma str_to_binary_ok v :
  length v = max_value_len -> Forall is_u8 v ->
  let v' := str_to_binary v armonia (Z.to_nat HERD_VALUE_SIZE) in
  length v' = max_value_len /\ Forall is_u8 v' /\ take (Z.to_nat HERD_VALUE_SIZE) v' = armonia.
Proof using Type.
  intros Hl Hv. unfold str_to_binary. change (Z.to_nat HERD_VALUE_SIZE) with 32%nat.
  change (take 32 armonia) with armonia. split_and!.
  - rewrite !length_app, length_drop, Hl. done.
  - rewrite !Forall_app. split_and!; [|apply Forall_singleton; unfold is_u8; lia|by apply Forall_drop].
    apply (bool_decide_unpack _). vm_compute. exact I.
  - by rewrite take_app_le.
Qed.

(** The contents of the slot a command is placed in. *)
Lemma place_ok cmd hot tracks st s :
  cmd_ok cmd -> slots st !! fill_i st = Some s -> op_fits (s_op s) ->
  exists st' s', place machine_id thread_id isSC batches_per_client trace cmd hot tracks st = Done st' /\
    trace_iter st' = next_iter trace (trace_iter st) /\ fill_i st' = S (fill_i st) /\ hot_keys st' = hot /\
    slots st' = <[fill_i st := s']> (slots st) /\ fresh_slot cmd s' /\ op_fits (s_op s') /\
    expand_slot s' = [cmd_request cmd].
Proof using Type.
  intros Hc Hs Hf. unfold place. rewrite Hs.
  set (o := if tracks && (isSC =? 1) then _ else _).
  assert (Ho : op_fits o).
  { unfold o. destruct (tracks && _); [|done]. apply set_value_fits; [|  |done].
    - rewrite length_insert. apply Hf.
    - apply Forall_insert; [apply Hf|apply u8_range]. }
  clearbody o. change ((0 <? WRITE_RATIO) || _) with true. cbn [c_assert obind].
  change (ENABLE_MULTIPLE_SESSIONS =? 1) with true. cbn iota.
  destruct (hrd_fastrand (seed st)) as [sd rand].
  destruct (new_op_ok cmd rand o Hc Ho) as (Hf' & Hw & Hst & _ & Hop & Hvl).
  set (o1 := new_op thread_id cmd rand o) in *. clearbody o1.
  assert (Ha : negb (IS_WRITE (tc_opcode cmd)) || (0 <? val_len o1) = true).
  { rewrite Hvl. by destruct (IS_WRITE _). }
  rewrite Ha. cbn [c_assert obind]. change (MEASURE_LATENCY =? 1) with true. cbn iota.
  destruct (start_measurement_ok cmd (fill_i st) o1 (lat st) Hc Hf' Hst)
    as (o2 & l2 & -> & Hf2 & Hw2 & Hop2 & Hvl2 & Hv2). cbn [obind].
  change (DISABLE_CACHE =? 1) with false. cbn iota. do 2 eexists. split; [reflexivity|].
  cbn [trace_iter fill_i hot_keys slots]. do 3 (split; [reflexivity|]). split; [reflexivity|].
  rewrite Hop2, Hop. pose proof (ck_opcode _ Hc) as Hrw. unfold fresh_slot, expand_slot, cmd_request.
  destruct (str_to_binary_ok (value o2)) as (Sl & Sb & St); [apply Hf2..|].
  destruct (IS_WRITE (tc_opcode cmd)); simpl; rewrite ?Hop2, ?Hop, ?Hvl2, ?Hvl, ?Hrw; simpl.
  - split; [|split; [by apply set_value_fits|]].
    + split_and!; try done. by rewrite <- Hw, <- Hw2.
    + f_equal. f_equal. by rewrite <- Hw, <- Hw2.
  - split; [|split; [done|]].
    + split_and!; try done. by rewrite Hw2.
    + by rewrite Hw2, Hw.
Qed.

Record fill_inv (st : fill_state) : Prop := {
  fi_it : (trace_iter st < length trace)%nat;
  fi_len : Z.of_nat (length (slots st)) = CACHE_BATCH_SIZE;
  fi_i : (fill_i st <= length (slots st))%nat;
  fi_fits : Forall (fun s => op_fits (s_op s)) (slots st);
  fi_track : tracking trace (hot_keys st) (slots st) (fill_i st)
}.

(** Merges still possible in the batch. *)
Definition merges_left (l : list slot) : Z := foldr (fun s n => 255 - val_len (s_op s) + n) 0 l.
Definition fill_measure (st : fill_state) : Z :=
  256 * (CACHE_BATCH_SIZE - Z.of_nat (fill_i st)) + merges_left (take (fill_i st) (slots st)).

Record fill_progress (st st' : fill_state) (c : trace_command) : Prop := {
  fp_it : trace_iter st' = next_iter trace (trace_iter st);
  fp_reqs : forall w, on_key w (requests (take (fill_i st') (slots st')))
    = on_key w (requests (take (fill_i st) (slots st))) ++ on_key w [cmd_request c];
  fp_old : forall p s, (p < fill_i st)%nat -> slots st !! p = Some s ->
    exists s', slots st' !! p = Some s' /\ slot_grows s s';
  fp_new : fill_i st' = fill_i st \/
    (fill_i st' = S (fill_i st) /\ exists s', slots st' !! fill_i st = Some s' /\ fresh_slot c s');
  fp_measure : fill_measure st' < fill_measure st
}.

Lemma merges_left_app l1 l2 : merges_left (l1 ++ l2) = merges_left l1 + merges_left l2.
Proof using Type. induction l1 as [|s l1 IH]; simpl; lia. Qed.

Lemma merges_left_bound l : Forall (fun s => op_fits (s_op s)) l ->
  0 <= merges_left l <= 255 * Z.of_nat (length l).
Proof using Type.
  induction 1 as [|s l [] _ IH]; [simpl; lia|]. cbn [merges_left foldr length].
  unfold is_u8 in *. fold (merges_left l). lia.
Qed.

Lemma trace_at_in it : (it < length trace)%nat -> trace_at trace it ∈ trace.
Proof using Type. intros H. unfold trace_at. apply list_elem_of_lookup. exists it. by apply lookup_lt_total. Qed.

Lemma cmd_at_ok it : (it < length trace)%nat -> cmd_ok (trace_at trace it).
Proof using Htrace.
  intros H. destruct Htrace as [Hall _]. rewrite Forall_forall in Hall. by apply Hall, trace_at_in.
Qed.

Lemma next_iter_lt it : (it < length trace)%nat -> (next_iter trace it < length trace)%nat.
Proof using Type.
  intros H. unfold next_iter. destruct (Z.eqb_spec (tc_opcode (trace_at trace (S it))) NOP) as [|Hn]; [lia|].
  destruct (decide (S it < length trace)%nat) as [|Hge]; [done|]. exfalso. apply Hn.
  unfold trace_at. rewrite nth_overflow by lia. done.
Qed.

(** A slot with a pointer for key [k] is moved past commands on other keys. *)
Lemma tracking_place st s' cmd hot :
  fill_inv st -> (fill_i st < length (slots st))%nat -> cmd ∈ trace -> fresh_slot cmd s' ->
  (forall k, 0 <= k < HOTTEST_KEYS_TO_TRACK -> hot k <> 0 ->
     (hot k = hot_keys st k /\ k <> key_id cmd) \/
     (k = key_id cmd /\ hot k = Z.of_nat (fill_i st) + 1 /\ IS_READ (tc_opcode cmd) = true)) ->
  tracking trace hot (<[fill_i st := s']> (slots st)) (S (fill_i st)).
Proof using Htrace.
  intros Hi Hlt Hin (_ & _ & Hop & Hkw & _) Hhot k Hk Hnz.
  destruct (Hhot k Hk Hnz) as [[Eh Hne]|(-> & Eh & Hr)].
  - destruct (fi_track _ Hi k Hk) as (p & s & Hp & Hpi & Hs & Hg & (c & Hc & Hck & Hcw) & Hlater); [by rewrite <- Eh|].
    exists p, s. rewrite list_lookup_insert_ne by lia. split_and!; try done; [by rewrite Eh|lia|by exists c|].
    intros q s2 Hq Hs2. destruct (decide (q = fill_i st)) as [-> |Hqi].
    + rewrite list_lookup_insert_eq in Hs2 by done. injection Hs2 as <-. rewrite Hkw, <- Hcw.
      intros Heq. apply Hne. rewrite <- Hck. symmetry. by apply (proj2 Htrace).
    + rewrite list_lookup_insert_ne in Hs2 by done. apply (Hlater q); [lia|done].
  - exists (fill_i st), s'. rewrite list_lookup_insert_eq by done. split_and!; try done; [lia| |by exists cmd|].
    + rewrite Hop. destruct Htrace as [Hall _]. rewrite Forall_forall in Hall.
      pose proof (ck_opcode _ (Hall _ Hin)) as E. rewrite Hr in E. by destruct (IS_WRITE _).
    + intros q s2 Hq. lia.
Qed.

Lemma fill_place st hot tracks :
  fill_inv st -> fill_more trace st = true ->
  let cmd := trace_at trace (trace_iter st) in
  (forall k, 0 <= k < HOTTEST_KEYS_TO_TRACK -> hot k <> 0 ->
     (hot k = hot_keys st k /\ k <> key_id cmd) \/
     (k = key_id cmd /\ hot k = Z.of_nat (fill_i st) + 1 /\ IS_READ (tc_opcode cmd) = true)) ->
  exists st', place machine_id thread_id isSC batches_per_client trace cmd hot tracks st = Done st' /\
    fill_inv st' /\ fill_progress st st' cmd.
Proof using Htrace.
  intros Hi Hm cmd Hhot. unfold fill_more in Hm. apply andb_true_iff in Hm as [Hlt _].
  apply Z.ltb_lt in Hlt. pose proof (fi_len _ Hi) as Hlen.
  assert (Hlt' : (fill_i st < length (slots st))%nat) by lia.
  destruct (lookup_lt_is_Some_2 _ _ Hlt') as [s Hs].
  pose proof (fi_it _ Hi) as Hit. pose proof (Forall_lookup_1 _ _ _ _ (fi_fits _ Hi) Hs) as Hf.
  destruct (place_ok cmd hot tracks st s)
    as (st' & s' & E & E1 & E2 & E3 & E4 & Hfr & Hf' & Hex); [by apply cmd_at_ok|done|done|].
  exists st'. split; [exact E|]. split; split.
  - rewrite E1. by apply next_iter_lt.
  - by rewrite E4, length_insert.
  - rewrite E2, E4, length_insert. lia.
  - rewrite E4. apply Forall_insert; [apply Hi|done].
  - rewrite E2, E3, E4. apply (tracking_place st s' cmd); try done. by apply trace_at_in.
  - exact E1.
  - intros w. rewrite E2, E4, take_insert_next, requests_app, on_key_app, requests_one, Hex by done. done.
  - intros p s0 Hp Hs0. exists s0. rewrite E4, list_lookup_insert_ne by lia. split; [done|apply slot_grows_refl].
  - right. split; [done|]. exists s'. rewrite E4, list_lookup_insert_eq by done. done.
  - unfold fill_measure. rewrite E2, E4, take_insert_next, merges_left_app by done. simpl.
    destruct Hf' as [_ _ _ _ _ Hvl _ _]. unfold is_u8 in Hvl. lia.
Qed.

Lemma expand_merged s :
  op_fits (s_op s) -> opcode (s_op s) = CACHE_OP_GET ->
  expand_slot (mkSlot (set_val_len (val_len (s_op s) + 1) (s_op s)) (s_resp s) (s_home s))
  = expand_slot s ++ [(key_word (s_op s), true)].
Proof using Type.
  intros [_ _ _ _ _ Hv _ _] Hg. unfold expand_slot. cbn [s_op opcode val_len set_val_len].
  rewrite Hg. change (CACHE_OP_GET =? CACHE_OP_GET) with true. cbn iota. change (key_word (set_val_len _ (s_op s))) with (key_word (s_op s)).
  rewrite <- (replicate_S_end _ _ : replicate (S (S (Z.to_nat (val_len (s_op s))))) (key_word (s_op s), true) = _).
  f_equal. unfold is_u8 in Hv. lia.
Qed.

(** Counting one more read of a slot that is the last of its key. *)
Lemma requests_merged l p s w :
  l !! p = Some s -> op_fits (s_op s) -> opcode (s_op s) = CACHE_OP_GET ->
  (forall q s', (p < q)%nat -> l !! q = Some s' -> key_word (s_op s') <> key_word (s_op s)) ->
  on_key w (requests (<[p := mkSlot (set_val_len (val_len (s_op s) + 1) (s_op s)) (s_resp s) (s_home s)]> l))
  = on_key w (requests l) ++ on_key w [(key_word (s_op s), true)].
Proof using Type.
  intros Hs Hf Hg Hlater. pose proof (lookup_lt_Some _ _ _ Hs) as Hlt.
  rewrite insert_take_drop by done. rewrite <- (take_drop_middle l p s Hs) at 3.
  change (?x :: drop (S p) l) with ([x] ++ drop (S p) l).
  rewrite !requests_app, !on_key_app, !requests_one, expand_merged, on_key_app by done.
  rewrite <- !app_assoc. f_equal. f_equal.
  destruct (decide (w = key_word (s_op s))) as [-> |Hne].
  - rewrite on_key_others; [by rewrite app_nil_r|]. apply Forall_lookup_2. intros q s' Hq.
    rewrite lookup_drop in Hq. apply (Hlater (S p + q)%nat); [lia|done].
  - assert (E : on_key w [(key_word (s_op s), true)] = [])
      by (unfold on_key; rewrite filter_cons_False by (simpl; congruence); done).
    by rewrite E, app_nil_r.
Qed.

Lemma tracking_merge st p s :
  fill_inv st -> slots st !! p = Some s ->
  tracking trace (hot_keys st)
    (<[p := mkSlot (set_val_len (val_len (s_op s) + 1) (s_op s)) (s_resp s) (s_home s)]> (slots st)) (fill_i st).
Proof using Type.
  intros Hi Hs k Hk Hnz. pose proof (lookup_lt_Some _ _ _ Hs) as Hlt.
  assert (Hkw : forall q x, <[p := mkSlot (set_val_len (val_len (s_op s) + 1) (s_op s)) (s_resp s) (s_home s)]>
      (slots st) !! q = Some x -> exists x0, slots st !! q = Some x0 /\ key_word (s_op x) = key_word (s_op x0) /\
      opcode (s_op x) = opcode (s_op x0)).
  { intros q x Hx. destruct (decide (q = p)) as [-> |Hne].
    - rewrite list_lookup_insert_eq in Hx by done. injection Hx as <-. by exists s.
    - rewrite list_lookup_insert_ne in Hx by done. by exists x. }
  destruct (fi_track _ Hi k Hk Hnz) as (p0 & s0 & Hp0 & Hpi & Hs0 & Hg & Hc & Hlater).
  destruct (lookup_lt_is_Some_2 (<[p := mkSlot (set_val_len (val_len (s_op s) + 1) (s_op s)) (s_resp s) (s_home s)]>
    (slots st)) p0) as [x Hx]; [rewrite length_insert; by eapply lookup_lt_Some|].
  destruct (Hkw _ _ Hx) as (x0 & Hx0 & Ekw & Eop). rewrite Hs0 in Hx0. injection Hx0 as <-.
  exists p0, x. rewrite Ekw, Eop. split_and!; try done.
  intros q y Hq Hy. destruct (Hkw _ _ Hy) as (y0 & Hy0 & -> & _). by apply (Hlater q).
Qed.

Lemma fill_merge st :
  fill_inv st -> fill_more trace st = true ->
  let cmd := trace_at trace (trace_iter st) in
  0 <= key_id cmd < HOTTEST_KEYS_TO_TRACK -> IS_READ (tc_opcode cmd) = true -> hot_keys st (key_id cmd) <> 0 ->
  let r := merge trace (Z.to_nat (hot_keys st (key_id cmd) - 1)) st in
  (exists st', r = Done st' /\ fill_inv st' /\ fill_progress st st' cmd) \/
  (r = AssertFailed /\ merge_full trace st).
Proof using Htrace.
  intros Hi Hm cmd Hk Hr Hnz. destruct (fi_track _ Hi _ Hk Hnz) as (p & s & Hp & Hpi & Hs & Hg & Hc & Hlater).
  assert (Ew : key_word (s_op s) = cmd_word cmd).
  { destruct Hc as (c & Hc & Hck & <-). by apply (proj2 Htrace c cmd Hc (trace_at_in _ (fi_it _ Hi))). }
  pose proof (Forall_lookup_1 _ _ _ _ (fi_fits _ Hi) Hs) as Hf. cbn beta in Hf.
  rewrite Hp, Z.add_simpl_r, Nat2Z.id. unfold merge. rewrite Hs, Hg. cbn [c_assert obind Z.eqb].
  destruct (Z.ltb_spec (val_len (s_op s)) 255) as [Hlt|Hge].
  2:{ right. split; [done|]. split; [done|]. split; [apply Hk|]. exists p, s. fold cmd. rewrite <- Ew.
      destruct Hf as [_ _ _ _ _ Hv _ _]. unfold is_u8 in Hv. split_and!; try done. lia. }
  left. cbn [c_assert obind]. rewrite (u8_small (val_len (s_op s) + 1))
    by (destruct Hf as [_ _ _ _ _ Hv _ _]; unfold is_u8 in *; lia).
  set (s' := mkSlot (set_val_len (val_len (s_op s) + 1) (s_op s)) (s_resp s) (s_home s)).
  assert (Hf' : op_fits (s_op s')).
  { apply set_val_len_fits; [|done]. destruct Hf as [_ _ _ _ _ Hv _ _]. unfold is_u8 in *. lia. }
  assert (Htake : take (fill_i st) (<[p := s']> (slots st)) = <[p := s']> (take (fill_i st) (slots st)))
    by (by rewrite take_insert_lt).
  assert (Hs1 : take (fill_i st) (slots st) !! p = Some s) by (by rewrite lookup_take_lt).
  eexists. split; [reflexivity|]. split; split; cbn [trace_iter fill_i slots hot_keys].
  - apply next_iter_lt, Hi.
  - rewrite length_insert. apply Hi.
  - rewrite length_insert. apply Hi.
  - apply Forall_insert; [apply Hi|done].
  - apply (tracking_merge st p s); done.
  - reflexivity.
  - intros w. rewrite Htake. unfold s'. rewrite requests_merged; try done.
    + f_equal. unfold cmd_request. by rewrite Hr, Ew.
    + intros q s2 Hq Hs2. apply lookup_take_Some in Hs2 as [Hs2 Hqi]. by apply (Hlater q).
  - intros q s2 Hq Hs2. destruct (decide (q = p)) as [-> |Hne].
    + rewrite Hs in Hs2. injection Hs2 as <-. exists s'.
      rewrite list_lookup_insert_eq by (eapply lookup_lt_Some, Hs). split; [done|].
      split; [done|]. split; [done|]. exists (val_len (s_op s) + 1). split_and!; [done|lia|by rewrite Hg].
    + exists s2. rewrite list_lookup_insert_ne by done. split; [done|apply slot_grows_refl].
  - by left.
  - unfold fill_measure. cbn [trace_iter fill_i slots]. rewrite Htake, insert_take_drop by (eapply lookup_lt_Some, Hs1).
    rewrite <- (take_drop_middle _ _ _ Hs1) at 3. rewrite !merges_left_app. simpl. lia.
Qed.

Lemma fill_step_ok st :
  fill_inv st -> fill_more trace st = true ->
  let cmd := trace_at trace (trace_iter st) in
  let r := fill_step machine_id thread_id isSC batches_per_client trace st in
  (exists st', r = Done st' /\ fill_inv st' /\ fill_progress st st' cmd) \/
  (r = AssertFailed /\ merge_full trace st).
Proof using Htrace.
  intros Hi Hm cmd. pose proof (cmd_at_ok _ (fi_it _ Hi)) as [Hop _ Hkid _]. fold cmd in Hop, Hkid.
  unfold fill_step. fold cmd. unfold tracked_cmd. change ((ENABLE_HOT_KEY_TRACKING =? 1) && (DISABLE_CACHE =? 0)) with true.
  cbn [andb]. destruct (Z.ltb_spec (key_id cmd) HOTTEST_KEYS_TO_TRACK) as [Hlt|Hge].
  2:{ left. apply fill_place; [done|done|]. intros k Hk Hnz. left. split; [done|]. fold cmd. lia. }
  destruct (IS_READ (tc_opcode cmd)) eqn:Er.
  2:{ left. apply fill_place; [done|done|]. intros k Hk Hnz. left. change (trace_at trace (trace_iter st)) with cmd. unfold fupd in *.
      destruct (Z.eqb_spec k (key_id cmd)); done. }
  destruct (Z.eqb_spec (hot_keys st (key_id cmd)) 0) as [Hz|Hnz].
  - left. apply fill_place; [done|done|]. intros k Hk Hnz. change (trace_at trace (trace_iter st)) with cmd. unfold fupd in *.
    destruct (Z.eqb_spec k (key_id cmd)) as [-> |]; [right|left; done].
    split_and!; try done. apply u16_small. unfold fill_more in Hm. apply andb_true_iff in Hm as [Hm _].
    apply Z.ltb_lt in Hm. unfold CACHE_BATCH_SIZE, is_u16 in *. lia.
  - unfold is_u32 in Hkid. destruct (fill_merge st Hi Hm) as [(st' & E & H)|[E H]]; [change (0 <= key_id cmd < HOTTEST_KEYS_TO_TRACK); lia|done|done| |].
    + left. by exists st'.
    + by right.
Qed.

(** The whole loop: the [n] commands read are in the batch, key by key in
    order; it stops early only on a read that would be the 257th of its key. *)
Record filled (st st' : fill_state) (n : nat) : Prop := {
  fd_inv : fill_inv st';
  fd_full : fill_more trace st' = false;
  fd_it : trace_iter st' = Nat.iter n (next_iter trace) (trace_iter st);
  fd_reqs : forall w, on_key w (requests (take (fill_i st') (slots st')))
    = on_key w (requests (take (fill_i st) (slots st)))
      ++ on_key w (cmd_request <$> commands trace (trace_iter st) n);
  fd_old : forall p s, (p < fill_i st)%nat -> slots st !! p = Some s ->
    exists s', slots st' !! p = Some s' /\ slot_grows s s';
  fd_mono : (fill_i st <= fill_i st')%nat;
  fd_new : forall p s', (fill_i st <= p < fill_i st')%nat -> slots st' !! p = Some s' ->
    exists c s, c ∈ commands trace (trace_iter st) n /\ fresh_slot c s /\ slot_grows s s'
}.

Lemma iter_next_comm n it : Nat.iter n (next_iter trace) (next_iter trace it) = Nat.iter (S n) (next_iter trace) it.
Proof using Type. induction n as [|n IH]; [done|]. simpl. by rewrite IH. Qed.

Lemma filled_step st st1 st' n :
  fill_progress st st1 (trace_at trace (trace_iter st)) -> filled st1 st' n -> filled st st' (S n).
Proof using Type.
  intros [Pit Preqs Pold Pnew _] [Finv Ffull Fit Freqs Fold Fmono Fnew]. split; [done|done| | | | |].
  - rewrite Fit, Pit. apply iter_next_comm.
  - intros w. rewrite Freqs, Preqs, Pit, <- app_assoc, <- on_key_app. done.
  - intros p s Hp Hs. destruct (Pold _ _ Hp Hs) as (s1 & Hs1 & G1).
    destruct (Fold p s1) as (s2 & Hs2 & G2); [destruct Pnew as [-> |[-> _]]; lia|done|].
    exists s2. eauto using slot_grows_trans.
  - destruct Pnew as [E|[E _]]; lia.
  - intros p s' Hp Hs'. rewrite Pit in Fnew. destruct (decide (fill_i st1 <= p)%nat) as [Hge|Hlt].
    { destruct (Fnew p s') as (c & s & Hc & Hf & G); [lia|done|]. exists c, s. split; [|done]. by right. }
    destruct Pnew as [E|[E (s1 & Hs1 & Hfr)]]; [lia|]. assert (p = fill_i st) as -> by lia.
    destruct (Fold (fill_i st) s1 ltac:(lia) Hs1) as (s2 & Hs2 & G). rewrite Hs' in Hs2. injection Hs2 as <-.
    eexists _, s1. split; [left|done].
Qed.

Lemma merge_overflows_step st st1 n :
  fill_more trace st = true -> fill_step machine_id thread_id isSC batches_per_client trace st = Done st1 ->
  fill_progress st st1 (trace_at trace (trace_iter st)) ->
  merge_overflows machine_id thread_id isSC batches_per_client trace st1 n ->
  merge_overflows machine_id thread_id isSC batches_per_client trace st (S n).
Proof using Type.
  intros Hm E [Pit Preqs _ _ _] (st' & Hr & Hm' & Hf & Hit & Hreqs). exists st'.
  split; [by eapply fill_runs_next|]. split; [done|]. split; [done|]. split.
  - rewrite Hit, Pit. apply iter_next_comm.
  - intros w. by rewrite Hreqs, Preqs, Pit, <- app_assoc, <- on_key_app.
Qed.

Lemma fill_loop_ok fuel st :
  fill_inv st -> fill_measure st < Z.of_nat fuel ->
  let r := fill_loop machine_id thread_id isSC batches_per_client trace fuel st in
  exists n, (exists st', r = Done st' /\ filled st st' n) \/
    (r = AssertFailed /\ merge_overflows machine_id thread_id isSC batches_per_client trace st n).
Proof using Htrace.
  revert st. induction fuel as [|fuel IH]; intros st Hi Hms.
  { exfalso. pose proof (fi_len _ Hi) as Hl. pose proof (fi_i _ Hi) as Hin.
    assert (0 <= merges_left (take (fill_i st) (slots st)))
      by (apply merges_left_bound, Forall_take; apply Hi).
    unfold fill_measure in Hms. lia. }
  cbn [fill_loop]. destruct (fill_more trace st) eqn:Em.
  2:{ exists 0%nat. left. exists st. split; [done|]. split; try done.
      - intros w. by rewrite app_nil_r.
      - intros p s _ Hs. exists s. split; [done|apply slot_grows_refl].
      - intros p s' Hp. lia. }
  destruct (fill_step_ok st Hi Em) as [(st1 & E & Hi1 & Hp)|(E & Hfull)]; rewrite E; cbn [obind].
  - destruct (IH st1 Hi1) as [n [(st' & E' & Hf)|(E' & Hf)]].
    { pose proof (fp_measure _ _ _ Hp). lia. }
    + exists (S n). left. exists st'. split; [exact E'|]. by eapply filled_step.
    + exists (S n). right. split; [exact E'|]. by eapply merge_overflows_step.
  - exists 0%nat. right. split; [done|]. exists st. split; [constructor|]. split; [done|]. split; [done|].
    split; [done|]. intros w. by rewrite app_nil_r.
Qed.
End fill_steps.

Lemma fill_start_inv isSC trace it n l hot la :
  (it < length trace)%nat -> Z.of_nat (length l) = CACHE_BATCH_SIZE -> (n <= length l)%nat ->
  Forall (fun s => op_fits (s_op s)) l -> (isSC = 0 \/ tracking trace hot l n) ->
  fill_inv trace (fill_start isSC it n l hot la).
Proof.
  intros Hit Hl Hn Hf Htr. split; try done. unfold fill_start.
  change (ENABLE_HOT_KEY_TRACKING =? 1) with true. cbn [andb slots hot_keys fill_i].
  destruct (Z.eqb_spec isSC 0) as [|Hne].
  - intros k Hk Hnz. exfalso. apply Hnz.
    by rewrite (proj2 (Z.leb_le 0 k)), (proj2 (Z.ltb_lt k _)) by lia.
  - destruct Htr as [|Htr]; [done|exact Htr].
Qed.

Lemma fill_batch_ok mid tid isSC bpc trace it n l hot la :
  trace_ok trace -> (it < length trace)%nat -> Z.of_nat (length l) = CACHE_BATCH_SIZE -> (n <= length l)%nat ->
  Forall (fun s => op_fits (s_op s)) l -> forallb carried_ok (take n l) = true ->
  (isSC = 0 \/ tracking trace hot l n) ->
  let st0 := fill_start isSC it n l hot la in
  let r := fill_batch mid tid isSC bpc trace it n l hot la in
  exists m, (exists st', r = Done st' /\ filled trace st0 st' m) \/
    (r = AssertFailed /\ merge_overflows mid tid isSC bpc trace st0 m).
Proof.
  intros Ht Hit Hl Hn Hf Hc Htr. unfold fill_batch. rewrite Hc. cbn [c_assert obind].
  pose proof (fill_start_inv isSC trace it n l hot la Hit Hl Hn Hf Htr) as Hi.
  apply (fill_loop_ok mid tid isSC bpc trace Ht fill_fuel _ Hi).
  unfold fill_measure, fill_fuel, fill_start. cbn [fill_i slots].
  pose proof (merges_left_bound (take n l) (Forall_take _ _ _ Hf)) as Hb. rewrite length_take in Hb.
  unfold CACHE_BATCH_SIZE in *. lia.
Qed.

Lemma filled_all trace st st' n :
  trace_ok trace -> filled trace st st' n -> fill_i st' = length (slots st').
Proof.
  intros Ht [Hi Hm _ _ _ _ _]. pose proof (fi_i _ _ Hi) as H1. pose proof (fi_len _ _ Hi) as H2.
  unfold fill_more in Hm. apply andb_false_iff in Hm as [Hm|Hm].
  - apply Z.ltb_ge in Hm. lia.
  - apply negb_false_iff, Z.eqb_eq in Hm. exfalso.
    by apply (ck_nop _ (cmd_at_ok trace Ht _ (fi_it _ _ Hi))).
Qed.

(** C25: filling the batch from the trace.  The loop ends with a full batch, and
    for every key the batch stands for the requests carried over followed by the
    commands read, in the order of the trace, merged reads counted once each;
    carried requests change only by merging, new slots are the requests of
    commands read.  The one way to fail is the assertion on the length of a
    merged read: then the loop has put [m] commands in the batch the same way,
    the next command is a read of a tracked key, and the last request of that
    key in the batch is a read that already stands for 256 reads. *)
Theorem trace_batch_order mid tid isSC bpc trace it n l hot la :
  trace_ok trace -> (it < length trace)%nat -> Z.of_nat (length l) = CACHE_BATCH_SIZE -> (n <= length l)%nat ->
  Forall (fun s => op_fits (s_op s)) l -> forallb carried_ok (take n l) = true ->
  (isSC = 0 \/ tracking trace hot l n) ->
  exists m,
    (exists st', fill_batch mid tid isSC bpc trace it n l hot la = Done st' /\
       fill_i st' = length l /\ length (slots st') = length l /\
       trace_iter st' = Nat.iter m (next_iter trace) it /\
       (forall w, on_key w (requests (slots st'))
          = on_key w (requests (take n l)) ++ on_key w (cmd_request <$> commands trace it m)) /\
       (forall p s, (p < n)%nat -> l !! p = Some s -> exists s', slots st' !! p = Some s' /\ slot_grows s s') /\
       (forall p s', (n <= p)%nat -> slots st' !! p = Some s' ->
          exists c s, c ∈ commands trace it m /\ fresh_slot c s /\ slot_grows s s') /\
       tracking trace (hot_keys st') (slots st') (length l)) \/
    (fill_batch mid tid isSC bpc trace it n l hot la = AssertFailed /\
       merge_overflows mid tid isSC bpc trace (fill_start isSC it n l hot la) m).
Proof.
  intros Ht Hit Hl Hn Hf Hc Htr.
  destruct (fill_batch_ok mid tid isSC bpc trace it n l hot la Ht Hit Hl Hn Hf Hc Htr)
    as (m & [(st' & E & Hfd)|Hbad]); exists m; [left|by right].
  exists st'. pose proof (filled_all _ _ _ _ Ht Hfd) as Hall. pose proof (fi_len _ _ (fd_inv _ _ _ _ Hfd)) as Hlen.
  assert (El : length (slots st') = length l) by lia.
  destruct Hfd as [Hi _ Hit' Hreqs Hold _ Hnew]. unfold fill_start in *. cbn [trace_iter fill_i slots] in *. split_and!; try done.
  - congruence.
  - intros w. by rewrite <- Hreqs, Hall, firstn_all.
  - intros p s' Hp Hs'. apply (Hnew p); [|done]. apply lookup_lt_Some in Hs'. lia.
  - rewrite <- El, <- Hall. apply Hi.
Qed.

(** A trace of two keys, a hot and a cold one. *)
Definition demo_trace : list trace_command :=
  [mkCmd HOT_READ 1 0 3 (0, 1003); mkCmd HOT_READ 2 0 3 (0, 1003); mkCmd HOT_WRITE 1 0 3 (0, 1003);
   mkCmd REMOTE_READ 2 0 300000 (0, 2000)].
Definition empty_slot : slot := mkSlot (mkOp (mkMeta 0 0 0 0 0) 0 0 0 0 0 (replicate max_value_len 0))
  (mkResp EMPTY 0 None) (mkHome 0 0).
Definition demo_batch_slots : list slot := replicate (Z.to_nat CACHE_BATCH_SIZE) empty_slot.

Lemma demo_trace_ok : trace_ok demo_trace.
Proof.
  split.
  - unfold demo_trace. repeat (apply Forall_cons; split; [split; unfold is_u32, is_u64; simpl; first [done|lia]|]).
    by apply Forall_nil.
  - intros c1 c2 H1 H2. unfold demo_trace in H1, H2.
    rewrite !elem_of_cons, elem_of_nil in H1, H2. destruct H1 as [ -> |[ -> |[ -> |[ -> |[]]]]];
    destruct H2 as [ -> |[ -> |[ -> |[ -> |[]]]]]; unfold cmd_word; simpl; lia.
Qed.

Lemma empty_slot_fits : op_fits (s_op empty_slot).
Proof.
  split; try done. by apply Forall_replicate.
Qed.

Lemma trace_batch_order_witness :
  exists m st', fill_batch 0 1 0 0 demo_trace 0 0 demo_batch_slots (fun _ => 0) (mkLat NO_REQ 0) = Done st' /\
    on_key 1003 (requests (slots st')) = on_key 1003 (cmd_request <$> commands demo_trace 0 m).
Proof.
  destruct (trace_batch_order 0 1 0 0 demo_trace 0 0 demo_batch_slots (fun _ => 0) (mkLat NO_REQ 0))
    as [m [(st' & E & _ & _ & _ & Hr & _)|[E _]]].
  - apply demo_trace_ok.
  - simpl. lia.
  - vm_compute. reflexivity.
  - lia.
  - apply Forall_replicate, empty_slot_fits.
  - vm_compute. reflexivity.
  - left. reflexivity.
  - exists m, st'. split; [exact E|]. exact (Hr 1003).
  - exfalso. vm_compute in E. discriminate E.
Defined.
