(* ===== verification/TraceFile.v ===== *)
(** * Reading the trace file (src/ccKVS/util.c, [parse_trace])

    A trace file is a list of lines, a line a list of bytes with its newline.
    Each line becomes one command: the second word names a machine, the third a
    worker, the fourth a key; whether it is a write, and under [LOAD_BALANCE]
    also machine and worker, are drawn at random.  The calls of [rand] return
    the values of a sequence [rand 0, rand 1, ...]; the redrawing loop for a
    machine other than this one is given fuel and is [Spin] without it.  The
    main theorem: a file whose lines have four words is read completely, and
    its commands are what the client loop relies on. *)
From S2P Require Import Prelude Config Optik Layout City Network Mica MicaLog Cache CacheSpec Packets ColdRequests Trace.

(** ** strtok_r with " ", strtoul with base 10 *)
Fixpoint strtok (cur : list Z) (l : list Z) : list (list Z) :=
  match l with
  | [] => match cur with [] => [] | _ => [cur] end
  | c :: l => if c =? 32 then match cur with [] => strtok [] l | _ => cur :: strtok [] l end
              else strtok (cur ++ [c]) l
  end.

(** [if (word[strlen(word) - 1] == '\n') word[strlen(word) - 1] = 0] *)
Definition chomp (w : list Z) : list Z :=
  match last w with Some 10 => take (length w - 1) w | _ => w end.

Definition is_space (c : Z) : bool := (c =? 32) || ((9 <=? c) && (c <=? 13)).
Definition is_digit (c : Z) : bool := (48 <=? c) && (c <=? 57).

Fixpoint skip_space (w : list Z) : list Z :=
  match w with c :: w' => if is_space c then skip_space w' else w | [] => [] end.

(** The digits, saturating at [ULONG_MAX]. *)
Fixpoint digits (w : list Z) (acc : Z) : Z :=
  match w with
  | c :: w => if is_digit c then digits w (Z.min (10 * acc + (c - 48)) (2 ^ 64 - 1)) else acc
  | [] => acc
  end.

Definition strtoul (w : list Z) : Z :=
  match skip_space w with
  | 45 :: w => let v := digits w 0 in if v =? 2 ^ 64 - 1 then v else u64 (- v)
  | 43 :: w => digits w 0
  | w => digits w 0
  end.

Section parse.
Context (machine_id : Z) (rand : nat -> Z).

(** [while (DISABLE_LOCALS == 1 && home == machine_id) home = rand() % MACHINE_NUM] *)
Fixpoint draw_home (fuel : nat) (home : Z) (n : nat) : outcome (Z * nat) :=
  if (DISABLE_LOCALS =? 1) && (home =? machine_id) then
    match fuel with
    | O => Spin
    | S fuel => draw_home fuel (u8 (rand n mod MACHINE_NUM)) (S n)
    end
  else Done (home, n).

(** Word 1: the home machine of command [i]. *)
Definition parse_home (fuel : nat) (i : Z) (w : list Z) (n : nat) : outcome (Z * nat) :=
  let home := u8 (strtoul w mod MACHINE_NUM) in
  let '(home, n) := if RANDOM_MACHINE =? 1 then (u8 (rand n mod MACHINE_NUM), S n) else (home, n) in
  let* _ := c_assert (home <? MACHINE_NUM) in
  let* (home, n) :=
    if LOAD_BALANCE =? 1 then draw_home fuel (u8 (rand n mod MACHINE_NUM)) (S n)
    else Done (if (DISABLE_LOCALS =? 1) && (home =? u8 machine_id) then u8 ((home + 1) mod MACHINE_NUM) else home, n) in
  let home :=
    if SEND_ONLY_TO_ONE_MACHINE =? 1 then if (DISABLE_LOCALS =? 1) && (machine_id =? 0) then 1 else 0
    else if SEND_ONLY_TO_NEXT_MACHINE =? 1 then u8 ((machine_id + 1) mod MACHINE_NUM)
    else if BALANCE_REQS_IN_CHUNKS =? 1 then u8 (if CHUNK_NUM =? 0 then 0 else (i / CHUNK_NUM) mod MACHINE_NUM)
    else if DO_ONLY_LOCALS =? 1 then u8 machine_id else home in
  let* _ := c_assert ((DISABLE_LOCALS =? 0) || negb (machine_id =? home)) in
  Done (home, n).

(** Word 2: the worker. *)
Definition parse_worker (w : list Z) (n : nat) : outcome (Z * nat) :=
  let wk := u8 (strtoul w mod WORKERS_PER_MACHINE) in
  let '(wk, n) := if (LOAD_BALANCE =? 1) || (EMULATING_CREW =? 1)
                  then (u8 (rand n mod ACTIVE_WORKERS_PER_MACHINE), S n) else (wk, n) in
  let* _ := c_assert (wk <? WORKERS_PER_MACHINE) in
  Done (wk, n).

(** Word 3: the key. *)
Definition hot_key_id (k : Z) (is_update : bool) (n : nat) : outcome (Z * nat) :=
  if ((BALANCE_HOT_WRITES =? 1) && is_update) || (BALANCE_HOT_REQS =? 1) then
    let k := u32 (rand n) mod CACHE_NUM_KEYS in
    let* _ := c_assert ((0 <=? k) && (k <=? CACHE_NUM_KEYS)) in
    Done (k, S n)
  else if ENABLE_HOT_REQ_GROUPING =? 1 then
    if k <? NUM_OF_KEYS_TO_GROUP then Done (u32 (k * GROUP_SIZE + rand n mod GROUP_SIZE), S n)
    else if k <? NUM_OF_KEYS_TO_GROUP * GROUP_SIZE then Done (u32 (k + GROUP_SIZE), n) else Done (k, n)
  else Done (k, n).

Definition parse_key_id (w : list Z) (is_update : bool) (n : nat) : outcome (Z * nat) :=
  let k := u32 (strtoul w) in
  let '(k, n) := if ONLY_CACHE_HITS =? 1 then (u32 (rand n) mod CACHE_NUM_KEYS, S n) else (k, n) in
  let* (k, n) :=
    if k <? CACHE_NUM_KEYS then hot_key_id k is_update n
    else
      let k := k mod HERD_NUM_KEYS in
      Done (if k <? CACHE_NUM_KEYS then u32 (k + CACHE_NUM_KEYS) else k, n) in
  Done (if USE_A_SINGLE_KEY =? 1 then 0 else k, n).

(** The opcode of a command from key, home and the read/write draw. *)
Definition opcode_of (k home : Z) (is_update : bool) : Z :=
  if k <? CACHE_NUM_KEYS then if is_update then HOT_WRITE else HOT_READ
  else if is_update then if home =? machine_id then LOCAL_WRITE else REMOTE_WRITE
  else if home =? machine_id then LOCAL_READ else REMOTE_READ.

Definition key_bytes (k : Z) : mem := store_bytes (fun _ => 0) 0 (le_split 4 k).

Definition parse_word (fuel : nat) (i : Z) (is_update : bool) (word_count : nat) (w : list Z)
    (c : trace_command) (debug : Z) (n : nat) : outcome (trace_command * Z * nat) :=
  match word_count with
  | 1%nat =>
      let* (home, n) := parse_home fuel i w n in
      Done (mkCmd (tc_opcode c) home (home_worker_id c) (key_id c) (key_hash c), debug, n)
  | 2%nat =>
      let* (wk, n) := parse_worker w n in
      Done (mkCmd (tc_opcode c) (home_machine_id c) wk (key_id c) (key_hash c), debug, n)
  | 3%nat =>
      let* (k, n) := parse_key_id w is_update n in
      let* h := CityHash128 (key_bytes k) 0 4 in
      Done (mkCmd (opcode_of k (home_machine_id c) is_update) (home_machine_id c) (home_worker_id c) k h,
            debug + 1, n)
  | _ => Done (c, debug, n)
  end.

(** [!(word == NULL && word_count < 4)] *)
Definition line_goes_on (ws : list (list Z)) (word_count : nat) : bool :=
  match ws with [] => 4 <=? Z.of_nat word_count | _ => true end.

(** [while (word != NULL)]; a line that ends before its fourth word is refused. *)
Fixpoint parse_words (fuel : nat) (i : Z) (is_update : bool) (word_count : nat) (ws : list (list Z))
    (c : trace_command) (debug : Z) (n : nat) : outcome (trace_command * Z * nat) :=
  match ws with
  | [] => Done (c, debug, n)
  | w :: ws =>
      let* (c, debug, n) := parse_word fuel i is_update word_count (chomp w) c debug n in
      let* _ := c_assert (line_goes_on ws (S word_count)) in
      parse_words fuel i is_update (S word_count) ws c debug n
  end.

(** One line; [c] is the command's memory before. *)
Definition parse_line (fuel : nat) (i : Z) (line : list Z) (c : trace_command) (debug : Z) (n : nat)
    : outcome (trace_command * Z * nat) :=
  let is_update := rand n mod 1000 <? WRITE_RATIO in
  let c := mkCmd (if is_update then 1 else 0) (home_machine_id c) (home_worker_id c) (key_id c) (key_hash c) in
  parse_words fuel i is_update 0 (strtok [] line) c debug (S n).

Fixpoint parse_lines (fuel : nat) (i : Z) (lines : list (list Z)) (mem0 : Z -> trace_command)
    (debug : Z) (n : nat) : outcome (list trace_command * Z * nat) :=
  match lines with
  | [] => Done ([], debug, n)
  | l :: lines =>
      let* (c, debug, n) := parse_line fuel i l (mem0 i) debug n in
      let* (cs, debug, n) := parse_lines fuel (i + 1) lines mem0 debug n in
      Done (c :: cs, debug, n)
  end.

(** The commands before the [NOP] terminator; [mem0] is the allocated memory. *)
Definition parse_trace (fuel : nat) (lines : list (list Z)) (mem0 : Z -> trace_command)
    : outcome (list trace_command) :=
  let* (cs, debug, _) := parse_lines fuel 0 lines mem0 0 0 in
  let* _ := c_assert (Z.of_nat (length lines) =? debug) in
  Done cs.
End parse.

(** ** What is read *)
Record parsed_cmd (mid : Z) (c : trace_command) : Prop := {
  pc_ok : cmd_ok c;
  pc_home : home_machine_id c ∈ machines /\ home_machine_id c <> mid;
  pc_worker : 0 <= home_worker_id c < ACTIVE_WORKERS_PER_MACHINE;
  pc_key : 0 <= key_id c < HERD_NUM_KEYS;
  pc_hot : IS_HOT (tc_opcode c) = (key_id c <? CACHE_NUM_KEYS);
  pc_remote : IS_LOCAL (tc_opcode c) = false;
  pc_hash : CityHash128 (key_bytes (key_id c)) 0 4 = Done (key_hash c)
}.

Lemma digits_range w acc : 0 <= acc < 2 ^ 64 -> 0 <= digits w acc < 2 ^ 64.
Proof.
  revert acc. induction w as [|c w IH]; intros acc Ha; [done|]. cbn [digits].
  destruct (is_digit c) eqn:E; [|done]. apply IH. unfold is_digit in E.
  apply andb_true_iff in E as [E1%Z.leb_le E2%Z.leb_le]. lia.
Qed.

Lemma key_bytes_u8 k a : is_u8 (key_bytes k a).
Proof. apply store_bytes_bytes; [intros ?; unfold is_u8; lia|apply le_split_bytes]. Qed.

Lemma key_hash_total k : exists h, CityHash128 (key_bytes k) 0 4 = Done h /\ is_u64 h.1 /\ is_u64 h.2.
Proof.
  destruct (CityHash128_agree (key_bytes k) (key_bytes k) 0 4) as (h1 & h2 & H1 & H2 & E & _).
  - unfold is_u64. lia.
  - apply key_bytes_u8.
  - by intros ? ?.
  - by exists (h1, h2).
Qed.

Section parsed.
Context (mid : Z) (Hmid : mid ∈ machines) (rand : nat -> Z).
Context (Hrand : forall n, exists m, (n <= m)%nat /\ rand m mod MACHINE_NUM <> mid).

(** A result for all large enough amounts of fuel. *)
Definition eventually {A} (f : nat -> outcome A) (o : outcome A) : Prop :=
  exists f0, forall fuel, (f0 <= fuel)%nat -> f fuel = o.

Lemma eventually_bind {A B} (f : nat -> outcome A) (k : nat -> A -> outcome B) a o :
  eventually f (Done a) -> eventually (fun fuel => k fuel a) o -> eventually (fun fuel => obind (f fuel) (k fuel)) o.
Proof using Type.
  intros [f1 H1] [f2 H2]. exists (f1 `max` f2)%nat. intros fuel Hf. rewrite H1 by lia. cbn [obind]. apply H2. lia.
Qed.

Lemma eventually_abort {A B} (f : nat -> outcome A) (k : nat -> A -> outcome B) :
  eventually f AssertFailed -> eventually (fun fuel => obind (f fuel) (k fuel)) AssertFailed.
Proof using Type. intros [f1 H1]. exists f1. intros fuel Hf. by rewrite H1. Qed.

Lemma eventually_const {A} (o : outcome A) : eventually (fun _ => o) o.
Proof using Type. by exists O. Qed.

Lemma rand_machine n : u8 (rand n mod MACHINE_NUM) = rand n mod MACHINE_NUM /\ rand n mod MACHINE_NUM ∈ machines.
Proof using Type.
  assert (0 <= rand n mod MACHINE_NUM < MACHINE_NUM) by (apply Z.mod_pos_bound; vm_compute; done).
  split; [apply u8_small; unfold is_u8, MACHINE_NUM in *; lia|by apply machines_spec].
Qed.

Lemma draw_home_ok home n :
  home ∈ machines -> exists h n', eventually (fun fuel => draw_home mid rand fuel home n) (Done (h, n')) /\
    h ∈ machines /\ h <> mid.
Proof using Hrand.
  intros Hh. destruct (Hrand n) as (m & Hnm & Hm). remember (m - n)%nat as k eqn:Ek.
  revert home n Hh Hnm Ek. induction k as [|k IH]; intros home n Hh Hnm Ek.
  all: destruct (Z.eqb_spec home mid) as [-> |Hne];
    [|exists home, n; split; [|done]; exists O; intros fuel _;
      destruct fuel; cbn [draw_home]; rewrite (proj2 (Z.eqb_neq _ _) Hne), andb_false_r; done].
  all: destruct (rand_machine n) as [Eu Hin].
  - assert (m = n) as -> by lia. exists (rand n mod MACHINE_NUM), (S n). split; [|done].
    exists 1%nat. intros [|fuel] Hf; [lia|]. cbn [draw_home]. rewrite (Z.eqb_refl mid).
    change ((DISABLE_LOCALS =? 1) && true) with true. cbv iota. rewrite Eu.
    destruct fuel; cbn [draw_home]; rewrite (proj2 (Z.eqb_neq _ _) Hm), andb_false_r; done.
  - destruct (IH (rand n mod MACHINE_NUM) (S n) Hin ltac:(lia) ltac:(lia)) as (h & n' & [f0 H0] & Hh' & Hne').
    exists h, n'. split; [|done]. exists (S f0). intros [|fuel] Hf; [lia|]. cbn [draw_home].
    rewrite (Z.eqb_refl mid). change ((DISABLE_LOCALS =? 1) && true) with true. cbv iota. rewrite Eu. apply H0. lia.
Qed.

Lemma parse_home_ok i w n :
  exists h n', eventually (fun fuel => parse_home mid rand fuel i w n) (Done (h, n')) /\ h ∈ machines /\ h <> mid.
Proof using Hrand.
  destruct (rand_machine n) as [Eu Hin]. destruct (draw_home_ok (rand n mod MACHINE_NUM) (S n) Hin)
    as (h & n' & [f0 H0] & Hh & Hne).
  exists h, n'. split; [|done]. exists f0. intros fuel Hf. unfold parse_home.
  change (RANDOM_MACHINE =? 1) with false. change (LOAD_BALANCE =? 1) with true. cbv iota.
  assert (Ha : (u8 (strtoul w mod MACHINE_NUM) <? MACHINE_NUM) = true).
  { assert (Hb : 0 <= strtoul w mod MACHINE_NUM < MACHINE_NUM) by (apply Z.mod_pos_bound; vm_compute; done).
    apply Z.ltb_lt. rewrite u8_small; [lia|]. unfold is_u8, MACHINE_NUM in *. lia. }
  rewrite Ha, Eu, H0 by done. cbn [c_assert obind].
  change (SEND_ONLY_TO_ONE_MACHINE =? 1) with false. change (SEND_ONLY_TO_NEXT_MACHINE =? 1) with false.
  change (BALANCE_REQS_IN_CHUNKS =? 1) with false. change (DO_ONLY_LOCALS =? 1) with false. cbv iota.
  rewrite (proj2 (Z.eqb_neq mid h)) by done. done.
Qed.

Lemma parse_worker_ok w n :
  exists k n', parse_worker rand w n = Done (k, n') /\ 0 <= k < ACTIVE_WORKERS_PER_MACHINE.
Proof using Type.
  unfold parse_worker. change ((LOAD_BALANCE =? 1) || (EMULATING_CREW =? 1)) with true. cbv iota.
  assert (Hb : 0 <= rand n mod ACTIVE_WORKERS_PER_MACHINE < ACTIVE_WORKERS_PER_MACHINE)
    by (apply Z.mod_pos_bound; vm_compute; done).
  assert (Hw : ACTIVE_WORKERS_PER_MACHINE <= WORKERS_PER_MACHINE /\ WORKERS_PER_MACHINE < 256)
    by (vm_compute; split; [discriminate|done]).
  rewrite u8_small by (unfold is_u8; lia). rewrite (proj2 (Z.ltb_lt _ _)) by lia. cbn [c_assert obind].
  by eexists _, _.
Qed.

Lemma parse_key_id_ok w b n :
  exists k, parse_key_id rand w b n = Done (k, n) /\ 0 <= k < HERD_NUM_KEYS.
Proof using Type.
  unfold parse_key_id. change (ONLY_CACHE_HITS =? 1) with false. change (USE_A_SINGLE_KEY =? 1) with false. cbv iota.
  pose proof (u32_range (strtoul w)) as Hu. unfold is_u32 in Hu.
  destruct (Z.ltb_spec (u32 (strtoul w)) CACHE_NUM_KEYS) as [Hlt|Hge].
  - unfold hot_key_id. change (((BALANCE_HOT_WRITES =? 1) && b) || (BALANCE_HOT_REQS =? 1)) with false.
    change (ENABLE_HOT_REQ_GROUPING =? 1) with false. cbv iota. cbn [obind]. eexists. split; [reflexivity|].
    unfold CACHE_NUM_KEYS in Hlt. change HERD_NUM_KEYS with 4194304. lia.
  - cbn [obind]. eexists. split; [reflexivity|].
    assert (0 <= u32 (strtoul w) mod HERD_NUM_KEYS < HERD_NUM_KEYS) by (apply Z.mod_pos_bound; vm_compute; done).
    change HERD_NUM_KEYS with 4194304 in *. destruct (Z.ltb_spec (u32 (strtoul w) mod 4194304) CACHE_NUM_KEYS) as [H1|H1]; [|done].
    unfold CACHE_NUM_KEYS in *. rewrite u32_small; [lia|]. unfold is_u32. lia.
Qed.

Lemma opcode_of_ok k h b :
  h <> mid ->
  IS_READ (opcode_of mid k h b) = negb (IS_WRITE (opcode_of mid k h b)) /\ opcode_of mid k h b <> NOP /\
  IS_HOT (opcode_of mid k h b) = (k <? CACHE_NUM_KEYS) /\ IS_LOCAL (opcode_of mid k h b) = false.
Proof using Type.
  intros Hne. unfold opcode_of. rewrite (proj2 (Z.eqb_neq h mid)) by done.
  by destruct (k <? CACHE_NUM_KEYS), b.
Qed.

(** The words after the fourth are ignored. *)
Lemma parse_words_rest fuel i b wc ws c d n :
  (4 <= wc)%nat -> parse_words mid rand fuel i b wc ws c d n = Done (c, d, n).
Proof using Type.
  revert wc. induction ws as [|w ws IH]; intros wc Hwc; [done|]. cbn [parse_words].
  assert (E : parse_word mid rand fuel i b wc (chomp w) c d n = Done (c, d, n))
    by (destruct wc as [|[|[|[|wc]]]]; try lia; done).
  assert (E' : line_goes_on ws (S wc) = true) by (destruct ws; [apply Z.leb_le; lia|done]).
  rewrite E. cbn [obind]. rewrite E'. cbn [c_assert obind]. apply IH. lia.
Qed.

Lemma parse_four i b w0 w1 w2 w3 ws c d n :
  exists c' n', eventually (fun fuel => parse_words mid rand fuel i b 0 (w0 :: w1 :: w2 :: w3 :: ws) c d n)
    (Done (c', d + 1, n')) /\ parsed_cmd mid c'.
Proof using Hrand.
  destruct (parse_home_ok i (chomp w1) n) as (h & n1 & [f0 H0] & Hh & Hne).
  destruct (parse_worker_ok (chomp w2) n1) as (k & n2 & E2 & Hk).
  destruct (parse_key_id_ok (chomp w3) b n2) as (id & E3 & Hid).
  destruct (key_hash_total id) as (hash & E4 & Hu1 & Hu2).
  exists (mkCmd (opcode_of mid id h b) h k id hash), n2. split.
  - exists f0. intros fuel Hf. cbn [parse_words parse_word obind c_assert line_goes_on]. rewrite H0 by done. cbn [obind c_assert]. rewrite E2.
    cbn [obind c_assert]. rewrite E3. cbn [obind c_assert home_machine_id home_worker_id].
    rewrite E4. cbn [obind]. assert (E' : line_goes_on ws 4 = true) by (by destruct ws). rewrite E'.
    cbn [c_assert obind]. by apply parse_words_rest.
  - destruct (opcode_of_ok id h b Hne) as (O1 & O2 & O3 & O4). split; try done. split; try done.
    simpl. change HERD_NUM_KEYS with 4194304 in Hid. unfold is_u32. lia.
Qed.

Lemma parse_short i b ws c d n :
  (0 < length ws < 4)%nat -> eventually (fun fuel => parse_words mid rand fuel i b 0 ws c d n) AssertFailed.
Proof using Hrand.
  intros Hl. destruct ws as [|w0 [|w1 [|w2 [|w3 ws]]]]; simpl in Hl; try lia.
  - exists O. done.
  - destruct (parse_home_ok i (chomp w1) n) as (h & n1 & [f0 H0] & _). exists f0. intros fuel Hf.
    cbn [parse_words parse_word obind c_assert line_goes_on]. rewrite H0 by done. done.
  - destruct (parse_home_ok i (chomp w1) n) as (h & n1 & [f0 H0] & _).
    destruct (parse_worker_ok (chomp w2) n1) as (k & n2 & E2 & _). exists f0. intros fuel Hf.
    cbn [parse_words parse_word obind c_assert line_goes_on]. rewrite H0 by done. cbn [obind c_assert]. rewrite E2. done.
Qed.

Definition four_words (l : list Z) : bool := 4 <=? Z.of_nat (length (strtok [] l)).

Lemma parse_line_ok i l c d n :
  if four_words l
  then exists c' n', eventually (fun fuel => parse_line mid rand fuel i l c d n) (Done (c', d + 1, n')) /\ parsed_cmd mid c'
  else eventually (fun fuel => parse_line mid rand fuel i l c d n) AssertFailed \/
       exists c' n', eventually (fun fuel => parse_line mid rand fuel i l c d n) (Done (c', d, n')).
Proof using Hrand.
  unfold four_words, parse_line. destruct (Z.leb_spec 4 (Z.of_nat (length (strtok [] l)))) as [H|H].
  - destruct (strtok [] l) as [|w0 [|w1 [|w2 [|w3 ws]]]]; simpl in H; try lia. apply parse_four.
  - destruct (strtok [] l) as [|w0 ws] eqn:E; [right|left].
    + eexists _, _. exists O. intros fuel _. reflexivity.
    + apply parse_short. rewrite Nat2Z.inj_lt. simpl in *. lia.
Qed.

Lemma parse_lines_ok i lines mem0 d n :
  if forallb four_words lines
  then exists cs n', eventually (fun fuel => parse_lines mid rand fuel i lines mem0 d n)
         (Done (cs, d + Z.of_nat (length lines), n')) /\ length cs = length lines /\ Forall (parsed_cmd mid) cs
  else eventually (fun fuel => parse_lines mid rand fuel i lines mem0 d n) AssertFailed \/
       exists cs d' n', eventually (fun fuel => parse_lines mid rand fuel i lines mem0 d n) (Done (cs, d', n')) /\
         d' < d + Z.of_nat (length lines).
Proof using Hrand.
  revert i d n. induction lines as [|l lines IH]; intros i d n.
  { simpl. exists [], n. split; [|by split]. rewrite Z.add_0_r. apply eventually_const. }
  cbn [forallb parse_lines]. pose proof (parse_line_ok i l (mem0 i) d n) as Hl.
  destruct (four_words l); cbn [andb].
  - destruct Hl as (c & n1 & Hl & Hc). specialize (IH (i + 1) (d + 1) n1).
    destruct (forallb four_words lines).
    + destruct IH as (cs & n' & IH & Hlen & Hall). exists (c :: cs), n'. split; [|split; [by simpl; f_equal|by apply Forall_cons]].
      eapply eventually_bind; [exact Hl|]. cbn beta iota. eapply eventually_bind; [exact IH|]. cbn beta iota.
      replace (d + Z.of_nat (length (l :: lines))) with (d + 1 + Z.of_nat (length lines)) by (simpl; lia).
      apply eventually_const.
    + destruct IH as [IH|(cs & d' & n' & IH & Hd)]; [left|right].
      * eapply eventually_bind; [exact Hl|]. cbn beta iota. by apply eventually_abort.
      * exists (c :: cs), d', n'. split; [|simpl; lia].
        eapply eventually_bind; [exact Hl|]. cbn beta iota. eapply eventually_bind; [exact IH|]. apply eventually_const.
  - destruct Hl as [Hl|(c & n1 & Hl)]; [left; by apply eventually_abort|].
    specialize (IH (i + 1) d n1).
    assert (IH' : eventually (fun fuel => parse_lines mid rand fuel (i + 1) lines mem0 d n1) AssertFailed \/
      exists cs d' n', eventually (fun fuel => parse_lines mid rand fuel (i + 1) lines mem0 d n1) (Done (cs, d', n')) /\
        d' <= d + Z.of_nat (length lines)).
    { destruct (forallb four_words lines); [|destruct IH as [IH|(cs & d' & n' & IH & Hd)]; [by left|right]].
      - destruct IH as (cs & n' & IH & _). right. eexists _, _, _. split; [exact IH|lia].
      - exists cs, d', n'. split; [exact IH|lia]. }
    destruct IH' as [IH'|(cs & d' & n' & IH' & Hd)]; [left|right].
    + eapply eventually_bind; [exact Hl|]. cbn beta iota. by apply eventually_abort.
    + exists (c :: cs), d', n'. split; [|simpl; lia].
      eapply eventually_bind; [exact Hl|]. cbn beta iota. eapply eventually_bind; [exact IH'|]. apply eventually_const.
Qed.
End parsed.

(** C32: reading a trace file.  If [rand] keeps returning machines other than
    this one, the parser ends; it accepts exactly the files all of whose lines
    have at least four words, with one command per line, and every command it
    returns has a read or write opcode that agrees with its key and home, a home
    on another machine, an active worker, a key of the store and the hash of
    that key. *)
Theorem parse_trace_ok mid rand lines mem0 :
  mid ∈ machines -> (forall n, exists m, (n <= m)%nat /\ rand m mod MACHINE_NUM <> mid) ->
  if forallb four_words lines
  then exists cs, eventually (fun fuel => parse_trace mid rand fuel lines mem0) (Done cs) /\
         length cs = length lines /\ Forall (parsed_cmd mid) cs
  else eventually (fun fuel => parse_trace mid rand fuel lines mem0) AssertFailed.
Proof.
  intros Hmid Hrand. unfold parse_trace. pose proof (parse_lines_ok mid rand Hrand 0 lines mem0 0 0) as H.
  destruct (forallb four_words lines).
  - destruct H as (cs & n' & H & Hl & Hall). exists cs. split; [|done].
    eapply eventually_bind; [exact H|]. cbn beta iota. rewrite Z.add_0_l, Z.eqb_refl. apply eventually_const.
  - destruct H as [H|(cs & d' & n' & H & Hd)]; [by apply eventually_abort|].
    eapply eventually_bind; [exact H|]. cbn beta iota.
    rewrite (proj2 (Z.eqb_neq _ _)) by lia. apply eventually_const.
Qed.

(** The line "H 2 0 7\n", twice. *)
Definition demo_line : list Z := [72; 32; 50; 32; 48; 32; 55; 10].
Definition demo_rand (n : nat) : Z := if Nat.even n then 2001 else 3.

Lemma parse_trace_ok_witness :
  exists cs, eventually (fun fuel => parse_trace 0 demo_rand fuel [demo_line; demo_line] (fun _ => nop_cmd)) (Done cs) /\
    length cs = 2%nat /\ Forall (parsed_cmd 0) cs.
Proof.
  apply (parse_trace_ok 0 demo_rand [demo_line; demo_line] (fun _ => nop_cmd)).
  - left.
  - intros n. exists n. split; [reflexivity|]. unfold demo_rand. destruct (Nat.even n); vm_compute; discriminate.
Defined.

(** Key 7 is hot, and the draws make both commands writes. *)
Example demo_parse :
  match parse_trace 0 demo_rand 5 [demo_line; demo_line] (fun _ => nop_cmd) with
  | Done [c1; c2] => (tc_opcode c1, key_id c1, home_machine_id c1, tc_opcode c2) = (HOT_WRITE, 7, 3, HOT_WRITE)
  | _ => False
  end.
Proof. vm_compute. reflexivity. Qed.
