(* ===== verification/ClientLoop.v ===== *)
(** * The client's main loop and its outstanding requests (src/ccKVS/client-sc.c)

    An iteration of [run_client] collects hot writes and cold requests, waits
    for the answers of the previous iteration, and sends the new packets; one
    buffer per machine and kind holds a packet until its answer arrives, which
    the sending functions assert.  The wait is guarded by the number of cold
    requests of the previous iteration: the theorems show that the assertions
    hold whenever that number is positive, and a run in which it is zero and
    the assertion fails. *)
From stdpp Require Import relations.
From S2P Require Import Prelude Config Optik Layout Network Packets.

(** The work of an iteration: the hot writes collected and the cold requests
    queued, over the array [w_ops]. *)
Record work := mkWork { w_ops : list Layout.cache_op; w_hot : list nat; w_cold : Z -> list (nat * Z) }.

Definition load_work (w : work) (c : client_ctx) : client_ctx :=
  mkCtx (w_hot w) HERD_PUT_REQ_SIZE (cache_bufferused c) (w_cold w) (bufferused c) (reqs_in_transit c).

(** [wr_i]: the number of requests [handle_cold_requests] queued. *)
Definition work_wr_i (w : work) : Z :=
  foldr (fun rm n => Z.of_nat (length (w_cold w rm)) + n) 0 machines.

(** An answer is picked up by the event loop. *)
Inductive respond (c : client_ctx) : client_ctx -> Prop :=
| respond_cache rm : rm ∈ machines -> cache_bufferused c rm = 1 -> respond c (cache_response rm c)
| respond_data rm : rm ∈ machines -> bufferused c rm = 1 -> respond c (receive_response rm c).

(** [while (c->reqs_in_transit > 0) run_event_loop_once()], if there were
    requests in the previous iteration. *)
Definition awaited (previous_wr_i : Z) (c c' : client_ctx) : Prop :=
  if 0 <? previous_wr_i then rtc respond c c' /\ ~ 0 < reqs_in_transit c' else c' = c.

Definition send_round (machine_id : Z) (ops : list cache_op) (c : client_ctx)
    : outcome (client_ctx * list (Z * list Z)) :=
  let* (c, s1) := broadcast_cache_ops machine_id ops c in
  let* (c, s2) := send_requests machine_id ops c in
  Done (c, s1 ++ s2).

(** One iteration from context [c], the previous one having queued
    [previous_wr_i] requests. *)
Inductive iteration (machine_id previous_wr_i : Z) (c : client_ctx) (w : work)
    : outcome client_ctx -> Prop :=
| iteration_ok c1 c2 sent c3 :
    awaited previous_wr_i (load_work w c) c1 -> send_round machine_id (w_ops w) c1 = Done (c2, sent) ->
    rtc respond c2 c3 -> iteration machine_id previous_wr_i c w (Done c3)
| iteration_abort c1 :
    awaited previous_wr_i (load_work w c) c1 -> send_round machine_id (w_ops w) c1 = AssertFailed ->
    iteration machine_id previous_wr_i c w AssertFailed.

(** ** Outstanding requests are the buffers in use *)
Definition in_use (c : client_ctx) : Z :=
  foldr (fun rm n => cache_bufferused c rm + bufferused c rm + n) 0 machines.

Record transit_ok (c : client_ctx) : Prop := {
  to_cache : forall rm, cache_bufferused c rm = 0 \/ cache_bufferused c rm = 1;
  to_data : forall rm, bufferused c rm = 0 \/ bufferused c rm = 1;
  to_count : reqs_in_transit c = in_use c
}.

Lemma in_use_eq c :
  in_use c = cache_bufferused c 0 + bufferused c 0 + (cache_bufferused c 1 + bufferused c 1 +
    (cache_bufferused c 2 + bufferused c 2 + (cache_bufferused c 3 + bufferused c 3 + 0))).
Proof. done. Qed.

Lemma machine_cases rm : rm ∈ machines -> rm = 0 \/ rm = 1 \/ rm = 2 \/ rm = 3.
Proof. rewrite machines_spec. unfold MACHINE_NUM. lia. Qed.

Lemma respond_ok c c' : transit_ok c -> respond c c' -> transit_ok c' /\ reqs_in_transit c' = reqs_in_transit c - 1.
Proof.
  intros [H1 H2 H3] [rm Hrm Hu|rm Hrm Hu]; (split; [|done]).
  - split; [|done|]; simpl.
    + intros x. unfold fupd. zcase; auto.
    + rewrite H3, !in_use_eq. unfold cache_response. simpl. unfold fupd.
      destruct (machine_cases rm Hrm) as [-> |[-> |[-> | ->]]]; simpl; lia.
  - split; [done| |]; simpl.
    + intros x. unfold fupd. zcase; auto.
    + rewrite H3, !in_use_eq. unfold receive_response. simpl. unfold fupd.
      destruct (machine_cases rm Hrm) as [-> |[-> |[-> | ->]]]; simpl; lia.
Qed.

Lemma responds_ok c c' : transit_ok c -> rtc respond c c' -> transit_ok c'.
Proof. intros H Hr. induction Hr as [|c c1 c' Hs _ IH]; [done|]. by apply IH, (respond_ok c). Qed.

Lemma load_work_ok w c : transit_ok c -> transit_ok (load_work w c).
Proof. intros [H1 H2 H3]. split; done. Qed.

(** When nothing is in transit, no buffer is in use. *)
Lemma idle_free c : transit_ok c -> ~ 0 < reqs_in_transit c ->
  forall rm, rm ∈ machines -> cache_bufferused c rm = 0 /\ bufferused c rm = 0.
Proof.
  intros [H1 H2 H3] Hi rm Hrm. rewrite H3, in_use_eq in Hi.
  pose proof (H1 0); pose proof (H1 1); pose proof (H1 2); pose proof (H1 3).
  pose proof (H2 0); pose proof (H2 1); pose proof (H2 2); pose proof (H2 3).
  destruct (machine_cases rm Hrm) as [-> |[-> |[-> | ->]]]; lia.
Qed.

(** While something is in transit some answer can arrive. *)
Lemma busy_responds c : transit_ok c -> 0 < reqs_in_transit c -> exists c', respond c c'.
Proof.
  intros [H1 H2 H3] Hb. rewrite H3, in_use_eq in Hb.
  assert (Hx : exists rm, rm ∈ machines /\ (cache_bufferused c rm = 1 \/ bufferused c rm = 1)).
  { destruct (H1 0); [|by exists 0; split; [apply machines_spec; done|left]].
    destruct (H2 0); [|by exists 0; split; [apply machines_spec; done|right]].
    destruct (H1 1); [|by exists 1; split; [apply machines_spec; done|left]].
    destruct (H2 1); [|by exists 1; split; [apply machines_spec; done|right]].
    destruct (H1 2); [|by exists 2; split; [apply machines_spec; done|left]].
    destruct (H2 2); [|by exists 2; split; [apply machines_spec; done|right]].
    destruct (H1 3); [|by exists 3; split; [apply machines_spec; done|left]].
    destruct (H2 3); [lia|by exists 3; split; [apply machines_spec; done|right]]. }
  destruct Hx as (rm & Hrm & [Hu|Hu]); [exists (cache_response rm c)|exists (receive_response rm c)];
    by constructor.
Qed.

(** ** Sending *)
Lemma send_cache_packet_transit mid pkt rm c c' s :
  transit_ok c -> rm ∈ machines -> send_cache_packet mid pkt rm c = Done (c', s) -> transit_ok c'.
Proof.
  intros [H1 H2 H3] Hrm E. unfold send_cache_packet in E. destruct (rm =? mid).
  { injection E as <- _. done. }
  destruct (Z.eqb_spec (cache_bufferused c rm) 0) as [Hf|]; [|done]. injection E as <- _.
  split; simpl; [|done|].
  - intros x. unfold fupd. zcase; auto.
  - rewrite H3, !in_use_eq. simpl. unfold fupd.
    destruct (machine_cases rm Hrm) as [-> |[-> |[-> | ->]]]; simpl; lia.
Qed.

Lemma send_cache_loop_transit mid pkt rms c c' s :
  transit_ok c -> (forall rm, rm ∈ rms -> rm ∈ machines) ->
  send_cache_loop mid pkt rms c = Done (c', s) -> transit_ok c'.
Proof.
  revert c s. induction rms as [|rm rms IH]; intros c s Hc Hin E; cbn [send_cache_loop] in E.
  { by injection E as <- _. }
  apply obind_Done_inv in E as ([c1 s1] & E1 & E). apply obind_Done_inv in E as ([c2 s2] & E2 & E).
  injection E as <- _. apply (IH c1 s2); [|intros; apply Hin; by right|done].
  eapply send_cache_packet_transit; [done|apply Hin; left|done].
Qed.

Lemma broadcast_transit mid ops c c' s :
  transit_ok c -> broadcast_cache_ops mid ops c = Done (c', s) -> transit_ok c'.
Proof.
  intros Hc E. unfold broadcast_cache_ops in E. destruct (cbatch c); [by injection E as <- _|].
  apply obind_Done_inv in E as ([c1 s1] & E1 & E). injection E as <- _.
  by destruct (send_cache_loop_transit _ _ _ _ _ _ Hc (fun _ H => H) E1) as [T1 T2 T3].
Qed.

Lemma send_data_packet_transit mid ops rm c c' s :
  transit_ok c -> rm ∈ machines -> send_data_packet mid ops rm c = Done (c', s) -> transit_ok c'.
Proof.
  intros [H1 H2 H3] Hrm E. unfold send_data_packet in E. destruct (_ && _); [|by injection E as <- _].
  destruct (Z.eqb_spec (bufferused c rm) 0) as [Hf|]; [|done]. injection E as <- _.
  split; simpl; [done| |].
  - intros x. unfold fupd. zcase; auto.
  - rewrite H3, !in_use_eq. simpl. unfold fupd.
    destruct (machine_cases rm Hrm) as [-> |[-> |[-> | ->]]]; simpl; lia.
Qed.

Lemma send_data_loop_transit mid ops rms c c' s :
  transit_ok c -> (forall rm, rm ∈ rms -> rm ∈ machines) ->
  send_data_loop mid ops rms c = Done (c', s) -> transit_ok c'.
Proof.
  revert c s. induction rms as [|rm rms IH]; intros c s Hc Hin E; cbn [send_data_loop] in E.
  { by injection E as <- _. }
  apply obind_Done_inv in E as ([c1 s1] & E1 & E). apply obind_Done_inv in E as ([c2 s2] & E2 & E).
  injection E as <- _. apply (IH c1 s2); [|intros; apply Hin; by right|done].
  eapply send_data_packet_transit; [done|apply Hin; left|done].
Qed.

Lemma send_data_loop_ok mid ops rms c :
  transit_ok c -> NoDup rms -> (forall rm, rm ∈ rms -> rm ∈ machines /\ bufferused c rm = 0) ->
  exists c' s, send_data_loop mid ops rms c = Done (c', s) /\ transit_ok c'.
Proof.
  intros Hc Hnd Hin. assert (Hrun : exists c' s, send_data_loop mid ops rms c = Done (c', s)).
  { clear Hc. revert c Hin. induction rms as [|rm rms IH]; intros c Hin; [by exists c, []|].
    apply NoDup_cons in Hnd as [Hrm Hnd]. destruct (Hin rm) as [Hm Hf]; [left|].
    cbn [send_data_loop]. unfold send_data_packet. destruct (_ && _).
    - rewrite Hf. cbn [c_assert obind Z.eqb].
      match goal with |- context [send_data_loop _ _ _ ?x] => destruct (IH Hnd x) as (c' & s & E) end.
      + intros x Hx. destruct (Hin x) as [? ?]; [by right|]. split; [done|].
        simpl. rewrite fupd_ne by (intros ->; done). done.
      + rewrite E. by eexists _, _.
    - cbn [obind]. destruct (IH Hnd c) as (c' & s & E); [intros; apply Hin; by right|].
      rewrite E. by eexists _, _. }
  destruct Hrun as (c' & s & E). exists c', s. split; [done|].
  eapply send_data_loop_transit; [done| |exact E]. intros rm Hrm. by apply Hin.
Qed.

Lemma send_round_ok mid ops c :
  transit_ok c -> (forall rm, rm ∈ machines -> cache_bufferused c rm = 0 /\ bufferused c rm = 0) ->
  exists c' s, send_round mid ops c = Done (c', s) /\ transit_ok c'.
Proof.
  intros Hc Hfree. unfold send_round.
  assert (H1 : exists c1 s1, broadcast_cache_ops mid ops c = Done (c1, s1) /\ transit_ok c1 /\
                 bufferused c1 = bufferused c).
  { unfold broadcast_cache_ops. destruct (cbatch c) as [|i l]; [by exists c, []|].
    destruct (send_cache_loop_ok mid (cache_packet c ops) machines c machines_NoDup)
      as (c' & E & _ & _ & _ & Hb & _); [intros rm Hrm; by apply Hfree|].
    pose proof (send_cache_loop_transit mid _ machines c c' _ Hc ltac:(done) E) as [T1 T2 T3].
    rewrite E. cbn [obind]. eexists _, _. split; [reflexivity|]. split; [by split|done]. }
  destruct H1 as (c1 & s1 & E1 & Hc1 & Hb). rewrite E1. cbn [obind]. unfold send_requests.
  destruct (send_data_loop_ok mid ops machines c1 Hc1 machines_NoDup) as (c2 & s2 & E2 & Hc2).
  { intros rm Hrm. rewrite Hb. split; [done|by apply Hfree]. }
  rewrite E2. by eexists _, _.
Qed.

(** The wait ends. *)
Lemma wait_ends c : transit_ok c -> exists c', rtc respond c c' /\ ~ 0 < reqs_in_transit c'.
Proof.
  remember (Z.to_nat (reqs_in_transit c)) as n eqn:En. revert c En.
  induction n as [|n IH]; intros c En Hc; [exists c; split; [constructor|lia]|].
  destruct (busy_responds c Hc ltac:(lia)) as [c1 H1]. destruct (respond_ok c c1 Hc H1) as [Hc1 E1].
  destruct (IH c1 ltac:(lia) Hc1) as (c' & H2 & H3). exists c'. split; [by eapply rtc_l|done].
Qed.

(** An iteration that waits for the previous one is safe: whenever the
    previous iteration queued cold requests, the wait ends, every buffer is
    free when the new packets are sent, so no assertion of [broadcast_cache_ops]
    and [send_requests] fails, and the count of outstanding requests stays the
    number of buffers in use. *)
Theorem client_iteration_safe mid previous_wr_i c w :
  transit_ok c -> 0 < previous_wr_i ->
  (exists c', iteration mid previous_wr_i c w (Done c')) /\
  forall o, iteration mid previous_wr_i c w o -> exists c', o = Done c' /\ transit_ok c'.
Proof.
  intros Hc Hp. pose proof (load_work_ok w c Hc) as Hw.
  assert (Ha : forall c1, awaited previous_wr_i (load_work w c) c1 ->
    exists c2 s, send_round mid (w_ops w) c1 = Done (c2, s) /\ transit_ok c2).
  { intros c1 H1. unfold awaited in H1. rewrite (proj2 (Z.ltb_lt _ _) Hp) in H1. destruct H1 as [H1 H2].
    apply send_round_ok; [by eapply responds_ok|]. apply idle_free; [by eapply responds_ok|done]. }
  split.
  - destruct (wait_ends _ Hw) as (c1 & H1 & H2).
    assert (Hd : awaited previous_wr_i (load_work w c) c1)
      by (unfold awaited; by rewrite (proj2 (Z.ltb_lt _ _) Hp)).
    destruct (Ha c1 Hd) as (c2 & s & E & _). exists c2. eapply iteration_ok; [done|done|constructor].
  - intros o [c1 c2 s c3 H1 E Hr|c1 H1 E]; destruct (Ha c1 H1) as (c2' & s' & E' & Ht); [|congruence].
    rewrite E in E'. injection E' as -> ->. exists c3. split; [done|by eapply responds_ok].
Qed.

(** A hot write and no cold request. *)
Definition hot_only (op : cache_op) : work := mkWork [op] [0%nat] (fun _ => []).
Definition idle_ctx : client_ctx := mkCtx [] 0 (fun _ => 0) (fun _ => []) (fun _ => 0) 0.

(** C37: the wait is skipped when the previous iteration had no cold request,
    although its broadcast may still be unanswered: two iterations in a row
    with a hot write each and no cold request reach the failing assertion of
    [broadcast_cache_ops] when the first answers have not arrived. *)
Theorem client_wait_skipped op mid :
  mid ∈ machines ->
  exists c1, work_wr_i (hot_only op) = 0 /\ iteration mid 0 idle_ctx (hot_only op) (Done c1) /\
    iteration mid (work_wr_i (hot_only op)) c1 (hot_only op) AssertFailed.
Proof.
  intros Hm.
  destruct (machine_cases mid Hm) as [-> |[-> |[-> | ->]]];
    (eexists; split; [reflexivity|]; split;
      [eapply iteration_ok; [reflexivity|reflexivity|constructor]
      |eapply iteration_abort; [reflexivity|reflexivity]]).
Qed.

(** ** Concrete instances *)
Definition demo_op : cache_op := mkOp (mkMeta 0 0 1 0 2) 7 0 300 CACHE_OP_UPD 32 (replicate 46 9).

Lemma client_iteration_safe_witness :
  exists c', iteration 1 5 idle_ctx (hot_only demo_op) (Done c').
Proof.
  apply (client_iteration_safe 1 5 idle_ctx (hot_only demo_op)).
  - split; [intros rm; left; reflexivity|intros rm; left; reflexivity|reflexivity].
  - lia.
Defined.

Lemma client_wait_skipped_witness :
  exists c1, work_wr_i (hot_only demo_op) = 0 /\ iteration 1 0 idle_ctx (hot_only demo_op) (Done c1) /\
    iteration 1 (work_wr_i (hot_only demo_op)) c1 (hot_only demo_op) AssertFailed.
Proof. apply (client_wait_skipped demo_op 1). right. left. Defined.
