(* ===== verification/ColdPath.v ===== *)
(** * Cold requests from client to worker and back

    The whole path of a request that misses the cache (src/ccKVS/client-sc.c,
    src/ccKVS/worker.c).  Client [g] of a machine has one session with worker
    [g] of every other machine; [send_requests] puts one packet with all the
    requests queued for a machine into its session; the worker's loop collects
    packets with [req_handler] as long as its event loop delivers some, executes
    the collected requests one by one on the store it shares with the other
    workers of its machine ([mica_batch_op_crcw]), and answers every packet with
    its slice of the responses; the answer releases the client's buffer.

    The network (eRPC) keeps packets as long as it likes; the threads of all
    machines interleave between requests (an operation on an object is atomic by
    [LockedHandlers]).  The abstract service below executes the requests of a
    packet one after the other on a map from keys to values; the system refines
    it, no assertion and no array bound is violated, and every packet can be
    answered.  Broadcasts of hot writes use other sessions and buffers
    ([ClientLoop]); here a client only sends cold requests. *)
From stdpp Require Import functions relations.
From S2P Require Import Prelude Config Optik Layout City Mica MicaLog Cache CacheSpec Interleave Network Packets LockedHandlers ColdRequests ClientLoop.

(** ** The system *)

(** The session of client [g] of a machine with worker [g] of another one:
    source, [g], destination. *)
Abbreviation session := (Z * Z * Z)%type.

(** A worker thread: in the collecting loop, with the memory that holds the
    received packets, the requests found and the handles (source machines); or
    in [drain_batch], with the requests still to execute and their places in the
    store, the responses so far and the number of requests per handle. *)
Inductive worker :=
| Collecting (m : mem) (w : worker_ctx) (handles : list Z)
| Executing (todo : list (cache_op * option Z)) (done : list mica_resp) (ops_in : list Z)
    (handles : list Z).

Definition empty_worker : worker_ctx := mkWorker [] [].

Record cold_state := mkCold {
  cs_kv : Z -> mica_kv;
  cs_lock : Z -> cache_meta;
  cs_client : Z * Z -> client_ctx * Z;
  cs_req : session -> list (list Z);
  cs_worker : Z * Z -> worker;
  cs_resp : session -> list (list mica_resp)
}.

(** What an observer sees: packets of requests going out, the requests being
    executed (with the bytes the response points to, at that moment), and the
    responses coming back. *)
Inductive event :=
| Submit (s : session) (l : list cache_op)
| Serve (d k code : Z) (seen : option (list Z))
| Reply (s : session) (l : list mica_resp).

Inductive cold_action :=
| Send (m g : Z) (w : work)
| Poll (d g : Z) (buffers : mem)
| Receive (d g src : Z) (i : nat) (p : Z)
| Drain (d g : Z)
| Exec (d g : Z)
| Respond (d g : Z)
| Deliver (m g d : Z) (i : nat).

(** The requests queued for a machine. *)
Definition queue_of (w : work) (rm : Z) : list cache_op :=
  omap (fun x => w_ops w !! x.1) (w_cold w rm).

Definition submits (m g : Z) (w : work) : list event :=
  (fun rm => Submit (m, g, rm) (queue_of w rm))
    <$> filter (fun rm => rm <> m /\ w_cold w rm <> []) machines.

(** Adding a message to each of some sessions. *)
Definition post {A} (key : Z -> session) (msgs : list (Z * A)) (q : session -> list A)
    : session -> list A :=
  foldl (fun q x => <[key x.1 := q (key x.1) ++ [x.2]]> q) q msgs.

Definition seen_at (log : mem) (r : mica_resp) : option (list Z) :=
  (fun p => load_bytes log p (Z.to_nat (resp_val_len r))) <$> val_ptr r.

(** A step of a thread is not possible ([None]) or runs a piece of its code. *)
Definition step_result : Type := option (outcome (list event * cold_state)).

(** The client, after [if (previous_wr_i > 0) while (reqs_in_transit > 0) ...],
    sends what [w] queued. *)
Definition client_send (m g : Z) (w : work) (st : cold_state) : step_result :=
  let '(mkCold kv lock client req wk resp) := st in
  let '(c, previous_wr_i) := client (m, g) in
  if (0 <? previous_wr_i) && (0 <? reqs_in_transit c) then None
  else Some (
    let* (c, sent) := send_requests m (w_ops w) (load_work w c) in
    Done (submits m g w,
          mkCold kv lock (<[(m, g) := (c, work_wr_i w)]> client)
            (post (fun rm => (m, g, rm)) sent req) wk resp)).

(** Its event loop runs the continuation of an answer. *)
Definition client_receive (m g d : Z) (i : nat) (st : cold_state) : step_result :=
  let '(mkCold kv lock client req wk resp) := st in
  match resp (m, g, d) !! i with
  | Some rs =>
      let '(c, previous_wr_i) := client (m, g) in
      Some (Done ([Reply (m, g, d) rs],
                  mkCold kv lock (<[(m, g) := (receive_response d c, previous_wr_i)]> client) req wk
                    (<[(m, g, d) := delete i (resp (m, g, d))]> resp)))
  | None => None
  end.

(** The top of the worker's loop, with no request found: by the next time the
    receive buffers may hold other bytes. *)
Definition worker_poll (d g : Z) (buffers : mem) (st : cold_state) : step_result :=
  let '(mkCold kv lock client req wk resp) := st in
  match wk (d, g) with
  | Collecting _ (mkWorker [] []) [] =>
      Some (Done ([], mkCold kv lock client req
                        (<[(d, g) := Collecting buffers empty_worker []]> wk) resp))
  | _ => None
  end.

(** The event loop delivers the packet at [p] to [req_handler]. *)
Definition worker_receive (d g src : Z) (i : nat) (p : Z) (st : cold_state) : step_result :=
  let '(mkCold kv lock client req wk resp) := st in
  match wk (d, g), req (src, g, d) !! i with
  | Collecting m w hs, Some pkt =>
      if bool_decide (load_bytes m p (length pkt) = pkt) then
        Some (
          let* w := req_handler m p (Z.of_nat (length pkt)) w in
          Done ([], mkCold kv lock client (<[(src, g, d) := delete i (req (src, g, d))]> req)
                      (<[(d, g) := Collecting m w (hs ++ [src])]> wk) resp))
      else None
  | _, _ => None
  end.

(** The event loop delivers nothing more: [drain_batch] looks up the keys. *)
Definition worker_drain (d g : Z) (st : cold_state) : step_result :=
  let '(mkCold kv lock client req wk resp) := st in
  match wk (d, g) with
  | Collecting m w (h :: hs) =>
      Some (Done ([], mkCold kv lock client req
        (<[(d, g) := Executing ((fun op => (op, kv_ptr (kv d) op)) <$> (load_op m <$> op_ptr_arr w))
                       [] (ops_in_req w) (h :: hs)]> wk) resp))
  | _ => None
  end.

(** One iteration of the loop of [mica_batch_op_crcw]. *)
Definition worker_exec (d g : Z) (st : cold_state) : step_result :=
  let '(mkCold kv lock client req wk resp) := st in
  match wk (d, g) with
  | Executing ((op, ptr) :: todo) rs ns hs =>
      Some (
        let* (kvd, lk, _, r) := crcw_exec_one d (kv d) (lock d) op ptr in
        Done ([Serve d (key_word op) (opcode op) (seen_at (ht_log kvd) r)],
              mkCold (<[d := kvd]> kv) (<[d := lk]> lock) client req
                (<[(d, g) := Executing todo (rs ++ [r]) ns hs]> wk) resp))
  | _ => None
  end.

(** The loop over the handles of [drain_batch]. *)
Definition worker_respond (d g : Z) (st : cold_state) : step_result :=
  let '(mkCold kv lock client req wk resp) := st in
  match wk (d, g) with
  | Executing [] rs ns hs =>
      Some (Done ([], mkCold kv lock client req
        (<[(d, g) := Collecting (fun _ => 0) empty_worker []]> wk)
        (post (fun src => (src, g, d)) (zip hs (slices ns rs)) resp)))
  | _ => None
  end.

Definition cold_step (a : cold_action) (st : cold_state) : step_result :=
  match a with
  | Send m g w => client_send m g w st
  | Poll d g buffers => worker_poll d g buffers st
  | Receive d g src i p => worker_receive d g src i p st
  | Drain d g => worker_drain d g st
  | Exec d g => worker_exec d g st
  | Respond d g => worker_respond d g st
  | Deliver m g d i => client_receive m g d i st
  end.

(** Every client connected, nothing sent, every worker at the top of its loop. *)
Definition cold_start (kv : Z -> mica_kv) (lock : Z -> cache_meta) : cold_state :=
  mkCold kv lock (fun _ => (idle_ctx, 0)) (fun _ => [])
    (fun _ => Collecting (fun _ => 0) empty_worker []) (fun _ => []).

(** ** The service the workers provide *)
Record service := mkService {
  sv_val : Z -> Z -> option (list Z);
  sv_pend : session -> option (list cache_op * list mica_resp)
}.

(** The effect of a request on the value of its key, if it has one: the new
    value, the response, and what a reader sees.  [addr] is where the value is
    kept.  There are no insertions (see [action_ok]). *)
Definition serve_one (addr : Z) (o : cache_op) (v : option (list Z)) : option (list Z) * mica_resp * option (list Z) :=
  match v with
  | Some v =>
      if opcode o =? MICA_OP_GET
      then (Some v, mkResp MICA_RESP_GET_SUCCESS (Z.of_nat (length v)) (Some addr), Some v)
      else (Some (take (length v) (value o)), mkResp MICA_RESP_PUT_SUCCESS 0 None, None)
  | None => (None, mkResp MICA_RESP_GET_FAIL 0 None, None)
  end.

Inductive service_step (addr : Z -> Z -> Z) (sv : service) : list event -> service -> Prop :=
| service_submit s l :
    sv_pend sv s = None -> l <> [] ->
    service_step addr sv [Submit s l] (mkService (sv_val sv) (<[s := Some (l, [])]> (sv_pend sv)))
| service_serve m g d o l rs v' r seen :
    sv_pend sv (m, g, d) = Some (o :: l, rs) -> opcode o = MICA_OP_GET \/ is_Some (sv_val sv d (key_word o)) ->
    serve_one (addr d (key_word o)) o (sv_val sv d (key_word o)) = (v', r, seen) ->
    service_step addr sv [Serve d (key_word o) (opcode o) seen]
      (mkService (<[d := fupd (sv_val sv d) (key_word o) v']> (sv_val sv))
         (<[(m, g, d) := Some (l, rs ++ [r])]> (sv_pend sv)))
| service_reply s rs :
    sv_pend sv s = Some ([], rs) ->
    service_step addr sv [Reply s rs] (mkService (sv_val sv) (<[s := None]> (sv_pend sv))).

Inductive service_runs (addr : Z -> Z -> Z) : service -> list event -> service -> Prop :=
| service_nil sv : service_runs addr sv [] sv
| service_cons sv e sv1 es sv2 :
    service_step addr sv e sv1 -> service_runs addr sv1 es sv2 -> service_runs addr sv (e ++ es) sv2.

(** ** Facts about sending *)
Lemma post_cons {A} (key : Z -> session) y b msgs (q : session -> list A) :
  post key ((y, b) :: msgs) q = post key msgs (<[key y := q (key y) ++ [b]]> q).
Proof. done. Qed.

Lemma post_other {A} (key : Z -> session) msgs (q : session -> list A) s :
  (forall x, x ∈ fst <$> msgs -> key x <> s) -> post key msgs q s = q s.
Proof.
  revert q. induction msgs as [|[y b] msgs IH]; intros q Hs; [done|].
  rewrite post_cons, IH by (intros x Hx; apply Hs; rewrite fmap_cons; by right).
  apply fn_lookup_insert_ne, (Hs y). rewrite fmap_cons. left.
Qed.

Lemma post_lookup {A} (key : Z -> session) msgs (q : session -> list A) x a :
  (forall y z, key y = key z -> y = z) -> NoDup (fst <$> msgs) -> (x, a) ∈ msgs ->
  post key msgs q (key x) = q (key x) ++ [a].
Proof.
  intros Hinj. revert q. induction msgs as [|[y b] msgs IH]; intros q Hnd Hin; [by apply elem_of_nil in Hin|].
  rewrite fmap_cons in Hnd. apply NoDup_cons in Hnd as [Hy Hnd]. cbn [fst] in *.
  rewrite post_cons. apply elem_of_cons in Hin as [[= -> ->]|Hin].
  - rewrite post_other, fn_lookup_insert; [done|]. by intros z Hz ->%Hinj.
  - rewrite IH by done. rewrite fn_lookup_insert_ne; [done|].
    intros ->%Hinj. apply Hy. apply list_elem_of_fmap. by exists (x, a).
Qed.

Definition addressed (m : Z) (q : Z -> list (nat * Z)) (rms : list Z) : list Z :=
  filter (fun rm => rm <> m /\ q rm <> []) rms.

Lemma elem_of_addressed m q rms rm : rm ∈ addressed m q rms <-> (rm <> m /\ q rm <> []) /\ rm ∈ rms.
Proof. unfold addressed. by rewrite list_elem_of_filter. Qed.

Lemma send_data_loop_sent m ops rms c :
  NoDup rms -> (forall rm, rm ∈ rms -> bufferused c rm = 0) ->
  exists c', send_data_loop m ops rms c
    = Done (c', (fun rm => (rm, data_packet ops (batch c rm))) <$> addressed m (batch c) rms) /\
    cache_bufferused c' = cache_bufferused c /\
    forall rm, bufferused c' rm = if decide (rm ∈ addressed m (batch c) rms) then 1 else bufferused c rm.
Proof.
  revert c. induction rms as [|x rms IH]; intros c Hnd Hfree.
  { exists c. done. }
  apply NoDup_cons in Hnd as [Hx Hnd]. cbn [send_data_loop]. unfold send_data_packet, addressed.
  rewrite filter_cons. fold (addressed m (batch c) rms).
  destruct (negb (x =? m) && (0 <? Z.of_nat (length (batch c x)))) eqn:Ec.
  - apply andb_true_iff in Ec as [E1%negb_true_iff%Z.eqb_neq E2%Z.ltb_lt].
    rewrite decide_True by (split; [done|intros E; rewrite E in E2; simpl in E2; lia]).
    rewrite (Hfree x) by left. cbn [c_assert obind Z.eqb].
    match goal with |- context [send_data_loop _ _ _ ?y] => set (c1 := y) end.
    destruct (IH c1 Hnd) as (c' & E & Hcb & Hb).
    { intros rm Hrm. unfold c1. simpl. rewrite fupd_ne by (intros ->; done). apply Hfree. by right. }
    assert (Hq : forall rm, rm ∈ rms -> batch c1 rm = batch c rm)
      by (intros rm Hrm; unfold c1; simpl; rewrite fupd_ne by (intros ->; done); done).
    assert (Ha : addressed m (batch c1) rms = addressed m (batch c) rms).
    { unfold addressed. clear -Hq. induction rms as [|y rms IH]; [done|]. rewrite !filter_cons, Hq by left.
      rewrite IH by (intros; apply Hq; by right). done. }
    rewrite Ha in *. exists c'. rewrite E. cbn [obind]. split_and!.
    + do 2 f_equal. rewrite fmap_cons. simpl. f_equal. apply list_fmap_ext. intros i rm Hrm.
      f_equal. f_equal. apply Hq. apply list_elem_of_lookup_2 in Hrm. by apply elem_of_addressed in Hrm as [_ ?].
    + done.
    + intros rm. rewrite Hb. unfold c1. simpl. unfold fupd.
      destruct (decide (rm ∈ addressed m (batch c) rms)) as [Hin|Hin];
        [by rewrite decide_True by (by right)|].
      zcase; [subst; by rewrite decide_True by left|].
      rewrite decide_False by (intros [?|?]%elem_of_cons; done). done.
  - rewrite decide_False.
    2:{ intros [H1 H2]. apply andb_false_iff in Ec as [Ec|Ec].
        - apply negb_false_iff, Z.eqb_eq in Ec. done.
        - apply Z.ltb_ge in Ec. destruct (batch c x); [done|]. simpl in Ec. lia. }
    cbn [obind]. destruct (IH c Hnd) as (c' & E & Hcb & Hb); [intros; apply Hfree; by right|].
    exists c'. rewrite E. cbn [obind]. done.
Qed.

Lemma submit_all addr m g q rms sv :
  NoDup rms -> (forall rm, rm ∈ rms -> sv_pend sv (m, g, rm) = None /\ q rm <> []) ->
  exists sv', service_runs addr sv ((fun rm => Submit (m, g, rm) (q rm)) <$> rms) sv' /\
    sv_val sv' = sv_val sv /\
    (forall rm, rm ∈ rms -> sv_pend sv' (m, g, rm) = Some (q rm, [])) /\
    (forall s, (forall rm, rm ∈ rms -> s <> (m, g, rm)) -> sv_pend sv' s = sv_pend sv s).
Proof.
  revert sv. induction rms as [|x rms IH]; intros sv Hnd Hfree.
  { exists sv. split_and!; [constructor|done|by intros ? ?%elem_of_nil|done]. }
  apply NoDup_cons in Hnd as [Hx Hnd]. destruct (Hfree x) as [Hp Hq]; [left|].
  set (sv1 := mkService (sv_val sv) (<[(m, g, x) := Some (q x, [])]> (sv_pend sv))).
  destruct (IH sv1 Hnd) as (sv' & Hr & Hv & Hin & Hout).
  { intros rm Hrm. destruct (Hfree rm) as [H1 H2]; [by right|]. split; [|done]. simpl.
    rewrite fn_lookup_insert_ne; [done|]. intros [= ->]. done. }
  exists sv'. split_and!.
  - rewrite fmap_cons. change (?x :: ?l) with ([x] ++ l). eapply service_cons; [by apply service_submit|done].
  - done.
  - intros rm [-> |Hrm]%elem_of_cons; [|by apply Hin].
    rewrite Hout by (intros rm Hrm [= ->]; done). apply fn_lookup_insert.
  - intros s Hs. rewrite Hout by (intros rm Hrm; apply Hs; by right). simpl.
    apply fn_lookup_insert_ne. intros <-. by apply (Hs x); [left|].
Qed.

(** ** Executing a request *)
Lemma same_request_key o' o : same_request o' o -> key_word o' = key_word o.
Proof. intros (_ & H1 & H2 & H3 & _). unfold key_word, encode_key_word. by rewrite H1, H2, H3. Qed.

Lemma same_request_served F o' o : op_fits o' -> same_request o' o -> served F o -> served F o'.
Proof.
  intros Hf Hs (_ & Ho & e & HF & [_ Hl He]). pose proof (same_request_key _ _ Hs) as Hk.
  destruct Hs as (Hm & _ & _ & _ & Hc & Hp). split; [done|]. split; [by rewrite Hc|].
  exists e. rewrite Hk. split; [done|]. split; [done| |].
  - rewrite Hc. intros [E|E]; [|exfalso; rewrite E in Ho; by apply list_elem_of_In in Ho as [?|[?|[]]]].
    destruct (Hp E) as [-> _]. apply Hl. by left.
  - rewrite Hc, Hm. exact He.
Qed.

(** A request the worker can answer without inserting a key: one for a key the
    store has, of the right length if it is a PUT, or a GET of an absent key. *)
Definition answerable (F : Z -> option entry) (op : cache_op) : Prop :=
  served F op \/ (op_fits op /\ opcode op = MICA_OP_GET /\ F (key_word op) = None).

Lemma same_request_answerable F o' o : op_fits o' -> same_request o' o -> answerable F o -> answerable F o'.
Proof.
  intros Hf Hs [H|(_ & Hc & HF)]; [left; by eapply same_request_served|right].
  rewrite (same_request_key _ _ Hs). destruct Hs as (_ & _ & _ & _ & -> & _). done.
Qed.

Lemma answerable_len F F' op :
  (forall k, e_val_len <$> F' k = e_val_len <$> F k) -> answerable F op -> answerable F' op.
Proof.
  intros Hlen [H|(Hf & Hc & HF)]; [left; by eapply served_len|right]. split_and!; [done|done|].
  specialize (Hlen (key_word op)). rewrite HF in Hlen. by destruct (F' (key_word op)).
Qed.

Lemma take_of_32 (n : nat) (l l' : list Z) : (n <= 32)%nat -> take 32 l = take 32 l' -> take n l = take n l'.
Proof. intros Hn H. replace n with (n `min` 32)%nat by lia. by rewrite <- !take_take, H. Qed.

(** What it means that a worker executes the request it read as the service
    executes the one that was sent. *)
Definition executes_as (d : Z) (kv : mica_kv) (lk : cache_meta) (F : Z -> option entry) (op o : cache_op) : Prop :=
  exists kv' op' r v' F',
    crcw_exec_one d kv lk op (kv_ptr kv op) = Done (kv', lk, op', r) /\
    (opcode o = MICA_OP_GET \/ is_Some (e_value <$> F (key_word o))) /\
    serve_one (value_addr kv (key_word o)) o (e_value <$> F (key_word o)) = (v', r, seen_at (ht_log kv') r) /\
    coupled entry_wf kv' F' /\
    (forall k, e_value <$> F' k = fupd (fun k => e_value <$> F k) (key_word o) v' k) /\
    (forall k, e_val_len <$> F' k = e_val_len <$> F k) /\ (forall x, kv_ptr kv' x = kv_ptr kv x).

Lemma exec_serves d kv lk F op o :
  coupled entry_wf kv F -> served F o -> op_fits op -> same_request op o -> executes_as d kv lk F op o.
Proof.
  intros Hc Hso Hf Hs. pose proof (same_request_served F op o Hf Hs Hso) as Hsop.
  pose proof (same_request_key _ _ Hs) as Hk.
  destruct (crcw_exec_one_view d kv lk F op (mkResp EMPTY 0 None) Hc Hsop)
    as (kv' & F' & op' & r & E & V & Hc' & Hptr & Hlen).
  pose proof (cp_view _ _ _ Hc' op Hf) as Hv'. destruct Hsop as (_ & Hop & e & HF & Hleg).
  pose proof (cp_inv _ _ _ Hc _ _ HF) as He. pose proof (ew_value _ He) as Hval. pose proof (ew_len _ He) as Hel.
  change HERD_VALUE_SIZE with 32 in Hel.
  unfold view_exec_one in V. rewrite HF in V.
  destruct Hs as (_ & _ & _ & _ & Hcode & Hput). unfold executes_as, serve_one. rewrite <- Hcode, <- Hk.
  exists kv', op', r. rewrite HF. cbn [fmap option_fmap option_map].
  apply list_elem_of_In in Hop as [Eg|[Ep|[]]]; [symmetry in Eg|symmetry in Ep].
  - rewrite Eg in *. change (MICA_OP_GET =? MICA_OP_GET) with true. cbv iota.
    unfold crcw_handler, crcw_hit in V. rewrite Eg in V. change (MICA_OP_GET =? MICA_OP_GET) with true in V.
    cbv iota in V. rewrite same_version_self in V by apply He. cbn [obind] in V.
    injection V as <- _ <-. exists (Some (e_value e)), (fupd F (key_word op) (Some e)). split_and!; try done; [by left| |].
    + rewrite Hval, Z2Nat.id by lia. do 2 f_equal. unfold seen_at. simpl.
      rewrite fupd_eq in Hv'. unfold cache_view in Hv'. unfold value_addr. rewrite !kv_ptr_key_op in * by done.
      rewrite Hptr in Hv'. destruct (kv_ptr kv op) as [p|]; [|done]. destruct (_ =? _) in Hv'; [|done].
      injection Hv' as <-. done.
    + intros k. unfold fupd. destruct (k =? key_word op); done.
  - rewrite Ep in *. change (MICA_OP_PUT =? MICA_OP_GET) with false. cbv iota.
    destruct (Hput (eq_sym Hcode)) as [Hl Ht].
    rewrite crcw_put_eq in V by (done || apply Hleg; by left). cbn [obind] in V. injection V as <- _ <-.
    eexists _, _. split_and!; try done; [right; by eexists|].
    intros k. unfold fupd. destruct (k =? key_word op); [|done]. simpl. f_equal.
    rewrite Hval. apply take_of_32; [lia|done].
Qed.

Lemma exec_answers d kv lk F op o :
  coupled entry_wf kv F -> answerable F o -> op_fits op -> same_request op o -> executes_as d kv lk F op o.
Proof.
  intros Hc [Hso|Hmiss] Hf Hs; [by apply exec_serves|].
  destruct (same_request_answerable F op o Hf Hs ltac:(by right)) as [(_ & _ & e & HF & _)|(_ & Hg & HF)].
  { exfalso. destruct Hmiss as (_ & _ & Hm). rewrite (same_request_key _ _ Hs) in HF. congruence. }
  destruct Hmiss as (_ & Hgo & Hm). exists kv, op, (mkResp MICA_RESP_GET_FAIL 0 None), None, F. rewrite Hm. split_and!; try done.
  - unfold crcw_exec_one. rewrite Hg. change (MICA_OP_GET =? MICA_OP_GET) with true. cbv iota.
    pose proof (cp_view _ _ _ Hc op Hf) as Hv. unfold cache_view in Hv. rewrite kv_ptr_key_op, HF in Hv by done.
    destruct (kv_ptr kv op) as [p|]; [|done]. fold (entry_key (ht_log kv) p). by destruct (_ =? _).
  - by left.
  - intros k. unfold fupd. zcase; [by subst; rewrite Hm|done].
Qed.

(** ** The simulation *)
Definition handles_of (x : worker) : list Z :=
  match x with Collecting _ _ hs => hs | Executing _ _ _ hs => hs end.

(** The packets of a batch are executed in order: some are finished, one is
    under way, the others are untouched. *)
Inductive in_order : list (list cache_op * list mica_resp) -> Prop :=
| in_order_nil : in_order []
| in_order_done rs ps : in_order ps -> in_order (([], rs) :: ps)
| in_order_here o l rs ps : Forall (fun p => p.2 = []) ps -> in_order ((o :: l, rs) :: ps).

Lemma in_order_untouched ps : Forall (fun p => p.2 = []) ps -> in_order ps.
Proof. induction 1 as [|[[|o l] rs] ps]; by constructor. Qed.

Lemma concat_untouched (ps : list (list cache_op * list mica_resp)) :
  Forall (fun p => p.2 = []) ps -> concat (snd <$> ps) = [].
Proof. induction 1 as [|[l rs] ps E _ IH]; [done|]. rewrite fmap_cons. simpl in *. by rewrite E, IH. Qed.

(** The next request belongs to the first packet that is not finished. *)
Lemma in_order_next ps o rest r :
  in_order ps -> concat (fst <$> ps) = o :: rest ->
  exists i l rs, ps !! i = Some (o :: l, rs) /\
    in_order (<[i := (l, rs ++ [r])]> ps) /\
    concat (fst <$> <[i := (l, rs ++ [r])]> ps) = rest /\
    concat (snd <$> <[i := (l, rs ++ [r])]> ps) = concat (snd <$> ps) ++ [r].
Proof.
  induction 1 as [|rs ps H IH|x l rs ps H]; intros E; [done| |].
  - destruct (IH E) as (i & l & rs' & H1 & H2 & H3 & H4). exists (S i), l, rs'.
    change (<[S i := ?x]> (?y :: ps)) with (y :: <[i := x]> ps). rewrite !fmap_cons.
    split_and!; [done|by constructor|done|]. cbn [concat snd]. by rewrite H4, app_assoc.
  - rewrite fmap_cons in E. injection E as -> <-. exists 0%nat, l, rs.
    change (<[0%nat := ?x]> (?y :: ps)) with (x :: ps). split_and!; [done| |done|].
    + destruct l; constructor; [by apply in_order_untouched|done].
    + rewrite !fmap_cons. cbn [concat snd]. by rewrite (concat_untouched _ H), !app_nil_r.
Qed.

Lemma Forall2_impl_elem {A B} (P Q : A -> B -> Prop) l k :
  Forall2 P l k -> (forall x y, x ∈ l -> P x y -> Q x y) -> Forall2 Q l k.
Proof. induction 1; constructor; [|apply IHForall2]; intros; set_solver. Qed.

Lemma Forall2_and_r {A B} (P : A -> B -> Prop) (Q : B -> Prop) l k :
  Forall2 P l k -> Forall Q k -> Forall2 (fun x y => P x y /\ Q y) l k.
Proof. induction 1; intros HQ; constructor; inversion HQ; auto. Qed.

Lemma fn_insert_eq {A T} `{EqDecision A} (f : A -> T) a t b :
  <[a := t]> f b = if decide (a = b) then t else f b.
Proof. done. Qed.

(** Case analysis on the updates of the state. *)
Ltac upd_case := repeat
  match goal with
  | |- context [@insert _ _ _ (@fn_insert _ _ _) ?a ?t ?f ?b] =>
      rewrite (fn_insert_eq f a t b); destruct (decide (a = b)); simplify_eq/=; try done
  end.

(** The responses of finished packets are cut where the packets end. *)
Lemma slices_finished (ps : list (list cache_op * list mica_resp)) :
  concat (fst <$> ps) = [] ->
  slices ((fun p => Z.of_nat (length p.1 + length p.2)) <$> ps) (concat (snd <$> ps)) = snd <$> ps /\
  Forall (fun p => p.1 = []) ps.
Proof.
  induction ps as [|[l rs] ps IH]; [done|]. rewrite !fmap_cons. cbn [concat fst snd slices].
  intros [-> E]%app_eq_nil. destruct (IH E) as [IH1 IH2]. cbn [length Nat.add]. rewrite Nat2Z.id.
  rewrite take_app_length, drop_app_length, IH1. split; [done|]. by constructor.
Qed.

Section path.
Context (kv0 : Z -> mica_kv) (F0 : Z -> Z -> option entry).

(** Where the service keeps a value. *)
Definition home_addr (d k : Z) : Z := value_addr (kv0 d) k.

Definition batch_ok (d : Z) (l : list cache_op) : Prop :=
  Forall is_request l /\ Z.of_nat (length l) <= KVS_BATCH /\ Forall (answerable (F0 d)) l.

(** What a client queues in a round: for every other machine at most
    [KVS_BATCH] requests, GETs of any keys and PUTs of keys its store has, with
    values of the stored length.  A PUT of an absent key inserts it, and is not
    atomic then ([cold_insert_not_seen]). *)
Definition work_for (m : Z) (w : work) : Prop :=
  forall rm, rm ∈ others m ->
    Forall2 (queued (w_ops w)) (w_cold w rm) (queue_of w rm) /\ batch_ok rm (queue_of w rm).

Definition action_ok (a : cold_action) : Prop :=
  match a with
  | Send m _ w => m ∈ machines /\ work_for m w
  | Poll _ _ buffers => forall a, is_u8 (buffers a)
  | _ => True
  end.

Inductive cold_runs : cold_state -> list event -> cold_state -> Prop :=
| cold_nil st : cold_runs st [] st
| cold_cons st a e st1 es st2 :
    action_ok a -> cold_step a st = Some (Done (e, st1)) -> cold_runs st1 es st2 ->
    cold_runs st (e ++ es) st2.

(** A session, from its client's buffer to its worker. *)
Inductive lane (d : Z) : Z -> list (list Z) -> bool -> list (list mica_resp) ->
    option (list cache_op * list mica_resp) -> Prop :=
| lane_free : lane d 0 [] false [] None
| lane_sent l : batch_ok d l -> lane d 1 [packet_of l] false [] (Some (l, []))
| lane_held p : lane d 1 [] true [] (Some p)
| lane_answered rs : lane d 1 [] false [rs] (Some ([], rs)).

(** A request as the worker executes it. *)
Definition ready_op (d : Z) (x : cache_op * option Z) (o : cache_op) : Prop :=
  op_fits x.1 /\ same_request x.1 o /\ x.2 = kv_ptr (kv0 d) x.1 /\ answerable (F0 d) o.

Definition worker_ok (d : Z) (pend : Z -> option (list cache_op * list mica_resp)) (x : worker) : Prop :=
  match x with
  | Collecting m w hs =>
      (forall a, is_u8 (m a)) /\
      exists ls, Forall2 (fun h l => pend h = Some (l, [])) hs ls /\ Forall (batch_ok d) ls /\
        ops_in_req w = (fun l => Z.of_nat (length l)) <$> ls /\
        Forall2 (carries m) (op_ptr_arr w) (concat ls)
  | Executing todo rs ns hs =>
      exists ps, Forall2 (fun h p => pend h = Some p) hs ps /\ in_order ps /\
        ns = (fun p => Z.of_nat (length p.1 + length p.2)) <$> ps /\
        concat (snd <$> ps) = rs /\ Forall2 (ready_op d) todo (concat (fst <$> ps))
  end.

Record sim (st : cold_state) (sv : service) : Prop := {
  sim_store d : exists F, coupled entry_wf (cs_kv st d) F /\
    (forall k, e_value <$> F k = sv_val sv d k) /\
    (forall k, e_val_len <$> F k = e_val_len <$> F0 d k) /\
    (forall o, kv_ptr (cs_kv st d) o = kv_ptr (kv0 d) o);
  sim_client m g : transit_ok (cs_client st (m, g)).1 /\
    (forall rm, cache_bufferused (cs_client st (m, g)).1 rm = 0) /\
    (0 < (cs_client st (m, g)).2 \/ forall rm, bufferused (cs_client st (m, g)).1 rm = 0);
  sim_lane m g d : lane d (bufferused (cs_client st (m, g)).1 d) (cs_req st (m, g, d))
    (bool_decide (m ∈ handles_of (cs_worker st (d, g)))) (cs_resp st (m, g, d)) (sv_pend sv (m, g, d));
  sim_ends m g d p : sv_pend sv (m, g, d) = Some p -> m ∈ machines /\ d ∈ machines /\ m <> d;
  sim_worker d g : NoDup (handles_of (cs_worker st (d, g))) /\
    worker_ok d (fun m => sv_pend sv (m, g, d)) (cs_worker st (d, g))
}.

Definition service_start : service := mkService (fun d k => e_value <$> F0 d k) (fun _ => None).

Lemma sim_start lock0 :
  (forall d, coupled entry_wf (kv0 d) (F0 d)) -> sim (cold_start kv0 lock0) service_start.
Proof using Type.
  intros Hc. split; simpl.
  - intros d. by exists (F0 d).
  - intros m g. split_and!; [|done|by right]. split; [intros; by left..|done].
  - intros m g d. constructor.
  - done.
  - intros d g. split; [constructor|]. split; [by intros a|]. exists []. split_and!; constructor.
Qed.

(** What the workers rely on is kept when other sessions change. *)
Lemma worker_ok_ext d pend pend' x :
  (forall h, h ∈ handles_of x -> pend' h = pend h) -> worker_ok d pend x -> worker_ok d pend' x.
Proof using Type.
  intros He. destruct x as [m w hs|todo rs ns hs]; simpl in *.
  - intros (Hm & ls & H1 & H2). split; [done|]. exists ls. split; [|done].
    eapply Forall2_impl_elem; [exact H1|]. intros h l Hh <-. by apply He.
  - intros (ps & H1 & H2). exists ps. split; [|done].
    eapply Forall2_impl_elem; [exact H1|]. intros h l Hh <-. by apply He.
Qed.

Definition advances (st : cold_state) (sv : service) (a : cold_action) : Prop :=
  forall o, cold_step a st = Some o -> exists e st' sv',
    o = Done (e, st') /\ service_runs home_addr sv e sv' /\ sim st' sv'.

Lemma lane_busy d b q h r p : lane d b q h r p -> b <> 0 -> exists x, p = Some x.
Proof using Type. destruct 1; try done; by eexists. Qed.

Lemma lane_idle d q h r p : lane d 0 q h r p -> q = [] /\ h = false /\ r = [] /\ p = None.
Proof using Type. by inversion 1. Qed.

Lemma work_wr_i_pos w rm : rm ∈ machines -> w_cold w rm <> [] -> 0 < work_wr_i w.
Proof using Type.
  intros Hrm Hw. unfold work_wr_i. assert (H : 0 < Z.of_nat (length (w_cold w rm))) by (destruct (w_cold w rm); simpl; [done|lia]).
  simpl. destruct (machine_cases rm Hrm) as [-> |[-> |[-> | ->]]]; lia.
Qed.

(** When a client may send, all its buffers are free. *)
Lemma sim_free st sv m g :
  sim st sv -> (0 <? (cs_client st (m, g)).2) && (0 <? reqs_in_transit (cs_client st (m, g)).1) = false ->
  forall rm, bufferused (cs_client st (m, g)).1 rm = 0.
Proof using Type.
  intros Hs Hg rm. destruct (sim_client _ _ Hs m g) as (Ht & _ & Hp).
  destruct (decide (bufferused (cs_client st (m, g)).1 rm = 0)) as [|Hb]; [done|]. exfalso.
  destruct (lane_busy _ _ _ _ _ _ (sim_lane _ _ Hs m g rm) Hb) as [p Hpend].
  destruct (sim_ends _ _ Hs _ _ _ _ Hpend) as (_ & Hrm & _).
  destruct Hp as [Hp|Hp]; [|by rewrite Hp in Hb].
  rewrite (proj2 (Z.ltb_lt _ _) Hp) in Hg. apply Z.ltb_ge in Hg.
  by destruct (idle_free _ Ht ltac:(lia) rm Hrm).
Qed.

Lemma fst_tagged {A B} (f : A -> B) (l : list A) : fst <$> ((fun x => (x, f x)) <$> l) = l.
Proof using Type. rewrite <- list_fmap_compose. apply list_fmap_id. Qed.

(** A client with no answer outstanding has nothing on its lanes. *)
Lemma sim_lanes_idle st sv m g :
  sim st sv -> (forall rm, bufferused (cs_client st (m, g)).1 rm = 0) ->
  forall rm, cs_req st (m, g, rm) = [] /\ bool_decide (m ∈ handles_of (cs_worker st (rm, g))) = false /\
    cs_resp st (m, g, rm) = [] /\ sv_pend sv (m, g, rm) = None.
Proof using Type.
  intros Hs Hfree rm. pose proof (sim_lane _ _ Hs m g rm) as H. rewrite Hfree in H. by apply lane_idle in H.
Qed.

Lemma sim_send st sv m g w : sim st sv -> action_ok (Send m g w) -> advances st sv (Send m g w).
Proof using Type.
  intros Hs [Hm Hw] o Ho. destruct st as [kv lock client req wk resp]. pose proof (sim_free _ _ m g Hs) as Hfree.
  pose proof (sim_client _ _ Hs m g) as (Ht & Hcb & _). simpl in Ho, Hfree, Ht, Hcb.
  destruct (client (m, g)) as [c prev] eqn:Ec. simpl in *. destruct (_ && _); [done|]. specialize (Hfree eq_refl).
  injection Ho as <-. unfold send_requests.
  destruct (send_data_loop_sent m (w_ops w) machines (load_work w c) machines_NoDup) as (c' & E & Hcb' & Hb').
  { intros rm _. apply Hfree. }
  destruct (send_data_loop_ok m (w_ops w) machines (load_work w c) (load_work_ok w c Ht) machines_NoDup)
    as (c2 & s2 & E2 & Ht').
  { intros rm Hrm. split; [done|apply Hfree]. }
  rewrite E in E2. injection E2 as <- <-. rewrite E. cbn [obind]. cbn [load_work batch bufferused cache_bufferused] in *.
  set (A := addressed m (w_cold w) machines) in *.
  assert (HA : forall rm, rm ∈ A -> rm ∈ others m /\ rm ∈ machines /\ rm <> m /\ w_cold w rm <> []).
  { intros rm [[H1 H2] H3]%elem_of_addressed. split_and!; try done. by apply elem_of_others. }
  pose proof (sim_lanes_idle _ _ m g Hs ltac:(simpl; by rewrite Ec)) as Hlane. simpl in Hlane.
  destruct (submit_all home_addr m g (queue_of w) A sv) as (sv' & Hr & Hv & Hin & Hout).
  { apply NoDup_filter, machines_NoDup. }
  { intros rm Hrm. split; [apply Hlane|]. destruct (HA rm Hrm) as (Ho & _ & _ & Hne).
    destruct (Hw rm Ho) as [Hq _]. intros E0. rewrite E0 in Hq. by inversion Hq as [E1|]; rewrite <- E1 in Hne. }
  eexists _, _, sv'. split; [reflexivity|]. split; [exact Hr|].
  assert (Hnd : NoDup A) by apply NoDup_filter, machines_NoDup.
  clearbody A. split; simpl.
  - intros d. destruct (sim_store _ _ Hs d) as (F & H). rewrite Hv. by exists F.
  - intros m' g'. upd_case; [|apply (sim_client _ _ Hs)]. split_and!; [done|by rewrite Hcb'|].
    destruct A as [|rm A'] eqn:EA; [right|left].
    + intros rm. rewrite Hb', decide_False by (by intros ?%elem_of_nil). apply Hfree.
    + destruct (HA rm ltac:(left)) as (_ & H1 & _ & H2). by apply (work_wr_i_pos w rm).
  - intros m' g' d'. destruct (decide ((m', g') = (m, g))) as [[= -> ->]|Hne].
    + rewrite fn_lookup_insert. simpl. rewrite Hb'. destruct (Hlane d') as (L1 & L2 & L3 & L4).
      destruct (decide (d' ∈ A)) as [Hd|Hd].
      * rewrite (post_lookup (fun rm => (m, g, rm)) _ _ d' (data_packet (w_ops w) (w_cold w d'))); [|by intros ? ? [= ->]|by rewrite fst_tagged|].
        2:{ apply list_elem_of_fmap. by exists d'. }
        rewrite L1, L2, L3, (Hin d' Hd). destruct (HA d' Hd) as (Ho & _). destruct (Hw d' Ho) as [Hq Hbok].
        destruct (data_packet_queued _ _ _ Hq) as [-> _]. by constructor.
      * rewrite post_other by (rewrite fst_tagged; by intros x Hx [= ->]). rewrite Hout by (by intros rm Hrm [= ->]).
        rewrite L1, L2, L3, L4, Hfree. constructor.
    + rewrite fn_lookup_insert_ne by congruence.
      rewrite post_other by (intros x _ [= -> -> _]; done). rewrite Hout by (intros rm _ [= -> -> _]; done).
      apply (sim_lane _ _ Hs).
  - intros m' g' d' p Hp. destruct (decide ((m', g') = (m, g) /\ d' ∈ A)) as [[[= -> ->] Hd]|Hne].
    + destruct (HA d' Hd) as (_ & H1 & H2 & _). done.
    + rewrite Hout in Hp; [by apply (sim_ends _ _ Hs) in Hp|]. intros rm Hrm [= -> -> ->]. by apply Hne.
  - intros d g'. destruct (sim_worker _ _ Hs d g') as [Hn Hk]. split; [done|].
    eapply worker_ok_ext; [|exact Hk]. intros h Hh. simpl. apply Hout. intros rm Hrm [= -> -> ->].
    destruct (Hlane rm) as (_ & L2 & _). apply bool_decide_eq_false in L2. done.
Qed.

(** A worker that goes on with the same packets. *)
Lemma sim_set_worker kv lock client req wk resp sv d g x :
  sim (mkCold kv lock client req wk resp) sv -> handles_of x = handles_of (wk (d, g)) ->
  worker_ok d (fun m => sv_pend sv (m, g, d)) x ->
  sim (mkCold kv lock client req (<[(d, g) := x]> wk) resp) sv.
Proof using Type.
  intros Hs Hh Hx. split; simpl; try apply Hs.
  - intros m g' d'. pose proof (sim_lane _ _ Hs m g' d') as H. simpl in H. upd_case. by rewrite Hh.
  - intros d' g'. pose proof (sim_worker _ _ Hs d' g') as H. simpl in H. upd_case. rewrite Hh. by destruct H.
Qed.

Lemma sim_poll st sv d g b : sim st sv -> action_ok (Poll d g b) -> advances st sv (Poll d g b).
Proof using Type.
  intros Hs Hb o Ho. destruct st as [kv lock client req wk resp]. simpl in Ho.
  destruct (wk (d, g)) as [m [[] []] []|] eqn:Ew; try done. injection Ho as <-.
  eexists _, _, sv. split; [reflexivity|]. split; [constructor|].
  apply sim_set_worker; [done|by rewrite Ew|]. split; [done|]. exists []. split_and!; constructor.
Qed.

Lemma sim_drain st sv d g : sim st sv -> advances st sv (Drain d g).
Proof using Type.
  intros Hs o Ho. destruct st as [kv lock client req wk resp]. simpl in Ho.
  destruct (wk (d, g)) as [m w [|h hs]|] eqn:Ew; try done. injection Ho as <-.
  destruct (sim_worker _ _ Hs d g) as [_ Hk]. simpl in Hk. rewrite Ew in Hk. destruct Hk as (Hm & ls & H1 & H2 & H3 & H4).
  destruct (sim_store _ _ Hs d) as (F & _ & _ & _ & Hptr). simpl in Hptr.
  eexists _, _, sv. split; [reflexivity|]. split; [constructor|].
  apply sim_set_worker; [done|by rewrite Ew|]. exists ((fun l => (l, [])) <$> ls).
  rewrite <- !list_fmap_compose. split_and!.
  - apply Forall2_fmap_r. exact H1.
  - apply in_order_untouched, Forall_fmap, Forall_true. done.
  - rewrite H3. apply list_fmap_ext. intros i l _. simpl. by rewrite Nat.add_0_r.
  - clear. induction ls as [|l ls IH]; [done|]. by rewrite fmap_cons.
  - replace (compose fst (fun l : list cache_op => (l, [] : list mica_resp)) <$> ls) with ls by (symmetry; apply list_fmap_id).
    apply Forall2_fmap_l.
    assert (Hall : Forall (answerable (F0 d)) (concat ls)).
    { clear -H2. induction H2 as [|l ls (_ & _ & H) _ IH]; [constructor|]. by apply Forall_app_2. }
    eapply Forall2_impl; [by apply Forall2_and_r|].
    intros a o [Hc Ho]. split_and!; [by apply load_op_fits|done|apply Hptr|done].
Qed.

Lemma handles_bound d hs :
  NoDup hs -> d ∈ machines -> (forall h, h ∈ hs -> h ∈ machines /\ h <> d) ->
  Z.of_nat (length hs) <= MACHINE_NUM - 1.
Proof using Type.
  intros Hnd Hd Hh. assert (Hs : d :: hs ⊆+ machines).
  { apply NoDup_submseteq.
    - apply NoDup_cons. split; [|done]. by intros [_ ?]%Hh.
    - intros x [-> |Hx]%elem_of_cons; [done|]. by apply Hh. }
  apply submseteq_length in Hs. simpl in Hs. change MACHINE_NUM with 4. lia.
Qed.

Lemma batch_total d ls :
  Forall (batch_ok d) ls -> Z.of_nat (length (concat ls)) <= KVS_BATCH * Z.of_nat (length ls).
Proof using Type.
  induction 1 as [|l ls (_ & H & _) _ IH]; [done|]. simpl. rewrite length_app.
  change KVS_BATCH with 100 in *. lia.
Qed.

(** The packets a worker holds come from different other machines. *)
Lemma sim_handles st sv d g :
  sim st sv -> forall h, h ∈ handles_of (cs_worker st (d, g)) -> h ∈ machines /\ h <> d /\ d ∈ machines.
Proof using Type.
  intros Hs h Hh. pose proof (sim_lane _ _ Hs h g d) as Hl. rewrite bool_decide_true in Hl by done.
  inversion Hl as [| |p E1 E2 E3 E4 E5|]. symmetry in E5. apply (sim_ends _ _ Hs) in E5 as (? & ? & ?). done.
Qed.

Lemma sim_receive st sv d g src i p : sim st sv -> advances st sv (Receive d g src i p).
Proof using Type.
  intros Hs o Ho. pose proof (sim_handles st sv d g Hs) as Hh. pose proof (sim_worker _ _ Hs d g) as [Hnd Hk].
  pose proof (sim_lane _ _ Hs src g d) as Hl. destruct st as [kv lock client req wk resp]. simpl in *.
  destruct (wk (d, g)) as [m w hs|] eqn:Ew; [|done]. simpl in *.
  destruct (req (src, g, d) !! i) as [pkt|] eqn:Er; [|done].
  destruct (bool_decide (load_bytes _ _ _ = _)) eqn:Hb in Ho; [apply bool_decide_eq_true in Hb|done]. injection Ho as <-.
  inversion Hl as [E0 E1|l Hbok E0 E1 E2 E3 E4|p' E0 E1|rs E0 E1]; rewrite <- E1 in Er; try done.
  destruct i; [|done]. injection Er as <-. symmetry in E2. apply bool_decide_eq_false in E2. symmetry in E4.
  destruct (sim_ends _ _ Hs _ _ _ _ E4) as (Hsrc & Hd & Hne). destruct Hk as (Hm & ls & K1 & K2 & K3 & K4).
  assert (Hnd' : NoDup (hs ++ [src])).
  { apply NoDup_app. split_and!; [done|by intros x Hx ->%list_elem_of_singleton|apply NoDup_singleton]. }
  assert (Hlen : Z.of_nat (length (hs ++ [src])) <= MACHINE_NUM - 1).
  { apply (handles_bound d); [done|done|]. intros h [Hx| ->%list_elem_of_singleton]%elem_of_app; [|done].
    by destruct (Hh h Hx) as (? & ? & _). }
  pose proof (Forall2_length _ _ _ K1) as L1. pose proof (Forall2_length _ _ _ K4) as L4.
  pose proof (batch_total d ls K2) as Ht. destruct Hbok as (Hreq & Hmax & Hsv).
  rewrite length_app in Hlen. simpl in Hlen. change (MACHINE_NUM - 1) with 3 in Hlen. change KVS_BATCH with 100 in *.
  destruct (req_handler_packet m p l w Hreq Hb) as (addrs & E & Hc).
  { change WORKER_MAX_BATCH with 400. lia. }
  rewrite E. cbn [obind]. eexists _, _, sv. split; [reflexivity|]. split; [constructor|].
  split; simpl; try apply Hs.
  - intros m' g' d'. pose proof (sim_lane _ _ Hs m' g' d') as H. simpl in H.
    destruct (decide ((m', g', d') = (src, g, d))) as [[= -> -> ->]|Hx].
    + rewrite !fn_lookup_insert, <- E0, <- E3, E4. simpl.
      rewrite bool_decide_true by (apply elem_of_app; right; by apply list_elem_of_singleton). constructor.
    + rewrite fn_lookup_insert_ne by congruence. upd_case. rewrite Ew in H. simpl in H.
      rewrite (bool_decide_ext (m' ∈ hs ++ [src]) (m' ∈ hs)); [done|].
      rewrite elem_of_app, list_elem_of_singleton. split; [|tauto]. intros [?| ->]; [done|by destruct Hx].
  - intros d' g'. pose proof (sim_worker _ _ Hs d' g') as H. simpl in H. upd_case. split; [done|]. split; [done|].
    exists (ls ++ [l]). split_and!.
    + apply Forall2_app; [done|]. by constructor.
    + apply Forall_app_2; [done|]. by constructor.
    + by rewrite fmap_app, K3.
    + rewrite concat_app. simpl. rewrite app_nil_r. by apply Forall2_app.
Qed.

(** The answers of one handle change. *)
Lemma pending_insert (pend pend' : Z -> option (list cache_op * list mica_resp)) hs ps i h p :
  NoDup hs -> Forall2 (fun h p => pend h = Some p) hs ps -> hs !! i = Some h ->
  pend' h = Some p -> (forall h', h' <> h -> pend' h' = pend h') ->
  Forall2 (fun h p => pend' h = Some p) hs (<[i := p]> ps).
Proof using Type.
  intros Hnd Hps Hi Hp Hother.
  apply Forall2_same_length_lookup_2; [rewrite length_insert; by eapply Forall2_length|].
  intros j h' q Hj Hq. destruct (decide (j = i)) as [-> |Hji].
  - rewrite list_lookup_insert_eq in Hq by (rewrite <- (Forall2_length _ _ _ Hps); by eapply lookup_lt_Some).
    by simplify_eq.
  - rewrite list_lookup_insert_ne in Hq by done. rewrite Hother.
    + by apply (Forall2_lookup_lr _ _ _ _ _ _ Hps Hj).
    + intros ->. apply Hji. by eapply NoDup_lookup.
Qed.

Lemma sim_exec st sv d g : sim st sv -> advances st sv (Exec d g).
Proof using Type.
  intros Hs x Hx. pose proof (sim_worker _ _ Hs d g) as [Hnd Hk]. pose proof (sim_handles st sv d g Hs) as Hh.
  pose proof (sim_store _ _ Hs d) as (F & Hc & Hval & Hlen & Hptr).
  destruct st as [kv lock client req wk resp]. simpl in *.
  destruct (wk (d, g)) as [|[|[op ptr] todo] rs0 ns hs] eqn:Ew; try done. simpl in *.
  destruct Hk as (ps & K1 & K2 & K3 & K4 & K5).
  apply Forall2_cons_inv_l in K5 as (o & rest & (Hf & Hsame & Hp & Hso) & Hrest & E2). cbn [fst snd] in *.
  destruct (exec_answers d (kv d) (lock d) F op o Hc) as (kv' & op' & r & v' & F' & E & Hv & Hone & Hc' & Hval' & Hlen' & Hptr');
    [by apply (answerable_len (F0 d))|done|done|].
  rewrite Hptr, <- Hp in E. rewrite E in Hx. cbn [obind] in Hx. injection Hx as <-.
  destruct (in_order_next ps o rest r K2 E2) as (i & l & rs & Hi & Hord & Hfst & Hsnd).
  destruct (Forall2_lookup_r _ _ _ _ _ K1 Hi) as (h & Hhi & Hpend).
  set (sv' := mkService (<[d := fupd (sv_val sv d) (key_word o) v']> (sv_val sv))
                (<[(h, g, d) := Some (l, rs ++ [r])]> (sv_pend sv))).
  assert (Hcode : opcode op = opcode o) by apply Hsame. rewrite (same_request_key _ _ Hsame), Hcode.
  eexists _, _, sv'. split; [reflexivity|]. split.
  { rewrite <- (app_nil_r [_]). eapply service_cons; [|constructor].
    apply (service_serve _ _ h g d o l rs v' r); [done|by rewrite <- Hval|].
    rewrite <- Hone, <- Hval. f_equal. unfold home_addr, value_addr. by rewrite Hptr. }
  assert (Hin : h ∈ hs) by (by eapply list_elem_of_lookup_2).
  split; simpl.
  - intros d'. pose proof (sim_store _ _ Hs d') as H. simpl in H. upd_case. exists F'. split_and!; [done| | |].
    + intros k. rewrite Hval'. unfold fupd. by destruct (k =? key_word o).
    + intros k. by rewrite Hlen'.
    + intros q. by rewrite Hptr'.
  - apply (sim_client _ _ Hs).
  - intros m g' d'. pose proof (sim_lane _ _ Hs m g' d') as H. simpl in H.
    assert (Hsame' : handles_of (<[(d, g) := Executing todo (rs0 ++ [r]) ns hs]> wk (d', g')) = handles_of (wk (d', g'))).
    { upd_case. by rewrite Ew. }
    rewrite Hsame'. upd_case. rewrite Ew in H |- *. simpl in H |- *. rewrite bool_decide_true in H |- * by done.
    inversion H. constructor.
  - intros m g' d' p. upd_case.
    + intros _. destruct (Hh _ Hin) as (? & ? & ?). done.
    + apply (sim_ends _ _ Hs).
  - intros d' g'. pose proof (sim_worker _ _ Hs d' g') as H. simpl in H.
    destruct (decide ((d', g') = (d, g))) as [[= -> ->]|Hne].
    + rewrite fn_lookup_insert. simpl. split; [done|]. exists (<[i := (l, rs ++ [r])]> ps). split_and!.
      * eapply pending_insert; [done|exact K1|done|by rewrite fn_lookup_insert|].
        intros h' Hne. by rewrite fn_lookup_insert_ne by congruence.
      * done.
      * rewrite K3, list_fmap_insert. symmetry. apply list_insert_id. rewrite list_lookup_fmap, Hi. simpl.
        f_equal. rewrite length_app. simpl. lia.
      * by rewrite Hsnd, K4.
      * by rewrite Hfst.
    + rewrite fn_lookup_insert_ne by congruence. split; [apply H|]. eapply worker_ok_ext; [|apply H].
      intros h' _. simpl. rewrite fn_lookup_insert_ne; [done|]. intros [= -> -> ->]. done.
Qed.

Lemma sim_respond st sv d g : sim st sv -> advances st sv (Respond d g).
Proof using Type.
  intros Hs x Hx. pose proof (sim_worker _ _ Hs d g) as [Hnd Hk]. destruct st as [kv lock client req wk resp]. simpl in *.
  destruct (wk (d, g)) as [|[|y todo] rs ns hs] eqn:Ew; try done. injection Hx as <-. simpl in Hnd.
  destruct Hk as (ps & K1 & K2 & -> & <- & K5). apply Forall2_nil_inv_l in K5. destruct (slices_finished ps K5) as [E Hfin].
  rewrite E. eexists _, _, sv. split; [reflexivity|]. split; [constructor|].
  pose proof (Forall2_length _ _ _ K1) as Hl.
  assert (Hfst : fst <$> zip hs (snd <$> ps) = hs) by (apply fst_zip; rewrite length_fmap; lia).
  split; simpl; try apply Hs.
  - intros m g' d'. pose proof (sim_lane _ _ Hs m g' d') as H. simpl in H.
    destruct (decide ((d', g') = (d, g))) as [[= -> ->]|Hne].
    + rewrite fn_lookup_insert, Ew in *. simpl in *.
      destruct (decide (m ∈ hs)) as [Hm|Hm].
      * rewrite bool_decide_true in H by done. inversion H as [| |p E1 E2 E3 E4 E5|].
        apply list_elem_of_lookup in Hm as [i Hi]. destruct (Forall2_lookup_l _ _ _ _ _ K1 Hi) as ([l rs] & Hps & Hpend).
        assert (Hl0 : l = []) by (by apply (proj1 (Forall_lookup _ _) Hfin _ _ Hps)). subst l.
        rewrite (post_lookup (fun src => (src, g, d)) _ _ m rs); [|by intros ? ? [= ->]|by rewrite Hfst|].
        2:{ apply list_elem_of_lookup. exists i. rewrite lookup_zip_with, Hi, list_lookup_fmap, Hps. done. }
        rewrite <- E4, E5, Hpend. constructor.
      * rewrite post_other by (rewrite Hfst; by intros z Hz [= ->]). rewrite bool_decide_false in H by done. done.
    + rewrite fn_lookup_insert_ne by congruence. rewrite post_other by (intros z _ [= -> -> ->]; done). done.
  - intros d' g'. pose proof (sim_worker _ _ Hs d' g') as H. simpl in H. upd_case. split; [constructor|].
    split; [by intros a|]. exists []. split_and!; constructor.
Qed.

Lemma sim_deliver st sv m g d i : sim st sv -> advances st sv (Deliver m g d i).
Proof using Type.
  intros Hs x Hx. pose proof (sim_lane _ _ Hs m g d) as Hl. pose proof (sim_client _ _ Hs m g) as (Ht & Hcb & Hp).
  destruct st as [kv lock client req wk resp]. simpl in *.
  destruct (resp (m, g, d) !! i) as [rs|] eqn:Er; [|done]. destruct (client (m, g)) as [c prev] eqn:Ec. simpl in *.
  injection Hx as <-. inversion Hl as [E0 E1 E2 E3|l Hb E0 E1 E2 E3|p E0 E1 E2 E3|rs' E0 E1 E2 E3 E4];
    rewrite <- E3 in Er; try done. destruct i; [|done]. injection Er as ->.
  symmetry in E4. destruct (sim_ends _ _ Hs _ _ _ _ E4) as (Hm & Hd & Hne).
  eexists _, _, (mkService (sv_val sv) (<[(m, g, d) := None]> (sv_pend sv))). split; [reflexivity|]. split.
  { rewrite <- (app_nil_r [_]). eapply service_cons; [by apply service_reply|constructor]. }
  split; simpl.
  - apply (sim_store _ _ Hs).
  - intros m' g'. pose proof (sim_client _ _ Hs m' g') as H. simpl in H. upd_case. split_and!.
    + apply (respond_ok c); [done|]. by apply respond_data.
    + done.
    + destruct Hp as [?|Hp]; [by left|right]. intros rm. unfold fupd. by destruct (rm =? d).
  - intros m' g' d'. pose proof (sim_lane _ _ Hs m' g' d') as H. simpl in H.
    destruct (decide ((m', g', d') = (m, g, d))) as [[= -> -> ->]|Hx].
    + rewrite !fn_lookup_insert, <- E1, <- E2. simpl. rewrite fupd_eq. constructor.
    + rewrite !(fn_lookup_insert_ne _ (m, g, d)) by congruence. upd_case. rewrite Ec in H. simpl in H.
      rewrite fupd_ne by (intros ->; done). done.
  - intros m' g' d' p. upd_case. apply (sim_ends _ _ Hs).
  - intros d' g'. destruct (sim_worker _ _ Hs d' g') as [H1 H2]. simpl in H1, H2. split; [done|].
    eapply worker_ok_ext; [|exact H2]. intros h Hh. simpl. rewrite fn_lookup_insert_ne; [done|].
    intros [= -> -> ->]. symmetry in E2. by apply bool_decide_eq_false in E2.
Qed.

Lemma cold_sim_step st sv a : sim st sv -> action_ok a -> advances st sv a.
Proof using Type.
  intros Hs Ha. destruct a.
  - by apply sim_send.
  - by apply sim_poll.
  - by apply sim_receive.
  - by apply sim_drain.
  - by apply sim_exec.
  - by apply sim_respond.
  - by apply sim_deliver.
Qed.

Lemma service_runs_app addr sv es sv1 es' sv2 :
  service_runs addr sv es sv1 -> service_runs addr sv1 es' sv2 -> service_runs addr sv (es ++ es') sv2.
Proof using Type.
  induction 1 as [|sv e sv1' es sv2' H _ IH]; intros H2; [done|]. rewrite <- app_assoc. eapply service_cons; [done|by apply IH].
Qed.

Lemma sim_runs st sv es st' :
  sim st sv -> cold_runs st es st' -> exists sv', service_runs home_addr sv es sv' /\ sim st' sv'.
Proof using Type.
  intros Hs Hr. revert sv Hs. induction Hr as [st|st a e st1 es st2 Ha E _ IH]; intros sv Hs.
  { exists sv. split; [constructor|done]. }
  destruct (cold_sim_step st sv a Hs Ha _ E) as (e' & st' & sv1 & [= <- <-] & H1 & Hs1).
  destruct (IH sv1 Hs1) as (sv' & H2 & Hs2). exists sv'. split; [by eapply service_runs_app|done].
Qed.

(** *** Every packet can be answered *)
Definition no_submit (es : list event) : Prop := forall s l, Submit s l ∉ es.

(** A run without new requests in which the clients do not take part. *)
Definition working (st : cold_state) (es : list event) (st' : cold_state) : Prop :=
  cold_runs st es st' /\ no_submit es /\ cs_client st' = cs_client st.

Lemma cold_runs_app st es st1 es' st2 :
  cold_runs st es st1 -> cold_runs st1 es' st2 -> cold_runs st (es ++ es') st2.
Proof using Type.
  induction 1 as [|st a e st1' es st2' Ha E _ IH]; intros H2; [done|].
  rewrite <- app_assoc. eapply cold_cons; [done|done|by apply IH].
Qed.

Lemma working_trans st es st1 es' st2 : working st es st1 -> working st1 es' st2 -> working st (es ++ es') st2.
Proof using Type.
  intros (H1 & H2 & H3) (H4 & H5 & H6). split_and!; [by eapply cold_runs_app| |congruence].
  intros s l [?|?]%elem_of_app; [by eapply H2|by eapply H5].
Qed.

Lemma working_refl st : working st [] st.
Proof using Type. split_and!; [constructor| |done]. by intros s l ?%elem_of_nil. Qed.

(** One action of a worker. *)
Definition by_worker (a : cold_action) : Prop :=
  match a with Send _ _ _ | Deliver _ _ _ _ => False | _ => True end.

Lemma worker_frame st a e st' :
  by_worker a -> cold_step a st = Some (Done (e, st')) -> no_submit e /\ cs_client st' = cs_client st.
Proof using Type.
  assert (Hnil : no_submit []) by (by intros s l ?%elem_of_nil).
  destruct st as [kv lock client req wk resp]. destruct a; try done; intros _ E; simpl in E.
  - destruct (wk (d, g)) as [? [[] []] []|]; try done. by injection E as <- <-.
  - destruct (wk (d, g)); [|done]. destruct (req _ !! i); [|done]. destruct (bool_decide _); [|done].
    injection E as E. apply obind_Done_inv in E as (w' & _ & E). by injection E as <- <-.
  - destruct (wk (d, g)) as [? ? []|]; try done. by injection E as <- <-.
  - destruct (wk (d, g)) as [|[|[]]]; try done. injection E as E. apply obind_Done_inv in E as ([[[? ?] ?] ?] & _ & E).
    injection E as <- <-. split; [|done]. by intros s l0 ?%list_elem_of_singleton.
  - destruct (wk (d, g)) as [|[|]]; try done. by injection E as <- <-.
Qed.

Lemma working_one st sv a o :
  sim st sv -> action_ok a -> by_worker a -> cold_step a st = Some o ->
  exists e st' sv', o = Done (e, st') /\ working st e st' /\ sim st' sv'.
Proof using Type.
  intros Hs Ha Hk E. destruct (cold_sim_step st sv a Hs Ha o E) as (e & st' & sv' & -> & _ & Hs').
  destruct (worker_frame st a e st' Hk E) as [H1 H2].
  exists e, st', sv'. split; [done|]. split; [|done]. split_and!; [|done|done].
  rewrite <- (app_nil_r e). eapply cold_cons; [done|exact E|constructor].
Qed.

(** A worker in [drain_batch] gets to its end. *)
Lemma exec_all todo : forall st sv d g rs ns hs,
  sim st sv -> cs_worker st (d, g) = Executing todo rs ns hs ->
  exists es st' sv' rs', working st es st' /\ sim st' sv' /\
    cs_req st' = cs_req st /\ cs_worker st' (d, g) = Executing [] rs' ns hs.
Proof using Type.
  induction todo as [|[op ptr] todo IH]; intros st sv d g rs ns hs Hs Ew.
  { exists [], st, sv, rs. split_and!; [apply working_refl|done..]. }
  destruct (cold_step (Exec d g) st) as [o|] eqn:E.
  2:{ destruct st. simpl in *. by rewrite Ew in E. }
  destruct (working_one st sv (Exec d g) o Hs ltac:(done) ltac:(done) E) as (e & st1 & sv1 & -> & Hw & Hs1).
  assert (H1 : cs_req st1 = cs_req st /\ exists rs1, cs_worker st1 (d, g) = Executing todo rs1 ns hs).
  { destruct st as [kv lock client req wk resp]. simpl in *. rewrite Ew in E. injection E as E.
    apply obind_Done_inv in E as ([[[? ?] ?] r] & _ & E). injection E as _ <-. simpl. split; [done|].
    rewrite fn_lookup_insert. by eexists. }
  destruct H1 as (Hq & rs1 & Ew1). destruct (IH st1 sv1 d g rs1 ns hs Hs1 Ew1) as (es & st' & sv' & rs' & H1 & H2 & H3 & H4).
  exists (e ++ es), st', sv', rs'. split_and!; [by eapply working_trans|done|congruence|done].
Qed.

(** A worker returns to the top of its loop. *)
Lemma worker_returns st sv d g :
  sim st sv -> exists es st' sv' m, working st es st' /\ sim st' sv' /\ cs_req st' = cs_req st /\
    cs_worker st' (d, g) = Collecting m empty_worker [].
Proof using Type.
  assert (Hexec : forall todo st sv rs ns hs, sim st sv -> cs_worker st (d, g) = Executing todo rs ns hs ->
    exists es st' sv' m, working st es st' /\ sim st' sv' /\ cs_req st' = cs_req st /\
      cs_worker st' (d, g) = Collecting m empty_worker []).
  { clear st sv. intros todo st sv rs ns hs Hs Ew.
    destruct (exec_all todo st sv d g rs ns hs Hs Ew) as (es & st1 & sv1 & rs1 & Hw & Hs1 & Hq & Ew1).
    destruct (cold_step (Respond d g) st1) as [o|] eqn:E; [|destruct st1; simpl in *; by rewrite Ew1 in E].
    destruct (working_one st1 sv1 (Respond d g) o Hs1 ltac:(done) ltac:(done) E) as (e & st2 & sv2 & -> & Hw2 & Hs2).
    exists (es ++ e), st2, sv2, (fun _ => 0). split; [by eapply working_trans|]. split; [done|].
    rewrite <- Hq. destruct st1 as [kv lock client req wk resp]. simpl in *. rewrite Ew1 in E. injection E as _ <-.
    simpl. by rewrite fn_lookup_insert. }
  intros Hs. destruct (cs_worker st (d, g)) as [m w [|h hs]|todo rs ns hs] eqn:Ew; [| |by eapply Hexec].
  - destruct (sim_worker _ _ Hs d g) as [_ Hk]. rewrite Ew in Hk. destruct Hk as (_ & ls & K1 & _ & K3 & K4).
    apply Forall2_nil_inv_l in K1. subst ls. apply Forall2_nil_inv_r in K4.
    exists [], st, sv, m. split_and!; [apply working_refl|done|done|]. destruct w. simpl in *. by subst.
  - destruct (cold_step (Drain d g) st) as [o|] eqn:E; [|destruct st; simpl in *; by rewrite Ew in E].
    destruct (working_one st sv (Drain d g) o Hs ltac:(done) ltac:(done) E) as (e & st1 & sv1 & -> & Hw & Hs1).
    assert (H1 : cs_req st1 = cs_req st /\ exists todo, cs_worker st1 (d, g) = Executing todo [] (ops_in_req w) (h :: hs)).
    { destruct st as [kv lock client req wk resp]. simpl in *. rewrite Ew in E. injection E as _ <-. simpl.
      split; [done|]. rewrite fn_lookup_insert. by eexists. }
    destruct H1 as (Hq & todo & Ew1). destruct (Hexec todo st1 sv1 [] _ _ Hs1 Ew1) as (es & st' & sv' & m' & A1 & A2 & A3 & A4).
    exists (e ++ es), st', sv', m'. split_and!; [by eapply working_trans|done|congruence|done].
Qed.

(** After that, what it held is answered. *)
Lemma held_answered st sv m g d :
  sim st sv -> m ∈ handles_of (cs_worker st (d, g)) ->
  exists es st' sv' rs, working st es st' /\ sim st' sv' /\ cs_resp st' (m, g, d) = [rs].
Proof using Type.
  intros Hs Hm. pose proof (sim_lane _ _ Hs m g d) as Hl. rewrite bool_decide_true in Hl by done.
  inversion Hl as [| |p E1 E2 E3 E4 E5|].
  destruct (worker_returns st sv d g Hs) as (es & st' & sv' & mm & Hw & Hs' & Hq & Ew).
  pose proof (sim_lane _ _ Hs' m g d) as Hl'. rewrite Ew, Hq, <- E2 in Hl'. destruct Hw as (Hw1 & Hw2 & Hw3).
  rewrite Hw3, <- E1 in Hl'. simpl in Hl'. inversion Hl' as [| | |rs A1 A2 A3 A4].
  by exists es, st', sv', rs.
Qed.

Lemma packet_bytes l : Forall is_request l -> Forall is_u8 (packet_of l).
Proof using Type.
  induction 1 as [|o l [Hf _] _ IH]; [constructor|]. unfold packet_of. rewrite fmap_cons. cbn [concat].
  apply Forall_app_2; [by apply request_bytes_u8|exact IH].
Qed.

(** A packet under way reaches its worker. *)
Lemma sent_held st sv m g d l :
  sim st sv -> cs_req st (m, g, d) = [packet_of l] -> Forall is_request l ->
  exists es st' sv', working st es st' /\ sim st' sv' /\ m ∈ handles_of (cs_worker st' (d, g)).
Proof using Type.
  intros Hs Hq Hl. destruct (worker_returns st sv d g Hs) as (es & st1 & sv1 & m0 & Hw & Hs1 & Hq1 & Ew).
  set (b := store_bytes (fun _ => 0) 0 (packet_of l)).
  assert (Hb : load_bytes b 0 (length (packet_of l)) = packet_of l).
  { unfold b. pose proof (load_store_sub (fun _ => 0) 0 (packet_of l) 0 (length (packet_of l))) as H.
    change (0 + 0) with 0 in H. rewrite H by lia. simpl. by rewrite firstn_all. }
  destruct (cold_step (Poll d g b) st1) as [o|] eqn:E; [|destruct st1; simpl in *; by rewrite Ew in E].
  destruct (working_one st1 sv1 (Poll d g b) o Hs1) as (e & st2 & sv2 & -> & Hw2 & Hs2); [|done|done|].
  { intros x. apply store_bytes_bytes; [by intros a|by apply packet_bytes]. }
  assert (H2 : cs_req st2 (m, g, d) = [packet_of l] /\ cs_worker st2 (d, g) = Collecting b empty_worker []).
  { rewrite <- Hq, <- Hq1. destruct st1. simpl in *. rewrite Ew in E. injection E as _ <-. simpl. by rewrite fn_lookup_insert. }
  destruct H2 as [Hq2 Ew2].
  destruct (cold_step (Receive d g m 0 0) st2) as [o|] eqn:E2.
  2:{ destruct st2. simpl in *. rewrite Ew2, Hq2 in E2. simpl in E2. by rewrite bool_decide_true in E2. }
  destruct (working_one st2 sv2 (Receive d g m 0 0) o Hs2 ltac:(done) ltac:(done) E2) as (e2 & st3 & sv3 & -> & Hw3 & Hs3).
  exists (es ++ e ++ e2), st3, sv3. split; [eauto using working_trans|]. split; [done|].
  destruct st2. simpl in *. rewrite Ew2, Hq2 in E2. simpl in E2. rewrite bool_decide_true in E2 by done. injection E2 as E2.
  apply obind_Done_inv in E2 as (w' & _ & E2). injection E2 as _ <-. simpl. rewrite fn_lookup_insert. simpl. left.
Qed.

(** A client with a packet out can get its answer. *)
Lemma packet_answered st sv m g d :
  sim st sv -> bufferused (cs_client st (m, g)).1 d = 1 ->
  exists es st' sv' rs, cold_runs st es st' /\ no_submit es /\ sim st' sv' /\ Reply (m, g, d) rs ∈ es /\
    (cs_client st' (m, g)).1 = receive_response d (cs_client st (m, g)).1.
Proof using Type.
  intros Hs Hb. assert (Hans : exists es st1 sv1 rs, working st es st1 /\ sim st1 sv1 /\ cs_resp st1 (m, g, d) = [rs]).
  { pose proof (sim_lane _ _ Hs m g d) as Hl. rewrite Hb in Hl.
    inversion Hl as [|l (Hr & _) E1 E2 E3|p E1 E2 E3|rs E1 E2 E3 E4].
    - destruct (sent_held st sv m g d l Hs (eq_sym E2) Hr) as (es & st1 & sv1 & Hw & Hs1 & Hh).
      destruct (held_answered st1 sv1 m g d Hs1 Hh) as (es2 & st2 & sv2 & rs & Hw2 & Hs2 & Hr2).
      exists (es ++ es2), st2, sv2, rs. split_and!; [by eapply working_trans|done|done].
    - apply held_answered with sv; [done|]. symmetry in E3. by apply bool_decide_eq_true in E3.
    - exists [], st, sv, rs. split_and!; [apply working_refl|done|done]. }
  destruct Hans as (es & st1 & sv1 & rs & (H1 & H2 & H3) & Hs1 & Hr).
  destruct (cold_step (Deliver m g d 0) st1) as [o|] eqn:E.
  2:{ destruct st1. simpl in *. rewrite Hr in E. simpl in E. by destruct (cs_client0 (m, g)). }
  destruct (cold_sim_step st1 sv1 (Deliver m g d 0) Hs1 ltac:(done) o E) as (e & st2 & sv2 & -> & _ & Hs2).
  assert (HE : e = [Reply (m, g, d) rs] /\ (cs_client st2 (m, g)).1 = receive_response d (cs_client st1 (m, g)).1).
  { destruct st1. simpl in *. rewrite Hr in E. simpl in E. destruct (cs_client0 (m, g)) as [c prev] eqn:Ec.
    injection E as <- <-. simpl. by rewrite fn_lookup_insert. }
  destruct HE as [-> Hc]. exists (es ++ [Reply (m, g, d) rs]), st2, sv2, rs. split_and!.
  - eapply cold_runs_app; [done|]. rewrite <- (app_nil_r [_]). eapply cold_cons; [|exact E|constructor]. done.
  - intros s l [?|?%list_elem_of_singleton]%elem_of_app; [by eapply H2|done].
  - done.
  - apply elem_of_app. right. by apply list_elem_of_singleton.
  - by rewrite Hc, H3.
Qed.

(** The client's wait can end, with an answer from every machine asked. *)
Lemma wait_answered n : forall st sv m g,
  sim st sv -> reqs_in_transit (cs_client st (m, g)).1 = Z.of_nat n ->
  exists es st', cold_runs st es st' /\ no_submit es /\ reqs_in_transit (cs_client st' (m, g)).1 = 0 /\
    forall d, bufferused (cs_client st (m, g)).1 d = 1 -> exists rs, Reply (m, g, d) rs ∈ es.
Proof using Type.
  induction n as [|n IH]; intros st sv m g Hs Hn; destruct (sim_client _ _ Hs m g) as (Ht & Hcb & _).
  - exists [], st. split_and!; [constructor|by intros s l ?%elem_of_nil|done|]. intros d Hd. exfalso.
    destruct (lane_busy _ _ _ _ _ _ (sim_lane _ _ Hs m g d)) as [p Hp]; [lia|].
    destruct (sim_ends _ _ Hs _ _ _ _ Hp) as (_ & Hdm & _).
    destruct (idle_free _ Ht ltac:(lia) d Hdm). lia.
  - destruct (busy_responds _ Ht ltac:(lia)) as [c' [rm Hrm Hu|rm Hrm Hu]]; [rewrite Hcb in Hu; done|].
    destruct (packet_answered st sv m g rm Hs Hu) as (es & st1 & sv1 & rs & H1 & H2 & Hs1 & H3 & H4).
    destruct (IH st1 sv1 m g Hs1) as (es2 & st2 & A1 & A2 & A3 & A4); [rewrite H4; simpl; lia|].
    exists (es ++ es2), st2. split_and!; [by eapply cold_runs_app| |done|].
    + intros s l [?|?]%elem_of_app; [by eapply H2|by eapply A2].
    + intros d Hd. destruct (decide (d = rm)) as [-> |Hne].
      * exists rs. apply elem_of_app. by left.
      * destruct (A4 d) as [rs' Hr']; [rewrite H4; simpl; by rewrite fupd_ne|].
        exists rs'. apply elem_of_app. by right.
Qed.

Lemma sim_bounds st sv d g m w hs :
  sim st sv -> cs_worker st (d, g) = Collecting m w hs ->
  length (ops_in_req w) = length hs /\ Z.of_nat (length hs) <= MACHINE_NUM - 1 /\
  Z.of_nat (length (op_ptr_arr w)) <= KVS_BATCH * (MACHINE_NUM - 1).
Proof using Type.
  intros Hs Ew. pose proof (sim_handles st sv d g Hs) as Hh. destruct (sim_worker _ _ Hs d g) as [Hnd Hk].
  rewrite Ew in *. simpl in *. destruct Hk as (_ & ls & K1 & K2 & -> & K4).
  apply Forall2_length in K1, K4. rewrite length_fmap, K4. pose proof (batch_total d ls K2) as Ht.
  assert (Hb : Z.of_nat (length hs) <= MACHINE_NUM - 1).
  { destruct hs as [|h hs]; [done|]. apply (handles_bound d); [done|apply (Hh h); left|].
    intros x Hx. by destruct (Hh x Hx) as (? & ? & _). }
  split_and!; [done|done|]. change (MACHINE_NUM - 1) with 3 in *. change KVS_BATCH with 100 in *. lia.
Qed.
End path.

(** ** Where the work comes from *)
Lemma set_clt_gid_request gid F op :
  is_u32 gid -> is_request op -> answerable F op ->
  is_request (set_clt_gid gid op) /\ answerable F (set_clt_gid gid op).
Proof.
  intros Hg [Hf Ho] Ha.
  assert (Hf' : op_fits (set_clt_gid gid op)) by (destruct Hf as [[] ? ? ? ? ? ? ?]; split; done).
  split; [by split|]. destruct Ha as [(_ & Hc & e & HF & [_ Hl He])|(_ & Hc & HF)]; [left|by right]. split; [done|]. split; [done|]. exists e. split; [done|]. split; [done|exact Hl|].
  intros H. exfalso. simpl in H. destruct Ho as [E|E]; rewrite E in H; destruct H as [H|[H|H]]; discriminate H.
Qed.

(** A pass of [handle_cold_requests] over requests that their home machines can
    answer leaves such work in the queues. *)
Lemma pass_queued protocol gid F rm op_i l fs d st st' pre :
  is_u32 gid -> pass_rel protocol gid op_i l fs d st st' -> length pre = op_i ->
  Forall (fun s => is_miss s = true -> is_request (s_op s) /\ answerable (F (kh_machine (s_home s))) (s_op s)) l ->
  let ops := pre ++ (s_op <$> d) in let q := sent_to rm op_i fs l in
  Forall2 (queued ops) q (omap (fun x => ops !! x.1) q) /\ Forall (answerable (F rm)) (omap (fun x => ops !! x.1) q).
Proof.
  intros Hg H. revert pre. induction H as [|op_i s l f fs s' l' st st1 st2 Hf _ _ IH]; intros pre Hp Hl.
  { split; constructor. }
  apply Forall_cons in Hl as [Hs Hl]. specialize (IH (pre ++ [s_op s'])). rewrite <- app_assoc in IH.
  destruct (IH ltac:(rewrite length_app; simpl; lia) Hl) as [H1 H2]. clear IH.
  destruct f as [| |x]; [exact (conj H1 H2)..|]. cbn [sent_to]. destruct (Z.eqb_spec x rm) as [-> |]; [|exact (conj H1 H2)].
  destruct Hf as (Hm & -> & _ & E & _). destruct (Hs Hm) as [Hr Hsv].
  destruct (set_clt_gid_request gid _ _ Hg Hr Hsv) as [Hr' Hsv']. rewrite <- E in Hr', Hsv'.
  assert (Hi : (pre ++ (s_op <$> s' :: l')) !! op_i = Some (s_op s')) by (rewrite fmap_cons, list_lookup_middle; done).
  cbn [omap list_omap fst]. rewrite Hi. split; constructor; try done. split_and!; [done| |done].
  simpl. by rewrite E.
Qed.

Lemma pass_work_for protocol mid lid gid F l st l' st' :
  is_u32 gid -> Forall (slot_ok protocol mid lid) l ->
  (forall rm, batch (ctx st) rm = []) -> (forall w, outstanding st w = 0) ->
  Forall (fun s => is_miss s = true -> is_request (s_op s) /\ answerable (F (kh_machine (s_home s))) (s_op s)) l ->
  handle_cold_requests protocol mid lid gid l st = Done (l', st') ->
  work_for F mid (mkWork (s_op <$> l') (cbatch (ctx st')) (batch (ctx st'))).
Proof.
  intros Hg Hl Hb Ho Hs E rm [Hrm Hne]%elem_of_others.
  destruct (cold_pass_ok protocol mid lid gid l st Hl Hb Ho) as (fs & d & st1 & E1 & Hp & Hcap).
  rewrite E in E1. injection E1 as <- <-. unfold queue_of. cbn [w_ops w_cold].
  destruct (pass_queued protocol gid F rm 0 l fs l' st st' [] Hg Hp eq_refl Hs) as [H1 H2].
  specialize (Hcap rm Hrm). rewrite (pass_sent _ _ _ _ _ _ _ _ rm Hp), Hb in *. cbn [app] in *.
  split; [exact H1|]. split_and!; [|by rewrite <- (Forall2_length _ _ _ H1)|exact H2].
  by destruct (data_packet_queued _ _ _ H1).
Qed.

(** ** The worker's loop without interference *)
Section alone.
Context (F0 : Z -> Z -> option entry) (d g : Z).

Lemma exec_alone l : forall st rs ns hs kv' lk' res,
  cs_worker st (d, g) = Executing l rs ns hs ->
  crcw_exec d (cs_kv st d) (cs_lock st d) l = Done (kv', lk', res) ->
  exists es st', cold_runs F0 st es st' /\ cs_worker st' (d, g) = Executing [] (rs ++ (snd <$> res)) ns hs /\
    cs_kv st' d = kv' /\ cs_lock st' d = lk' /\ cs_resp st' = cs_resp st.
Proof using Type.
  induction l as [|[op ptr] l IH]; intros st rs ns hs kv' lk' res Ew E; cbn [crcw_exec] in E.
  { injection E as <- <- <-. exists [], st. rewrite app_nil_r. split_and!; [constructor|done..]. }
  apply obind_Done_inv in E as ([[[kv1 lk1] op1] r] & E1 & E). apply obind_Done_inv in E as ([[kv2 lk2] rest] & E2 & E).
  injection E as <- <- <-. destruct st as [kv lock client req wk resp]. simpl in *.
  destruct (IH (mkCold (<[d := kv1]> kv) (<[d := lk1]> lock) client req (<[(d, g) := Executing l (rs ++ [r]) ns hs]> wk) resp)
              (rs ++ [r]) ns hs kv2 lk2 rest) as (es & st' & H1 & H2 & H3); [simpl; apply fn_lookup_insert|simpl; by rewrite !fn_lookup_insert|].
  eexists _, st'. split; [|split; [|exact H3]].
  - eapply (cold_cons _ _ (Exec d g)); [done| |exact H1]. simpl. rewrite Ew, E1. reflexivity.
  - rewrite H2. by rewrite <- app_assoc.
Qed.

(** What the system does when the worker is not interrupted is [drain_batch]. *)
Lemma drain_batch_runs st m w h hs kv' lk' answers :
  cs_worker st (d, g) = Collecting m w (h :: hs) ->
  drain_batch d (cs_kv st d) (cs_lock st d) m w = Done (kv', lk', answers) ->
  exists es st', cold_runs F0 st es st' /\ cs_kv st' d = kv' /\ cs_lock st' d = lk' /\
    cs_worker st' (d, g) = Collecting (fun _ => 0) empty_worker [] /\
    cs_resp st' = post (fun src => (src, g, d)) (zip (h :: hs) answers) (cs_resp st).
Proof using Type.
  intros Ew E. unfold drain_batch, mica_batch_op_crcw in E. apply obind_Done_inv in E as ([[kv1 lk1] res] & E1 & E).
  injection E as <- <- <-. destruct st as [kv lock client req wk resp]. simpl in Ew, E1.
  set (l := (fun op => (op, kv_ptr (kv d) op)) <$> (load_op m <$> op_ptr_arr w)) in *.
  destruct (exec_alone l (mkCold kv lock client req (<[(d, g) := Executing l [] (ops_in_req w) (h :: hs)]> wk) resp)
              [] (ops_in_req w) (h :: hs) kv1 lk1 res) as (es & st1 & H1 & H2 & H3 & H4 & H5);
    [simpl; apply fn_lookup_insert|done|]. simpl in H5.
  destruct st1 as [kv2 lock2 client2 req2 wk2 resp2]. simpl in H2, H3, H4, H5. subst resp2.
  eexists _, (mkCold kv2 lock2 client2 req2 (<[(d, g) := Collecting (fun _ => 0) empty_worker []]> wk2)
    (post (fun src => (src, g, d)) (zip (h :: hs) (slices (ops_in_req w) (snd <$> res))) resp)). split.
  - eapply (cold_cons _ _ (Drain d g)); [done|simpl; rewrite Ew; reflexivity|]. eapply cold_runs_app; [exact H1|].
    eapply (cold_cons _ _ (Respond d g)); [done|simpl; rewrite H2; reflexivity|constructor].
  - simpl. by rewrite fn_lookup_insert.
Qed.
End alone.

(** ** Insertions *)

(** The operation [mica_insert_one_crcw] writes into the log. *)
Definition inserted (op : cache_op) : cache_op :=
  set_meta (set_state VALID_STATE (set_pending_acks 0 (optik_init (meta op)))) op.

Lemma inserted_fits op : op_fits op -> op_fits (inserted op).
Proof.
  intros [Hm ? ? ? ? ? ? ?]. split; try done.
Qed.

(** The insertion on a miss: [mica_insert_one] under the global lock. *)
Lemma mica_insert_one_crcw_eq kv lk op :
  meta_ok lk -> val_len op = HERD_VALUE_SIZE ->
  mica_insert_one_crcw kv lk op = (let* kv := mica_insert_one kv (inserted op) in Done (kv, lk, inserted op)).
Proof.
  intros Hl Hv. unfold mica_insert_one_crcw. fold (inserted op). rewrite optik_lock_ok by done. cbn [obind].
  change (val_len (inserted op)) with (val_len op). rewrite Hv.
  change (sizeof_mica_key + 1 + 1 + HERD_VALUE_SIZE) with len_to_copy. fold (mica_insert_one kv (inserted op)).
  destruct (mica_insert_one kv (inserted op)); try done. cbn [obind]. by rewrite optik_unlock_decrement_locked.
Qed.

(** C6: the cold path is an atomic key-value service for GETs of any keys and
    PUTs of keys the home store holds.  Whatever the order in which clients send, packets travel and the workers of all machines collect,
    execute and answer, the sequence of requests sent, requests executed (with
    the value a GET points to) and answers received is one of the service: the
    requests of a packet are executed one after the other, in order, each at one
    moment, on a map from keys to values, and the packet is answered with
    exactly their responses (a GET of an absent key with "not found"); and at
    any time every store holds the values of that map.  The PUTs in a run are
    those the stores hold the keys of, with values of the stored length
    ([work_for]): for other keys it is not true ([cold_insert_not_seen]). *)
Theorem cold_refines kv0 lock0 F0 es st :
  (forall d, coupled entry_wf (kv0 d) (F0 d)) -> cold_runs F0 (cold_start kv0 lock0) es st ->
  exists sv, service_runs (home_addr kv0) (service_start F0) es sv /\
    forall d op, op_fits op -> e_value <$> cache_view (cs_kv st d) (key_word op) = sv_val sv d (key_word op).
Proof.
  intros Hc Hr. destruct (sim_runs kv0 F0 _ _ _ _ (sim_start kv0 F0 lock0 Hc) Hr) as (sv & H1 & H2).
  exists sv. split; [done|]. intros d op Hf. destruct (sim_store _ _ _ _ H2 d) as (F & Hcp & Hv & _).
  by rewrite (cp_view _ _ _ Hcp op Hf), Hv.
Qed.


(** C8: every cold request can be answered.  From any reachable state and for any
    client the other threads can go on, without new requests being sent, so
    that the client gets an answer from every machine it asked and nothing of it
    is in transit any more: its wait ends.  GETs are of any keys, PUTs of keys
    the home store holds. *)
Theorem cold_answered kv0 lock0 F0 es st m g :
  (forall d, coupled entry_wf (kv0 d) (F0 d)) -> cold_runs F0 (cold_start kv0 lock0) es st ->
  exists es' st', cold_runs F0 st es' st' /\ no_submit es' /\
    reqs_in_transit (cs_client st' (m, g)).1 = 0 /\
    forall d, bufferused (cs_client st (m, g)).1 d = 1 -> exists rs, Reply (m, g, d) rs ∈ es'.
Proof.
  intros Hc Hr. destruct (sim_runs kv0 F0 _ _ _ _ (sim_start kv0 F0 lock0 Hc) Hr) as (sv & _ & Hs).
  apply (wait_answered kv0 F0 (Z.to_nat (reqs_in_transit (cs_client st (m, g)).1)) st sv m g Hs).
  destruct (sim_client _ _ _ _ Hs m g) as ([T1 T2 T3] & _). rewrite Z2Nat.id; [done|].
  rewrite T3, in_use_eq. pose proof (T1 0); pose proof (T1 1); pose proof (T1 2); pose proof (T1 3).
  pose proof (T2 0); pose proof (T2 1); pose proof (T2 2); pose proof (T2 3). lia.
Qed.

(** C36: an insertion is not seen by the rest of its batch.  All lookups of
    [mica_batch_op_crcw] precede the first execution, so a worker that executes
    a PUT of an absent key and then a GET of the same key, in one batch, accepts
    the PUT and answers the GET with "not found"; the same GET in the next batch
    finds the bytes of the PUT. *)
Theorem cold_insert_not_seen mid A kv lk put get :
  store_ok A kv -> meta_ok lk -> op_fits put -> log_head kv + 58 < 2 ^ 40 -> insert_within kv ->
  opcode put = MICA_OP_PUT -> val_len put = HERD_VALUE_SIZE -> kv_ptr kv put = None ->
  opcode get = MICA_OP_GET -> bkt get = bkt put -> server get = server put -> tag get = tag put ->
  exists kv' kv2 p,
    mica_batch_op_crcw mid kv lk [put; get]
      = Done (kv', lk, [(inserted put, mkResp MICA_RESP_PUT_SUCCESS 0 None); (get, mkResp MICA_RESP_GET_FAIL 0 None)]) /\
    mica_batch_op_crcw mid kv' lk [get] = Done (kv2, lk, [(get, mkResp MICA_RESP_GET_SUCCESS HERD_VALUE_SIZE (Some p))]) /\
    load_bytes (ht_log kv') p (Z.to_nat HERD_VALUE_SIZE) = take (Z.to_nat HERD_VALUE_SIZE) (value put).
Proof.
  intros Hok Hl Hf Hroom _ Hput Hv Hp Hget Eb Es Et.
  assert (Hi : op_fits (inserted put)) by by apply inserted_fits.
  assert (Hvi : val_len (inserted put) <= HERD_VALUE_SIZE) by (change (val_len put <= HERD_VALUE_SIZE); lia).
  destruct (mica_insert_one_eq kv (inserted put) (so_geometry _ _ Hok) Hroom) as (kv' & Ei & _).
  pose proof (insert_found A kv kv' (inserted put) Hok Hi Hvi Hroom Ei) as Hp'.
  destruct (insert_fields A kv kv' (inserted put) Hok Hroom Ei) as (_ & El & _).
  destruct (stored_entry (ht_log kv) (log_head kv mod log_cap kv) (inserted put) Hi Hvi) as (E1 & E2 & E3).
  destruct (load_stored_header (ht_log kv) (log_head kv mod log_cap kv) (inserted put) 32 Hi) as (Em & _);
    [change max_value_len with 46%nat; lia|]. change (18 + 32)%nat with 50%nat in Em.
  rewrite <- El in E1, E2, E3, Em. change (val_len (inserted put)) with (val_len put) in *. rewrite Hv in E2, E3.
  assert (Hq : forall x, kv_ptr x get = kv_ptr x (inserted put)) by (intros x; unfold kv_ptr; by rewrite Eb, Et).
  exists kv'. eexists _, _. split_and!.
  - unfold mica_batch_op_crcw. cbn [fmap list_fmap crcw_exec]. rewrite Hq.
    change (kv_ptr kv (inserted put)) with (kv_ptr kv put). rewrite Hp. unfold crcw_exec_one.
    rewrite Hput, Hget. change (MICA_OP_PUT =? MICA_OP_GET) with false. cbv iota.
    rewrite mica_insert_one_crcw_eq, Ei by done. reflexivity.
  - unfold mica_batch_op_crcw. cbn [fmap list_fmap crcw_exec]. rewrite Hq, Hp'. unfold crcw_exec_one, crcw_hit.
    replace (key_word get) with (key_word (inserted put)) by (unfold key_word, encode_key_word; by rewrite Eb, Es, Et).
    unfold entry_key in E1. rewrite E1, Z.eqb_refl, Hget.
    change (MICA_OP_GET =? MICA_OP_GET) with true. cbv iota. unfold load_entry. cbn [e_meta e_val_len].
    cbn [meta load_op] in Em. rewrite Em, E2. reflexivity.
  - unfold entry_val in E3. rewrite E2 in E3. exact E3.
Qed.

(** ** A run: client 5 of machine 0 asks machine 2 to read and to write a key. *)
Fixpoint run_cold (l : list cold_action) (st : cold_state) : option (list event * cold_state) :=
  match l with
  | [] => Some ([], st)
  | a :: l =>
      match cold_step a st with
      | Some (Done (e, st1)) =>
          match run_cold l st1 with Some (es, st2) => Some (e ++ es, st2) | None => None end
      | _ => None
      end
  end.

Lemma run_cold_runs F0 l st es st' :
  Forall (action_ok F0) l -> run_cold l st = Some (es, st') -> cold_runs F0 st es st'.
Proof.
  intros Hl. revert st es. induction Hl as [|a l Ha _ IH]; intros st es E; simpl in E.
  { injection E as <- <-. constructor. }
  destruct (cold_step a st) as [[[e st1]| |]|] eqn:Ea; try done.
  destruct (run_cold l st1) as [[es1 st2]|] eqn:Er; [|done]. injection E as <- <-.
  eapply cold_cons; [done|exact Ea|by apply IH].
Qed.

Definition demo_work : work :=
  mkWork [demo_cget; demo_cput] [] (fun rm => if rm =? 2 then [(0%nat, 17); (1%nat, 50)] else []).

Definition demo_asked : list cold_action :=
  [Send 0 5 demo_work; Poll 2 5 demo_packet_mem; Receive 2 5 0 0 0].
Definition demo_actions : list cold_action :=
  demo_asked ++ [Drain 2 5; Exec 2 5; Exec 2 5; Respond 2 5; Deliver 0 5 2 0].

Definition demo_cold_start : cold_state := cold_start (fun _ => demo_cache) (fun _ => mkMeta 0 0 0 0 0).

Lemma demo_cold_coupled (d : Z) : coupled entry_wf demo_cache (cache_view demo_cache).
Proof. apply demo_cache_wf. Qed.

Lemma demo_request_served op :
  op = demo_cput \/ op = demo_cget -> answerable (cache_view demo_cache) op.
Proof.
  intros Ho. destruct (demo_legal op Ho) as [Hf Hl]. left. split; [done|]. split.
  - destruct Ho as [-> | ->]; apply list_elem_of_In; [right; by left|by left].
  - exists fresh_entry. split; [destruct Ho as [-> | ->]; vm_compute; reflexivity|exact Hl].
Qed.

Lemma demo_actions_ok : Forall (action_ok (fun _ => cache_view demo_cache)) demo_actions.
Proof.
  repeat (apply Forall_cons; split); try done.
  - split; [by apply machines_spec|]. intros rm Hrm. unfold queue_of, demo_work. cbn [w_ops w_cold].
    destruct (rm =? 2) eqn:E; [|split; [constructor|]; split_and!; [constructor|done|constructor]].
    cbn [omap list_omap fst lookup list_lookup]. split; [exact demo_queued|]. split_and!; [|done|].
    + by destruct (data_packet_queued _ _ _ demo_queued).
    + apply Forall_cons. split; [apply demo_request_served; by right|]. apply Forall_singleton, demo_request_served. by left.
  - exact demo_packet_mem_bytes.
Qed.

(** The packet received, and the answer delivered. *)
Definition demo_events : list event :=
  [Submit (0, 5, 2) [demo_cget; demo_cput];
   Serve 2 (key_word demo_cget) MICA_OP_GET (Some (replicate 32 97));
   Serve 2 (key_word demo_cget) MICA_OP_PUT None;
   Reply (0, 5, 2) [mkResp MICA_RESP_GET_SUCCESS 32 (Some 18); mkResp MICA_RESP_PUT_SUCCESS 0 None]].

Lemma demo_runs : exists st,
  run_cold demo_actions demo_cold_start = Some (demo_events, st) /\
  cold_runs (fun _ => cache_view demo_cache) demo_cold_start demo_events st.
Proof.
  assert (H : fst <$> run_cold demo_actions demo_cold_start = Some demo_events) by (vm_compute; reflexivity).
  destruct (run_cold demo_actions demo_cold_start) as [[es st]|] eqn:E; [|done]. injection H as ->.
  exists st. split; [done|]. exact (run_cold_runs _ _ _ _ _ demo_actions_ok E).
Qed.

(** Before the answer: the packet is with the worker. *)
Lemma demo_asks : exists st,
  cold_runs (fun _ => cache_view demo_cache) demo_cold_start [Submit (0, 5, 2) [demo_cget; demo_cput]] st /\
  bufferused (cs_client st (0, 5)).1 2 = 1.
Proof.
  assert (H : (fun x => (x.1, bufferused (cs_client x.2 (0, 5)).1 2)) <$> run_cold demo_asked demo_cold_start
              = Some ([Submit (0, 5, 2) [demo_cget; demo_cput]], 1)) by (vm_compute; reflexivity).
  destruct (run_cold demo_asked demo_cold_start) as [[es st]|] eqn:E; [|done]. injection H as -> Hb.
  exists st. split; [|exact Hb]. eapply run_cold_runs; [|exact E].
  pose proof demo_actions_ok as Ha. unfold demo_actions in Ha. by apply Forall_app in Ha as [? _].
Qed.

Lemma cold_refines_witness :
  exists st sv, cold_runs (fun _ => cache_view demo_cache) demo_cold_start demo_events st /\
    service_runs (home_addr (fun _ => demo_cache)) (service_start (fun _ => cache_view demo_cache)) demo_events sv /\
    e_value <$> cache_view (cs_kv st 2) (key_word demo_cput) = sv_val sv 2 (key_word demo_cput).
Proof.
  destruct demo_runs as (st & _ & Hr).
  destruct (cold_refines (fun _ => demo_cache) (fun _ => mkMeta 0 0 0 0 0) (fun _ => cache_view demo_cache)
              demo_events st demo_cold_coupled Hr) as (sv & H1 & H2).
  exists st, sv. split; [exact Hr|]. split; [exact H1|]. apply H2. apply demo_legal. left. reflexivity.
Defined.


Lemma cold_answered_witness :
  exists st es' st' rs, cold_runs (fun _ => cache_view demo_cache) st es' st' /\
    bufferused (cs_client st (0, 5)).1 2 = 1 /\ reqs_in_transit (cs_client st' (0, 5)).1 = 0 /\
    Reply (0, 5, 2) rs ∈ es'.
Proof.
  destruct demo_asks as (st & Hr & Hb).
  destruct (cold_answered (fun _ => demo_cache) (fun _ => mkMeta 0 0 0 0 0) (fun _ => cache_view demo_cache)
              _ st 0 5 demo_cold_coupled Hr) as (es' & st' & H1 & _ & H3 & H4).
  destruct (H4 2 Hb) as [rs Hrs]. exists st, es', st', rs. split; [exact H1|]. split; [exact Hb|]. split; [exact H3|exact Hrs].
Defined.

Lemma cold_insert_not_seen_witness :
  exists kv' kv2 p,
    mica_batch_op_crcw 0 demo_kv (mkMeta 0 0 0 0 0) [MicaLog.demo_put; MicaLog.demo_get]
      = Done (kv', mkMeta 0 0 0 0 0,
              [(inserted MicaLog.demo_put, mkResp MICA_RESP_PUT_SUCCESS 0 None); (MicaLog.demo_get, mkResp MICA_RESP_GET_FAIL 0 None)]) /\
    mica_batch_op_crcw 0 kv' (mkMeta 0 0 0 0 0) [MicaLog.demo_get]
      = Done (kv2, mkMeta 0 0 0 0 0, [(MicaLog.demo_get, mkResp MICA_RESP_GET_SUCCESS HERD_VALUE_SIZE (Some p))]) /\
    load_bytes (ht_log kv') p (Z.to_nat HERD_VALUE_SIZE) = take (Z.to_nat HERD_VALUE_SIZE) (value MicaLog.demo_put).
Proof.
  apply (cold_insert_not_seen 0 (fun _ => None) demo_kv (mkMeta 0 0 0 0 0) MicaLog.demo_put MicaLog.demo_get);
    [apply demo_store_ok | split; try done; unfold is_u8, is_u32; simpl; lia | apply demo_fits; left; reflexivity
    | reflexivity | vm_compute; discriminate | reflexivity..].
Defined.
