(* ===== verification/ClientRound.v ===== *)
(** * A whole round of the SC client (src/ccKVS/client-sc.c)

    The body of [run_client]'s loop up to the sending: swap the arrays, fill
    and probe the cache ([Trace]), collect the hot writes ([Packets]), go over
    the batch ([ColdRequests]).  The invariant of the loop ties the components
    together: what one pass leaves for the next round is what the next call of
    [batch_from_trace_to_cache] asserts, and what the cache answers is what the
    pass expects.  Around it the wait and the event loop: while it runs, answers
    arrive, packets of updates are given to the cache by [req_cache], and the
    other clients of the machine may change the cache.  With [ClientLoop] this
    gives the safety of whole runs. *)
From stdpp Require Import relations.
From S2P Require Import Prelude Config Optik Layout City Mica MicaLog Cache CacheSpec Network Packets ColdRequests Trace ClientLoop ColdPath.

(** The arrays of operations, responses and key homes move together. *)
Record round_state := mkRound {
  ops_buf : list slot;
  next_buf : list slot;
  third_buf : list slot;
  rd_next_op_i : nat;
  rd_trace_iter : nat;
  rd_hot : Z -> Z;
  rd_lat : latency_flags;
  rd_hits : Z;
  rd_remote_for_each_worker : Z -> Z;
  rd_kv : mica_kv;
  rd_ctx : client_ctx;
  rd_ring : coh_ring;
  rd_wr_i : Z
}.

Definition swap_ops (ops next third : list slot) : list slot * list slot * list slot :=
  if CLIENT_ENABLE_INLINING =? 1 then (next, ops, third) else (next, third, ops).

Definition with_ops (l : list slot) (ops : list cache_op) : list slot :=
  zip_with (fun s o => mkSlot o (s_resp s) (s_home s)) l ops.

Section round.
Context (machine_id local_client_id clt_gid batches_per_client : Z) (trace : list trace_command).

Definition collect (st : round_state) : outcome round_state :=
  let '(ops, next, third) := swap_ops (ops_buf st) (next_buf st) (third_buf st) in
  let* (f, kv) := batch_from_trace_to_cache machine_id local_client_id 0 batches_per_client trace
                    (rd_trace_iter st) (rd_next_op_i st) ops (rd_hot st) (rd_lat st) (rd_kv st) in
  let l := slots f in
  let* (l, c, ring) :=
    if (0 <? WRITE_RATIO) && (DISABLE_CACHE =? 0) then
      let* (o, c, ring) := perform_broadcasts_SC (s_op <$> l) (rd_ctx st) (rd_ring st) in
      Done (with_ops l o, c, ring)
    else Done (l, rd_ctx st, rd_ring st) in
  let* (l, p) := handle_cold_requests SEQUENTIAL_CONSISTENCY machine_id local_client_id clt_gid l
      (mkPass next 0 (rd_hits st) (hot_keys f) (lat f) 0 0 (fun _ => 0) (rd_remote_for_each_worker st) c) in
  Done (mkRound l (ColdRequests.next p) third (next_op_i p) (trace_iter f) (hottest p) (latency p)
          (hits p) (for_each_worker p) kv (ctx p) ring (wr_i p)).

Definition set_ctx (c : client_ctx) (st : round_state) : round_state :=
  mkRound (ops_buf st) (next_buf st) (third_buf st) (rd_next_op_i st) (rd_trace_iter st) (rd_hot st) (rd_lat st)
    (rd_hits st) (rd_remote_for_each_worker st) (rd_kv st) c (rd_ring st) (rd_wr_i st).

End round.

Definition set_kv (kv : mica_kv) (st : round_state) : round_state :=
  mkRound (ops_buf st) (next_buf st) (third_buf st) (rd_next_op_i st) (rd_trace_iter st) (rd_hot st) (rd_lat st)
    (rd_hits st) (rd_remote_for_each_worker st) kv (rd_ctx st) (rd_ring st) (rd_wr_i st).

Definition objects_ok (F : Z -> option entry) : Prop :=
  forall k e, F k = Some e -> entry_wf e /\ e_val_len e = HERD_VALUE_SIZE.

(** ** The event loop

    [run_event_loop_once] picks up answers and runs [req_cache] on the packets
    of updates that arrived.  A packet holds the updates of one iteration of
    the sender; the structures [req_cache] reads behind the first are not the
    ones sent ([Packets]), and their keys are taken not to be cached. *)
Definition incoming (kv : mica_kv) (m : mem) (p : Z) (rs : list mica_resp) (pkt : list Z) : Prop :=
  (forall a, is_u8 (m a)) /\ rs <> [] /\ Forall (fun r => resp_type r <> UNSERVED_CACHE_MISS) rs /\
  exists upd upds, pkt = updates_packet (upd :: upds) /\ update_op upd /\ Forall op_fits upds /\
    strays_miss kv m p (upd :: upds).

(** The cache is shared: between two steps the other clients of the machine may
    leave any sound cache. *)
Inductive event (st : round_state) : round_state -> Prop :=
| event_answer c : respond (rd_ctx st) c -> event st (set_ctx c st)
| event_updates m p rs pkt kv' m' res :
    incoming (rd_kv st) m p rs pkt -> req_cache (rd_kv st) m p rs pkt = Done (kv', m', res) ->
    event st (set_kv kv' st)
| event_others kv' F' : coupled entry_wf kv' F' -> objects_ok F' -> event st (set_kv kv' st).

Definition event_fails (st : round_state) : Prop :=
  exists m p rs pkt, incoming (rd_kv st) m p rs pkt /\ forall x, req_cache (rd_kv st) m p rs pkt <> Done x.

(** [while (c->reqs_in_transit > 0) run_event_loop_once()], if the previous
    iteration queued cold requests. *)
Definition waited (previous_wr_i : Z) (st st' : round_state) : Prop :=
  if 0 <? previous_wr_i then rtc event st st' /\ ~ 0 < reqs_in_transit (rd_ctx st') else st' = st.

(** A whole iteration: collect, wait, send, and run the event loop. *)
Inductive round (mid lid gid bpc : Z) (trace : list trace_command) (st : round_state) : outcome round_state -> Prop :=
| round_ok st1 st2 c sent st3 :
    collect mid lid gid bpc trace st = Done st1 -> waited (rd_wr_i st) st1 st2 ->
    send_round mid (s_op <$> ops_buf st2) (rd_ctx st2) = Done (c, sent) -> rtc event (set_ctx c st2) st3 ->
    round mid lid gid bpc trace st (Done st3)
| round_collect_abort : collect mid lid gid bpc trace st = AssertFailed -> round mid lid gid bpc trace st AssertFailed
| round_collect_spin : collect mid lid gid bpc trace st = Spin -> round mid lid gid bpc trace st Spin
| round_wait_abort st1 st2 :
    collect mid lid gid bpc trace st = Done st1 -> 0 < rd_wr_i st -> rtc event st1 st2 -> event_fails st2 ->
    round mid lid gid bpc trace st AssertFailed
| round_send_abort st1 st2 :
    collect mid lid gid bpc trace st = Done st1 -> waited (rd_wr_i st) st1 st2 ->
    (forall x, send_round mid (s_op <$> ops_buf st2) (rd_ctx st2) <> Done x) ->
    round mid lid gid bpc trace st AssertFailed
| round_event_abort st1 st2 c sent st3 :
    collect mid lid gid bpc trace st = Done st1 -> waited (rd_wr_i st) st1 st2 ->
    send_round mid (s_op <$> ops_buf st2) (rd_ctx st2) = Done (c, sent) -> rtc event (set_ctx c st2) st3 ->
    event_fails st3 -> round mid lid gid bpc trace st AssertFailed.

(** ** What the cache answers a batch of reads and writes *)

Definition ready (op : cache_op) : Prop :=
  op_fits op /\
  (opcode op = CACHE_OP_GET \/ (opcode op = CACHE_OP_PUT /\ val_len op = HERD_VALUE_SIZE)).

Definition served (x y : cache_op * mica_resp) : Prop :=
  (y.1 = x.1 /\ (y.2 = x.2 /\ resp_type x.2 = UNSERVED_CACHE_MISS \/ resp_type y.2 = CACHE_MISS)) \/
  (opcode x.1 = CACHE_OP_GET /\ y.1 = x.1 /\ resp_type y.2 = CACHE_GET_SUCCESS) \/
  (opcode x.1 = CACHE_OP_PUT /\ opcode y.1 = CACHE_OP_BRC /\ key_word y.1 = key_word x.1 /\ op_fits y.1 /\
   resp_type y.2 = CACHE_PUT_SUCCESS).

Lemma sc_view_one mid addr F op r :
  objects_ok F -> ready op ->
  exists F' op' r', view_exec_one sc_skips (sc_op mid) addr F op r = Done (F', op', r') /\
    objects_ok F' /\ served (op, r) (op', r').
Proof.
  intros HF [Hf Hop]. unfold view_exec_one, sc_skips.
  destruct (Z.eqb_spec (resp_type r) UNSERVED_CACHE_MISS) as [Eu|_].
  { exists F, op, r. split_and!; try done. left. by split; [|left]. }
  destruct (F (key_word op)) as [e|] eqn:Ee.
  2:{ eexists _, _, _. split; [reflexivity|]. split; [done|]. left. by split; [|right]. }
  destruct (HF _ _ Ee) as [He Hl]. unfold sc_op. destruct Hop as [Hg|[Hp Hv]].
  - rewrite Hg. change (CACHE_OP_GET =? CACHE_OP_GET) with true. cbv iota.
    rewrite sc_get_eq by done. cbn [obind]. eexists _, _, _. split; [reflexivity|]. split.
    + intros k e'. unfold fupd. zcase; [by intros [= <-]|apply HF].
    + right. left. done.
  - rewrite Hp. change (CACHE_OP_PUT =? CACHE_OP_GET) with false. change (CACHE_OP_PUT =? CACHE_OP_PUT) with true.
    cbv iota. rewrite sc_put_eq by (done || by rewrite Hl). cbn [obind]. eexists _, _, _. split; [reflexivity|]. split.
    + intros k e'. unfold fupd. zcase; [|apply HF]. intros [= <-]. split; [|done].
      apply entry_wf_memcpy; [|done|apply Hf]. apply meta_ok_set_cid; [apply u8_range|]. apply meta_ok_bump, He.
    + right. right. split_and!; try done. destruct Hf as [[] ? ? ? ? ? ? ?].
      split; try done. split; try done; [apply u8_range|apply u32_range].
Qed.

Lemma sc_view_ok mid addr F l :
  objects_ok F -> Forall (fun x => ready x.1) l ->
  exists F' l', view_exec sc_skips (sc_op mid) addr F l = Done (F', l') /\ objects_ok F' /\ Forall2 served l l'.
Proof.
  revert F. induction l as [|[op r] l IH]; intros F HF Hl; [by exists F, []|].
  apply Forall_cons in Hl as [Hop Hl]. cbn [view_exec].
  destruct (sc_view_one mid addr F op r HF Hop) as (F1 & op' & r' & E & HF1 & Hs). rewrite E. cbn [obind].
  destruct (IH F1 HF1 Hl) as (F2 & l' & E2 & HF2 & Hall). rewrite E2. cbn [obind].
  exists F2, ((op', r') :: l'). split_and!; [done|done|by constructor].
Qed.

Lemma sc_batch_view mid kv F l :
  coupled entry_wf kv F -> objects_ok F -> Forall (fun x => ready x.1) l ->
  exists kv' F' l', cache_batch_op_sc mid kv l = Done (kv', l') /\
    view_exec sc_skips (sc_op mid) (value_addr kv) F l = Done (F', l') /\
    coupled entry_wf kv' F' /\ objects_ok F' /\ Forall2 served l l'.
Proof.
  intros Hc HF Hl. destruct (sc_view_ok mid (value_addr kv) F l HF Hl) as (F' & l' & E & HF' & Hs).
  assert (Hleg : Forall (fun x => op_fits x.1 /\
    opcode x.1 ∈ [CACHE_OP_GET; CACHE_OP_PUT; CACHE_OP_UPD; CACHE_OP_BRC] /\
    forall e, F (key_word x.1) = Some e -> legal (e_val_len e) x.1) l).
  { apply (Forall_impl _ _ _ Hl). intros [op r] [Hf Hop]. cbn [fst] in *. split; [done|].
    split; [destruct Hop as [-> |[-> _]]; rewrite !elem_of_cons; tauto|].
    intros e He. destruct (HF _ _ He) as [_ ->]. split; [done| |].
    + intros [E1|E1]; destruct Hop as [E2|[E2 ?]]; try done; rewrite E2 in E1; discriminate E1.
    + intros H. exfalso. destruct Hop as [E2|[E2 _]]; rewrite E2 in H; destruct H as [H|[H|H]]; discriminate H. }
  destruct (cache_exec_view entry_wf _ (sc_op mid) sc_skips kv F l _ (value_addr kv) Hc Hleg
    (fun _ => eq_refl) eq_refl) as (kv' & F2 & l2 & E1 & E2 & Hc2).
  rewrite E in E2. injection E2 as <- <-. by exists kv', F', l'.
Qed.

Lemma sc_batch_ok mid kv F l :
  coupled entry_wf kv F -> objects_ok F -> Forall (fun x => ready x.1) l ->
  exists kv' F' l', cache_batch_op_sc mid kv l = Done (kv', l') /\
    coupled entry_wf kv' F' /\ objects_ok F' /\ Forall2 served l l'.
Proof. intros Hc HF Hl. destruct (sc_batch_view mid kv F l Hc HF Hl) as (kv' & F' & l' & E & _ & H). eauto. Qed.

(** ** Facts about a pass *)
Lemma set_clt_gid_fits gid op : is_u32 gid -> op_fits op -> op_fits (set_clt_gid gid op).
Proof. intros Hg [[] ? ? ? ? ? ? ?]. split; try done. Qed.

Lemma copy_request_fits dst src : op_fits dst -> op_fits src -> op_fits (copy_request dst src).
Proof.
  intros Hd Hs. unfold copy_request. destruct (copies_value _); [by apply recv_put_req_fits|].
  pose proof (of_value _ Hd) as Ld. pose proof (of_bytes _ Hd) as Bd. destruct Hs as [? ? ? ? ? ? Ls Bs].
  split; simpl; try done.
  - rewrite length_app, length_take, length_drop, Ld, Ls. done.
  - apply Forall_app_2; [by apply Forall_take|by apply Forall_drop].
Qed.

Lemma pass_keeps_fits protocol gid op_i l fs d st st' :
  is_u32 gid -> pass_rel protocol gid op_i l fs d st st' ->
  Forall (fun s => op_fits (s_op s)) l -> Forall (fun s => op_fits (s_op s)) (ColdRequests.next st) ->
  Forall (fun s => op_fits (s_op s)) d /\ Forall (fun s => op_fits (s_op s)) (ColdRequests.next st') /\
  length (ColdRequests.next st') = length (ColdRequests.next st).
Proof.
  intros Hg H. induction H as [|op_i s l f fs s' l' st st1 st2 Hf _ _ IH]; intros Hl Hn; [done|].
  apply Forall_cons in Hl as [Hs Hl].
  assert (Hs' : op_fits (s_op s')).
  { destruct f; simpl in Hf.
    - destruct Hf as (_ & _ & -> & _). done.
    - destruct Hf as (_ & _ & [-> |[_ ->]] & _); [done|by apply set_clt_gid_fits].
    - destruct Hf as (_ & _ & _ & -> & _). by apply set_clt_gid_fits. }
  assert (Hn1 : Forall (fun s => op_fits (s_op s)) (ColdRequests.next st1) /\
    length (ColdRequests.next st1) = length (ColdRequests.next st)).
  { destruct f; simpl in Hf.
    - destruct Hf as (_ & _ & _ & -> & _). done.
    - destruct Hf as (_ & _ & _ & _ & -> & _). rewrite length_alter. split; [|done].
      apply Forall_alter; [done|]. intros x _ Hx. by apply copy_request_fits.
    - destruct Hf as (_ & _ & _ & _ & -> & _). done. }
  destruct Hn1 as [Hn1 El]. destruct (IH Hl Hn1) as (H1 & H2 & H3).
  split_and!; [by apply Forall_cons|done|congruence].
Qed.

Lemma only_queued_trans c1 c2 c3 : only_queued c1 c2 -> only_queued c2 c3 -> only_queued c1 c3.
Proof. unfold only_queued. intuition congruence. Qed.

Lemma pass_only_queues protocol gid op_i l fs d st st' :
  pass_rel protocol gid op_i l fs d st st' -> only_queued (ctx st) (ctx st').
Proof.
  induction 1 as [|op_i s l f fs s' l' st st1 st2 Hf _ _ IH]; [done|].
  eapply only_queued_trans; [|exact IH]. destruct f; simpl in Hf.
  - destruct Hf as (_ & _ & _ & _ & _ & ->). done.
  - destruct Hf as (_ & _ & _ & _ & _ & _ & ->). done.
  - by destruct Hf as (_ & _ & _ & _ & _ & _ & H & _).
Qed.

(** Only homes of misses get requests. *)
Lemma pass_other_queue protocol gid op_i l fs d st st' rm :
  pass_rel protocol gid op_i l fs d st st' ->
  Forall (fun s => is_miss s = true -> kh_machine (s_home s) <> rm) l ->
  batch (ctx st') rm = batch (ctx st) rm.
Proof.
  induction 1 as [|op_i s l f fs s' l' st st1 st2 Hf _ _ IH]; intros Hl; [done|].
  apply Forall_cons in Hl as [Hs Hl]. rewrite (IH Hl). destruct f as [| |x]; simpl in Hf.
  - destruct Hf as (_ & _ & _ & _ & _ & ->). done.
  - destruct Hf as (_ & _ & _ & _ & _ & _ & ->). done.
  - destruct Hf as (Hm & -> & _ & _ & _ & _ & _ & ->). apply fupd_ne. intros ->. by apply Hs.
Qed.

Lemma carried_lookup fs d k s' :
  carried fs d !! k = Some s' -> exists i, fs !! i = Some Carried /\ d !! i = Some s'.
Proof.
  revert d k. induction fs as [|f fs IH]; intros d k; [done|]. destruct d as [|x d]; [done|].
  destruct f as [| |rm].
  - intros (i & H1 & H2)%(IH d k). by exists (S i).
  - change (carried (Carried :: fs) (x :: d)) with (x :: carried fs d). destruct k as [|k].
    + intros [= <-]. by exists 0%nat.
    + intros (i & H1 & H2)%(IH d k). by exists (S i).
  - intros (i & H1 & H2)%(IH d k). by exists (S i).
Qed.

Lemma carried_length fs d : (length (carried fs d) <= length d)%nat.
Proof.
  revert d. induction fs as [|f fs IH]; intros [|x d]; try (simpl; lia).
  destruct f as [| |rm].
  - change (carried (Finished :: fs) (x :: d)) with (carried fs d). simpl. specialize (IH d). lia.
  - change (carried (Carried :: fs) (x :: d)) with (x :: carried fs d). simpl. specialize (IH d). lia.
  - change (carried (Sent rm :: fs) (x :: d)) with (carried fs d). simpl. specialize (IH d). lia.
Qed.

(** ** The slots of a round *)
Definition home_ok (mid : Z) (h : key_home) : Prop := kh_machine h ∈ machines /\ kh_machine h <> mid.

(** A request waiting for the next round. *)
Definition waiting (mid : Z) (s : slot) : Prop :=
  r_type s = UNSERVED_CACHE_MISS /\ ready (s_op s) /\ home_ok mid (s_home s).

(** A slot after filling. *)
Definition filled_slot (mid : Z) (s : slot) : Prop :=
  (r_type s = UNSERVED_CACHE_MISS \/ r_type s = EMPTY) /\ ready (s_op s) /\ home_ok mid (s_home s).

(** A slot after the cache answered and the writes were collected. *)
Definition answered_slot (mid : Z) (s : slot) : Prop :=
  op_fits (s_op s) /\ home_ok mid (s_home s) /\
  ((is_miss s = true /\ ready (s_op s)) \/
   (r_type s = CACHE_GET_SUCCESS /\ opcode (s_op s) = CACHE_OP_GET) \/
   (r_type s = CACHE_PUT_SUCCESS /\ opcode (s_op s) = CACHE_OP_UPD)).

Lemma answered_slot_ok mid lid s : answered_slot mid s -> slot_ok SEQUENTIAL_CONSISTENCY mid lid s.
Proof.
  intros (Hf & Hh & H). split.
  - destruct H as [[_ [_ [E|[E _]]]]|[[_ E]|[_ E]]]; unfold knows_opcode; rewrite E; by (left + right).
  - destruct H as [[H _]|[[H _]|[H _]]]; try (rewrite H; done). intros E. unfold is_miss in H. by rewrite E in H.
  - intros Hm. unfold expected_hit. change (is_lin SEQUENTIAL_CONSISTENCY) with false. cbv iota.
    destruct H as [[H _]|[[H _]|[H _]]]; [congruence| |]; rewrite H; by destruct (lid =? 0).
  - intros Hm Hp. destruct H as [[_ [_ [E|[_ E]]]]|[[E _]|[E _]]]; [rewrite Hp in E; discriminate E|done| |];
      unfold is_miss in Hm; by rewrite E in Hm.
  - intros _. exact Hh.
Qed.

Lemma answered_slot_finished mid s :
  answered_slot mid s -> is_miss s = true \/ finished SEQUENTIAL_CONSISTENCY s = true.
Proof.
  intros (_ & _ & [[H _]|[[H _]|[_ H]]]); [by left|right..]; unfold finished;
    change (is_lin SEQUENTIAL_CONSISTENCY) with false; cbv iota; rewrite H; [done|by rewrite orb_true_r].
Qed.

Lemma grown_ready s s' : slot_grows s s' -> op_fits (s_op s') -> ready (s_op s) -> ready (s_op s').
Proof.
  intros (_ & _ & n & E & _ & Hn) Hf [_ Hop]. split; [done|]. rewrite E. simpl.
  destruct Hop as [Hg|[Hp Hv]]; [by left|right]. split; [done|]. rewrite Hn; [done|]. by rewrite Hp.
Qed.

Lemma served_answered mid s y :
  filled_slot mid s -> served (s_op s, s_resp s) y ->
  answered_slot mid (mkSlot (as_update y.1) y.2 (s_home s)) /\ resp_type y.2 <> RETRY.
Proof.
  intros (_ & Hr & Hh) Hs. destruct y as [op r]. unfold served in Hs. cbn [fst snd] in *.
  assert (Hid : forall o, ready o -> as_update o = o).
  { intros o [_ [E|[E _]]]; unfold as_update; by rewrite E. }
  destruct Hs as [[-> Ht]|[(Hg & -> & Ht)|(Hp & Hb & _ & Hf & Ht)]].
  - rewrite (Hid _ Hr). split.
    + split; [apply Hr|]. split; [done|]. left. split; [|done]. unfold is_miss, r_type. cbn [s_resp].
      destruct Ht as [[-> ->]| ->]; done.
    + destruct Ht as [[-> ->]| ->]; done.
  - rewrite (Hid _ Hr), Ht. split; [|done]. split; [apply Hr|]. split; [done|]. right. left. done.
  - rewrite Ht. split; [|done]. unfold as_update. rewrite Hb. change (CACHE_OP_BRC =? CACHE_OP_BRC) with true.
    cbv iota. split; [by destruct Hf|]. split; [done|]. right. right. done.
Qed.

Lemma commands_in trace it m c : (it < length trace)%nat -> c ∈ commands trace it m -> c ∈ trace.
Proof.
  revert it. induction m as [|m IH]; intros it Hit Hc; [by apply elem_of_nil in Hc|].
  cbn [commands] in Hc. apply elem_of_cons in Hc as [-> |Hc]; [by apply trace_at_in|].
  by apply (IH _ (next_iter_lt _ _ Hit)).
Qed.

Lemma filled_slots_ok mid trace st0 st' m :
  trace_ok trace -> (trace_iter st0 < length trace)%nat ->
  (forall c, c ∈ trace -> home_machine_id c ∈ machines /\ home_machine_id c <> mid) ->
  (forall p s, (p < fill_i st0)%nat -> slots st0 !! p = Some s -> waiting mid s) ->
  length (slots st0) = length (slots st') ->
  filled trace st0 st' m -> Forall (filled_slot mid) (slots st').
Proof.
  intros Ht Hit Hh Hw Hl Hfd. pose proof (filled_all _ _ _ _ Ht Hfd) as Hall.
  destruct Hfd as [Hi _ _ _ Hold _ Hnew]. apply Forall_lookup_2. intros p s' Hs'.
  pose proof (lookup_lt_Some _ _ _ Hs') as Hp. pose proof (Forall_lookup_1 _ _ _ _ (fi_fits _ _ Hi) Hs') as Hf.
  destruct (decide (p < fill_i st0)%nat) as [Hlt|Hge].
  - destruct (lookup_lt_is_Some_2 (slots st0) p) as [s Hs]; [lia|].
    destruct (Hold p s Hlt Hs) as (s2 & Hs2 & Hg). rewrite Hs' in Hs2. injection Hs2 as <-.
    destruct (Hw p s Hlt Hs) as (Hr & Hrd & Hho). split_and!.
    + left. unfold r_type. by rewrite (proj1 Hg).
    + by apply (grown_ready s).
    + by rewrite (proj1 (proj2 Hg)).
  - destruct (Hnew p s') as (c & s & Hc & (Hr & Hho & Hop & _ & Hv) & Hg); [lia|done|].
    destruct (Hh c) as [Hm Hne]; [by eapply commands_in|].
    split_and!.
    + right. unfold r_type. by rewrite (proj1 Hg).
    + destruct Hg as (_ & _ & n & E & _ & Hn). split; [done|]. rewrite E. simpl. rewrite Hop in *.
      destruct (IS_WRITE (tc_opcode c)); [right|by left]. split; [done|]. rewrite Hn by done. by apply Hv.
    + rewrite (proj1 (proj2 Hg)), Hho. unfold home_ok. simpl. rewrite u8_small; [done|].
      apply machines_spec in Hm. unfold MACHINE_NUM, is_u8 in *. lia.
Qed.

Lemma answered_all mid l ans :
  Forall (filled_slot mid) l -> Forall2 served ((fun s => (s_op s, s_resp s)) <$> l) ans ->
  let l1 := answered l ans in
  let l2 := with_ops l1 (as_update <$> (s_op <$> l1)) in
  forallb (fun s => negb (r_type s =? RETRY)) l1 = true /\ length l1 = length l /\ length l2 = length l /\
  Forall (answered_slot mid) l2.
Proof.
  intros Hl. revert ans. induction Hl as [|s l Hs _ IH]; intros ans Ha.
  { apply Forall2_nil_inv_l in Ha as ->. done. }
  rewrite fmap_cons in Ha. apply Forall2_cons_inv_l in Ha as (y & ans' & Hy & Ha & ->).
  destruct (IH ans' Ha) as (H1 & H2 & H3 & H4). destruct (served_answered mid s y Hs Hy) as [Hy1 Hy2].
  unfold answered in *. cbn [zip_with length drop app fmap list_fmap with_ops forallb] in *.
  split_and!.
  - unfold r_type at 1. cbn [s_resp]. rewrite (proj2 (Z.eqb_neq _ _) Hy2). exact H1.
  - by f_equal.
  - by f_equal.
  - apply Forall_cons. split; [exact Hy1|exact H4].
Qed.

(** ** Slots stand for commands of the trace *)
Definition from_trace (trace : list trace_command) (s : slot) : Prop :=
  exists c, c ∈ trace /\ key_word (s_op s) = cmd_word c /\ kh_machine (s_home s) = u8 (home_machine_id c).

Lemma filled_from trace st0 st' m :
  trace_ok trace -> (trace_iter st0 < length trace)%nat ->
  (forall p s, (p < fill_i st0)%nat -> slots st0 !! p = Some s -> from_trace trace s) ->
  length (slots st0) = length (slots st') -> filled trace st0 st' m -> Forall (from_trace trace) (slots st').
Proof.
  intros Ht Hit Hw Hl Hfd. pose proof (filled_all _ _ _ _ Ht Hfd) as Hall.
  destruct Hfd as [_ _ _ _ Hold _ Hnew]. apply Forall_lookup_2. intros p s' Hs'.
  pose proof (lookup_lt_Some _ _ _ Hs') as Hp.
  assert (Hgrow : forall s, slot_grows s s' -> from_trace trace s -> from_trace trace s').
  { intros s (_ & Hh & n & E & _) (c & Hc & Hk & Hm). exists c. by rewrite Hh, E. }
  destruct (decide (p < fill_i st0)%nat) as [Hlt|Hge].
  - destruct (lookup_lt_is_Some_2 (slots st0) p) as [s Hs]; [lia|].
    destruct (Hold p s Hlt Hs) as (s2 & Hs2 & Hg). rewrite Hs' in Hs2. injection Hs2 as <-. eauto.
  - destruct (Hnew p s') as (c & s & Hc & (_ & Hho & _ & Hk & _) & Hg); [lia|done|].
    apply (Hgrow s Hg). exists c. split; [by eapply commands_in|]. by rewrite Hho.
Qed.

Lemma answered_from trace l ans :
  Forall (from_trace trace) l -> Forall2 served ((fun s => (s_op s, s_resp s)) <$> l) ans ->
  let l1 := answered l ans in Forall (from_trace trace) (with_ops l1 (as_update <$> (s_op <$> l1))).
Proof.
  intros Hl. revert ans. induction Hl as [|s l Hs _ IH]; intros ans Ha.
  { apply Forall2_nil_inv_l in Ha as ->. constructor. }
  rewrite fmap_cons in Ha. apply Forall2_cons_inv_l in Ha as (y & ans' & Hy & Ha & ->). specialize (IH ans' Ha).
  unfold answered in *. cbn [zip_with length drop app fmap list_fmap with_ops] in *. apply Forall_cons. split; [|exact IH].
  destruct Hs as (c & Hc & Hk & Hm). exists c. cbn [s_op s_home]. split; [done|]. split; [|done]. rewrite <- Hk.
  assert (E : key_word y.1 = key_word (s_op s)).
  { unfold served in Hy. cbn [fst snd] in Hy. destruct Hy as [[-> _]|[(_ & -> & _)|(_ & _ & -> & _)]]; done. }
  rewrite <- E. unfold as_update. by destruct (_ =? _).
Qed.

(** Requests that wait are requests of the pass. *)
Lemma pass_from protocol gid trace l fs d st st' :
  pass_rel protocol gid 0 l fs d st st' -> next_op_i st = 0%nat -> Forall (from_trace trace) l ->
  length (ColdRequests.next st) = length l ->
  forall p s, (p < next_op_i st')%nat -> ColdRequests.next st' !! p = Some s -> from_trace trace s.
Proof.
  intros Hp Hn Hl Hlen p s Hlt Hs. destruct (pass_length _ _ _ _ _ _ _ _ Hp) as [_ Hd].
  destruct (pass_carried _ _ _ _ _ _ _ _ Hp) as (Hcn & _ & Hck). rewrite Hn in *. simpl in Hcn.
  destruct (lookup_lt_is_Some_2 (carried fs d) p) as [s' Hs']; [lia|]. pose proof (carried_length fs d) as Hcl.
  destruct (lookup_lt_is_Some_2 (ColdRequests.next st) p) as [dst Hdst]; [lia|].
  pose proof (Hck p s' dst Hs' Hdst) as E. cbn [Nat.add] in E. rewrite Hs in E. injection E as ->.
  destruct (carried_lookup _ _ _ _ Hs') as (i & Hfi & Hdi).
  destruct (lookup_lt_is_Some_2 l i) as [s0 Hs0]; [apply lookup_lt_Some in Hdi; lia|].
  destruct (pass_fate _ _ _ _ _ _ _ _ i _ s0 s' Hp Hfi Hs0 Hdi) as (sa & sb & Hh & _ & Hop & _).
  destruct (Forall_lookup_1 _ _ _ _ Hl Hs0) as (c & Hc & Hk & Hm). exists c. split; [done|].
  cbn [copy_slot s_op s_home]. rewrite Hh. split; [|done]. rewrite <- Hk.
  assert (E : key_word (s_op s') = key_word (s_op s0)) by (by destruct Hop as [-> |[_ ->]]).
  rewrite <- E. unfold copy_request. by destruct (copies_value _).
Qed.

(** Every machine's store has the keys of the commands whose home it is. *)
Definition homes_hold (F0 : Z -> Z -> option entry) (trace : list trace_command) : Prop :=
  forall c, c ∈ trace -> exists e, F0 (u8 (home_machine_id c)) (cmd_word c) = Some e /\ e_val_len e = HERD_VALUE_SIZE.

Lemma ready_served F0 trace s :
  homes_hold F0 trace -> from_trace trace s -> ready (s_op s) ->
  is_request (s_op s) /\ answerable (F0 (kh_machine (s_home s))) (s_op s).
Proof.
  intros HF (c & Hc & Hk & Hm) [Hf Hop]. destruct (HF c Hc) as (e & He & Hl).
  split; [split; [done|]; destruct Hop as [?|[? _]]; tauto|]. left. split; [done|]. split.
  { destruct Hop as [-> |[-> _]]; apply list_elem_of_In; [by left|right; by left]. }
  exists e. rewrite Hk, Hm. split; [done|]. rewrite Hl. split; [done| |].
  - intros [E|E]; destruct Hop as [E2|[E2 ?]]; try done; rewrite E2 in E; discriminate E.
  - intros H. exfalso. destruct Hop as [E2|[E2 _]]; rewrite E2 in H; destruct H as [H|[H|H]]; discriminate H.
Qed.

(** ** The invariant of the loop *)
Record core_ok (mid : Z) (trace : list trace_command) (F : Z -> option entry) (st : round_state) : Prop := {
  co_it : (rd_trace_iter st < length trace)%nat;
  co_ops : Z.of_nat (length (ops_buf st)) = CACHE_BATCH_SIZE;
  co_next : Z.of_nat (length (next_buf st)) = CACHE_BATCH_SIZE;
  co_third : Z.of_nat (length (third_buf st)) = CACHE_BATCH_SIZE;
  co_ops_fits : Forall (fun s => op_fits (s_op s)) (ops_buf st);
  co_next_fits : Forall (fun s => op_fits (s_op s)) (next_buf st);
  co_third_fits : Forall (fun s => op_fits (s_op s)) (third_buf st);
  co_n : (rd_next_op_i st <= length (next_buf st))%nat;
  co_wait : forall p s, (p < rd_next_op_i st)%nat -> next_buf st !! p = Some s -> waiting mid s;
  co_from : forall p s, (p < rd_next_op_i st)%nat -> next_buf st !! p = Some s -> from_trace trace s;
  co_cache : coupled entry_wf (rd_kv st) F;
  co_objects : objects_ok F;
  co_ring : ring_ok (rd_ring st);
  co_transit : transit_ok (rd_ctx st)
}.

Definition queues_empty (c : client_ctx) : Prop := cbatch c = [] /\ forall rm, batch c rm = [].

Record trace_for (mid : Z) (trace : list trace_command) : Prop := {
  tf_ok : trace_ok trace;
  tf_home : forall c, c ∈ trace -> home_machine_id c ∈ machines /\ home_machine_id c <> mid
}.

Lemma waiting_carried mid s : waiting mid s -> carried_ok s = true.
Proof.
  intros (Hr & [_ Hop] & _). unfold carried_ok. rewrite Hr.
  destruct Hop as [-> |[-> _]]; done.
Qed.

Lemma swap_ops_ok ops next third :
  exists n t, swap_ops ops next third = (next, n, t) /\ (n = ops /\ t = third \/ n = third /\ t = ops).
Proof. unfold swap_ops. destruct (_ =? _); eexists _, _; (split; [reflexivity|]); auto. Qed.

(** The requests left for the next round. *)
Lemma pass_waiting mid gid l fs d st st' :
  is_u32 gid -> pass_rel SEQUENTIAL_CONSISTENCY gid 0 l fs d st st' -> next_op_i st = 0%nat ->
  Forall (answered_slot mid) l -> Forall (fun s => op_fits (s_op s)) (ColdRequests.next st) ->
  length (ColdRequests.next st) = length l ->
  forall p s, (p < next_op_i st')%nat -> ColdRequests.next st' !! p = Some s -> waiting mid s.
Proof.
  intros Hg Hp Hn Hl Hf Hlen p s Hlt Hs. destruct (pass_length _ _ _ _ _ _ _ _ Hp) as [_ Hd].
  destruct (pass_carried _ _ _ _ _ _ _ _ Hp) as (Hcn & _ & Hck). rewrite Hn in *. simpl in Hcn.
  destruct (lookup_lt_is_Some_2 (carried fs d) p) as [s' Hs']; [lia|].
  pose proof (carried_length fs d) as Hcl.
  destruct (lookup_lt_is_Some_2 (ColdRequests.next st) p) as [dst Hdst]; [lia|].
  pose proof (Hck p s' dst Hs' Hdst) as E. cbn [Nat.add] in E. rewrite Hs in E. injection E as ->.
  destruct (carried_lookup _ _ _ _ Hs') as (i & Hfi & Hdi).
  destruct (lookup_lt_is_Some_2 l i) as [s0 Hs0]; [apply lookup_lt_Some in Hdi; lia|].
  destruct (pass_fate _ _ _ _ _ _ _ _ i _ s0 s' Hp Hfi Hs0 Hdi) as (sa & sb & Hstep). simpl in Hstep.
  destruct Hstep as (Hhome & Ht & Hop & Hfin & _).
  pose proof (Forall_lookup_1 _ _ _ _ Hl Hs0) as Ha.
  assert (Hm : is_miss s0 = true).
  { destruct Hfin as [|Hfin]; [done|]. destruct (answered_slot_finished mid s0 Ha); congruence. }
  rewrite Hm in Ht. destruct Ha as (Hfit & Hho & Hcase).
  assert (Hrd : ready (s_op s0)).
  { destruct Hcase as [[_ H]|[[H _]|[H _]]]; [done| |]; unfold is_miss in Hm; by rewrite H in Hm. }
  assert (Hrd' : ready (s_op s')).
  { destruct Hop as [-> |[_ ->]]; [done|]. destruct Hrd as [? Hrd]. split; [by apply set_clt_gid_fits|done]. }
  pose proof (Forall_lookup_1 _ _ _ _ Hf Hdst) as Hfd. cbn beta in Hfd.
  split; [exact Ht|]. split; [|by rewrite <- Hhome in Hho].
  destruct Hrd' as [Hf' Hop']. split; [by apply copy_request_fits|].
  cbn [copy_slot s_op]. unfold copy_request. by destruct (copies_value _).
Qed.

(** ** What becomes of the requests *)

(** The requests queued for the other machines, and the ones served. *)
Definition sent_positions (c : client_ctx) : list nat := machines ≫= (fun rm => fst <$> batch c rm).
Definition sent_slots (l : list slot) (c : client_ctx) : list slot := omap (fun i => l !! i) (sent_positions c).

Fixpoint hits_from (i : nat) (sent : list nat) (l : list slot) : list slot :=
  match l with
  | [] => []
  | s :: l => if (r_type s =? EMPTY) && negb (bool_decide (i ∈ sent)) then s :: hits_from (S i) sent l
              else hits_from (S i) sent l
  end.
Definition hit_slots (l : list slot) (c : client_ctx) : list slot := hits_from 0 (sent_positions c) l.

(** The slots with each fate. *)
Definition with_fate (keep : fate -> bool) (fs : list fate) (l : list slot) : list slot :=
  omap (fun x => if keep x.1 then Some x.2 else None) (zip fs l).
Definition is_finished (f : fate) : bool := match f with Finished => true | _ => false end.
Definition is_sent (f : fate) : bool := match f with Sent _ => true | _ => false end.

Fixpoint sent_at (i : nat) (fs : list fate) : list nat :=
  match fs with
  | [] => []
  | Sent _ :: fs => i :: sent_at (S i) fs
  | _ :: fs => sent_at (S i) fs
  end.

Lemma sent_at_ge i fs j : j ∈ sent_at i fs -> (i <= j)%nat.
Proof.
  revert i. induction fs as [|f fs IH]; intros i; [by intros ?%elem_of_nil|]. destruct f; cbn [sent_at].
  - intros ?%IH. lia.
  - intros ?%IH. lia.
  - intros [-> |?%IH]%elem_of_cons; lia.
Qed.

(** Queues per machine are the sent requests, grouped. *)
Lemma bind_one {A} (ms : list Z) (g f : Z -> list A) x a :
  NoDup ms -> x ∈ ms -> g x = a :: f x -> (forall y, y <> x -> g y = f y) -> ms ≫= g ≡ₚ a :: (ms ≫= f).
Proof.
  intros Hnd Hx Hgx Hg. induction ms as [|y ms IH]; [by apply elem_of_nil in Hx|].
  apply NoDup_cons in Hnd as [Hy Hnd]. rewrite !bind_cons. destruct (decide (y = x)) as [-> |Hne].
  - rewrite Hgx. assert (E : ms ≫= g = ms ≫= f).
    { clear -Hy Hg. induction ms as [|z ms IH]; [done|]. apply not_elem_of_cons in Hy as [H1 H2].
      rewrite !bind_cons, IH, Hg by done. done. }
    by rewrite E.
  - rewrite Hg by done. apply elem_of_cons in Hx as [?|Hx]; [congruence|].
    rewrite (IH Hnd Hx). by rewrite Permutation_middle.
Qed.

Lemma sent_queues op_i fs l :
  length fs = length l -> (forall x, Sent x ∈ fs -> x ∈ machines) ->
  machines ≫= (fun rm => fst <$> sent_to rm op_i fs l) ≡ₚ sent_at op_i fs.
Proof.
  revert op_i l. induction fs as [|f fs IH]; intros op_i [|s l] Hl Hx; try done.
  assert (Hrec := IH (S op_i) l ltac:(simpl in Hl; lia) ltac:(intros x Hi; apply Hx; by right)).
  destruct f as [| |x]; [exact Hrec|exact Hrec|]. cbn [sent_at].
  rewrite <- Hrec. apply (bind_one machines _ _ x); [apply machines_NoDup|apply Hx; left| |].
  - cbn [sent_to]. by rewrite (Z.eqb_refl x).
  - intros y Hne. cbn [sent_to]. by rewrite (proj2 (Z.eqb_neq x y)).
Qed.

Lemma sent_at_slots i fs pre d :
  length fs = length d -> length pre = i ->
  omap (fun j => (pre ++ d) !! j) (sent_at i fs) = with_fate is_sent fs d.
Proof.
  revert i pre d. induction fs as [|f fs IH]; intros i pre [|s d] Hl Hp; try done.
  assert (Hrec := IH (S i) (pre ++ [s]) d ltac:(simpl in Hl; lia) ltac:(rewrite length_app; simpl; lia)).
  rewrite <- app_assoc in Hrec. cbn [app] in Hrec. destruct f as [| |x]; [exact Hrec|exact Hrec|].
  cbn [sent_at omap list_omap]. rewrite list_lookup_middle by done. rewrite Hrec. done.
Qed.

#[export] Instance requests_Permutation : Proper (Permutation ==> Permutation) requests.
Proof. intros l l' H. unfold requests. by rewrite H. Qed.

Lemma split_fates fs d :
  length fs = length d -> d ≡ₚ with_fate is_finished fs d ++ with_fate is_sent fs d ++ carried fs d.
Proof.
  revert d. induction fs as [|f fs IH]; intros [|s d] Hl; try done. specialize (IH d ltac:(simpl in Hl; lia)).
  destruct f as [| |x].
  - change (s :: d ≡ₚ (s :: with_fate is_finished fs d) ++ with_fate is_sent fs d ++ carried fs d). by rewrite IH at 1.
  - change (s :: d ≡ₚ with_fate is_finished fs d ++ with_fate is_sent fs d ++ s :: carried fs d).
    rewrite IH at 1. rewrite !app_assoc. apply Permutation_middle.
  - change (s :: d ≡ₚ with_fate is_finished fs d ++ (s :: with_fate is_sent fs d) ++ carried fs d).
    rewrite IH at 1. apply Permutation_middle.
Qed.

(** A pass changes neither the key nor the kind of a request. *)
Lemma pass_expand protocol gid op_i l fs d st st' :
  pass_rel protocol gid op_i l fs d st st' -> requests d = requests l.
Proof.
  induction 1 as [|op_i s l f fs s' l' st st1 st2 Hf _ _ IH]; [done|]. unfold requests in *. rewrite !bind_cons, IH. f_equal.
  assert (E : s_op s' = s_op s \/ s_op s' = set_clt_gid gid (s_op s)).
  { destruct f; simpl in Hf; [left; apply Hf| |right; apply Hf]. destruct Hf as (_ & _ & [?|[_ ?]] & _); tauto. }
  unfold expand_slot. by destruct E as [-> | ->].
Qed.

Lemma expand_copy dst s : expand_slot (copy_slot dst s) = expand_slot s.
Proof. unfold expand_slot, copy_slot, copy_request. cbn [s_op]. by destruct (copies_value _). Qed.

Lemma pass_hits protocol mid lid gid op_i l fs d st st' sent :
  pass_rel protocol gid op_i l fs d st st' -> Forall (slot_ok protocol mid lid) l ->
  (forall j, (op_i <= j)%nat -> j ∈ sent <-> j ∈ sent_at op_i fs) ->
  hits_from op_i sent d = with_fate is_finished fs d.
Proof.
  induction 1 as [|op_i s l f fs s' l' st st1 st2 Hf _ _ IH]; intros Hl Hs; [done|].
  apply Forall_cons in Hl as [Hok Hl].
  assert (Hrec : hits_from (S op_i) sent l' = with_fate is_finished fs l').
  { apply IH; [done|]. intros j Hj. rewrite Hs by lia. destruct f; cbn [sent_at]; try done.
    rewrite elem_of_cons. split; [intros [->|?]; [lia|done]|tauto]. }
  assert (Hout : ~ (op_i ∈ sent_at (S op_i) fs)) by (intros ?%sent_at_ge; lia).
  cbn [hits_from]. rewrite Hrec. specialize (Hs op_i (le_n _)). destruct f as [| |x]; cbn [sent_at] in Hs; simpl in Hf.
  - destruct Hf as (_ & -> & _). rewrite bool_decide_false by tauto. done.
  - destruct Hf as (_ & Ht & _). rewrite Ht. destruct (is_miss s); [done|].
    by rewrite (proj2 (Z.eqb_neq _ _) (sk_busy _ _ _ _ Hok)).
  - rewrite bool_decide_true by (apply Hs; left). by rewrite andb_false_r.
Qed.

(** The requests of a pass: served, sent, or waiting in the next array. *)
Lemma pass_accounts protocol mid lid gid l fs d st st' :
  pass_rel protocol gid 0 l fs d st st' -> Forall (slot_ok protocol mid lid) l ->
  (forall rm, batch (ctx st) rm = []) -> next_op_i st = 0%nat -> length (ColdRequests.next st) = length l ->
  requests l ≡ₚ requests (hit_slots d (ctx st')) ++ requests (sent_slots d (ctx st')) ++
                requests (take (next_op_i st') (ColdRequests.next st')).
Proof.
  intros Hp Hl Hb Hn Hlen. destruct (pass_length _ _ _ _ _ _ _ _ Hp) as [Hfs Hd].
  assert (Hx : forall x, Sent x ∈ fs -> x ∈ machines).
  { intros x [i Hi]%list_elem_of_lookup. pose proof (lookup_lt_Some _ _ _ Hi) as Hlt.
    destruct (lookup_lt_is_Some_2 l i ltac:(lia)) as [s Hs]. destruct (lookup_lt_is_Some_2 d i ltac:(lia)) as [s' Hs'].
    destruct (pass_fate _ _ _ _ _ _ _ _ i _ s s' Hp Hi Hs Hs') as (? & ? & Hf). destruct Hf as (Hm & -> & _).
    by apply (sk_home _ _ _ _ (Forall_lookup_1 _ _ _ _ Hl Hs)). }
  assert (Hpos : sent_positions (ctx st') ≡ₚ sent_at 0 fs).
  { rewrite <- (sent_queues 0 fs l) by done. unfold sent_positions.
    assert (E : forall ms : list Z, ms ≫= (fun rm => fst <$> batch (ctx st') rm) = ms ≫= (fun rm => fst <$> sent_to rm 0 fs l)).
    { induction ms as [|rm ms IH]; [done|]. by rewrite !bind_cons, IH, (pass_sent _ _ _ _ _ _ _ _ rm Hp), Hb. }
    by rewrite E. }
  assert (Hhit : hit_slots d (ctx st') = with_fate is_finished fs d).
  { apply (pass_hits _ mid lid _ _ _ _ _ _ _ _ Hp Hl). intros j _. by rewrite Hpos. }
  assert (Hsent : sent_slots d (ctx st') ≡ₚ with_fate is_sent fs d).
  { unfold sent_slots. rewrite <- (sent_at_slots 0 fs [] d) by (done || lia). by rewrite Hpos. }
  assert (Hnext : requests (take (next_op_i st') (ColdRequests.next st')) = requests (carried fs d)).
  { destruct (pass_carried _ _ _ _ _ _ _ _ Hp) as (Hcn & _ & Hck). rewrite Hn in *. cbn [Nat.add] in *.
    pose proof (carried_length fs d) as Hcl.
    assert (H : forall k c, (forall i s', c !! i = Some s' -> exists dst, ColdRequests.next st' !! (k + i)%nat = Some (copy_slot dst s')) ->
      requests (take (length c) (drop k (ColdRequests.next st'))) = requests c).
    { intros k c. revert k. induction c as [|s c IH]; intros k H; [done|].
      destruct (H 0%nat s eq_refl) as [dst E]. rewrite Nat.add_0_r in E.
      rewrite (drop_S _ _ _ E). cbn [length take]. unfold requests in *. rewrite !bind_cons, expand_copy. f_equal.
      apply IH. intros i s' Hi. destruct (H (S i) s' Hi) as [dst' E']. exists dst'. by replace (S k + i)%nat with (k + S i)%nat by lia. }
    rewrite Hcn. apply (H 0%nat). intros i s' Hi. pose proof (lookup_lt_Some _ _ _ Hi) as Hlt.
    destruct (lookup_lt_is_Some_2 (ColdRequests.next st) i ltac:(lia)) as [dst Hdst].
    exists dst. by apply Hck. }
  rewrite Hhit, Hnext, <- (pass_expand _ _ _ _ _ _ _ _ Hp). rewrite (split_fates fs d) at 1 by lia.
  by rewrite !requests_app, Hsent.
Qed.

Lemma on_key_perm (l l' : list (Z * bool)) : (forall w, on_key w l = on_key w l') -> l ≡ₚ l'.
Proof.
  intros H. apply (Permutation_count_occ (fun x y => decide (x = y))). intros [w b].
  assert (E : forall l, count_occ (fun x y => decide (x = y)) l (w, b) = count_occ (fun x y => decide (x = y)) (on_key w l) (w, b)).
  { clear. intros l. unfold on_key. induction l as [|[w' b'] l IH]; [done|]. rewrite filter_cons. cbn [count_occ fst].
    destruct (decide (w' = w)) as [-> |Hne].
    - cbn [count_occ]. by rewrite IH.
    - rewrite IH. destruct (decide ((w', b') = (w, b))) as [[= ? ?]|]; done. }
  by rewrite (E l), (E l'), H.
Qed.

(** The refill stops at a read that cannot be merged. *)
Definition refill_overflows (mid lid bpc : Z) (trace : list trace_command) (st : round_state) : Prop :=
  exists n, merge_overflows mid lid 0 bpc trace
    (fill_start 0 (rd_trace_iter st) (rd_next_op_i st) (next_buf st) (rd_hot st) (rd_lat st)) n.

(** The cache answers a read with a read, a write with a write, on the same key. *)
Lemma answered_requests l ans :
  Forall2 served ((fun s => (s_op s, s_resp s)) <$> l) ans ->
  Forall (fun s => ready (s_op s)) l ->
  let l1 := answered l ans in requests (with_ops l1 (as_update <$> (s_op <$> l1))) = requests l.
Proof.
  revert ans. induction l as [|s l IH]; intros ans Ha Hl.
  { apply Forall2_nil_inv_l in Ha as ->. done. }
  rewrite fmap_cons in Ha. apply Forall2_cons_inv_l in Ha as (y & ans' & Hy & Ha & ->).
  apply Forall_cons in Hl as [[_ Hs] Hl]. specialize (IH ans' Ha Hl). unfold answered, requests in *.
  cbn [zip_with length drop app fmap list_fmap with_ops s_op s_resp s_home] in *. rewrite !bind_cons. f_equal; [|exact IH].
  unfold expand_slot, as_update. destruct y as [o r]. unfold served in Hy. cbn [fst snd s_op] in *.
  assert (Hn : forall c, (c = CACHE_OP_GET \/ c = CACHE_OP_PUT) -> (c =? CACHE_OP_BRC) = false) by (by intros c [-> | ->]).
  destruct Hy as [[-> _]|[(_ & -> & _)|(Hp & Hb & Hk & _)]].
  - by rewrite (Hn (opcode (s_op s))) by (destruct Hs as [?|[? _]]; tauto).
  - by rewrite (Hn (opcode (s_op s))) by (destruct Hs as [?|[? _]]; tauto).
  - rewrite Hb, Hp. change (CACHE_OP_BRC =? CACHE_OP_BRC) with true. cbv iota.
    change (opcode (set_opcode CACHE_OP_UPD o) =? CACHE_OP_GET) with false.
    change (CACHE_OP_PUT =? CACHE_OP_GET) with false. cbv iota. by rewrite <- Hk.
Qed.

(** The requests waiting for the next round. *)
Definition waiting_requests (st : round_state) : list (Z * bool) :=
  requests (take (rd_next_op_i st) (next_buf st)).

(** Between two rounds: some commands were read; they and the requests that
    waited are the ones served by the cache, the ones queued for other machines,
    and the ones that wait now. *)
Definition accounts (trace : list trace_command) (st st' : round_state) : Prop :=
  exists m, rd_trace_iter st' = Nat.iter m (next_iter trace) (rd_trace_iter st) /\
    waiting_requests st ++ (cmd_request <$> commands trace (rd_trace_iter st) m) ≡ₚ
    requests (hit_slots (ops_buf st') (rd_ctx st')) ++ requests (sent_slots (ops_buf st') (rd_ctx st')) ++
    waiting_requests st'.

Section rounds.
Context (mid lid gid bpc : Z) (trace : list trace_command).
Context (Htr : trace_for mid trace) (Hgid : is_u32 gid).

(** Filling and probing. *)
Lemma round_fill F st :
  core_ok mid trace F st ->
  let r := batch_from_trace_to_cache mid lid 0 bpc trace (rd_trace_iter st) (rd_next_op_i st) (next_buf st)
             (rd_hot st) (rd_lat st) (rd_kv st) in
  (exists f kv F', r = Done (f, kv) /\ (trace_iter f < length trace)%nat /\
     coupled entry_wf kv F' /\ objects_ok F' /\ length (slots f) = length (next_buf st) /\
     let l2 := with_ops (slots f) (as_update <$> (s_op <$> slots f)) in
     length l2 = length (slots f) /\ Forall (answered_slot mid) l2 /\ Forall (from_trace trace) l2 /\
     exists m, trace_iter f = Nat.iter m (next_iter trace) (rd_trace_iter st) /\
       waiting_requests st ++ (cmd_request <$> commands trace (rd_trace_iter st) m) ≡ₚ requests l2) \/
  (r = AssertFailed /\ refill_overflows mid lid bpc trace st).
Proof using Htr.
  intros Hc. unfold batch_from_trace_to_cache. destruct Htr as [Ht Hhome].
  destruct (fill_batch_ok mid lid 0 bpc trace (rd_trace_iter st) (rd_next_op_i st) (next_buf st) (rd_hot st) (rd_lat st))
    as (m & Hr); [done|apply Hc|apply Hc|apply Hc|apply Hc| |by left|].
  { apply forallb_forall. intros s Hs%list_elem_of_In. apply list_elem_of_lookup in Hs as [p Hs].
    apply lookup_take_Some in Hs as [Hs Hp]. apply (waiting_carried mid). by apply (co_wait _ _ _ _ Hc p). }
  set (st0 := fill_start 0 _ _ _ _ _) in Hr.
  assert (E1 : trace_iter st0 = rd_trace_iter st) by done. assert (E2 : fill_i st0 = rd_next_op_i st) by done.
  assert (E3 : slots st0 = next_buf st) by done.
  destruct Hr as [(f & E & Hfd)|[E Hov]].
  2:{ right. rewrite E. split; [done|]. by exists m. }
  clearbody st0.
  left. rewrite E. cbn [obind]. pose proof (filled_all _ _ _ _ Ht Hfd) as Hall.
  pose proof (fi_len _ _ (fd_inv _ _ _ _ Hfd)) as Hlen. pose proof (co_next _ _ _ _ Hc) as Hlen0.
  assert (Hfs : Forall (filled_slot mid) (slots f)).
  { apply (filled_slots_ok mid trace st0 f m); try done.
    - rewrite E1. apply Hc.
    - rewrite E2, E3. apply Hc.
    - rewrite E3. lia. }
  rewrite Hall, firstn_all. change (DISABLE_CACHE =? 0) with true. change (0 =? 1) with false. cbv iota.
  destruct (sc_batch_ok mid (rd_kv st) F ((fun s => (s_op s, s_resp s)) <$> slots f))
    as (kv & F' & ans & Eb & Hc' & HF' & Hserved); [apply Hc|apply Hc| |].
  { apply Forall_fmap, (Forall_impl _ _ _ Hfs). intros s (_ & Hrd & _). exact Hrd. }
  rewrite Eb. cbn [obind]. destruct (answered_all mid (slots f) ans Hfs Hserved) as (Hretry & Hl1 & Hl2 & Hans).
  rewrite Hretry. cbn [c_assert obind]. eexists _, kv, F'. split; [reflexivity|].
  cbn [trace_iter slots]. split; [apply (fd_inv _ _ _ _ Hfd)|]. split_and!; try done; try lia.
  { apply answered_from; [|done]. apply (filled_from trace st0 f m); try done.
    - rewrite E1. apply Hc.
    - rewrite E2, E3. apply Hc.
    - rewrite E3. lia. }
  exists m. split; [by rewrite (fd_it _ _ _ _ Hfd), E1|]. rewrite (answered_requests (slots f) ans Hserved).
  - apply on_key_perm. intros w. pose proof (fd_reqs _ _ _ _ Hfd w) as Hw.
    rewrite Hall, firstn_all, E1, E2, E3 in Hw. by rewrite Hw, on_key_app.
  - apply (Forall_impl _ _ _ Hfs). by intros s (_ & Hrd & _).
Qed.

Lemma transit_only_queued c c' : only_queued c c' -> transit_ok c -> transit_ok c'.
Proof using Type.
  intros (_ & _ & H1 & H2 & H3) [T1 T2 T3].
  split; [by rewrite H1|by rewrite H2|]. rewrite H3, T3. unfold in_use. by rewrite H1, H2.
Qed.

Lemma transit_set_cbatch l n c : transit_ok c -> transit_ok (set_cbatch l n c).
Proof using Type. intros []. by split. Qed.

(** The buffers after the swap are two of those before it. *)
Lemma swapped_bufs F st :
  core_ok mid trace F st ->
  exists nx th, swap_ops (ops_buf st) (next_buf st) (third_buf st) = (next_buf st, nx, th) /\
    Z.of_nat (length nx) = CACHE_BATCH_SIZE /\ Forall (fun s => op_fits (s_op s)) nx /\
    Z.of_nat (length th) = CACHE_BATCH_SIZE /\ Forall (fun s => op_fits (s_op s)) th.
Proof using Type.
  intros Hc. destruct (swap_ops_ok (ops_buf st) (next_buf st) (third_buf st)) as (nx & th & E & H).
  exists nx, th. split; [done|]. destruct H as [[-> ->]|[-> ->]]; split_and!; apply Hc.
Qed.

(** What missed is a request its home machine can serve. *)
Lemma misses_served F0 l :
  homes_hold F0 trace -> Forall (answered_slot mid) l -> Forall (from_trace trace) l ->
  Forall (fun s => is_miss s = true ->
    is_request (s_op s) /\ answerable (F0 (kh_machine (s_home s))) (s_op s)) l.
Proof using Type.
  intros HF0 Hans Hfrom. apply Forall_lookup_2. intros i s Hs Hmiss. apply (ready_served F0 trace); [done| |].
  - by apply (Forall_lookup_1 _ _ _ _ Hfrom Hs).
  - destruct (Forall_lookup_1 _ _ _ _ Hans Hs) as (_ & _ & [[_ H]|[[H _]|[H _]]]); [done| |];
      unfold is_miss in Hmiss; by rewrite H in Hmiss.
Qed.

Lemma collect_ok F st :
  core_ok mid trace F st -> queues_empty (rd_ctx st) ->
  (exists st' F', collect mid lid gid bpc trace st = Done st' /\ core_ok mid trace F' st' /\
     (forall rm, rm ∉ machines \/ rm = mid -> batch (rd_ctx st') rm = []) /\
     reqs_in_transit (rd_ctx st') = reqs_in_transit (rd_ctx st) /\
     (forall rm, rm ∈ machines -> Z.of_nat (length (batch (rd_ctx st') rm)) <= KVS_BATCH) /\
     accounts trace st st' /\
     forall F0, homes_hold F0 trace ->
       work_for F0 mid (mkWork (s_op <$> ops_buf st') (cbatch (rd_ctx st')) (batch (rd_ctx st')))) \/
  (collect mid lid gid bpc trace st = AssertFailed /\ refill_overflows mid lid bpc trace st).
Proof using Htr Hgid.
  intros Hc [Hq1 Hq2]. unfold collect.
  destruct (swapped_bufs F st Hc) as (nx & th & -> & Hnl & Hnf & Htl & Htf).
  destruct (round_fill F st Hc) as [(f & kv & F' & E & Hit & Hc' & HF' & Hl & Hl2 & Hans & Hfrom & m & Hm & Hreq)|[E Hbad]].
  2:{ right. by rewrite E. }
  left. rewrite E. cbn [obind]. change ((0 <? WRITE_RATIO) && (DISABLE_CACHE =? 0)) with true. cbv iota.
  pose proof (co_next _ _ _ _ Hc) as Hlen.
  unfold perform_broadcasts_SC. destruct (bcast_SC_loop_ok 0 (s_op <$> slots f) (rd_ctx st) (rd_ring st)) as (b' & Eb & Hb').
  { rewrite Hq1, length_fmap. cbn [length]. lia. }
  { apply Hc. }
  rewrite Eb. cbn [obind].
  match goal with |- context [with_ops (slots f) (as_update <$> (s_op <$> slots f))] =>
    set (l2 := with_ops (slots f) (as_update <$> (s_op <$> slots f))) in * end.
  match goal with |- context [mkPass nx 0 _ _ _ 0 0 _ _ ?x] => set (c1 := x) in * end.
  assert (Hc1 : transit_ok c1 /\ batch c1 = batch (rd_ctx st) /\ reqs_in_transit c1 = reqs_in_transit (rd_ctx st)).
  { unfold c1. destruct (brc_positions _ _); [split; [apply Hc|done]|].
    split; [apply transit_set_cbatch, Hc|done]. }
  clearbody c1. destruct Hc1 as (Hc1 & Hb1 & Hrt).
  set (p0 := mkPass nx 0 _ _ _ 0 0 _ _ c1).
  assert (Hok : Forall (slot_ok SEQUENTIAL_CONSISTENCY mid lid) l2) by (apply (Forall_impl _ _ _ Hans); intros s; apply answered_slot_ok).
  assert (Hp0 : forall rm, batch (ctx p0) rm = []) by (intros rm; unfold p0; simpl; by rewrite Hb1).
  destruct (cold_pass_ok SEQUENTIAL_CONSISTENCY mid lid gid l2 p0 Hok Hp0 ltac:(done)) as (fs & l3 & p & Ep & Hpass & Hcap).
  rewrite Ep. cbn [obind].
  assert (Hl2f : Forall (fun s => op_fits (s_op s)) l2) by (apply (Forall_impl _ _ _ Hans); by intros s [H _]).
  destruct (pass_keeps_fits _ _ _ _ _ _ _ _ Hgid Hpass Hl2f Hnf) as (Hl3f & Hnf' & Hnl').
  destruct (pass_length _ _ _ _ _ _ _ _ Hpass) as [_ Hl3].
  destruct (pass_carried _ _ _ _ _ _ _ _ Hpass) as (Hcn & _ & _). pose proof (carried_length fs l3) as Hcl.
  cbn [p0 ColdRequests.next next_op_i Nat.add] in Hnl', Hcn.
  eexists _, F'. split; [reflexivity|]. cbn [rd_ctx]. split; [|split; [|split; [|split; [exact Hcap|split]]]].
  5:{ intros F0 HF0. apply (pass_work_for SEQUENTIAL_CONSISTENCY mid lid gid F0 l2 p0 l3 p); try done.
      by apply misses_served. }
  4:{ exists m. split; [exact Hm|]. rewrite Hreq. unfold waiting_requests. cbn [ops_buf rd_ctx rd_next_op_i next_buf].
      apply (pass_accounts SEQUENTIAL_CONSISTENCY mid lid gid l2 fs l3 p0 p Hpass); [exact Hok|exact Hp0|done|].
      unfold p0. cbn [ColdRequests.next]. lia. }
  3:{ destruct (pass_only_queues _ _ _ _ _ _ _ _ Hpass) as (_ & _ & _ & _ & ->). exact Hrt. }
  - split; simpl; try done; try lia.
    + apply (pass_waiting mid gid l2 fs l3 p0 p); try done. unfold p0. cbn [ColdRequests.next]. lia.
    + apply (pass_from SEQUENTIAL_CONSISTENCY gid trace l2 fs l3 p0 p); try done. unfold p0. cbn [ColdRequests.next]. lia.
    + exact (transit_only_queued _ _ (pass_only_queues _ _ _ _ _ _ _ _ Hpass) Hc1).
  - intros rm Hrm. rewrite (pass_other_queue _ _ _ _ _ _ _ _ rm Hpass).
    + unfold p0. cbn [ctx]. by rewrite Hb1.
    + apply (Forall_impl _ _ _ Hans). intros s (_ & [Hmm Hne] & _) _ Eq. rewrite Eq in *. by destruct Hrm.
Qed.
End rounds.

(** ** Sending empties the queues *)
Lemma send_data_loop_queues mid ops rms c c' s :
  send_data_loop mid ops rms c = Done (c', s) ->
  cbatch c' = cbatch c /\
  forall rm, batch c' rm = if bool_decide (rm ∈ rms /\ rm <> mid) then [] else batch c rm.
Proof.
  revert c s. induction rms as [|x rms IH]; intros c s E; cbn [send_data_loop] in E.
  { injection E as <- _. split; [done|]. intros rm. rewrite bool_decide_false; [done|].
    intros [H _]. by apply elem_of_nil in H. }
  apply obind_Done_inv in E as ([c1 s1] & E1 & E). apply obind_Done_inv in E as ([c2 s2] & E2 & E).
  injection E as <- _. destruct (IH c1 s2 E2) as [Hcb Hb].
  assert (H1 : cbatch c1 = cbatch c /\ forall rm, batch c1 rm = if bool_decide (rm = x /\ rm <> mid) then [] else batch c rm).
  { unfold send_data_packet in E1. destruct (Z.eqb_spec x mid) as [-> |Hne]; cbn [negb andb] in E1.
    - injection E1 as <- _. split; [done|]. intros rm. rewrite bool_decide_false; [done|]. by intros [-> ?].
    - destruct (Z.ltb_spec 0 (Z.of_nat (length (batch c x)))) as [Hl|Hl].
      + destruct (bufferused c x =? 0); [|done]. injection E1 as <- _. split; [done|]. intros rm. simpl. unfold fupd.
        destruct (Z.eqb_spec rm x) as [-> |Hr]; [by rewrite bool_decide_true|].
        rewrite bool_decide_false; [done|]. by intros [-> _].
      + injection E1 as <- _. split; [done|]. intros rm. case_bool_decide as Hr; [|done]. destruct Hr as [-> _].
        destruct (batch c x); [done|]. simpl in Hl. lia. }
  destruct H1 as [Hcb1 Hb1]. split; [congruence|]. intros rm. rewrite Hb, Hb1.
  repeat case_bool_decide; try done; exfalso; set_solver.
Qed.

Lemma send_cache_loop_queues mid pkt rms c c' s :
  send_cache_loop mid pkt rms c = Done (c', s) -> batch c' = batch c.
Proof.
  revert c s. induction rms as [|x rms IH]; intros c s E; cbn [send_cache_loop] in E.
  { by injection E as <- _. }
  apply obind_Done_inv in E as ([c1 s1] & E1 & E). apply obind_Done_inv in E as ([c2 s2] & E2 & E).
  injection E as <- _. rewrite (IH c1 s2 E2). unfold send_cache_packet in E1.
  destruct (x =? mid); [by injection E1 as <- _|].
  destruct (cache_bufferused c x =? 0); [|done]. by injection E1 as <- _.
Qed.

Lemma send_round_queues mid ops c c' s :
  send_round mid ops c = Done (c', s) ->
  (forall rm, rm ∉ machines \/ rm = mid -> batch c rm = []) -> queues_empty c'.
Proof.
  intros E Hb. unfold send_round in E. apply obind_Done_inv in E as ([c1 s1] & E1 & E).
  apply obind_Done_inv in E as ([c2 s2] & E2 & E). injection E as <- _.
  destruct (send_data_loop_queues _ _ _ _ _ _ E2) as [Hcb Hbt].
  assert (H1 : cbatch c1 = [] /\ batch c1 = batch c).
  { unfold broadcast_cache_ops in E1. destruct (cbatch c) as [|i l] eqn:Ec; [by injection E1 as <- _|].
    apply obind_Done_inv in E1 as ([c3 s3] & E3 & E1). injection E1 as <- _. split; [done|].
    simpl. by apply send_cache_loop_queues in E3. }
  destruct H1 as [H1 H2]. split; [congruence|]. intros rm. rewrite Hbt, H2.
  case_bool_decide as Hr; [done|]. apply Hb.
  destruct (decide (rm ∈ machines)); [|by left]. destruct (decide (rm = mid)); [by right|]. exfalso. by apply Hr.
Qed.

Lemma responds_queues c c' : rtc respond c c' -> cbatch c' = cbatch c /\ batch c' = batch c.
Proof. induction 1 as [|c c1 c' Hs _ [IH1 IH2]]; [done|]. rewrite IH1, IH2. by destruct Hs. Qed.

(** ** Why a round can fail to send: a buffer still in use *)
Lemma send_cache_loop_cases mid pkt rms c :
  NoDup rms ->
  (exists x, send_cache_loop mid pkt rms c = Done x) \/
  exists rm, rm ∈ rms /\ rm <> mid /\ cache_bufferused c rm <> 0.
Proof.
  intros Hnd. revert c. induction Hnd as [|x rms Hx _ IH]; intros c; [left; by eexists|].
  cbn [send_cache_loop]. unfold send_cache_packet. destruct (Z.eqb_spec x mid) as [-> |Hne].
  - cbn [obind]. destruct (IH c) as [[[c' s] ->]|(rm & ? & ? & ?)]; [left; by eexists|].
    right. exists rm. split; [by right|done].
  - destruct (Z.eqb_spec (cache_bufferused c x) 0) as [Hf|Hu]; cbn [c_assert obind].
    2:{ right. exists x. split; [left|done]. }
    match goal with |- context [send_cache_loop _ _ _ ?y] => destruct (IH y) as [[[c' s] ->]|(rm & Hrm & Hm & Hb)] end;
      [left; by eexists|].
    right. exists rm. split; [by right|]. split; [done|]. cbn [cache_bufferused] in Hb. by rewrite fupd_ne in Hb by (intros ->; done).
Qed.

Lemma send_data_loop_cases mid ops rms c :
  NoDup rms ->
  (exists x, send_data_loop mid ops rms c = Done x) \/
  exists rm, rm ∈ rms /\ rm <> mid /\ batch c rm <> [] /\ bufferused c rm <> 0.
Proof.
  intros Hnd. revert c. induction Hnd as [|x rms Hx _ IH]; intros c; [left; by eexists|].
  cbn [send_data_loop]. unfold send_data_packet.
  destruct (negb (x =? mid) && (0 <? Z.of_nat (length (batch c x)))) eqn:Eb.
  - apply andb_true_iff in Eb as [Hne Hl]. apply negb_true_iff, Z.eqb_neq in Hne. apply Z.ltb_lt in Hl.
    destruct (Z.eqb_spec (bufferused c x) 0) as [Hf|Hu]; cbn [c_assert obind].
    2:{ right. exists x. split; [left|]. split; [done|]. split; [|done]. intros E. rewrite E in Hl. simpl in Hl. lia. }
    match goal with |- context [send_data_loop _ _ _ ?y] => destruct (IH y) as [[[c' s] ->]|(rm & Hrm & Hm & Hb & Hu)] end;
      [left; by eexists|].
    right. exists rm. split; [by right|]. cbn [batch bufferused] in Hb, Hu.
    rewrite fupd_ne in Hb by (intros ->; done). rewrite fupd_ne in Hu by (intros ->; done). done.
  - cbn [obind]. destruct (IH c) as [[[c' s] ->]|(rm & ? & ?)]; [left; by eexists|].
    right. exists rm. split; [by right|done].
Qed.

(** Some packet has to be put into a buffer whose last packet is unanswered. *)
Definition buffer_busy (mid : Z) (c : client_ctx) : Prop :=
  exists rm, rm ∈ machines /\ rm <> mid /\
    ((cbatch c <> [] /\ cache_bufferused c rm <> 0) \/ (batch c rm <> [] /\ bufferused c rm <> 0)).

Lemma broadcast_keeps mid ops c c' s :
  broadcast_cache_ops mid ops c = Done (c', s) -> batch c' = batch c /\ bufferused c' = bufferused c.
Proof.
  assert (Hloop : forall pkt rms c c1 s1, send_cache_loop mid pkt rms c = Done (c1, s1) ->
    batch c1 = batch c /\ bufferused c1 = bufferused c).
  { clear. intros pkt rms. induction rms as [|x rms IH]; intros c c1 s1 E1; cbn [send_cache_loop] in E1; [by injection E1 as <- _|].
    apply obind_Done_inv in E1 as ([c2 s2] & E2 & E1). apply obind_Done_inv in E1 as ([c3 s3] & E3 & E1).
    injection E1 as <- _. destruct (IH c2 c3 s3 E3) as [-> ->]. unfold send_cache_packet in E2.
    destruct (x =? mid); [by injection E2 as <- _|]. destruct (cache_bufferused c x =? 0); [|done]. by injection E2 as <- _. }
  unfold broadcast_cache_ops. destruct (cbatch c); [by intros [= <- _]|]. intros E.
  apply obind_Done_inv in E as ([c1 s1] & E1 & E). injection E as <- _. by apply (Hloop _ _ _ _ _ E1).
Qed.

Lemma send_round_cases mid ops c :
  transit_ok c -> (exists c' s, send_round mid ops c = Done (c', s) /\ transit_ok c') \/ buffer_busy mid c.
Proof.
  intros Hc. unfold send_round.
  assert (H1 : (exists c1 s1, broadcast_cache_ops mid ops c = Done (c1, s1)) \/ buffer_busy mid c).
  { unfold broadcast_cache_ops, buffer_busy. destruct (cbatch c) eqn:Ec; [left; by eexists _, _|].
    destruct (send_cache_loop_cases mid (cache_packet c ops) machines c machines_NoDup) as [[[c1 s1] ->]|(rm & Hrm & Hm & Hb)].
    - left. by eexists _, _.
    - right. exists rm. split; [done|]. split; [done|]. by left. }
  destruct H1 as [(c1 & s1 & E1)|H1]; [|by right]. rewrite E1. cbn [obind].
  destruct (broadcast_keeps _ _ _ _ _ E1) as [Eb Eu]. pose proof (broadcast_transit _ _ _ _ _ Hc E1) as Hc1.
  unfold send_requests. destruct (send_data_loop_cases mid ops machines c1 machines_NoDup) as [[[c2 s2] E2]|(rm & Hrm & Hm & Hb & Hu)].
  - left. rewrite E2. cbn [obind]. eexists _, _. split; [reflexivity|]. by eapply send_data_loop_transit.
  - right. rewrite Eb in Hb. rewrite Eu in Hu. exists rm. split; [done|]. split; [done|]. by right.
Qed.

Lemma idle_not_busy mid c : transit_ok c -> ~ 0 < reqs_in_transit c -> ~ buffer_busy mid c.
Proof.
  intros Hc Hi (rm & Hrm & _ & [[_ H]|[_ H]]); destruct (idle_free c Hc Hi rm Hrm); by apply H.
Qed.

Section run.
Context (mid lid gid bpc : Z) (trace : list trace_command).
Context (Htr : trace_for mid trace) (Hgid : is_u32 gid).

Lemma core_set_ctx F st c : transit_ok c -> core_ok mid trace F st -> core_ok mid trace F (set_ctx c st).
Proof using Type. intros Hc []. by split. Qed.

Lemma core_set_kv F F' st kv :
  coupled entry_wf kv F' -> objects_ok F' -> core_ok mid trace F st -> core_ok mid trace F' (set_kv kv st).
Proof using Type. intros Hc HF []. by split. Qed.

(** What the event loop leaves alone. *)
Definition same_loop (st st' : round_state) : Prop :=
  st' = set_kv (rd_kv st') (set_ctx (rd_ctx st') st) /\ cbatch (rd_ctx st') = cbatch (rd_ctx st) /\
  batch (rd_ctx st') = batch (rd_ctx st).

(** A packet of updates is always applied. *)
Lemma incoming_ok F kv m p rs pkt :
  coupled entry_wf kv F -> objects_ok F -> incoming kv m p rs pkt ->
  exists kv' m' res F', req_cache kv m p rs pkt = Done (kv', m', res) /\ coupled entry_wf kv' F' /\ objects_ok F'.
Proof using Type.
  intros Hc HF (Hm & Hne & Hrs & upd & upds & -> & Hu & Hus & Hst). destruct rs as [|r rs]; [done|].
  destruct (updates_received kv F m p r rs upd upds) as (kv' & res & E & Hc' & _); try done.
  { intros e He. by apply (HF _ _ He). }
  exists kv', (store_bytes m p (updates_packet (upd :: upds))), res, (updated upd F). split; [done|]. split; [done|].
  intros k e. unfold updated. destruct (F (key_word upd)) as [e0|] eqn:E0; [|apply HF].
  unfold fupd. zcase; [|apply HF]. intros [= <-]. split.
  - apply (cp_inv _ _ _ Hc' (key_word upd)). unfold updated. by rewrite E0, fupd_eq.
  - unfold apply_update. destruct (HF _ _ E0). by destruct (ts_ltb _ _).
Qed.

Lemma event_ok F st st' :
  core_ok mid trace F st -> event st st' -> (exists F', core_ok mid trace F' st') /\ same_loop st st'.
Proof using Type.
  intros Hc [c Hr|m p rs pkt kv' m' res Hin E|kv' F' Hk HF].
  - split; [exists F; apply core_set_ctx; [|done]; by apply (respond_ok _ _ (co_transit _ _ _ _ Hc))|].
    split; [by destruct st|by destruct Hr].
  - destruct (incoming_ok F (rd_kv st) m p rs pkt) as (kv2 & m2 & res2 & F' & E' & Hk & HF); [apply Hc|apply Hc|done|].
    rewrite E in E'. injection E' as <- <- <-. split; [exists F'; by apply (core_set_kv F)|]. by destruct st.
  - split; [exists F'; by apply (core_set_kv F)|]. by destruct st.
Qed.

Lemma same_loop_trans st1 st2 st3 : same_loop st1 st2 -> same_loop st2 st3 -> same_loop st1 st3.
Proof using Type.
  intros (E1 & H1 & H2) (E2 & H3 & H4). split; [|split; congruence]. rewrite E2 at 1. rewrite E1. done.
Qed.

Lemma events_ok F st st' :
  core_ok mid trace F st -> rtc event st st' -> (exists F', core_ok mid trace F' st') /\ same_loop st st'.
Proof using Type.
  intros Hc Hr. revert F Hc. induction Hr as [st|st st1 st2 He _ IH]; intros F Hc.
  { split; [by exists F|]. by destruct st. }
  destruct (event_ok F st st1 Hc He) as [[F1 Hc1] Hs]. destruct (IH F1 Hc1) as [H1 H2].
  split; [done|]. by eapply same_loop_trans.
Qed.

Lemma waited_ok F st st' prev :
  core_ok mid trace F st -> waited prev st st' ->
  (exists F', core_ok mid trace F' st') /\ same_loop st st' /\ (0 < prev -> ~ buffer_busy mid (rd_ctx st')) /\
  (~ 0 < prev -> st' = st).
Proof using Type.
  intros Hc Hw. unfold waited in Hw. destruct (Z.ltb_spec 0 prev) as [Hp|Hp].
  - destruct Hw as [Hr Hi]. destruct (events_ok F st st' Hc Hr) as [[F' Hc'] Hs].
    split; [by exists F'|]. split; [done|]. split; [|lia]. intros _. apply idle_not_busy; [apply Hc'|done].
  - subst st'. split; [by exists F|]. split; [by destruct st|]. split; [lia|done].
Qed.

(** Answers can be picked up until none is missing. *)
Lemma responds_events st c : rtc respond (rd_ctx st) c -> rtc event st (set_ctx c st).
Proof using Type.
  intros Hr. remember (rd_ctx st) as c0 eqn:E. revert st E.
  induction Hr as [c0|c0 c1 c2 Hs _ IH]; intros st ->; [destruct st; constructor|].
  eapply rtc_l; [by apply event_answer|]. change (set_ctx c2 st) with (set_ctx c2 (set_ctx c1 st)). by apply IH.
Qed.

Lemma waits_end F st prev : core_ok mid trace F st -> exists st', waited prev st st'.
Proof using Type.
  intros Hc. unfold waited. destruct (0 <? prev); [|by eexists].
  destruct (wait_ends (rd_ctx st)) as (c & Hr & Hi); [apply Hc|]. exists (set_ctx c st).
  split; [by apply responds_events|done].
Qed.

Lemma no_event_fails F st : core_ok mid trace F st -> ~ event_fails st.
Proof using Type.
  intros Hc (m & p & rs & pkt & Hin & Hf).
  destruct (incoming_ok F (rd_kv st) m p rs pkt) as (kv & m' & res & F' & E & _); [apply Hc|apply Hc|done|].
  by apply (Hf _ E).
Qed.

(** After the sending the queues are empty. *)
Lemma round_sent F st1 st2 c sent :
  core_ok mid trace F st2 -> same_loop st1 st2 -> (forall rm, rm ∉ machines \/ rm = mid -> batch (rd_ctx st1) rm = []) ->
  send_round mid (s_op <$> ops_buf st2) (rd_ctx st2) = Done (c, sent) ->
  core_ok mid trace F (set_ctx c st2) /\ queues_empty c.
Proof using Type.
  intros Hc (_ & _ & Eb) Hb Es. split.
  - apply core_set_ctx; [|done]. destruct (send_round_cases mid (s_op <$> ops_buf st2) (rd_ctx st2)) as [(c' & s' & E & Ht)|Hbusy];
      [apply Hc|congruence|].
    unfold send_round in Es. apply obind_Done_inv in Es as ([ca sa] & E1 & Es).
    apply obind_Done_inv in Es as ([cb sb] & E2 & Es). injection Es as <- _.
    eapply send_data_loop_transit; [|by intros ? ?|exact E2]. eapply broadcast_transit; [apply Hc|exact E1].
  - apply (send_round_queues _ _ _ _ _ Es). by rewrite Eb.
Qed.

Lemma events_end F st st' :
  core_ok mid trace F st -> queues_empty (rd_ctx st) -> rtc event st st' ->
  (exists F', core_ok mid trace F' st') /\ queues_empty (rd_ctx st').
Proof using Type.
  intros Hc [Hq1 Hq2] Hr. destruct (events_ok F st st' Hc Hr) as [H (_ & E1 & E2)]. split; [done|].
  split; [congruence|by rewrite E2].
Qed.

(** The wait was skipped and a buffer is needed whose packet is unanswered. *)
Definition wait_skipped (st : round_state) : Prop :=
  rd_wr_i st <= 0 /\ exists st1, collect mid lid gid bpc trace st = Done st1 /\ buffer_busy mid (rd_ctx st1).

Lemma round_exists F st :
  core_ok mid trace F st -> queues_empty (rd_ctx st) -> exists o, round mid lid gid bpc trace st o.
Proof using Htr Hgid.
  intros Hc Hq. destruct (collect_ok mid lid gid bpc trace Htr Hgid F st Hc Hq) as [(st1 & F' & E & Hc1 & _)|[E _]].
  2:{ eexists. by apply round_collect_abort. }
  destruct (waits_end F' st1 (rd_wr_i st) Hc1) as [st2 Hw].
  destruct (send_round mid (s_op <$> ops_buf st2) (rd_ctx st2)) as [[c sent]| |] eqn:Es.
  - eexists. eapply round_ok; [exact E|exact Hw|exact Es|constructor].
  - eexists. eapply round_send_abort; [exact E|exact Hw|]. intros x Hx. congruence.
  - eexists. eapply round_send_abort; [exact E|exact Hw|]. intros x Hx. congruence.
Qed.

Lemma round_outcomes F st o :
  core_ok mid trace F st -> queues_empty (rd_ctx st) -> round mid lid gid bpc trace st o ->
  (exists st' F', o = Done st' /\ core_ok mid trace F' st' /\ queues_empty (rd_ctx st')) \/
  (o = AssertFailed /\ (refill_overflows mid lid bpc trace st \/ wait_skipped st)).
Proof using Htr Hgid.
  intros Hc Hq Hr. destruct (collect_ok mid lid gid bpc trace Htr Hgid F st Hc Hq) as [(st1 & F1 & E & Hc1 & Hb & _)|[E Hbad]].
  2:{ destruct Hr; try congruence. right. split; [done|by left]. }
  destruct Hr as [st1' st2 c sent st3 E' Hw Es Hev|E'|E'|st1' st2 E' Hp Hev Hf|st1' st2 E' Hw Hs|st1' st2 c sent st3 E' Hw Es Hev Hf];
    rewrite E in E'; try discriminate E'; injection E' as <-.
  - left. destruct (waited_ok F1 st1 st2 _ Hc1 Hw) as ([F2 Hc2] & Hs & _).
    destruct (round_sent F2 st1 st2 c sent Hc2 Hs Hb Es) as [Hc3 Hq3].
    destruct (events_end F2 _ _ Hc3 Hq3 Hev) as [[F3 Hc4] Hq4]. by exists st3, F3.
  - exfalso. destruct (events_ok F1 st1 st2 Hc1 Hev) as [[F2 Hc2] _]. by apply (no_event_fails F2 st2).
  - right. split; [done|]. right. destruct (waited_ok F1 st1 st2 _ Hc1 Hw) as ([F2 Hc2] & _ & Hpos & Hneg).
    destruct (send_round_cases mid (s_op <$> ops_buf st2) (rd_ctx st2)) as [(c' & s' & Es & _)|Hbusy];
      [apply Hc2|exfalso; by apply (Hs _ Es)|].
    destruct (Z.lt_ge_cases 0 (rd_wr_i st)) as [Hp|Hp]; [exfalso; by apply Hpos|].
    split; [done|]. exists st1. split; [done|]. by rewrite (Hneg ltac:(lia)) in Hbusy.
  - exfalso. destruct (waited_ok F1 st1 st2 _ Hc1 Hw) as ([F2 Hc2] & Hs & _).
    destruct (round_sent F2 st1 st2 c sent Hc2 Hs Hb Es) as [Hc3 Hq3].
    destruct (events_end F2 _ _ Hc3 Hq3 Hev) as [[F3 Hc4] _]. by apply (no_event_fails F3 st3).
Qed.
End run.


(** ** Requests over many rounds *)

(** Rounds that completed, with the requests served by the cache and the ones
    sent to other machines. *)
Inductive rounds_log (mid lid gid bpc : Z) (trace : list trace_command)
    : round_state -> list slot -> list slot -> round_state -> Prop :=
| log_nil st : rounds_log mid lid gid bpc trace st [] [] st
| log_round st st1 st2 c packets st3 hits sent st' :
    collect mid lid gid bpc trace st = Done st1 -> waited (rd_wr_i st) st1 st2 ->
    send_round mid (s_op <$> ops_buf st2) (rd_ctx st2) = Done (c, packets) -> rtc event (set_ctx c st2) st3 ->
    rounds_log mid lid gid bpc trace st3 hits sent st' ->
    rounds_log mid lid gid bpc trace st
      (hit_slots (ops_buf st1) (rd_ctx st1) ++ hits) (sent_slots (ops_buf st1) (rd_ctx st1) ++ sent) st'.

Lemma commands_add trace it m n :
  commands trace it (m + n) = commands trace it m ++ commands trace (Nat.iter m (next_iter trace) it) n.
Proof.
  revert it. induction m as [|m IH]; intros it; [done|]. cbn [Nat.add commands app]. rewrite IH.
  do 2 f_equal. by rewrite iter_next_comm.
Qed.

Lemma iter_add {A} (f : A -> A) m n x : Nat.iter n f (Nat.iter m f x) = Nat.iter (m + n) f x.
Proof. induction n as [|n IH]; [by rewrite Nat.add_0_r|]. rewrite Nat.add_succ_r. simpl. by rewrite IH. Qed.

(** The accounts of consecutive rounds add up. *)
Lemma accounts_add trace it W n1 h1 s1 W1 n2 h2 s2 W2 :
  W ++ (cmd_request <$> commands trace it n1) ≡ₚ requests h1 ++ requests s1 ++ W1 ->
  W1 ++ (cmd_request <$> commands trace (Nat.iter n1 (next_iter trace) it) n2) ≡ₚ requests h2 ++ requests s2 ++ W2 ->
  W ++ (cmd_request <$> commands trace it (n1 + n2)) ≡ₚ requests (h1 ++ h2) ++ requests (s1 ++ s2) ++ W2.
Proof.
  intros H1 H2. rewrite commands_add, fmap_app, app_assoc, H1, !requests_app, <- !app_assoc, H2.
  apply Permutation_app_head. rewrite !app_assoc. do 2 apply Permutation_app_tail. apply Permutation_app_comm.
Qed.

Lemma rounds_account mid lid gid bpc trace st hits sent st' :
  trace_for mid trace -> is_u32 gid -> rounds_log mid lid gid bpc trace st hits sent st' ->
  forall F, core_ok mid trace F st -> queues_empty (rd_ctx st) ->
  exists m, rd_trace_iter st' = Nat.iter m (next_iter trace) (rd_trace_iter st) /\
    waiting_requests st ++ (cmd_request <$> commands trace (rd_trace_iter st) m) ≡ₚ
    requests hits ++ requests sent ++ waiting_requests st'.
Proof.
  intros Htr Hg. induction 1 as [st|st st1 st2 c packets st3 hits sent st' E Hw Es Hev _ IH]; intros F Hc Hq.
  { exists 0%nat. split; [done|]. by rewrite app_nil_r. }
  destruct (collect_ok mid lid gid bpc trace Htr Hg F st Hc Hq)
    as [(st1' & F1 & E' & Hc1 & Hb & _ & _ & (m1 & Hi1 & Hacc) & _)|[E' _]]; rewrite E in E'; [|done]. injection E' as <-.
  destruct (waited_ok mid trace F1 st1 st2 _ Hc1 Hw) as ([F2 Hc2] & Hs & _).
  destruct (round_sent mid trace F2 st1 st2 c packets Hc2 Hs Hb Es) as [Hc3 Hq3].
  destruct (events_end mid trace F2 _ _ Hc3 Hq3 Hev) as [[F3 Hc4] Hq4].
  destruct (events_ok mid trace F2 _ _ Hc3 Hev) as [_ (E3 & _)]. destruct Hs as (E2 & _).
  assert (Ei : rd_trace_iter st3 = rd_trace_iter st1) by (rewrite E3, E2; done).
  assert (Ew : waiting_requests st3 = waiting_requests st1) by (rewrite E3, E2; done).
  destruct (IH F3 Hc4 Hq4) as (m2 & Hi2 & Hacc2). rewrite Ei, Ew in *.
  exists (m1 + m2)%nat. split; [by rewrite Hi2, Hi1, iter_add|].
  eapply accounts_add; [exact Hacc|]. by rewrite <- Hi1.
Qed.

(** C10: no command of the trace is lost or repeated.  Over any number of
    completed rounds of the SC client, the commands read from the trace (with
    the requests that waited at the start) are, as a collection, exactly the
    requests answered by the cache, the requests sent to other machines and the
    requests still waiting for the next round; a merged read counts once for
    each command it stands for. *)
Theorem sc_requests_conserved mid lid gid bpc trace F st hits sent st' :
  trace_for mid trace -> is_u32 gid -> core_ok mid trace F st -> queues_empty (rd_ctx st) ->
  rounds_log mid lid gid bpc trace st hits sent st' ->
  exists m, rd_trace_iter st' = Nat.iter m (next_iter trace) (rd_trace_iter st) /\
    waiting_requests st ++ (cmd_request <$> commands trace (rd_trace_iter st) m) ≡ₚ
    requests hits ++ requests sent ++ waiting_requests st'.
Proof. intros Htr Hg Hc Hq Hl. by eapply rounds_account. Qed.

(** ** The first round of client 1 on machine 0, with the demonstration cache. *)
Definition demo_round : round_state :=
  mkRound demo_batch_slots demo_batch_slots demo_batch_slots 0 0 (fun _ => 0) (mkLat NO_REQ 0) 0 (fun _ => 0)
    demo_cache idle_ctx (mkRing (fun _ => s_op empty_slot) 0) 0.

Lemma demo_trace_for : trace_for 0 demo_trace.
Proof.
  split; [apply demo_trace_ok|]. intros c Hc. unfold demo_trace in Hc. rewrite !elem_of_cons, elem_of_nil in Hc.
  destruct Hc as [ -> |[ -> |[ -> |[ -> |[]]]]]; (split; [apply machines_spec; vm_compute; split; [discriminate|done]|done]).
Qed.

Lemma demo_round_core : core_ok 0 demo_trace (cache_view demo_cache) demo_round.
Proof.
  assert (Hl : Z.of_nat (length demo_batch_slots) = CACHE_BATCH_SIZE) by reflexivity.
  assert (Hf : Forall (fun s => op_fits (s_op s)) demo_batch_slots) by apply Forall_replicate, empty_slot_fits.
  split; try done.
  - simpl. lia.
  - simpl. lia.
  - intros p s Hp. simpl in Hp. lia.
  - intros p s Hp. simpl in Hp. lia.
  - apply (coupled_weaken (fun e => e = fresh_entry)); [|apply demo_cache_coupled]. intros e ->. apply fresh_lin_wf.
  - intros k e He. apply (cp_inv _ _ _ demo_cache_coupled) in He as ->. split; [apply fresh_lin_wf|done].
  - split; [intros rm; by left..|done].
Qed.


(** The round sends 200 requests, 100 to each of two machines, and keeps 400. *)
Lemma demo_logged : exists hits sent st',
  rounds_log 0 1 1 0 demo_trace demo_round hits sent st' /\ length sent = 200%nat /\ rd_next_op_i st' = 400%nat.
Proof.
  assert (H : match collect 0 1 1 0 demo_trace demo_round with
    | Done st => match send_round 0 (s_op <$> ops_buf st) (rd_ctx st) with
                 | Done _ => (length (sent_slots (ops_buf st) (rd_ctx st)), rd_next_op_i st)
                 | _ => (0%nat, 0%nat)
                 end
    | _ => (0%nat, 0%nat)
    end = (200%nat, 400%nat)) by (vm_compute; reflexivity).
  destruct (collect 0 1 1 0 demo_trace demo_round) as [st1| |] eqn:E; [|done..].
  destruct (send_round 0 (s_op <$> ops_buf st1) (rd_ctx st1)) as [[c p]| |] eqn:Es; [|done..].
  injection H as H1 H2. eexists _, _, _. split; [|split].
  - eapply log_round; [exact E|reflexivity|exact Es|constructor|constructor].
  - rewrite app_nil_r. exact H1.
  - exact H2.
Qed.

Lemma sc_requests_conserved_witness :
  exists hits sent st' m, rounds_log 0 1 1 0 demo_trace demo_round hits sent st' /\ length sent = 200%nat /\
    cmd_request <$> commands demo_trace 0 m ≡ₚ requests hits ++ requests sent ++ waiting_requests st'.
Proof.
  destruct demo_logged as (hits & sent & st' & Hl & Hs & _).
  destruct (sc_requests_conserved 0 1 1 0 demo_trace (cache_view demo_cache) demo_round hits sent st') as (m & _ & Hm).
  - apply demo_trace_for.
  - unfold is_u32. lia.
  - apply demo_round_core.
  - split; [reflexivity|]. intros rm. reflexivity.
  - exact Hl.
  - exists hits, sent, st', m. split; [exact Hl|]. split; [exact Hs|exact Hm].
Defined.
