(* ===== verification/ScSystem.v ===== *)
(** * Hot writes of the SC clients of all machines

    Every machine has one cache, shared by its clients.  A client probes the
    cache with a batch ([cache_batch_op_sc]), collects the writes that hit
    ([perform_broadcasts_SC]), and sends them to the other machines in one
    packet ([broadcast_cache_ops]); the client of the same number there copies
    the packet over its array [update_ops] and gives it to the cache
    ([req_cache]), and the answer frees the sender's buffer ([cache_response]).
    The steps of all clients interleave, and the network (eRPC) holds packets
    and answers back as long as it likes.

    Of the updates in a packet only the first is applied ([Packets]), so the
    run records with every write whether it is the first of its packet, and the
    theorems are about the keys all of whose writes are: for those the replicas
    converge to the newest write and no write is lost.  They also assume that no
    32-bit version wraps and that the structures [req_cache] reads behind the
    first update have keys that are not cached.  The batch of a client is any
    list of GETs and PUTs; the rest of a round ([ClientRound]) does not touch the
    writes collected.  A batch is atomic (an operation on an object is, by
    [LockedHandlers]). *)
From stdpp Require Import functions relations.
From S2P Require Import Prelude Config Optik Layout City Mica MicaLog Cache CacheSpec Network ScProtocol Packets ColdRequests ClientRound.

(** ** The system *)

(** Of a client: the array of operations, the context, the ring of writes, the
    memory of [update_ops] (at address 0) and [update_resp]. *)
Record sc_client := mkClient {
  c_ops : list cache_op;
  c_ctx : client_ctx;
  c_ring : coh_ring;
  c_mem : mem;
  c_resp : list mica_resp
}.

(** A packet of client [pk_src.2] of machine [pk_src.1]. *)
Record packet := mkPacket { pk_src : Z * Z; pk_dst : Z; pk_bytes : list Z }.

(** A write performed: its key, and whether it is the first of its packet. *)
Record logged := mkLogged { lg_key : Z; lg_write : write; lg_first : bool }.

Record sc_system := mkSystem {
  sy_kv : Z -> mica_kv;
  sy_client : Z * Z -> sc_client;
  sy_wire : list packet;
  sy_answers : list (Z * Z * Z);
  sy_log : list logged
}.

Definition set_ctx_of (x : client_ctx) (c : sc_client) : sc_client :=
  mkClient (c_ops c) x (c_ring c) (c_mem c) (c_resp c).

(** The writes that hit, in the order of the batch. *)
Definition broadcast_of (ops : list cache_op) : list cache_op := filter (fun o => opcode o = CACHE_OP_BRC) ops.

Definition log_of (ops : list cache_op) : list logged :=
  match broadcast_of ops with
  | [] => []
  | o :: l => mkLogged (key_word o) (payload o) true :: ((fun o => mkLogged (key_word o) (payload o) false) <$> l)
  end.

(** The probe of an iteration of client [g] of machine [m], and the collection
    of its writes. *)
Definition probe (m : Z) (batch : list (cache_op * mica_resp)) (kv : mica_kv) (c : sc_client)
    : outcome (mica_kv * sc_client * list logged) :=
  let* (kv, res) := cache_batch_op_sc m kv batch in
  let* (ops, x, ring) := perform_broadcasts_SC (fst <$> res) (c_ctx c) (c_ring c) in
  Done (kv, mkClient ops x ring (c_mem c) (c_resp c), log_of (fst <$> res)).

(** [req_cache] of a client. *)
Definition receive (pkt : list Z) (kv : mica_kv) (c : sc_client) : outcome (mica_kv * sc_client) :=
  let* (kv, m, res) := req_cache kv (c_mem c) 0 (c_resp c) pkt in
  Done (kv, mkClient (c_ops c) (c_ctx c) (c_ring c) m ((snd <$> res) ++ drop (length res) (c_resp c))).

(** The keys read behind the first update of a packet are not cached. *)
Definition behind_first_missing (pkt : list Z) (kv : mica_kv) (c : sc_client) : Prop :=
  forall i, (1 <= i < Z.to_nat (Z.of_nat (length pkt) / HERD_PUT_REQ_SIZE))%nat ->
    cache_view kv (key_word (read_update (store_bytes (c_mem c) 0 pkt) 0 i)) = None.

Definition no_wrap (x : logged) : Prop := (w_ts (lg_write x)).1 <> 0.

Inductive sc_step (s : sc_system) : sc_system -> Prop :=
| step_probe m g batch kv c new :
    m ∈ machines -> cbatch (c_ctx (sy_client s (m, g))) = [] ->
    Forall (fun x => ready x.1) batch -> Z.of_nat (length batch) <= CACHE_BATCH_SIZE ->
    probe m batch (sy_kv s m) (sy_client s (m, g)) = Done (kv, c, new) -> Forall no_wrap new ->
    sc_step s (mkSystem (fupd (sy_kv s) m kv) (<[(m, g) := c]> (sy_client s)) (sy_wire s) (sy_answers s) (new ++ sy_log s))
| step_send m g x sent :
    m ∈ machines -> broadcast_cache_ops m (c_ops (sy_client s (m, g))) (c_ctx (sy_client s (m, g))) = Done (x, sent) ->
    sc_step s (mkSystem (sy_kv s) (<[(m, g) := set_ctx_of x (sy_client s (m, g))]> (sy_client s))
                 (((fun y => mkPacket (m, g) y.1 y.2) <$> sent) ++ sy_wire s) (sy_answers s) (sy_log s))
| step_receive l1 m g d pkt l2 kv c :
    sy_wire s = l1 ++ mkPacket (m, g) d pkt :: l2 ->
    behind_first_missing pkt (sy_kv s d) (sy_client s (d, g)) ->
    receive pkt (sy_kv s d) (sy_client s (d, g)) = Done (kv, c) ->
    sc_step s (mkSystem (fupd (sy_kv s) d kv) (<[(d, g) := c]> (sy_client s)) (l1 ++ l2)
                 ((m, g, d) :: sy_answers s) (sy_log s))
| step_answer l1 m g d l2 :
    sy_answers s = l1 ++ (m, g, d) :: l2 ->
    sc_step s (mkSystem (sy_kv s)
                 (<[(m, g) := set_ctx_of (cache_response d (c_ctx (sy_client s (m, g)))) (sy_client s (m, g))]> (sy_client s))
                 (sy_wire s) (l1 ++ l2) (sy_log s)).

(** The start: every cache holds the same objects at timestamp (0, 0); nothing
    is collected or under way.  [update_resp] is not initialised by the code;
    its types are taken to be none of those the batch skips. *)
Definition idle_client (c : sc_client) : Prop :=
  cbatch (c_ctx c) = [] /\ ring_ok (c_ring c) /\ (forall a, is_u8 (c_mem c a)) /\ c_resp c <> [] /\
  Forall (fun r => resp_type r <> UNSERVED_CACHE_MISS) (c_resp c).

Record sc_start (F0 : Z -> option entry) (s : sc_system) : Prop := {
  ss_kv : forall m, m ∈ machines -> coupled entry_wf (sy_kv s m) F0;
  ss_objects : forall k e, F0 k = Some e -> initial_entry e;
  ss_clients : forall m g, m ∈ machines -> idle_client (sy_client s (m, g));
  ss_wire : sy_wire s = [];
  ss_answers : sy_answers s = [];
  ss_log : sy_log s = []
}.

(** ** What is on its way *)

(** The updates a client has collected and not yet sent. *)
Definition collected (c : sc_client) : list cache_op := omap (fun i => c_ops c !! i) (cbatch (c_ctx c)).

(** The packet starts with the update [op]. *)
Definition starts_with (pkt : list Z) (op : cache_op) : Prop :=
  exists upds, pkt = updates_packet (op :: upds) /\ update_op op /\ Forall op_fits upds.

(** The write [w] of key [k] is on its way to machine [b]: first in a packet, or
    first among the writes collected by a client of another machine. *)
Definition on_the_way (s : sc_system) (k b : Z) (w : write) : Prop :=
  (exists pk op, pk ∈ sy_wire s /\ pk_dst pk = b /\ starts_with (pk_bytes pk) op /\ key_word op = k /\ payload op = w) \/
  (exists m g op, m ∈ machines /\ b ∈ others m /\ head (collected (sy_client s (m, g))) = Some op /\
     key_word op = k /\ payload op = w).

Definition writes (k : Z) (l : list logged) : list write := lg_write <$> filter (fun x => lg_key x = k) l.

(** All writes of the key were first in their packets. *)
Definition always_first (k : Z) (l : list logged) : Prop := forall x, x ∈ l -> lg_key x = k -> lg_first x = true.

(** ** A batch, key by key *)
Section batch.
Context (m : Z) (addr : Z -> Z).

Lemma sc_view_one_cases F op r F1 op1 r1 :
  objects_ok F -> ready op -> view_exec_one sc_skips (sc_op m) addr F op r = Done (F1, op1, r1) ->
  key_word op1 = key_word op /\ objects_ok F1 /\
  ((opcode op1 <> CACHE_OP_BRC /\ forall k, F1 k = F k) \/
   (opcode op1 = CACHE_OP_BRC /\ update_op (set_opcode CACHE_OP_UPD op1) /\ client_put op /\
    exists e e', F (key_word op) = Some e /\ sc_op m (addr (key_word op)) e op r = Done (e', op1, r1) /\
      F1 = fupd F (key_word op) (Some e'))).
Proof.
  intros HF [Hf Hop] V. destruct (sc_view_one m addr F op r HF (conj Hf Hop)) as (F2 & o2 & r2 & E & HF2 & _).
  rewrite V in E. injection E as <- <- <-.
  assert (Hno : opcode op <> CACHE_OP_BRC) by (destruct Hop as [-> |[-> _]]; done).
  unfold view_exec_one in V. destruct (sc_skips r); [injection V as <- <- <-; split_and!; [done|done|by left]|].
  destruct (F (key_word op)) as [e|] eqn:Ee; [|injection V as <- <- <-; split_and!; [done|done|by left]].
  destruct (HF _ _ Ee) as [He Hl]. apply obind_Done_inv in V as ([[e' o1] rr] & Es & V). injection V as <- <- <-.
  pose proof Es as Es'. unfold sc_op in Es. destruct Hop as [Hg|[Hp Hv]].
  - rewrite Hg in Es. change (CACHE_OP_GET =? CACHE_OP_GET) with true in Es. cbv iota in Es.
    rewrite sc_get_eq in Es by done. injection Es as <- <- <-. split_and!; [done|done|]. left. split; [done|].
    intros k. unfold fupd. zcase; [by subst|done].
  - rewrite Hp in Es. change (CACHE_OP_PUT =? CACHE_OP_GET) with false in Es.
    change (CACHE_OP_PUT =? CACHE_OP_PUT) with true in Es. cbv iota in Es.
    rewrite sc_put_eq in Es by (done || by rewrite Hl). injection Es as <- <- <-.
    split_and!; [done|done|]. right. split; [done|]. split; [|split; [done|by eexists _, _]].
    pose proof (meta_ok_bump _ (ew_meta _ He)) as [_ _ _ _ Hv2 Hve]. simpl in Hv2, Hve.
    split_and!; [|done|exact Hv]. split; [|exact Hve].
    destruct Hf as [[] ? ? ? ? ? ? ?]. split; try done. split; try done. apply u8_range.
Qed.

Lemma broadcast_of_cons o l :
  broadcast_of (o :: l) = if opcode o =? CACHE_OP_BRC then o :: broadcast_of l else broadcast_of l.
Proof.
  unfold broadcast_of. rewrite filter_cons. destruct (Z.eqb_spec (opcode o) CACHE_OP_BRC);
    [by rewrite decide_True|by rewrite decide_False].
Qed.

(** The writes of a batch to one key: none, and the object is as before, or one,
    and the object is what the handler made of it. *)
Definition key_written (k : Z) (F F' : Z -> option entry) (ws : list cache_op) : Prop :=
  match ws with
  | [] => F' k = F k
  | [op'] => exists e e' op r r' vp, F k = Some e /\ client_put op /\ sc_op m vp e op r = Done (e', op', r') /\ F' k = Some e'
  | _ => True
  end.

Lemma sc_view_writes F l F' l' :
  objects_ok F -> Forall (fun x => ready x.1) l -> view_exec sc_skips (sc_op m) addr F l = Done (F', l') ->
  Forall (fun o => update_op (set_opcode CACHE_OP_UPD o)) (broadcast_of (fst <$> l')) /\
  (forall k, F' k = None <-> F k = None) /\
  forall k, key_written k F F' (filter (fun o => key_word o = k) (broadcast_of (fst <$> l'))).
Proof.
  revert F l'. induction l as [|[op r] l IH]; intros F l' HF Hl V; cbn [view_exec] in V.
  { injection V as <- <-. split_and!; [constructor|done|done]. }
  apply Forall_cons in Hl as [Hop Hl]. cbn [fst] in Hop. apply obind_Done_inv in V as ([[F1 op1] r1] & V1 & V).
  apply obind_Done_inv in V as ([F2 rest] & V2 & V). injection V as <- <-.
  destruct (sc_view_one_cases F op r F1 op1 r1 HF Hop V1) as (Ek & HF1 & Hc).
  destruct (IH F1 rest HF1 Hl V2) as (Hu & Hn & Hk). rewrite fmap_cons. cbn [fst]. rewrite broadcast_of_cons.
  destruct Hc as [[Hb Hs]|(Hb & Hop1 & Hput & e & e' & Ee & Es & ->)].
  - rewrite (proj2 (Z.eqb_neq _ _) Hb). split_and!; [done| |].
    + intros k. by rewrite Hn, Hs.
    + intros k. specialize (Hk k). unfold key_written in *. by rewrite (Hs k) in Hk.
  - rewrite (proj2 (Z.eqb_eq _ _) Hb). split_and!; [by apply Forall_cons| |].
    + intros k. rewrite Hn. unfold fupd. zcase; [subst; by rewrite Ee|done].
    + intros k. specialize (Hk k). rewrite filter_cons. destruct (decide (key_word op1 = k)) as [Hkey|Hkey].
      * unfold key_written in *. destruct (filter _ _); [|done]. rewrite Ek in Hkey. subst k. rewrite fupd_eq in Hk.
        by eexists e, e', op, r, r1, _.
      * unfold key_written in *. rewrite Ek in Hkey. by rewrite fupd_ne in Hk.
Qed.
End batch.

(** ** Packets *)
Lemma starts_with_fun pkt op op' :
  starts_with pkt op -> starts_with pkt op' -> key_word op' = key_word op /\ payload op' = payload op.
Proof.
  intros (us & -> & ([Hf _] & _) & _) (us' & E & ([Hf' _] & _) & _).
  destruct (first_update (fun _ => 0) 0 op (updates_packet us) Hf) as (Em & Ek & _).
  pose proof (first_value (fun _ => 0) 0 op (updates_packet us) Hf) as Ev.
  destruct (first_update (fun _ => 0) 0 op' (updates_packet us') Hf') as (Em' & Ek' & _).
  pose proof (first_value (fun _ => 0) 0 op' (updates_packet us') Hf') as Ev'.
  change (request_bytes HERD_PUT_REQ_SIZE op ++ updates_packet us) with (updates_packet (op :: us)) in *.
  change (request_bytes HERD_PUT_REQ_SIZE op' ++ updates_packet us') with (updates_packet (op' :: us')) in *.
  rewrite E in *. split; [congruence|]. unfold payload. congruence.
Qed.

Lemma send_cache_loop_sent mid pkt rms c c' sent :
  send_cache_loop mid pkt rms c = Done (c', sent) ->
  sent = (fun rm => (rm, pkt)) <$> filter (fun rm => rm <> mid) rms /\ cbatch c' = cbatch c /\ creq_length c' = creq_length c.
Proof.
  revert c c' sent. induction rms as [|rm rms IH]; intros c c' sent E; cbn [send_cache_loop] in E.
  { by injection E as <- <-. }
  apply obind_Done_inv in E as ([c1 s1] & E1 & E). apply obind_Done_inv in E as ([c2 s2] & E2 & E). injection E as <- <-.
  destruct (IH _ _ _ E2) as (-> & Hb & Hl). rewrite filter_cons. unfold send_cache_packet in E1.
  destruct (Z.eqb_spec rm mid) as [->|Hne].
  - injection E1 as <- <-. rewrite decide_False by (intros H; by apply H). done.
  - inv_done E1. rewrite decide_True by done. done.
Qed.

(** What sending does: nothing, or one packet with all collected updates to
    every other machine. *)
Lemma broadcast_sends m ops c c' sent :
  broadcast_cache_ops m ops c = Done (c', sent) -> cbatch c <> [] -> creq_length c = HERD_PUT_REQ_SIZE ->
  cbatch c' = [] /\ sent = (fun b => (b, updates_packet (omap (fun i => ops !! i) (cbatch c)))) <$> others m.
Proof.
  intros E Hne Hl. unfold broadcast_cache_ops in E. destruct (cbatch c) as [|i l] eqn:Eb; [done|]. rewrite <- Eb in *.
  apply obind_Done_inv in E as ([c1 s1] & E1 & E). injection E as <- <-.
  apply send_cache_loop_sent in E1 as (-> & _ & _). split; [done|]. unfold cache_packet, updates_packet, others. by rewrite Hl.
Qed.

Lemma broadcast_nothing m ops c : cbatch c = [] -> broadcast_cache_ops m ops c = Done (c, []).
Proof. unfold broadcast_cache_ops. by intros ->. Qed.

(** ** The invariant *)
Record client_ok (c : sc_client) : Prop := {
  co_updates : Forall update_op (collected c);
  co_length : cbatch (c_ctx c) <> [] -> creq_length (c_ctx c) = HERD_PUT_REQ_SIZE /\ collected c <> [];
  co_ring : ring_ok (c_ring c);
  co_mem : forall a, is_u8 (c_mem c a);
  co_resp : c_resp c <> [] /\ Forall (fun r => resp_type r <> UNSERVED_CACHE_MISS) (c_resp c)
}.

Definition packet_ok (pk : packet) : Prop := pk_dst pk ∈ machines /\ exists op, starts_with (pk_bytes pk) op.

Record sys_inv (F0 : Z -> option entry) (s : sc_system) (F : Z -> Z -> option entry) : Prop := {
  iv_kv : forall m, m ∈ machines -> coupled entry_wf (sy_kv s m) (F m);
  iv_objects : forall m, m ∈ machines -> objects_ok (F m);
  iv_keys : forall m k, m ∈ machines -> F m k = None <-> F0 k = None;
  iv_client : forall m g, m ∈ machines -> client_ok (sy_client s (m, g));
  iv_wire : Forall packet_ok (sy_wire s);
  iv_key : forall k e0, F0 k = Some e0 -> always_first k (sy_log s) ->
    sc_inv (replica e0) (writes k (sy_log s)) (fun b => default e0 (F b k)) (on_the_way s k)
}.

Lemma on_the_way_ext s s' k b w :
  sy_wire s' = sy_wire s -> (forall m g, head (collected (sy_client s' (m, g))) = head (collected (sy_client s (m, g)))) ->
  on_the_way s' k b w <-> on_the_way s k b w.
Proof. unfold on_the_way. intros -> H. by setoid_rewrite H. Qed.

Lemma client_update (f : Z * Z -> sc_client) x c (P : sc_client -> Prop) :
  (forall m g, m ∈ machines -> P (f (m, g))) -> P c -> forall m g, m ∈ machines -> P (<[x := c]> f (m, g)).
Proof.
  intros Hf Hc m g Hm. destruct (decide ((m, g) = x)) as [<-|Hne]; [by rewrite fn_lookup_insert|].
  rewrite fn_lookup_insert_ne by done. by apply Hf.
Qed.

Lemma sys_inv_start F0 s : sc_start F0 s -> sys_inv F0 s (fun _ => F0).
Proof.
  intros [H1 H2 H3 H4 H5 H6]. split; try done.
  - intros m Hm k e Ek. destruct (H2 _ _ Ek) as (? & ? & _). done.
  - intros m g Hm. destruct (H3 m g Hm) as (Hc & Hr & Hmem & Hne & Hres). split; try done; unfold collected; rewrite Hc; done.
  - rewrite H4. constructor.
  - intros k e0 Ek _. rewrite H6, Ek. apply sc_inv_init; [by eapply H2|]. intros b w [(pk & op & Hpk & _)|(m & g & op & Hm & _ & Hh & _)].
    + rewrite H4 in Hpk. by apply not_elem_of_nil in Hpk.
    + destruct (H3 m g Hm) as (Hc & _). unfold collected in Hh. by rewrite Hc in Hh.
Qed.

(** *** Changes of the bookkeeping of buffers *)
Lemma ctx_inv F0 s F m g x ans :
  sys_inv F0 s F -> cbatch x = cbatch (c_ctx (sy_client s (m, g))) ->
  creq_length x = creq_length (c_ctx (sy_client s (m, g))) ->
  sys_inv F0 (mkSystem (sy_kv s) (<[(m, g) := set_ctx_of x (sy_client s (m, g))]> (sy_client s))
     (sy_wire s) ans (sy_log s)) F.
Proof.
  intros [H1 H2 H3 H4 H5 H6] Hb Hl. set (c := set_ctx_of _ _).
  assert (Hc : collected c = collected (sy_client s (m, g))) by (unfold collected; simpl; by rewrite Hb).
  assert (Hcol : forall y, collected (<[(m, g) := c]> (sy_client s) y) = collected (sy_client s y)).
  { intros y. destruct (decide (y = (m, g))) as [->|]; [by rewrite fn_lookup_insert|by rewrite fn_lookup_insert_ne]. }
  split; try done.
  - intros m' g' Hm. cbn [sy_client].
    destruct (decide ((m', g') = (m, g))) as [E|]; [|rewrite fn_lookup_insert_ne by done; by apply H4].
    injection E as -> ->. rewrite fn_lookup_insert. destruct (H4 m g Hm) as [Hu Hle ? ? ?].
    split; try done; rewrite Hc; [done|]. simpl. by rewrite Hb, Hl.
  - intros k e0 Ek Ha. eapply sc_inv_ext, (H6 k e0 Ek Ha); [done|]. intros b w. apply on_the_way_ext; [done|].
    intros m' g'. cbn [sy_client]. by rewrite Hcol.
Qed.

(** *** Sending *)
Section send.
Context (F0 : Z -> option entry) (s : sc_system) (F : Z -> Z -> option entry) (m g : Z) (x : client_ctx).
Context (sent : list (Z * list Z)).
Context (Hi : sys_inv F0 s F) (Hm : m ∈ machines) (Hne : cbatch (c_ctx (sy_client s (m, g))) <> []).
Context (Es : broadcast_cache_ops m (c_ops (sy_client s (m, g))) (c_ctx (sy_client s (m, g))) = Done (x, sent)).

Let c := sy_client s (m, g).
Let s' := mkSystem (sy_kv s) (<[(m, g) := set_ctx_of x c]> (sy_client s))
            (((fun y => mkPacket (m, g) y.1 y.2) <$> sent) ++ sy_wire s) (sy_answers s) (sy_log s).

Lemma sent_packets :
  cbatch x = [] /\ exists op l, collected c = op :: l /\ starts_with (updates_packet (collected c)) op /\
    sent = (fun b => (b, updates_packet (collected c))) <$> others m.
Proof using Hi Hm Hne Es.
  destruct (iv_client _ _ _ Hi m g Hm) as [Hu Hl _ _ _]. fold c in Hu, Hl. destruct (Hl Hne) as [Hlen Hnn].
  destruct (broadcast_sends _ _ _ _ _ Es Hne Hlen) as [Hb ->]. split; [done|]. fold c. fold (collected c).
  destruct (collected c) as [|op l] eqn:Ec; [done|]. exists op, l. split_and!; [done| |done].
  apply Forall_cons in Hu as [Hop Hu]. exists l. split_and!; [done|done|]. eapply Forall_impl; [exact Hu|]. by intros o [[? _] _].
Qed.

Lemma collected_sent y : collected (<[(m, g) := set_ctx_of x c]> (sy_client s) y) = if decide (y = (m, g)) then [] else collected (sy_client s y).
Proof using Hi Hm Hne Es.
  destruct sent_packets as [Hb _]. destruct (decide (y = (m, g))) as [->|]; [|by rewrite fn_lookup_insert_ne].
  rewrite fn_lookup_insert. unfold collected. simpl. by rewrite Hb.
Qed.

(** The collected writes are now in the packets. *)
Lemma on_the_way_send k b w : on_the_way s' k b w <-> on_the_way s k b w.
Proof using Hi Hm Hne Es.
  destruct sent_packets as (_ & op & l & Ec & Hst & Hs). unfold on_the_way, s'. cbn [sy_wire sy_client].
  setoid_rewrite elem_of_app. split.
  - intros [(pk & o & [Hin|Hin] & Hd & Hp)|(m' & g' & o & Hm' & Hb & Hh & Hp)].
    + right. rewrite Hs in Hin. apply list_elem_of_fmap in Hin as (y & -> & Hy). apply list_elem_of_fmap in Hy as (b' & -> & Hb').
      cbn [pk_dst pk_bytes fst snd] in *. subst b'. destruct Hp as (Hst' & Hk & Hw).
      destruct (starts_with_fun _ _ _ Hst Hst') as [Ek Ew]. exists m, g, op. fold c. rewrite Ec. split_and!; try done; congruence.
    + left. by exists pk, o.
    + rewrite collected_sent in Hh. destruct (decide _); [done|]. right. by exists m', g', o.
  - intros [(pk & o & Hin & Hp)|(m' & g' & o & Hm' & Hb & Hh & Hp)]; [left; exists pk, o; by split; [right|]|].
    destruct (decide ((m', g') = (m, g))) as [E|Hn].
    + injection E as -> ->. fold c in Hh. rewrite Ec in Hh. injection Hh as <-. left.
      exists (mkPacket (m, g) b (updates_packet (collected c))), op. split_and!; [left|done|done|apply Hp|apply Hp].
      rewrite Hs, <- list_fmap_compose. apply list_elem_of_fmap. by exists b.
    + right. exists m', g', o. rewrite collected_sent, decide_False by done. done.
Qed.

Lemma send_inv_some : sys_inv F0 s' F.
Proof using Hi Hm Hne Es.
  pose proof Hi as [H1 H2 H3 H4 H5 H6]. destruct sent_packets as (Hb & op & l & Ec & Hst & Hs). split; try done.
  - apply (client_update _ _ _ client_ok); [done|]. destruct (H4 m g Hm) as [Hu Hl Hr Hme Hre].
    split; try done; unfold collected; simpl; rewrite Hb; done.
  - apply Forall_app. split; [|done]. rewrite Hs, <- list_fmap_compose. apply Forall_fmap, Forall_forall.
    intros b Hbo%elem_of_others. split; [apply Hbo|by exists op].
  - intros k e0 Ek Ha. eapply sc_inv_ext, (H6 k e0 Ek Ha); [done|]. intros b w. apply on_the_way_send.
Qed.
End send.

Lemma send_inv_any F0 s F m g x sent :
  sys_inv F0 s F -> m ∈ machines ->
  broadcast_cache_ops m (c_ops (sy_client s (m, g))) (c_ctx (sy_client s (m, g))) = Done (x, sent) ->
  sys_inv F0 (mkSystem (sy_kv s) (<[(m, g) := set_ctx_of x (sy_client s (m, g))]> (sy_client s))
    (((fun y => mkPacket (m, g) y.1 y.2) <$> sent) ++ sy_wire s) (sy_answers s) (sy_log s)) F.
Proof.
  intros Hi Hm E. destruct (decide (cbatch (c_ctx (sy_client s (m, g))) = [])) as [Hb|Hb]; [|by apply send_inv_some].
  rewrite broadcast_nothing in E by done. injection E as <- <-. by apply ctx_inv.
Qed.

(** *** Receiving *)
Lemma apply_update_object op e :
  update_op op -> entry_wf e -> e_val_len e = HERD_VALUE_SIZE ->
  entry_wf (apply_update op e) /\ e_val_len (apply_update op e) = HERD_VALUE_SIZE /\
  (replica (apply_update op e) = replica e \/ replica (apply_update op e) = payload op) /\
  ts_le (ts_of (e_meta e)) (ts_of (e_meta (apply_update op e))) /\
  ts_le (w_ts (payload op)) (ts_of (e_meta (apply_update op e))).
Proof.
  intros (Hop & Hc & Hl) He Hel. unfold apply_update.
  destruct (ts_ltb_spec (ts_of (e_meta e)) (ts_of (meta op))) as [Hlt|Hge].
  - split_and!; [|done| |by left|by right].
    + apply entry_wf_memcpy; [apply meta_ok_stamp; [done|apply He]|done|apply Hop].
    + right. unfold payload, replica, copied. cbn [e_meta e_value]. by rewrite Hel.
  - split_and!; first [done|by apply ts_not_lt|by left|by right].
Qed.

Section receive.
Context (F0 : Z -> option entry) (s : sc_system) (F : Z -> Z -> option entry).
Context (l1 l2 : list packet) (m g d : Z) (pkt : list Z).
Context (Hi : sys_inv F0 s F) (Hw : sy_wire s = l1 ++ mkPacket (m, g) d pkt :: l2).
Context (Hmiss : behind_first_missing pkt (sy_kv s d) (sy_client s (d, g))).

Lemma packet_arrives : d ∈ machines /\ exists op, starts_with pkt op.
Proof using Hi Hw.
  pose proof (iv_wire _ _ _ Hi) as H. rewrite Hw, Forall_app, Forall_cons in H. destruct H as (_ & H & _). exact H.
Qed.

(** Every packet can be received. *)
Lemma packet_received op :
  starts_with pkt op ->
  exists kv c, receive pkt (sy_kv s d) (sy_client s (d, g)) = Done (kv, c) /\ coupled entry_wf kv (updated op (F d)) /\
    client_ok c /\ collected c = collected (sy_client s (d, g)).
Proof using Hi Hw Hmiss.
  intros (us & E & Hop & Hus). destruct packet_arrives as [Hd _].
  destruct (iv_client _ _ _ Hi d g Hd) as [Hu Hl Hr Hmem [Hne Hres]].
  assert (Hst : strays_miss (sy_kv s d) (c_mem (sy_client s (d, g))) 0 (op :: us)).
  { intros i Hr1. rewrite <- E. apply Hmiss. rewrite E. unfold updates_packet.
    rewrite req_cache_count; [done|]. apply Forall_cons. split; [by destruct Hop as [[? _] _]|done]. }
  destruct (c_resp (sy_client s (d, g))) as [|r rs] eqn:Er; [done|].
  destruct (updates_received (sy_kv s d) (F d) (c_mem (sy_client s (d, g))) 0 r rs op us)
    as (kv' & res & Ereq & Hc & Hlen & Hty); [by apply (iv_kv _ _ _ Hi)|done|done|done| |done|done|].
  { intros e He. by apply (iv_objects _ _ _ Hi d Hd) in He as [_ ?]. }
  unfold receive. rewrite Er, E, Ereq. cbn [obind]. eexists _, _. split; [reflexivity|]. split; [done|]. split; [|done].
  split; try done; cbn [c_mem c_resp].
  - apply store_bytes_bytes; [done|]. apply updates_packet_u8, Forall_cons. split; [by destruct Hop as [[? _] _]|done].
  - split.
    + intros Hnil. apply app_nil in Hnil as [H1 H2]. apply fmap_nil_inv in H1. subst res. done.
    + apply Forall_app. split; [by apply Forall_fmap|by apply Forall_drop].
Qed.

Context (kv : mica_kv) (c : sc_client) (op : cache_op) (Hst : starts_with pkt op).
Context (Hkv : coupled entry_wf kv (updated op (F d))) (Hc : client_ok c).
Context (Hcol : collected c = collected (sy_client s (d, g))).

Let s' := mkSystem (fupd (sy_kv s) d kv) (<[(d, g) := c]> (sy_client s)) (l1 ++ l2) ((m, g, d) :: sy_answers s) (sy_log s).

Lemma on_the_way_receive k b w :
  (on_the_way s' k b w -> on_the_way s k b w) /\
  (on_the_way s k b w -> on_the_way s' k b w \/ (k = key_word op /\ b = d /\ w = payload op)).
Proof using Hw Hst Hcol.
  assert (Hcl : forall y, collected (<[(d, g) := c]> (sy_client s) y) = collected (sy_client s y)).
  { intros y. destruct (decide (y = (d, g))) as [->|]; [by rewrite fn_lookup_insert|by rewrite fn_lookup_insert_ne]. }
  unfold on_the_way, s'. cbn [sy_wire sy_client]. setoid_rewrite Hcl. rewrite Hw. split.
  - intros [(pk & o & Hin & Hp)|H]; [left|by right]. exists pk, o. split; [|done].
    rewrite elem_of_app, elem_of_cons. rewrite elem_of_app in Hin. tauto.
  - intros [(pk & o & Hin & Hd & Hp & Hk & Hpay)|H]; [|left; by right].
    rewrite elem_of_app, elem_of_cons in Hin. destruct Hin as [Hin|[->|Hin]].
    + left. left. exists pk, o. rewrite elem_of_app. tauto.
    + right. cbn [pk_dst pk_bytes] in *. destruct (starts_with_fun _ _ _ Hst Hp) as [E1 E2]. split_and!; congruence.
    + left. left. exists pk, o. rewrite elem_of_app. tauto.
Qed.

Lemma packet_on_the_way : on_the_way s (key_word op) d (payload op).
Proof using Hw Hst.
  left. exists (mkPacket (m, g) d pkt), op. rewrite Hw, elem_of_app, elem_of_cons. split_and!; try done. right. by left.
Qed.

Lemma receive_inv : sys_inv F0 s' (fupd F d (updated op (F d))).
Proof using All.
  destruct packet_arrives as [Hd _]. pose proof Hst as (us & Ep & Hop & Hus). pose proof Hi as [H1 H2 H3 H4 H5 H6].
  assert (Hlen : forall e, F d (key_word op) = Some e -> entry_wf e /\ e_val_len e = HERD_VALUE_SIZE) by (intros e He; by apply (H2 d Hd) in He).
  assert (Hat : forall b k, ~ (b = d /\ k = key_word op) -> fupd F d (updated op (F d)) b k = F b k).
  { intros b k Hne. unfold fupd at 1. zcase; [subst b|done]. unfold updated.
    destruct (F d (key_word op)) as [e|] eqn:Ee; [|done]. unfold fupd. zcase; [|done]. subst k. tauto. }
  split.
  - intros b Hb. unfold s'. cbn [sy_kv]. unfold fupd. zcase; [done|by apply H1].
  - intros b Hb k e Ek. destruct (decide (b = d /\ k = key_word op)) as [[-> ->]|Hne].
    + rewrite fupd_eq in Ek. unfold updated in Ek. destruct (F d (key_word op)) as [e1|] eqn:Ee; [|congruence].
      rewrite fupd_eq in Ek. injection Ek as <-. destruct (Hlen e1 eq_refl) as [Hw1 Hw2].
      destruct (apply_update_object op e1 Hop Hw1 Hw2) as (? & ? & _). done.
    + rewrite Hat in Ek by done. by apply (H2 b Hb k).
  - intros b k Hb. rewrite <- (H3 b k Hb). destruct (decide (b = d /\ k = key_word op)) as [[-> ->]|Hne]; [|by rewrite Hat].
    rewrite fupd_eq. unfold updated. destruct (F d (key_word op)) eqn:Ee; [|by rewrite Ee]. by rewrite fupd_eq.
  - apply (client_update _ _ _ client_ok); done.
  - rewrite Hw, Forall_app, Forall_cons in H5. apply Forall_app. tauto.
  - intros k e0 Ek Ha. specialize (H6 k e0 Ek Ha). cbn [sy_log s']. destruct (decide (k = key_word op)) as [->|Hne].
    + destruct (F d (key_word op)) as [e|] eqn:Ee; [|apply (H3 d _ Hd) in Ee; congruence].
      destruct (Hlen e eq_refl) as [Hwe Hle]. destruct (apply_update_object op e Hop Hwe Hle) as (A1 & A2 & A3 & A4 & A5).
      eapply sc_inv_ext; [|done|eapply (sc_inv_upd _ _ _ _ (on_the_way s' (key_word op)) d (payload op) (apply_update op e) H6)]; try done.
      * intros b Hb. destruct (Z.eq_dec b d) as [->|Hn]; [|by rewrite !fupd_ne].
        rewrite !fupd_eq. unfold updated. by rewrite Ee, fupd_eq.
      * exact packet_on_the_way.
      * rewrite Ee. exact A3.
      * rewrite Ee. exact A4.
      * intros b w. apply on_the_way_receive.
      * intros b w Hon. destruct (proj2 (on_the_way_receive _ b w) Hon) as [|(_ & -> & ->)]; [by left|by right].
    + eapply sc_inv_ext, H6; [intros b Hb; rewrite Hat; [done|tauto]|]. intros b w.
      destruct (on_the_way_receive k b w) as [Hx Hy]. split; [done|]. intros Hon. by destruct (Hy Hon) as [|(? & _)].
Qed.
End receive.

(** *** Probing the cache *)

(** The writes of a batch to a key whose writes are always first: the first
    write of the batch, or none. *)
Lemma log_first k ops :
  always_first k (log_of ops) ->
  (exists o, head (broadcast_of ops) = Some o /\ key_word o = k /\ filter (fun o => key_word o = k) (broadcast_of ops) = [o] /\
     writes k (log_of ops) = [payload o]) \/
  (filter (fun o => key_word o = k) (broadcast_of ops) = [] /\ writes k (log_of ops) = [] /\
   forall o, head (broadcast_of ops) = Some o -> key_word o <> k).
Proof.
  unfold log_of, always_first, writes. destruct (broadcast_of ops) as [|o l]; intros Ha; [by right|].
  assert (Hl : forall x, x ∈ l -> key_word x <> k).
  { intros x Hx Hk. assert (Hin : mkLogged (key_word x) (payload x) false ∈ (fun o => mkLogged (key_word o) (payload o) false) <$> l)
      by (apply list_elem_of_fmap; by exists x).
    discriminate (Ha _ (list_elem_of_further _ _ _ Hin) Hk). }
  assert (H1 : filter (fun o => key_word o = k) l = []).
  { destruct (filter (fun o => key_word o = k) l) as [|x r] eqn:Ef; [done|]. exfalso.
    assert (Hx : x ∈ filter (fun o => key_word o = k) l) by (rewrite Ef; left). apply list_elem_of_filter in Hx as [Hk Hx]. by apply (Hl x). }
  assert (H2 : filter (fun x => lg_key x = k) ((fun o => mkLogged (key_word o) (payload o) false) <$> l) = []).
  { destruct (filter (fun x => lg_key x = k) _) as [|x r] eqn:Ef; [done|]. exfalso.
    assert (Hx : x ∈ filter (fun x => lg_key x = k) ((fun o => mkLogged (key_word o) (payload o) false) <$> l)) by (rewrite Ef; left).
    apply list_elem_of_filter in Hx as [Hk Hx]. apply list_elem_of_fmap in Hx as (o' & -> & Ho'). by apply (Hl o'). }
  rewrite !filter_cons, H1, H2. cbn [lg_key]. destruct (decide (key_word o = k)) as [Hk|Hk]; [left|right].
  - exists o. done.
  - split_and!; try done. by intros o' [= <-].
Qed.

(** Collecting: the updates, in order. *)
Lemma collects ops x ring ops' x' ring' :
  cbatch x = [] -> Z.of_nat (length ops) <= CACHE_BATCH_SIZE -> ring_ok ring ->
  perform_broadcasts_SC ops x ring = Done (ops', x', ring') ->
  omap (fun i => ops' !! i) (cbatch x') = set_opcode CACHE_OP_UPD <$> broadcast_of ops /\ ring_ok ring' /\
  (cbatch x' <> [] -> creq_length x' = HERD_PUT_REQ_SIZE /\ set_opcode CACHE_OP_UPD <$> broadcast_of ops <> []).
Proof.
  intros Hb Hlen Hr E. unfold perform_broadcasts_SC in E.
  destruct (bcast_SC_loop_ok 0 ops x ring) as (b' & El & Hb'); [rewrite Hb; simpl; lia|done|].
  rewrite El in E. injection E as <- <- <-. pose proof (omap_positions 0 ops [] eq_refl) as Hom. simpl app in Hom.
  fold (broadcast_of ops) in Hom. rewrite <- Hom. split_and!; [|done|].
  - destruct (brc_positions 0 ops); [by rewrite Hb|]. cbn [set_cbatch cbatch]. by rewrite Hb.
  - destruct (brc_positions 0 ops) as [|i l] eqn:Ep; [by rewrite Hb|]. intros _. split; [done|].
    destruct (brc_positions_lookup 0 ops i) as (op & H1 & _ & _); [rewrite Ep; left|]. rewrite Nat.sub_0_r in H1.
    cbn [omap list_omap]. by rewrite list_lookup_fmap, H1.
Qed.

Section probe.
Context (F0 : Z -> option entry) (s : sc_system) (F : Z -> Z -> option entry) (m g : Z).
Context (batch : list (cache_op * mica_resp)) (kv : mica_kv) (c : sc_client) (new : list logged).
Context (Hi : sys_inv F0 s F) (Hm : m ∈ machines) (Hb : cbatch (c_ctx (sy_client s (m, g))) = []).
Context (Hready : Forall (fun x => ready x.1) batch) (Hlen : Z.of_nat (length batch) <= CACHE_BATCH_SIZE).
Context (E : probe m batch (sy_kv s m) (sy_client s (m, g)) = Done (kv, c, new)) (Hnw : Forall no_wrap new).

(** What the probe leaves: the objects, the log and the collected updates. *)
Lemma probe_effect : exists F' ops,
  coupled entry_wf kv F' /\ objects_ok F' /\ (forall k, F' k = None <-> F m k = None) /\ new = log_of ops /\
  collected c = set_opcode CACHE_OP_UPD <$> broadcast_of ops /\ client_ok c /\
  forall k, key_written m k (F m) F' (filter (fun o => key_word o = k) (broadcast_of ops)).
Proof using Hi Hm Hb Hready Hlen E Hnw.
  destruct (iv_client _ _ _ Hi m g Hm) as [_ _ Hr Hme Hre].
  destruct (sc_batch_view m (sy_kv s m) (F m) batch (iv_kv _ _ _ Hi m Hm) (iv_objects _ _ _ Hi m Hm) Hready)
    as (kv' & F' & res & Eb & V & Hc & HF' & Hs).
  destruct (sc_view_writes m (value_addr (sy_kv s m)) (F m) batch F' res (iv_objects _ _ _ Hi m Hm) Hready V) as (Hu & Hn & Hk).
  unfold probe in E. rewrite Eb in E. cbn [obind] in E. apply obind_Done_inv in E as ([[ops' x'] ring'] & Ep & E).
  injection E as <- <- <-.
  destruct (collects (fst <$> res) _ _ _ _ _ Hb ltac:(rewrite length_fmap, <- (Forall2_length _ _ _ Hs); lia) Hr Ep)
    as (Hcol & Hr' & Hne).
  exists F', (fst <$> res). split_and!; try done.
  split; try done; unfold collected; cbn [c_ops c_ctx]; rewrite Hcol; [by apply Forall_fmap|done].
Qed.

Context (F' : Z -> option entry) (ops : list cache_op).
Context (Hkv : coupled entry_wf kv F') (HF' : objects_ok F') (Hkeys : forall k, F' k = None <-> F m k = None).
Context (Hnew : new = log_of ops) (Hcol : collected c = set_opcode CACHE_OP_UPD <$> broadcast_of ops) (Hc : client_ok c).
Context (Hwr : forall k, key_written m k (F m) F' (filter (fun o => key_word o = k) (broadcast_of ops))).

Let s' := mkSystem (fupd (sy_kv s) m kv) (<[(m, g) := c]> (sy_client s)) (sy_wire s) (sy_answers s) (new ++ sy_log s).

Lemma on_the_way_probe k b w :
  on_the_way s' k b w <->
  on_the_way s k b w \/ (b ∈ others m /\ exists o, head (broadcast_of ops) = Some o /\ key_word o = k /\ payload o = w).
Proof using Hm Hb Hcol.
  assert (Hold : collected (sy_client s (m, g)) = []) by (unfold collected; by rewrite Hb).
  assert (Hhead : forall o, head (collected c) = Some o <-> exists o', head (broadcast_of ops) = Some o' /\ o = set_opcode CACHE_OP_UPD o').
  { clear -Hcol. intros o. rewrite Hcol. destruct (broadcast_of ops) as [|o' l]; simpl; [split; [done|by intros (? & ? & _)]|].
    split; [intros [= <-]; eauto|]. by intros (x & [= <-] & ->). }
  unfold on_the_way, s'. cbn [sy_wire sy_client]. split.
  - intros [H|(m' & g' & o & Hm' & Hbo & Hh & Hp)]; [left; by left|].
    destruct (decide ((m', g') = (m, g))) as [Ex|Hn]; [|rewrite fn_lookup_insert_ne in Hh by done; left; right; by exists m', g', o].
    injection Ex as -> ->. rewrite fn_lookup_insert in Hh. apply Hhead in Hh as (o' & Hh & ->). right. split; [done|]. by exists o'.
  - intros [[H|(m' & g' & o & Hm' & Hbo & Hh & Hp)]|(Hbo & o & Hh & Hp)]; [by left|right..].
    + exists m', g', o. rewrite fn_lookup_insert_ne; [done|]. intros Ex. injection Ex as <- <-. by rewrite Hold in Hh.
    + exists m, g, (set_opcode CACHE_OP_UPD o). rewrite fn_lookup_insert. split_and!; try done; [|apply Hp|apply Hp].
      apply Hhead. by exists o.
Qed.

Lemma probe_key k e0 :
  F0 k = Some e0 -> w_ts (replica e0) = (0, 0) -> always_first k (sy_log s') ->
  sc_inv (replica e0) (writes k (sy_log s')) (fun b => default e0 (fupd F m F' b k)) (on_the_way s' k).
Proof using All.
  intros Ek H0 Ha. change (sy_log s') with (new ++ sy_log s) in *.
  assert (Ha1 : always_first k new /\ always_first k (sy_log s)).
  { split; intros x Hx; apply Ha; rewrite elem_of_app; tauto. }
  destruct Ha1 as [Ha1 Ha2]. pose proof (iv_key _ _ _ Hi k e0 Ek Ha2) as IH. rewrite Hnew in Ha1.
  assert (Ew : writes k (new ++ sy_log s) = writes k new ++ writes k (sy_log s)) by (unfold writes; by rewrite filter_app, fmap_app).
  specialize (Hwr k). rewrite Ew, Hnew. destruct (log_first k ops Ha1) as [(o & Hh & Hk & Hf & ->)|(Hf & -> & Hh)]; rewrite Hf in Hwr.
  - destruct Hwr as (e & e' & op & r & r' & vp & Ee & Hput & Es & Ee'). destruct (iv_objects _ _ _ Hi m Hm k e Ee) as [Hwf Hl].
    assert (Hv : version (meta o) <> 0).
    { rewrite Hnew in Hnw. unfold log_of in Hnw. destruct (broadcast_of ops) as [|o1 l]; [done|]. injection Hh as ->.
      by apply Forall_cons in Hnw as [Hx _]. }
    destruct (sc_put_object m vp op r e e' o r' Hm Hput Hwf Hl Es Hv) as (Hwf' & Hl' & Ht & Hp).
    rewrite Hp. cbn [app].
    eapply sc_inv_ext; [|done|eapply (sc_inv_put _ _ _ _ m e' IH H0 Hm Hwf' Hl')].
    + intros b Hbm. destruct (Z.eq_dec b m) as [->|Hn]; [rewrite !fupd_eq; by rewrite Ee'|by rewrite !fupd_ne].
    + cbv beta. by rewrite Ee.
    + intros b w. rewrite on_the_way_probe. split; (intros [H|H]; [by left|right]).
      * destruct H as (Hbo & o' & Hh' & _ & <-). split; [done|]. rewrite Hh in Hh'. injection Hh' as <-. done.
      * destruct H as [Hbo ->]. split; [done|]. by exists o.
  - cbn [app]. eapply sc_inv_ext, IH.
    + intros b Hbm. destruct (Z.eq_dec b m) as [->|Hn]; [rewrite fupd_eq; by rewrite Hwr|by rewrite fupd_ne].
    + intros b w. rewrite on_the_way_probe. split; [|by left]. intros [H|(_ & o & Ho & Hko & _)]; [done|]. by apply Hh in Ho.
Qed.

Lemma probe_inv : (forall k e, F0 k = Some e -> initial_entry e) -> sys_inv F0 s' (fupd F m F').
Proof using All.
  intros H0. pose proof Hi as [H1 H2 H3 H4 H5 H6]. split.
  - intros b Hbm. unfold s'. cbn [sy_kv]. unfold fupd. zcase; [done|by apply H1].
  - intros b Hbm. unfold fupd. zcase; [done|by apply H2].
  - intros b k Hbm. unfold fupd. zcase; [rewrite Hkeys; by apply H3|by apply H3].
  - by apply (client_update _ _ _ client_ok).
  - done.
  - intros k e0 Ek Ha. apply probe_key; try done. by destruct (H0 _ _ Ek) as (_ & _ & ?).
Qed.
End probe.

(** ** Runs *)
Lemma step_inv F0 s s' F :
  (forall k e, F0 k = Some e -> initial_entry e) -> sys_inv F0 s F -> sc_step s s' -> exists F', sys_inv F0 s' F'.
Proof.
  intros H0 Hi [m g batch kv c new Hm Hb Hr Hl E Hnw|m g x sent Hm E|l1 m g d pkt l2 kv c Hw Hmiss E|l1 m g d l2 Ha].
  - destruct (probe_effect F0 s F m g batch kv c new Hi Hm Hb Hr Hl E Hnw) as (F' & ops & P1 & P2 & P3 & P4 & P5 & P6 & P7).
    eexists. by eapply (probe_inv F0 s F m g batch kv c new Hi Hm Hb Hr Hl E Hnw F' ops).
  - eexists. by apply send_inv_any.
  - destruct (packet_arrives F0 s F l1 l2 m g d pkt Hi Hw) as [_ [op Hst]].
    destruct (packet_received F0 s F l1 l2 m g d pkt Hi Hw Hmiss op Hst) as (kv' & c' & E' & R1 & R2 & R3).
    rewrite E in E'. injection E' as <- <-. eexists. by apply (receive_inv F0 s F l1 l2 m g d pkt Hi Hw Hmiss kv c op Hst).
  - eexists. by apply ctx_inv.
Qed.

Lemma reach_inv F0 s0 s : sc_start F0 s0 -> rtc sc_step s0 s -> exists F, sys_inv F0 s F.
Proof.
  intros H0. pose proof (ss_objects _ _ H0) as Ho. assert (Hx : exists F, sys_inv F0 s0 F) by eauto using sys_inv_start.
  clear H0. induction 1 as [|x y z Hs _ IH]; [done|]. apply IH. destruct Hx as [F Hi]. by eapply step_inv.
Qed.

Lemma cache_object F0 s F op e0 b :
  sys_inv F0 s F -> op_fits op -> F0 (key_word op) = Some e0 -> b ∈ machines ->
  exists e, cache_view (sy_kv s b) (key_word op) = Some e /\ default e0 (F b (key_word op)) = e.
Proof.
  intros Hi Hf E0 Hb. rewrite (cp_view _ _ _ (iv_kv _ _ _ Hi b Hb) op Hf).
  destruct (F b (key_word op)) as [e|] eqn:Ee; [by exists e|]. apply (iv_keys _ _ _ Hi b _ Hb) in Ee. congruence.
Qed.

Lemma receive_step F0 s F l1 m g d pkt l2 :
  sys_inv F0 s F -> sy_wire s = l1 ++ mkPacket (m, g) d pkt :: l2 ->
  behind_first_missing pkt (sy_kv s d) (sy_client s (d, g)) ->
  exists s', sc_step s s' /\ sy_wire s' = l1 ++ l2 /\ sy_log s' = sy_log s /\
    forall x, collected (sy_client s' x) = collected (sy_client s x).
Proof.
  intros Hi Hw Hmiss. destruct (packet_arrives F0 s F l1 l2 m g d pkt Hi Hw) as [_ [op Hst]].
  destruct (packet_received F0 s F l1 l2 m g d pkt Hi Hw Hmiss op Hst) as (kv & c & E & _ & _ & Hcol).
  eexists. split; [by eapply step_receive|]. split_and!; [done|done|]. intros x. cbn [sy_client].
  destruct (decide (x = (d, g))) as [->|]; [by rewrite fn_lookup_insert|by rewrite fn_lookup_insert_ne].
Qed.

(** C22: the replicas of a hot key converge.  Take a state reached by any
    interleaving of the clients of all machines - probes, packets, deliveries
    and answers - in which no packet is under way and no client has collected
    writes to send.  For every cached key all of whose writes so far were the
    first of their packets, all caches hold the same value with the same
    timestamp, and it is the write with the greatest timestamp among all writes
    to the key (the initial object if there was none).  (For a key with a write
    in a later position of its packet this is false: the update is lost.) *)
Theorem sc_replicas_converge F0 s0 s op e0 :
  sc_start F0 s0 -> rtc sc_step s0 s -> op_fits op -> F0 (key_word op) = Some e0 ->
  always_first (key_word op) (sy_log s) ->
  sy_wire s = [] -> (forall m g, m ∈ machines -> collected (sy_client s (m, g)) = []) ->
  exists w, w ∈ replica e0 :: writes (key_word op) (sy_log s) /\
    (forall w', w' ∈ replica e0 :: writes (key_word op) (sy_log s) -> ts_le (w_ts w') (w_ts w)) /\
    forall b, b ∈ machines -> replica <$> cache_view (sy_kv s b) (key_word op) = Some w.
Proof.
  intros H0 Hr Hf E0 Ha Hw Hc. destruct (reach_inv _ _ _ H0 Hr) as [F Hi].
  destruct (sc_inv_agree _ _ _ _ (iv_key _ _ _ Hi _ e0 E0 Ha)) as (w & H1 & H2 & H3).
  { intros b w [(pk & o & Hpk & _)|(m & g & o & Hm & _ & Hh & _)]; [rewrite Hw in Hpk; by apply not_elem_of_nil in Hpk|].
    by rewrite Hc in Hh. }
  exists w. split_and!; [done|done|]. intros b Hb. destruct (cache_object F0 s F op e0 b Hi Hf E0 Hb) as (e & -> & Ee).
  simpl. by rewrite <- (H3 b Hb), Ee.
Qed.

(** C23: no hot write is lost and none is invented.  In every state reached by any
    interleaving, for every cached key all of whose writes so far were the first
    of their packets: what a machine holds is a write that was performed (or the
    initial object); for every write performed each machine already holds one at
    least as recent, or the write is the first update of a packet to that
    machine or the first one collected by a client that sends to it; two writes
    never share a timestamp.  And every packet under way, of any keys, can be
    received, if the keys read behind its first update are not cached. *)
Theorem sc_hot_writes_propagate F0 s0 s op e0 :
  sc_start F0 s0 -> rtc sc_step s0 s -> op_fits op -> F0 (key_word op) = Some e0 ->
  always_first (key_word op) (sy_log s) ->
  let ws := writes (key_word op) (sy_log s) in
  (forall b, b ∈ machines -> exists e, cache_view (sy_kv s b) (key_word op) = Some e /\ replica e ∈ replica e0 :: ws /\
     forall w, w ∈ ws -> ts_le (w_ts w) (ts_of (e_meta e)) \/ on_the_way s (key_word op) b w) /\
  (forall w1 w2, w1 ∈ replica e0 :: ws -> w2 ∈ replica e0 :: ws -> w_ts w1 = w_ts w2 -> w1 = w2) /\
  (forall l1 m g d pkt l2, sy_wire s = l1 ++ mkPacket (m, g) d pkt :: l2 ->
     behind_first_missing pkt (sy_kv s d) (sy_client s (d, g)) ->
     exists s', sc_step s s' /\ sy_wire s' = l1 ++ l2 /\ sy_log s' = sy_log s).
Proof.
  intros H0 Hr Hf E0 Ha ws. destruct (reach_inv _ _ _ H0 Hr) as [F Hi].
  pose proof (iv_key _ _ _ Hi _ e0 E0 Ha) as [S1 S2 _ _ _ S6]. split_and!; [|exact S2|].
  - intros b Hb. destruct (cache_object F0 s F op e0 b Hi Hf E0 Hb) as (e & Ev & Ee). exists e. split; [done|].
    destruct (S1 b Hb) as (_ & _ & Hin). rewrite Ee in Hin. split; [done|]. intros w Hw. rewrite <- Ee. by apply S6.
  - intros l1 m g d pkt l2 Hw Hmiss. destruct (receive_step F0 s F l1 m g d pkt l2 Hi Hw Hmiss) as (s' & ? & ? & ? & _). eauto.
Qed.

(** ** A run: client 3 of machine 1 writes a key, and its packets arrive *)
Definition demo_client : sc_client := mkClient [] demo_ctx demo_ring (fun _ => 0) [mkResp EMPTY 0 None].
Definition demo_system : sc_system := mkSystem (fun _ => demo_cache) (fun _ => demo_client) [] [] [].
Definition demo_puts : list (cache_op * mica_resp) := [(demo_cput, mkResp EMPTY 0 None)].

Lemma demo_sc_start : sc_start (cache_view demo_cache) demo_system.
Proof.
  split; try done.
  - intros m _. apply demo_cache_wf.
  - intros k e Ek. rewrite (cp_inv _ _ _ demo_cache_coupled k e Ek). exact fresh_initial.
  - intros m g _. split_and!; try done. by apply Forall_singleton.
Qed.

(** The write and the sending of its update. *)
Definition demo_sent : outcome (list logged * list (Z * list Z)) :=
  let* (kv, c, new) := probe 1 demo_puts demo_cache demo_client in
  let* (x, sent) := broadcast_cache_ops 1 (c_ops c) (c_ctx c) in Done (new, sent).

Lemma demo_sent_eq : exists w pkt,
  demo_sent = Done ([mkLogged (key_word demo_cput) w true], [(0, pkt); (2, pkt); (3, pkt)]) /\
  length pkt = 50%nat /\ w_ts w = (2, 1).
Proof. eexists _, _. split; [vm_compute; reflexivity|]. split; reflexivity. Qed.

Lemma demo_packets_sent : exists s w,
  rtc sc_step demo_system s /\ sy_log s = [mkLogged (key_word demo_cput) w true] /\ length (sy_wire s) = 3%nat /\
  Forall (fun pk => length (pk_bytes pk) = 50%nat) (sy_wire s) /\ (forall m g, collected (sy_client s (m, g)) = []).
Proof.
  destruct demo_sent_eq as (w & pkt & E & Hl & Hts). unfold demo_sent in E.
  apply obind_Done_inv in E as ([[kv c] new] & E1 & E). apply obind_Done_inv in E as ([x sent] & E2 & E). injection E as -> ->.
  set (s1 := mkSystem (fupd (fun _ => demo_cache) 1 kv) (<[(1, 3) := c]> (fun _ => demo_client)) [] []
               [mkLogged (key_word demo_cput) w true]).
  assert (S1 : sc_step demo_system s1).
  { apply (step_probe demo_system 1 3 demo_puts kv c [mkLogged (key_word demo_cput) w true]); [by apply machines_spec|done| |done|exact E1|].
    - apply Forall_singleton. split; [apply demo_legal; by left|]. by right.
    - apply Forall_singleton. unfold no_wrap. simpl. by rewrite Hts. }
  eexists _, w. split_and!.
  - eapply rtc_l; [exact S1|]. apply rtc_once. apply (step_send s1 1 3 x [(0, pkt); (2, pkt); (3, pkt)]); [by apply machines_spec|].
    unfold s1. cbn [sy_client]. rewrite fn_lookup_insert. exact E2.
  - done.
  - done.
  - cbn [sy_wire s1 fmap list_fmap app]. by repeat (apply Forall_cons_2; [exact Hl|]).
  - intros m g. cbn [sy_client]. destruct (decide ((m, g) = (1, 3))) as [->|Hn].
    + rewrite fn_lookup_insert. unfold collected. cbn [c_ops c_ctx set_ctx_of].
      assert (Hx : cbatch x = []); [|by rewrite Hx]. unfold broadcast_cache_ops in E2. destruct (cbatch (c_ctx c)) eqn:Eb; [done|].
      apply obind_Done_inv in E2 as ([c1 s2] & _ & E2). by injection E2 as <- _.
    + rewrite fn_lookup_insert_ne by done. unfold s1. cbn [sy_client]. by rewrite fn_lookup_insert_ne.
Qed.

(** Packets of one update have no structures behind it. *)
Lemma drained F0 s F :
  (forall k e, F0 k = Some e -> initial_entry e) -> sys_inv F0 s F ->
  Forall (fun pk => length (pk_bytes pk) = 50%nat) (sy_wire s) ->
  exists s', rtc sc_step s s' /\ sy_wire s' = [] /\ sy_log s' = sy_log s /\
    forall x, collected (sy_client s' x) = collected (sy_client s x).
Proof.
  intros H0. remember (sy_wire s) as l eqn:El. revert s F El. induction l as [|[[m g] d pkt] l IH]; intros s F El Hi Hl.
  { by exists s. }
  apply Forall_cons in Hl as [Hp Hl].
  destruct (receive_step F0 s F [] m g d pkt l Hi (eq_sym El)) as (s1 & S1 & W1 & L1 & C1).
  { intros i Hr. exfalso. cbn [pk_bytes] in Hp. rewrite Hp in Hr. change (Z.to_nat (Z.of_nat 50 / HERD_PUT_REQ_SIZE)) with 1%nat in Hr. lia. }
  destruct (step_inv F0 s s1 F H0 Hi S1) as [F1 Hi1].
  destruct (IH s1 F1 (eq_sym W1) Hi1 Hl) as (s2 & S2 & W2 & L2 & C2).
  exists s2. split_and!; [by eapply rtc_l|done|congruence|]. intros x. by rewrite C2, C1.
Qed.

Lemma demo_cput_cached : cache_view demo_cache (key_word demo_cput) = Some fresh_entry.
Proof. vm_compute. reflexivity. Qed.

Lemma demo_first w : always_first (key_word demo_cput) [mkLogged (key_word demo_cput) w true].
Proof. intros x Hx _. by apply list_elem_of_singleton in Hx as ->. Qed.

Lemma sc_replicas_converge_witness : exists s w1 w,
  rtc sc_step demo_system s /\ writes (key_word demo_cput) (sy_log s) = [w1] /\
  (w ∈ [replica fresh_entry; w1] /\ (forall w', w' ∈ [replica fresh_entry; w1] -> ts_le (w_ts w') (w_ts w)) /\
   forall b, b ∈ machines -> replica <$> cache_view (sy_kv s b) (key_word demo_cput) = Some w).
Proof.
  destruct demo_packets_sent as (s1 & w1 & R1 & L1 & _ & P1 & C1).
  destruct (reach_inv _ _ _ demo_sc_start R1) as [F Hi].
  destruct (drained _ _ _ (ss_objects _ _ demo_sc_start) Hi P1) as (s & R2 & W2 & L2 & C2). rewrite L1 in L2.
  assert (R : rtc sc_step demo_system s) by (etrans; eassumption).
  destruct (sc_replicas_converge (cache_view demo_cache) demo_system s demo_cput fresh_entry demo_sc_start R) as (w & H1 & H2 & H3).
  - apply demo_legal. left. reflexivity.
  - exact demo_cput_cached.
  - rewrite L2. apply demo_first.
  - exact W2.
  - intros m g _. rewrite C2. apply C1.
  - rewrite L2 in H1, H2. exists s, w1, w. split; [exact R|]. split; [rewrite L2; reflexivity|].
    split; [exact H1|]. split; [exact H2|exact H3].
Defined.

Lemma sc_hot_writes_propagate_witness : exists s w,
  rtc sc_step demo_system s /\ length (sy_wire s) = 3%nat /\ writes (key_word demo_cput) (sy_log s) = [w] /\
  forall b, b ∈ machines -> exists e, cache_view (sy_kv s b) (key_word demo_cput) = Some e /\ replica e ∈ [replica fresh_entry; w] /\
    (ts_le (w_ts w) (ts_of (e_meta e)) \/ on_the_way s (key_word demo_cput) b w).
Proof.
  destruct demo_packets_sent as (s & w & R & L & Hn & _). exists s, w. split; [exact R|]. split; [exact Hn|].
  assert (Ew : writes (key_word demo_cput) (sy_log s) = [w]) by (rewrite L; reflexivity). split; [exact Ew|].
  intros b Hb.
  destruct (proj1 (sc_hot_writes_propagate (cache_view demo_cache) demo_system s demo_cput fresh_entry demo_sc_start R
    (proj1 (demo_legal demo_cput (or_introl eq_refl))) demo_cput_cached
    ltac:(rewrite L; apply demo_first)) b Hb) as (e & H1 & H2 & H3).
  exists e. rewrite Ew in H2, H3. split; [exact H1|]. split; [exact H2|]. apply H3. left.
Defined.
