(* ===== verification/LinLoop.v ===== *)
(** * The whole loop of the LIN client (src/ccKVS/client-lin.c)

    [LinClients] takes the batch of a round from a relation.  Here a round reads
    its requests from the client's trace: the arrays are swapped, the batch is
    filled and probed ([Trace]), the coherence part runs ([LinRound]) and the
    pass over the batch ([ColdRequests]) leaves what is not finished for the next
    round.  The invariant of the loop ties the parts together: what the pass
    copies is what the refill asserts, the pointers to hot reads keep naming
    reads, and a write whose invalidation was not sent stays in the batch.  So
    the loops of all clients run exactly rounds of [LinClients].

    Clocks are left out: whether the update of a measured write was seen is an
    argument of the round ([Latency] computes it).  The queues the pass appends
    remote requests to have any contents when it starts, as client-lin.c never
    empties them; posting receives and sends is in [LinComplete]. *)
From stdpp Require Import relations.
From S2P Require Import Prelude Config Optik Layout City Mica MicaLog Cache CacheSpec Network.
From S2P Require Import Packets ColdRequests Trace ClientLoop ClientRound.
From S2P Require Import ScProtocol LinSpec LinProtocol Flow FlowSpec FlowRound FlowSystem LinRound LinContent LinServe LinTrack LinClients.
#[local] Open Scope lin_scope.

(** ** An iteration *)

(** The arrays of operations, responses and key homes and what else a client
    keeps for its requests. *)
Record lin_loop := mkLoop {
  lp_ops : list slot;
  lp_next : list slot;
  lp_third : list slot;
  lp_next_op_i : nat;
  lp_trace_iter : nat;
  lp_hot : Z -> Z;
  lp_lat : latency_flags;
  lp_hits : Z;
  lp_for_each_worker : Z -> Z
}.

(** [report_latency_of_hot_write], on the flag: [seen] tells that an update of
    the measured key was found. *)
Definition report_hot_write (seen : bool) (l : latency_flags) : latency_flags :=
  match measured_req_flag l with
  | HOT_WRITE_REQ => if seen then mkLat NO_REQ (last_measured_op_i l) else l
  | _ => l
  end.

Section iteration.
Context (machine_id local_client_id clt_gid batches_per_client : Z) (trace : list trace_command).

Definition lin_iteration (arr1 arr2 : list nat) (seen_write : bool) (queues : client_ctx)
    (kv : mica_kv) (t : thread) (lp : lin_loop)
    : outcome (mica_kv * thread * lin_loop * client_ctx * sends) :=
  let '(ops, next_ops, third_ops) := swap_ops (lp_ops lp) (lp_next lp) (lp_third lp) in
  let c := t_client t in
  let* p := poll_coherence_LIN (c_inbox c) (c_update_ops c) (c_inv_ops c)
              (ack_size (c_acks c)) (inv_size (c_invs c)) in
  let* _ := c_assert (update_ops_i p <=? BCAST_TO_CACHE_BATCH) in
  let* (kv, ups) := cache_batch_op_lin_non_stalling_sessions_with_cache_op machine_id kv
                      (with_resp (update_resp t) (array_take (update_ops_i p) (po_update_ops p))) in
  let* (count, q) := updates_and_acks_bookkeeping ups (fun _ _ => 0, c_acks c) in
  let la := report_hot_write seen_write (lp_lat lp) in
  let* (f, kv) := batch_from_trace_to_cache machine_id local_client_id 1 batches_per_client trace
                    (lp_trace_iter lp) (lp_next_op_i lp) ops (lp_hot lp) la kv in
  let* (kv, invs) := cache_batch_op_lin_non_stalling_sessions_with_small_cache_op machine_id kv
                       (with_resp (inv_resp t) (array_take (inv_ops_i p) (po_inv_ops p))) in
  let* (count, b) := invs_bookkeeping invs (count, c_invs c) in
  let* bc := perform_broadcasts_LIN machine_id (s_op <$> slots f) q count (c_ledger c) arr1 (c_br_tx c) in
  let* ak :=
    if 0 <? inv_size b then send_acks machine_id b (bc_count bc) (bc_ledger bc) arr2 (c_ack_tx c)
    else Done (mkAcks b (bc_count bc) (bc_ledger bc) arr2 (c_ack_tx c) 0 []) in
  let* (fc, cq) := forge_credits_LIN machine_id (as_count ak) (c_seen c) (c_coh_recv_cq c) in
  let ib := send_credits (length (credit_wr fc)) (po_inbox p) in
  let c := mkClient ib cq (array_put ups.*1 (po_update_ops p)) (array_put invs.*1 (po_inv_ops p))
             (bc_ack bc) (as_buffer ak) (as_ledger ak) (seen fc) (br_tx bc) (sent_ack_tx ak) in
  let t := mkThread c (resp_put ups.*2 (update_resp t)) (resp_put invs.*2 (inv_resp t))
             (bc_ops bc) (s_resp <$> slots f) in
  let* (l, ps) := handle_cold_requests LINEARIZABILITY machine_id local_client_id clt_gid
      (with_ops (slots f) (bc_ops bc))
      (mkPass next_ops 0 (lp_hits lp) (hot_keys f) (lat f) 0 0 (fun _ => 0) (lp_for_each_worker lp) queues) in
  Done (kv, t, mkLoop l (ColdRequests.next ps) third_ops (next_op_i ps) (trace_iter f) (hottest ps)
                 (latency ps) (hits ps) (for_each_worker ps), ctx ps,
        mkSends (mjoin ((fun op => (fun d => mkMsg d op) <$> others machine_id) <$> bc_sent bc)
                 ++ as_sent ak) (credit_wr fc)).
End iteration.

(** ** The slots of a round *)
Definition put_request (op : cache_op) : Prop := opcode op = CACHE_OP_PUT /\ val_len op = HERD_VALUE_SIZE.
Definition asks (op : cache_op) : Prop := opcode op = CACHE_OP_GET \/ put_request op.

(** Requests that go to the next round, with their responses: misses not yet
    served, reads and writes that wait, writes not yet broadcast. *)
Definition lin_kept (op : cache_op) (t : Z) : Prop :=
  (t = UNSERVED_CACHE_MISS /\ asks op) \/ (t = CACHE_GET_STALL /\ opcode op = CACHE_OP_GET) \/
  (t = CACHE_PUT_STALL /\ put_request op) \/ (t = CACHE_PUT_SUCCESS /\ is_brc op).

Definition lin_waiting (mid : Z) (s : slot) : Prop :=
  op_fits (s_op s) /\ home_ok mid (s_home s) /\ lin_kept (s_op s) (r_type s).

(** A slot after filling. *)
Definition lin_filled (mid : Z) (s : slot) : Prop :=
  op_fits (s_op s) /\ home_ok mid (s_home s) /\
  (lin_kept (s_op s) (r_type s) \/ (r_type s = EMPTY /\ asks (s_op s))).

(** A slot after the cache answered and the broadcasts. *)
Definition lin_answered (mid : Z) (s : slot) : Prop :=
  home_ok mid (s_home s) /\
  ((is_miss s = true /\ asks (s_op s)) \/
   ((r_type s = CACHE_GET_SUCCESS \/ r_type s = CACHE_GET_STALL) /\ opcode (s_op s) = CACHE_OP_GET) \/
   ((r_type s = CACHE_PUT_FAIL \/ r_type s = CACHE_PUT_STALL) /\ put_request (s_op s)) \/
   (r_type s = CACHE_PUT_SUCCESS /\ (is_brc (s_op s) \/ opcode (s_op s) = CACHE_OP_INV))).

Lemma lin_waiting_carried mid s : lin_waiting mid s -> carried_ok s = true.
Proof.
  intros (_ & _ & Hk). unfold carried_ok, lin_kept, is_brc in *.
  destruct Hk as [[-> [->|[-> _]]]|[[-> ->]|[[-> [-> _]]|[-> H]]]]; try done. by rewrite H.
Qed.

Lemma lin_filled_request mid s : lin_filled mid s -> request_ok (s_op s).
Proof.
  intros (Hf & _ & Hk). split; [done|]. unfold lin_kept, asks, put_request, client_put in *.
  destruct Hk as [[[_ Hk]|[[_ Hk]|[[_ Hk]|[_ Hk]]]]|[_ Hk]]; tauto.
Qed.

Lemma served_lin_answered mid cached s y :
  lin_filled mid s -> (is_brc (s_op s) -> cached) -> lin_served cached (s_op s, s_resp s) y ->
  lin_answered mid (mkSlot y.1 y.2 (s_home s)) /\ resp_type y.2 <> RETRY /\ op_fits y.1.
Proof.
  intros (Hf & Hh & Hk) Hb Hs. unfold lin_answered, lin_kept, asks, put_request, is_miss, r_type in *. cbn [s_op s_resp s_home] in *.
  assert (Hbrc : opcode (s_op s) = CACHE_OP_GET \/ opcode (s_op s) = CACHE_OP_PUT -> ~ is_brc (s_op s))
    by (unfold is_brc; by intros [-> | ->]).
  inversion Hs as [op r H E1 E2|op r r' H1 H2 E1 E2|op r st r' H1 H2 H3 H4 E1 E2|op r r' H1 H2 H3 E1 E2
    |op r op' r' H1 H2 H3 H4 H6 H5 E1 E2|op r H1 H2 E1 E2]; subst; cbn [fst snd].
  - destruct Hk as [[[Et Hk]|[[Et Hk]|[[Et Hk]|[Et Hk]]]]|[Et Hk]]; rewrite H in Et |- *; try discriminate Et.
    split_and!; try done. by left.
  - rewrite H2. split_and!; try done. left. split; [done|]. tauto.
  - split_and!; [done| |destruct H4 as [-> | ->]; done|].
    + right. left. done.
    + destruct Hf as [[] ? ? ? ? ? ? ?]. split; try done.
  - split_and!; [done| |destruct H3 as [-> | ->]; done|done].
    right. right. left. split; [done|]. unfold is_brc in Hk. rewrite H2 in Hk |- *.
    destruct Hk as [[[_ [Hk|Hk]]|[[_ Hk]|[[_ Hk]|[_ Hk]]]]|[_ [Hk|Hk]]]; done.
  - rewrite H5. split_and!; try done. do 3 right. split; [done|by left].
  - assert (Et : resp_type (s_resp s) = CACHE_PUT_SUCCESS).
    { unfold is_brc in H2. rewrite H2 in Hk. destruct Hk as [[[_ [Hk|[Hk _]]]|[[_ Hk]|[[_ [Hk _]]|[Hk _]]]]|[_ [Hk|[Hk _]]]]; done. }
    rewrite Et. split_and!; try done. do 3 right. split; [done|by left].
Qed.

(** ** Filling the batch *)
Lemma kept_grows s s' : slot_grows s s' -> lin_kept (s_op s) (r_type s) -> lin_kept (s_op s') (r_type s').
Proof.
  intros (Er & _ & n & Eo & _ & Hn) Hk. unfold lin_kept, asks, put_request, is_brc, r_type in *. rewrite Er, Eo. simpl.
  assert (Hp : opcode (s_op s) = CACHE_OP_PUT /\ val_len (s_op s) = HERD_VALUE_SIZE ->
    opcode (s_op s) = CACHE_OP_PUT /\ n = HERD_VALUE_SIZE) by (intros [H1 H2]; rewrite Hn; [done|by rewrite H1]).
  tauto.
Qed.

Lemma lin_filled_slots mid trace st0 f m :
  trace_for mid trace -> (trace_iter st0 < length trace)%nat ->
  (forall p s, (p < fill_i st0)%nat -> slots st0 !! p = Some s -> lin_waiting mid s) ->
  length (slots st0) = length (slots f) -> filled trace st0 f m -> Forall (lin_filled mid) (slots f).
Proof.
  intros [Ht Hh] Hit Hw Hl Hfd. pose proof (filled_all _ _ _ _ Ht Hfd) as Hall.
  destruct Hfd as [Hi _ _ _ Hold _ Hnew]. apply Forall_lookup_2. intros p s' Hs'.
  pose proof (lookup_lt_Some _ _ _ Hs') as Hp. pose proof (Forall_lookup_1 _ _ _ _ (fi_fits _ _ Hi) Hs') as Hf.
  split; [exact Hf|]. destruct (decide (p < fill_i st0)%nat) as [Hlt|Hge].
  - destruct (lookup_lt_is_Some_2 (slots st0) p) as [s Hs]; [lia|].
    destruct (Hold p s Hlt Hs) as (s2 & Hs2 & Hg). rewrite Hs' in Hs2. injection Hs2 as <-.
    destruct (Hw p s Hlt Hs) as (_ & Hho & Hk). split; [by rewrite (proj1 (proj2 Hg))|]. left. by apply (kept_grows s).
  - destruct (Hnew p s') as (c & s & Hc & (Hr & Hho & Hop & _ & Hv) & Hg); [lia|done|].
    destruct (Hh c) as [Hm Hne]; [by eapply commands_in|]. split.
    + rewrite (proj1 (proj2 Hg)), Hho. unfold home_ok. simpl. rewrite u8_small; [done|].
      apply machines_spec in Hm. unfold MACHINE_NUM, is_u8 in *. lia.
    + right. split; [unfold r_type; by rewrite (proj1 Hg)|].
      destruct Hg as (_ & _ & n & E & _ & Hn). unfold asks, put_request. rewrite E. simpl. rewrite Hop in *.
      destruct (IS_WRITE (tc_opcode c)); [right|by left]. split; [done|]. rewrite Hn by done. by apply Hv.
Qed.

(** Filling neither adds nor changes a write to be broadcast. *)
Lemma grown_brc l l' : Forall2 slot_grows l l' -> filter is_brc (s_op <$> l') = filter is_brc (s_op <$> l).
Proof.
  induction 1 as [|s s' l l' (_ & _ & n & E & _ & Hn) _ IH]; [done|]. rewrite !fmap_cons, !filter_cons, IH, E.
  change (decide (is_brc (set_val_len n (s_op s)))) with (decide (is_brc (s_op s))).
  destruct (decide (is_brc (s_op s))) as [Hb|Hb]; [|done].
  f_equal. rewrite Hn by (by rewrite Hb). by destruct (s_op s).
Qed.

Lemma filled_brc trace st0 f m :
  trace_ok trace -> length (slots st0) = length (slots f) -> (fill_i st0 <= length (slots st0))%nat -> filled trace st0 f m ->
  filter is_brc (s_op <$> slots f) = filter is_brc (s_op <$> take (fill_i st0) (slots st0)).
Proof.
  intros Ht Hl Hle Hfd. pose proof (filled_all _ _ _ _ Ht Hfd) as Hall. destruct Hfd as [_ _ _ _ Hold _ Hnew].
  rewrite <- (take_drop (fill_i st0) (slots f)), fmap_app, filter_app.
  rewrite (filter_none is_brc (s_op <$> drop _ _)), app_nil_r.
  - apply grown_brc, Forall2_same_length_lookup_2; [rewrite !length_take; lia|].
    intros p s s' Hs Hs'. apply lookup_take_Some in Hs as [Hs Hp]. apply lookup_take_Some in Hs' as [Hs' _].
    destruct (Hold p s Hp Hs) as (s2 & Hs2 & Hg). congruence.
  - apply Forall_fmap, Forall_lookup_2. intros p s' Hs'. rewrite lookup_drop in Hs'.
    pose proof (lookup_lt_Some _ _ _ Hs') as Hp. unfold compose, is_brc.
    destruct (Hnew (fill_i st0 + p)%nat s') as (c & s & _ & (_ & _ & Hop & _) & (_ & _ & n & E & _)); [lia|done|].
    rewrite E. simpl. rewrite Hop. by destruct (IS_WRITE _).
Qed.

(** A read that a pointer names carries the key it tracks in its first value
    byte, and is not a miss. *)
Definition tagged (hot : Z -> Z) (l : list slot) : Prop :=
  forall k p s, 0 <= k < HOTTEST_KEYS_TO_TRACK -> hot k = Z.of_nat p + 1 -> l !! p = Some s ->
    tracked (s_op s) = k /\ r_type s <> UNSERVED_CACHE_MISS.

Section fill_tags.
Context (mid tid bpc : Z) (trace : list trace_command) (Ht : trace_ok trace).

Lemma place_tag cmd hot tr st st' :
  place mid tid 1 bpc trace cmd hot tr st = Done st' ->
  hot_keys st' = hot /\ exists s s', slots st !! fill_i st = Some s /\ slots st' = <[fill_i st := s']> (slots st) /\
    r_type s' = EMPTY /\
    (tr = true -> IS_WRITE (tc_opcode cmd) = false -> value (s_op s) <> [] -> tracked (s_op s') = u8 (key_id cmd)).
Proof using.
  unfold place. destruct (slots st !! fill_i st) as [s|]; [|done]. intros E.
  change (ENABLE_MULTIPLE_SESSIONS =? 1) with true in E. change (1 =? 1) with true in E. rewrite andb_true_r in E. cbv iota in E.
  apply obind_Done_inv in E as ([] & _ & E). destruct (hrd_fastrand (seed st)) as [sd rand].
  apply obind_Done_inv in E as ([] & _ & E). change (MEASURE_LATENCY =? 1) with true in E. cbv iota in E.
  apply obind_Done_inv in E as ([o l] & Em & E). injection E as <-. split; [done|]. exists s. eexists.
  split; [done|]. split; [reflexivity|]. split; [done|]. intros -> Hw Hne.
  unfold start_measurement in Em. apply obind_Done_inv in Em as ([] & _ & Em).
  set (o0 := new_op tid cmd rand _) in Em.
  assert (Hv : value o = value o0 /\ opcode o = opcode o0).
  { destruct (_ && _ && _ && _) in Em; [|by injection Em as <- _]. apply obind_Done_inv in Em as ([] & _ & Em).
    injection Em as <- _. by destruct (is_remote_req _). }
  destruct Hv as [Hv Ho]. cbn [s_op]. assert (Hop : (opcode o =? CACHE_OP_PUT) = false).
  { rewrite Ho. unfold o0, new_op. cbn [opcode set_meta set_val_len set_opcode]. by rewrite Hw. }
  rewrite Hop. unfold tracked. rewrite Hv. unfold o0, new_op. cbn [value set_meta set_val_len set_opcode set_op_key].
  destruct (value (s_op s)) as [|x v] eqn:Ev; [done|]. by destruct (MEASURE_LATENCY =? 1).
Qed.

Lemma fill_step_tagged st st' :
  fill_inv trace st -> fill_more trace st = true -> fill_step mid tid 1 bpc trace st = Done st' ->
  tagged (hot_keys st) (slots st) -> tagged (hot_keys st') (slots st').
Proof using Ht.
  intros Hi Hmore E Htag. pose proof (fi_i _ _ Hi) as Hle. pose proof (fi_len _ _ Hi) as Hlen.
  assert (Hlt : Z.of_nat (fill_i st) < CACHE_BATCH_SIZE).
  { unfold fill_more in Hmore. apply andb_true_iff in Hmore as [H _]. by apply Z.ltb_lt in H. }
  assert (Hptr : forall k, 0 <= k < HOTTEST_KEYS_TO_TRACK -> hot_keys st k <> Z.of_nat (fill_i st) + 1).
  { intros k Hk Eq. destruct (fi_track _ _ Hi k Hk) as (p & _ & Hp & Hpi & _); lia. }
  assert (Hne : forall s, slots st !! fill_i st = Some s -> value (s_op s) <> []).
  { intros s Hs Ev. pose proof (Forall_lookup_1 _ _ _ _ (fi_fits _ _ Hi) Hs) as Hf. pose proof (of_value _ Hf) as Hv.
    rewrite Ev in Hv. discriminate Hv. }
  pose proof (cmd_at_ok trace Ht _ (fi_it _ _ Hi)) as [Hrw _ Hkid _].
  unfold fill_step in E. set (cmd := trace_at trace (trace_iter st)) in *.
  assert (Hplace : forall hot tr, place mid tid 1 bpc trace cmd hot tr st = Done st' ->
    (forall k, 0 <= k < HOTTEST_KEYS_TO_TRACK -> hot k <> 0 -> hot k = hot_keys st k \/
       (k = key_id cmd /\ hot k = Z.of_nat (fill_i st) + 1 /\ tr = true /\ IS_READ (tc_opcode cmd) = true)) ->
    tagged (hot_keys st') (slots st')).
  { intros hot tr Ep Hhot k p s Hk Hp Hs. destruct (place_tag _ _ _ _ _ Ep) as (Eh & s0 & s1 & Hs0 & Es & Hr & Htr).
    rewrite Eh in Hp. rewrite Es in Hs.
    destruct (Hhot k Hk ltac:(lia)) as [Eq|(-> & Eq & -> & Hrd)].
    - destruct (decide (p = fill_i st)) as [->|Hpi]; [destruct (Hptr k Hk); congruence|].
      rewrite list_lookup_insert_ne in Hs by done. apply (Htag k p s Hk); [congruence|done].
    - assert (p = fill_i st) as -> by lia. rewrite list_lookup_insert_eq in Hs by (apply lookup_lt_Some in Hs0; done).
      injection Hs as <-. rewrite Hr. split; [|done].
      rewrite Htr; [|done| |by eapply Hne]; [apply u8_small; unfold is_u8, HOTTEST_KEYS_TO_TRACK in *; lia|].
      rewrite Hrd in Hrw. by destruct (IS_WRITE _). }
  destruct (tracked_cmd cmd) eqn:Etc; [destruct (IS_READ (tc_opcode cmd)) eqn:Erd;
    [destruct (Z.eqb_spec (hot_keys st (key_id cmd)) 0) as [Hz|Hnz]|]|].
  - apply (Hplace _ _ E). intros k Hk Hnz. unfold fupd in *. destruct (Z.eqb_spec k (key_id cmd)) as [->|]; [|by left].
    right. rewrite u16_small by (unfold is_u16, CACHE_BATCH_SIZE in *; lia). done.
  - unfold merge in E. set (q := Z.to_nat _) in E. destruct (slots st !! q) as [s0|] eqn:Hq; [|done].
    apply obind_Done_inv in E as ([] & _ & E). apply obind_Done_inv in E as ([] & _ & E). injection E as <-.
    cbn [hot_keys slots]. intros k p s Hk Hp Hs. destruct (decide (p = q)) as [->|Hpq].
    + rewrite list_lookup_insert_eq in Hs by (by eapply lookup_lt_Some). injection Hs as <-.
      exact (Htag k q s0 Hk Hp Hq).
    + rewrite list_lookup_insert_ne in Hs by done. by apply (Htag k p s).
  - apply (Hplace _ _ E). intros k Hk Hnz. unfold fupd in *. destruct (Z.eqb_spec k (key_id cmd)); [done|by left].
  - apply (Hplace _ _ E). intros k Hk Hnz. by left.
Qed.

Lemma fill_loop_tagged fuel : forall st st',
  fill_inv trace st -> fill_loop mid tid 1 bpc trace fuel st = Done st' ->
  tagged (hot_keys st) (slots st) -> tagged (hot_keys st') (slots st').
Proof using Ht.
  induction fuel as [|fuel IH]; intros st st' Hi E Htag; [done|]. cbn [fill_loop] in E.
  destruct (fill_more trace st) eqn:Em; [|by injection E as <-].
  apply obind_Done_inv in E as (st1 & E1 & E).
  destruct (fill_step_ok mid tid 1 bpc trace Ht st Hi Em) as [(st2 & E2 & Hi2 & _)|[E2 _]]; [|congruence].
  rewrite E1 in E2. injection E2 as <-. eapply IH; [exact Hi2|exact E|].
  exact (fill_step_tagged st st1 Hi Em E1 Htag).
Qed.
End fill_tags.

(** ** The pass over the batch *)
Lemma lin_answered_ok mid lid s : lin_answered mid s -> slot_ok LINEARIZABILITY mid lid s.
Proof.
  intros [Hh H]. unfold asks, put_request, is_brc in H. split; unfold knows_opcode, expected_hit.
  - destruct H as [[_ [E|[E _]]]|[[_ E]|[[_ [E _]]|[_ [E|E]]]]]; rewrite E; by (left + right).
  - destruct H as [[E _]|[[[E|E] _]|[[[E|E] _]|[E _]]]]; try (by rewrite E). intros Et. unfold is_miss in E. by rewrite Et in E.
  - intros Hm. change (is_lin LINEARIZABILITY) with true. cbv iota.
    destruct H as [[E _]|[[[E|E] _]|[[[E|E] _]|[E _]]]]; [congruence|rewrite E..]; done.
  - intros Hm Hp. unfold is_miss in Hm.
    destruct H as [[_ [E|[_ E]]]|[[[E|E] _]|[[[E|E] _]|[E _]]]]; try done; [by rewrite Hp in E|rewrite E in Hm; discriminate Hm..].
  - intros _. exact Hh.
Qed.

Lemma finished_lin s : finished LINEARIZABILITY s = false ->
  r_type s <> CACHE_GET_SUCCESS /\ opcode (s_op s) <> CACHE_OP_INV /\ r_type s <> CACHE_PUT_FAIL.
Proof.
  unfold finished. change (is_lin LINEARIZABILITY) with true. cbv iota.
  intros [H1%Z.eqb_neq [H2%Z.eqb_neq H3%Z.eqb_neq]%orb_false_iff]%orb_false_iff. done.
Qed.

(** A slot that is copied to the next round. *)
Lemma lin_copied mid gid op_i s s' dst st st' :
  is_u32 gid -> lin_answered mid s -> op_fits (s_op s) -> op_fits (s_op dst) ->
  fate_step LINEARIZABILITY gid op_i Carried s s' st st' -> lin_waiting mid (copy_slot dst s').
Proof.
  intros Hg [Hh Ha] Hf Hd (Hho & Ht & Hop & Hfin & _). simpl in *.
  assert (Hkey : op_fits (s_op s') /\ opcode (s_op s') = opcode (s_op s) /\ val_len (s_op s') = val_len (s_op s)).
  { destruct Hop as [-> |[_ ->]]; [done|]. split; [by apply set_clt_gid_fits|done]. }
  destruct Hkey as (Hf' & Eo & Ev). split; [by apply copy_request_fits|]. split; [cbn [copy_slot s_home]; by rewrite Hho|].
  assert (Hc : opcode (copy_request (s_op dst) (s_op s')) = opcode (s_op s) /\
               val_len (copy_request (s_op dst) (s_op s')) = val_len (s_op s))
    by (unfold copy_request; destruct (copies_value _); by rewrite <- Eo, <- Ev).
  destruct Hc as [Co Cv]. cbn [copy_slot s_op]. change (r_type (copy_slot dst s')) with (r_type s'). rewrite Ht.
  unfold lin_kept, asks, put_request, is_brc in *. rewrite Co, Cv.
  destruct (is_miss s) eqn:Em.
  - destruct Ha as [[_ Ha]|[[[E|E] _]|[[[E|E] _]|[E _]]]]; [by left|unfold is_miss in Em; rewrite E in Em; discriminate Em..].
  - destruct Hfin as [|(H1 & H2 & H3)%finished_lin]; [done|]. destruct Ha as [[? _]|Ha]; [done|]. tauto.
Qed.

Lemma pass_lin_waiting mid gid l fs d st st' :
  is_u32 gid -> pass_rel LINEARIZABILITY gid 0 l fs d st st' -> next_op_i st = 0%nat ->
  Forall (lin_answered mid) l -> Forall (fun s => op_fits (s_op s)) l ->
  Forall (fun s => op_fits (s_op s)) (ColdRequests.next st) -> length (ColdRequests.next st) = length l ->
  forall p s, (p < next_op_i st')%nat -> ColdRequests.next st' !! p = Some s -> lin_waiting mid s.
Proof.
  intros Hg Hp Hn Hl Hlf Hf Hlen p s Hlt Hs. destruct (pass_length _ _ _ _ _ _ _ _ Hp) as [_ Hd].
  destruct (pass_carried _ _ _ _ _ _ _ _ Hp) as (Hcn & _ & Hck). rewrite Hn in *. simpl in Hcn.
  destruct (lookup_lt_is_Some_2 (carried fs d) p) as [s' Hs']; [lia|].
  pose proof (carried_length fs d) as Hcl.
  destruct (lookup_lt_is_Some_2 (ColdRequests.next st) p) as [dst Hdst]; [lia|].
  pose proof (Hck p s' dst Hs' Hdst) as E. cbn [Nat.add] in E. rewrite Hs in E. injection E as ->.
  destruct (carried_lookup _ _ _ _ Hs') as (i & Hfi & Hdi).
  destruct (lookup_lt_is_Some_2 l i) as [s0 Hs0]; [apply lookup_lt_Some in Hdi; lia|].
  destruct (pass_fate _ _ _ _ _ _ _ _ i _ s0 s' Hp Hfi Hs0 Hdi) as (sa & sb & Hstep).
  exact (lin_copied mid gid _ s0 s' dst sa sb Hg (Forall_lookup_1 _ _ _ _ Hl Hs0) (Forall_lookup_1 _ _ _ _ Hlf Hs0)
    (Forall_lookup_1 _ _ _ _ Hf Hdst) Hstep).
Qed.

Lemma take_alter_next {A} (f : A -> A) n l x : l !! n = Some x -> take (S n) (alter f n l) = take n l ++ [f x].
Proof.
  intros H. rewrite (take_S_r _ _ (f x)) by (by rewrite list_lookup_alter_eq, H). f_equal.
  apply list_eq. intros i. destruct (decide (i < n)%nat) as [Hi|Hi].
  - rewrite !lookup_take_lt by done. by rewrite list_lookup_alter_ne by lia.
  - by rewrite !lookup_take_ge by lia.
Qed.

(** The writes not yet broadcast are copied, in order. *)
Definition copied_to (o n : cache_op) : Prop := exists slot, op_fits slot /\ n = recv_put_req slot o.

Lemma pass_brc mid gid op_i l fs d st st' :
  is_u32 gid -> pass_rel LINEARIZABILITY gid op_i l fs d st st' -> Forall (lin_answered mid) l ->
  Forall (fun s => op_fits (s_op s)) l -> Forall (fun s => op_fits (s_op s)) (ColdRequests.next st) ->
  (next_op_i st + length l <= length (ColdRequests.next st))%nat ->
  exists new, take (next_op_i st') (ColdRequests.next st') = take (next_op_i st) (ColdRequests.next st) ++ new /\
    Forall2 copied_to (filter is_brc (s_op <$> l)) (filter is_brc (s_op <$> new)).
Proof.
  intros Hg. induction 1 as [|op_i s l f fs s' l' st st1 st2 Hf _ _ IH]; intros Ha Hlf Hn Hlen; [exists []; by rewrite app_nil_r|].
  apply Forall_cons in Ha as [Hs Ha]. apply Forall_cons in Hlf as [Hsf Hlf]. cbn [length] in Hlen. rewrite fmap_cons, filter_cons.
  assert (Hskip : ColdRequests.next st1 = ColdRequests.next st -> next_op_i st1 = next_op_i st -> ~ is_brc (s_op s) ->
    exists new, take (next_op_i st2) (ColdRequests.next st2) = take (next_op_i st) (ColdRequests.next st) ++ new /\
      Forall2 copied_to (if decide (is_brc (s_op s)) then s_op s :: filter is_brc (s_op <$> l) else filter is_brc (s_op <$> l))
        (filter is_brc (s_op <$> new))).
  { intros E1 E2 Hb. rewrite decide_False by done. rewrite E1, E2 in IH. apply IH; [done|done|done|lia]. }
  assert (Hbrc : is_brc (s_op s) -> r_type s = CACHE_PUT_SUCCESS).
  { intros Hb. unfold is_brc in Hb. destruct Hs as [_ [[_ [H|[H _]]]|[[_ H]|[[_ [H _]]|[H _]]]]]; [rewrite Hb in H; discriminate H..|done]. }
  destruct f as [| |rm]; simpl in Hf.
  - destruct Hf as (Hfin & _ & _ & E1 & E2 & _). apply Hskip; [done|done|]. intros Hb. unfold finished in Hfin.
    rewrite (Hbrc Hb), Hb in Hfin. discriminate Hfin.
  - destruct Hf as (_ & _ & Hop & _ & E1 & E2 & _).
    destruct (lookup_lt_is_Some_2 (ColdRequests.next st) (next_op_i st)) as [dst Hdst]; [lia|].
    assert (Hf' : op_fits (s_op s')) by (destruct Hop as [-> |[_ ->]]; [done|by apply set_clt_gid_fits]).
    destruct IH as (new & En & Hc); [done|done|rewrite E1; apply Forall_alter; [done|]|rewrite E1, E2, length_alter; lia|].
    { intros x _ Hfx. by apply copy_request_fits. }
    exists (copy_slot dst s' :: new). split.
    + rewrite En, E1, E2, (take_alter_next _ _ _ dst Hdst), <- app_assoc. done.
    + rewrite fmap_cons, filter_cons. cbn [copy_slot s_op].
      assert (Eo : opcode (copy_request (s_op dst) (s_op s')) = opcode (s_op s)).
      { unfold copy_request. destruct (copies_value _); by destruct Hop as [-> |[_ ->]]. }
      destruct (decide (is_brc (s_op s))) as [Hb|Hb].
      * rewrite decide_True by (unfold is_brc; by rewrite Eo). constructor; [|done].
        assert (E : s_op s' = s_op s).
        { destruct Hop as [?|[Hm _]]; [done|]. unfold is_miss in Hm. rewrite (Hbrc Hb) in Hm. discriminate Hm. }
        exists (s_op dst). split; [exact (Forall_lookup_1 _ _ _ _ Hn Hdst)|]. rewrite E. unfold copy_request. by rewrite Hb.
      * by rewrite decide_False by (unfold is_brc; by rewrite Eo).
  - destruct Hf as (Hm & _ & _ & _ & E1 & E2 & _). apply Hskip; [done|done|]. intros Hb. unfold is_miss in Hm. rewrite (Hbrc Hb) in Hm. discriminate Hm.
Qed.

(** *** The pointers to hot reads *)
Section pointers.
Context (trace : list trace_command) (k : Z) (Hk : 0 <= k < HOTTEST_KEYS_TO_TRACK).

(** [s] is a read of the tracked key [k]. *)
Definition reads_key (s : slot) : Prop :=
  opcode (s_op s) = CACHE_OP_GET /\ tracked (s_op s) = k /\
  exists c, c ∈ trace /\ key_id c = k /\ cmd_word c = key_word (s_op s).

Definition other_key (s s' : slot) : Prop := key_word (s_op s') <> key_word (s_op s).

(** The pointer of [k] during the pass: unset, a read still to be visited, or
    one already copied. *)
Inductive pointer (op_i : nat) (l : list slot) (st : pass_state) : Prop :=
| pt_unset : hottest st k = 0 -> pointer op_i l st
| pt_ahead p s :
    hottest st k = Z.of_nat (op_i + p) + 1 -> l !! p = Some s -> reads_key s ->
    r_type s = CACHE_GET_SUCCESS \/ r_type s = CACHE_GET_STALL ->
    Forall (other_key s) (drop (S p) l) -> pointer op_i l st
| pt_copied p s :
    hottest st k = Z.of_nat p + 1 -> (p < next_op_i st)%nat -> ColdRequests.next st !! p = Some s -> reads_key s ->
    r_type s <> UNSERVED_CACHE_MISS ->
    (forall q s', (p < q < next_op_i st)%nat -> ColdRequests.next st !! q = Some s' -> other_key s s') ->
    Forall (other_key s) l -> pointer op_i l st.

Lemma hit_not_miss s : r_type s = CACHE_GET_SUCCESS \/ r_type s = CACHE_GET_STALL -> is_miss s = false.
Proof using. unfold is_miss. by intros [-> | ->]. Qed.

Lemma forget_other op_i s hot : hot k <> Z.of_nat op_i + 1 -> forget_hot_key LINEARIZABILITY op_i s hot k = hot k.
Proof using.
  intros Hne. unfold forget_hot_key. destruct (_ && _) eqn:E; [|done]. apply andb_true_iff in E as [_ E%Z.eqb_eq].
  apply fupd_ne. congruence.
Qed.

Lemma follow_other op_i s n hot : hot k <> Z.of_nat op_i + 1 -> follow_hot_key op_i s n hot k = hot k.
Proof using.
  intros Hne. unfold follow_hot_key. destruct (_ && _) eqn:E; [|done]. apply andb_true_iff in E as [_ E%Z.eqb_eq].
  apply fupd_ne. congruence.
Qed.

Lemma copy_request_key dst src : key_word (copy_request dst src) = key_word src.
Proof using. unfold copy_request. by destruct (copies_value _). Qed.

Lemma copied_reads dst s : op_fits (s_op s) -> reads_key s -> reads_key (copy_slot dst s).
Proof using.
  intros Hf (Hg & Htr & Hc). unfold reads_key. cbn [copy_slot s_op]. rewrite copy_request_key. split_and!; [| |done].
  - unfold copy_request. by destruct (copies_value _).
  - rewrite <- Htr. unfold copy_request. rewrite Hg. change (copies_value CACHE_OP_GET) with false. cbv iota.
    unfold tracked. cbn [value]. pose proof (of_value _ Hf) as Hv. by destruct (value (s_op s)).
Qed.

Lemma pointer_finished op_i s l s' st st' gid :
  (next_op_i st <= op_i)%nat -> fate_step LINEARIZABILITY gid op_i Finished s s' st st' ->
  hot_step LINEARIZABILITY op_i Finished s s' st st' -> pointer op_i (s :: l) st -> pointer (S op_i) l st'.
Proof using Hk.
  intros Hle (Hfin & _ & _ & En & Ei & _) Hh Hp. unfold hot_step in Hh.
  destruct Hp as [H0|[|p] x Hx Hl Hr Ht Ho|p x Hx Hlt Hl Hr Ht Hq Ho].
  - apply pt_unset. rewrite Hh, forget_other; [done|]. lia.
  - injection Hl as <-. destruct Hr as (Hg & Htr & _). apply pt_unset. rewrite Hh. unfold forget_hot_key.
    rewrite Htr, Hx. replace (Z.of_nat (op_i + 0) + 1) with (Z.of_nat op_i + 1) by lia. rewrite (Z.eqb_refl (Z.of_nat op_i + 1)).
    rewrite (proj2 (Z.ltb_lt k _)) by lia. destruct Ht as [->|Ht]; [apply fupd_eq|].
    unfold finished in Hfin. rewrite Ht, Hg in Hfin. discriminate Hfin.
  - apply (pt_ahead _ _ _ p x); try done. rewrite Hh, forget_other; [rewrite Hx; lia|lia].
  - apply Forall_cons in Ho as [_ Ho]. apply (pt_copied _ _ _ p x); rewrite ?En, ?Ei; try done.
    rewrite Hh, forget_other; [done|lia].
Qed.

Lemma pointer_carried op_i s l s' st st' gid :
  (next_op_i st <= op_i)%nat -> (next_op_i st < length (ColdRequests.next st))%nat -> op_fits (s_op s) ->
  fate_step LINEARIZABILITY gid op_i Carried s s' st st' ->
  hot_step LINEARIZABILITY op_i Carried s s' st st' -> pointer op_i (s :: l) st -> pointer (S op_i) l st'.
Proof using Hk.
  intros Hle Hlen Hf (_ & Ht' & Hop & Hfin & En & Ei & _) Hh Hp. unfold hot_step in Hh.
  destruct (lookup_lt_is_Some_2 _ _ Hlen) as [dst Hdst].
  assert (Hnew : ColdRequests.next st' !! next_op_i st = Some (copy_slot dst s')) by (by rewrite En, list_lookup_alter_eq, Hdst).
  destruct Hp as [H0|[|p] x Hx Hl Hr Ht Ho|p x Hx Hlt Hl Hr Ht Hq Ho].
  - apply pt_unset. rewrite Hh, follow_other; [done|]. lia.
  - injection Hl as <-. pose proof (hit_not_miss s Ht) as Hm. rewrite Hm in *.
    destruct Hop as [Eo|[? _]]; [|done]. destruct Hfin as [|(Hns & _)%finished_lin]; [done|]. destruct Ht as [|Ht]; [done|].
    pose proof (copied_reads dst s' ltac:(by rewrite Eo)) as Hcr. unfold reads_key in Hcr at 1. rewrite Eo in Hcr. specialize (Hcr Hr).
    apply (pt_copied _ _ _ (next_op_i st) (copy_slot dst s')); try done.
    + rewrite Hh. unfold follow_hot_key. rewrite Eo. destruct Hr as (_ & -> & _). rewrite Ht', Ht, Hx.
      replace (Z.of_nat (op_i + 0) + 1) with (Z.of_nat op_i + 1) by lia. rewrite (Z.eqb_refl (Z.of_nat op_i + 1)).
      rewrite (proj2 (Z.ltb_lt k _)) by lia. apply fupd_eq.
    + lia.
    + change (r_type (copy_slot dst s')) with (r_type s'). by rewrite Ht', Ht.
    + intros q s2 Hq. lia.
    + cbn [drop] in Ho. eapply Forall_impl; [exact Ho|]. intros y. unfold other_key. cbn [copy_slot s_op].
      by rewrite copy_request_key, Eo.
  - apply (pt_ahead _ _ _ p x); try done. rewrite Hh, follow_other; [rewrite Hx; lia|lia].
  - apply Forall_cons in Ho as [Hos Ho]. apply (pt_copied _ _ _ p x); try done.
    + rewrite Hh, follow_other; [done|lia].
    + lia.
    + rewrite En, list_lookup_alter_ne by lia. done.
    + intros q s2 Hq2 Hs2. destruct (decide (q = next_op_i st)) as [->|Hne].
      * rewrite Hnew in Hs2. injection Hs2 as <-. unfold other_key in *. cbn [copy_slot s_op]. rewrite copy_request_key.
        destruct Hop as [-> |[_ ->]]; done.
      * rewrite En, list_lookup_alter_ne in Hs2 by lia. apply (Hq q); [lia|done].
Qed.

Lemma pass_pointer gid op_i l fs d st st' :
  pass_rel LINEARIZABILITY gid op_i l fs d st st' -> (next_op_i st <= op_i)%nat ->
  (next_op_i st + length l <= length (ColdRequests.next st))%nat -> Forall (fun s => op_fits (s_op s)) l ->
  pointer op_i l st -> pointer (op_i + length l) [] st'.
Proof using Hk.
  induction 1 as [|op_i s l f fs s' l' st st1 st2 Hf Hh _ IH]; intros Hle Hlen Hfits Hp; [by rewrite Nat.add_0_r|].
  apply Forall_cons in Hfits as [Hsf Hfits]. cbn [length] in *. rewrite Nat.add_succ_r, <- Nat.add_succ_l.
  destruct f as [| |rm].
  - pose proof Hf as (_ & _ & _ & En & Ei & _). apply IH; rewrite ?En, ?Ei; [lia|lia|done|].
    by apply (pointer_finished op_i s l s' st st1 gid).
  - pose proof Hf as (_ & _ & _ & _ & En & Ei & _). apply IH; rewrite ?En, ?Ei, ?length_alter; [lia|lia|done|].
    apply (pointer_carried op_i s l s' st st1 gid); try done. lia.
  - pose proof Hf as (Hm & _ & _ & _ & En & Ei & _). unfold hot_step in Hh. apply IH; rewrite ?En, ?Ei; [lia|lia|done|].
    destruct Hp as [H0|[|p] x Hx Hl Hr Ht Ho|p x Hx Hlt Hl Hr Ht Hq Ho].
    + apply pt_unset. by rewrite Hh.
    + injection Hl as <-. by rewrite (hit_not_miss s Ht) in Hm.
    + apply (pt_ahead _ _ _ p x); try done. rewrite Hh, Hx. lia.
    + apply Forall_cons in Ho as [_ Ho]. apply (pt_copied _ _ _ p x); rewrite ?En, ?Ei, ?Hh; try done.
Qed.
End pointers.

(** ** The invariant of the loop *)
Record loop_ok (mid : Z) (trace : list trace_command) (sent : list cache_op) (lp : lin_loop) : Prop := {
  lo_it : (lp_trace_iter lp < length trace)%nat;
  lo_ops : Z.of_nat (length (lp_ops lp)) = CACHE_BATCH_SIZE;
  lo_next : Z.of_nat (length (lp_next lp)) = CACHE_BATCH_SIZE;
  lo_third : Z.of_nat (length (lp_third lp)) = CACHE_BATCH_SIZE;
  lo_ops_fits : Forall (fun s => op_fits (s_op s)) (lp_ops lp);
  lo_next_fits : Forall (fun s => op_fits (s_op s)) (lp_next lp);
  lo_third_fits : Forall (fun s => op_fits (s_op s)) (lp_third lp);
  lo_n : (lp_next_op_i lp <= length (lp_next lp))%nat;
  lo_wait : forall p s, (p < lp_next_op_i lp)%nat -> lp_next lp !! p = Some s -> lin_waiting mid s;
  lo_track : tracking trace (lp_hot lp) (lp_next lp) (lp_next_op_i lp);
  lo_tag : tagged (lp_hot lp) (lp_next lp);
  lo_brc : Forall2 copied_to (filter is_brc sent) (filter is_brc (s_op <$> take (lp_next_op_i lp) (lp_next lp)))
}.

Definition pairs (l : list slot) : list (cache_op * mica_resp) := (fun s => (s_op s, s_resp s)) <$> l.

Lemma pairs_fst l : (pairs l).*1 = s_op <$> l.
Proof. unfold pairs. by rewrite <- list_fmap_compose. Qed.

Lemma answered_fst l ans : length ans = length l -> s_op <$> answered l ans = ans.*1.
Proof.
  revert ans. induction l as [|s l IH]; intros [|x ans] Hl; try done. unfold answered. cbn [zip_with length drop app fmap list_fmap s_op].
  f_equal. apply IH. by injection Hl.
Qed.

Lemma answered_snd l ans : length ans = length l -> s_resp <$> answered l ans = ans.*2.
Proof.
  revert ans. induction l as [|s l IH]; intros [|x ans] Hl; try done. unfold answered. cbn [zip_with length drop app fmap list_fmap s_resp].
  f_equal. apply IH. by injection Hl.
Qed.

Lemma answered_length l ans : length ans = length l -> length (answered l ans) = length l.
Proof. intros Hl. unfold answered. rewrite length_app, length_zip_with, length_drop. lia. Qed.

Section run.
Context (mid lid gid bpc : Z) (trace : list trace_command).

(** An iteration whose batch was filled is the pass after a round of [LinRound]. *)
Lemma iteration_eq arr1 arr2 sw queues kv t lp nx th f p ups ops invs kv1 kv2 kv3 count1 count2 q b bc ak fc cq :
  swap_ops (lp_ops lp) (lp_next lp) (lp_third lp) = (lp_next lp, nx, th) ->
  fill_batch mid lid 1 bpc trace (lp_trace_iter lp) (lp_next_op_i lp) (lp_next lp) (lp_hot lp)
    (report_hot_write sw (lp_lat lp)) = Done f ->
  fill_i f = length (slots f) -> length ops = length (slots f) ->
  round_run mid (pairs (slots f)) arr1 arr2 kv t p ups ops invs kv1 kv2 kv3 count1 count2 q b bc ak fc cq ->
  forallb (fun s => negb (r_type s =? RETRY)) (answered (slots f) ops) = true ->
  exists la, lin_iteration mid lid gid bpc trace arr1 arr2 sw queues kv t lp =
    let* (l, ps) := handle_cold_requests LINEARIZABILITY mid lid gid (with_ops (answered (slots f) ops) (bc_ops bc))
      (mkPass nx 0 (lp_hits lp) (hot_keys f) la 0 0 (fun _ => 0) (lp_for_each_worker lp) queues) in
    Done (kv3, (round_result mid t p ups ops invs bc ak fc cq).1,
          mkLoop l (ColdRequests.next ps) th (next_op_i ps) (trace_iter f) (hottest ps)
            (latency ps) (hits ps) (for_each_worker ps), ctx ps,
          (round_result mid t p ups ops invs bc ak fc cq).2).
Proof using.
  intros Esw Ef Hall Hl [R1 R2 R3 R4 R5 R6 R7 R8 R9 R10] Hretry.
  exists (hot_request_bookkeeping 1 (lat f) (answered (slots f) ops)).
  unfold lin_iteration. rewrite Esw, R1. cbn [obind]. rewrite (proj2 (Z.leb_le _ _) R2). cbn [c_assert obind].
  rewrite R3. cbn [obind]. rewrite R4. cbn [obind]. unfold batch_from_trace_to_cache. rewrite Ef. cbn [obind].
  rewrite Hall, firstn_all. change (DISABLE_CACHE =? 0) with true. change (1 =? 1) with true. cbv iota.
  fold (pairs (slots f)). rewrite R5. cbn [obind]. rewrite Hretry. cbn [c_assert obind slots hot_keys lat trace_iter].
  rewrite R6. cbn [obind]. rewrite R7. cbn [obind]. rewrite (answered_fst _ _ Hl), (answered_snd _ _ Hl), R8. cbn [obind].
  rewrite R9. cbn [obind]. rewrite R10. reflexivity.
Qed.
End run.

(** *** From a filled slot to the slot the pass finds *)
Definition became (mid : Z) (cached : Z -> Prop) (s s' : slot) : Prop :=
  lin_answered mid s' /\ key_word (s_op s') = key_word (s_op s) /\
  (opcode (s_op s) = CACHE_OP_GET -> cached (key_word (s_op s)) -> r_type s <> UNSERVED_CACHE_MISS ->
   opcode (s_op s') = CACHE_OP_GET /\ tracked (s_op s') = tracked (s_op s) /\
   (r_type s' = CACHE_GET_SUCCESS \/ r_type s' = CACHE_GET_STALL)).

Lemma sent_answered mid s o : lin_answered mid s -> sent_as (s_op s) o -> lin_answered mid (mkSlot o (s_resp s) (s_home s)).
Proof.
  intros Ha [->|(Hb & Ho & _)]; [by destruct s|]. destruct Ha as [Hh Ha]. split; [done|]. do 3 right.
  unfold r_type in *. cbn [s_resp s_op]. split; [|by right]. unfold is_brc, asks, put_request in *. rewrite Hb in Ha.
  destruct Ha as [[_ [H|[H _]]]|[[_ H]|[[_ [H _]]|[H _]]]]; done.
Qed.

Lemma served_became mid (cached : Z -> Prop) s y o :
  lin_filled mid s -> (is_brc (s_op s) -> cached (key_word (s_op s))) ->
  lin_served (cached (key_word (s_op s))) (s_op s, s_resp s) y -> sent_as y.1 o ->
  became mid cached s (mkSlot o y.2 (s_home s)) /\ resp_type y.2 <> RETRY.
Proof.
  intros Hf Hb Hs Ho. destruct (served_lin_answered mid _ s y Hf Hb Hs) as (Ha & Hr & _). split; [|done].
  split; [exact (sent_answered mid _ o Ha Ho)|]. cbn [s_op].
  inversion Hs as [op r H E1 E2|op r r' H1 H2 E1 E2|op r st r' H1 H2 H3 H4 E1 E2|op r r' H1 H2 H3 E1 E2
    |op r op' r' H1 H2 H3 H4 H6 H5 E1 E2|op r H1 H2 E1 E2]; subst; cbn [fst snd s_op] in *;
    (split; [destruct Ho as [->|(_ & _ & _ & ->)]; done|]); intros Hg Hc Hu; unfold is_brc in *; try congruence; try done; try (rewrite Hg in H2; discriminate H2).
  destruct Ho as [->|(Hbr & _)]; [by split_and!|]. unfold is_brc in Hbr. cbn in Hbr. rewrite Hg in Hbr. discriminate Hbr.
Qed.

Lemma batch_became mid (cached : Z -> Prop) l : forall ops os,
  Forall (lin_filled mid) l -> Forall (fun x => is_brc x.1 -> cached (key_word x.1)) (pairs l) ->
  Forall2 (fun x y => lin_served (cached (key_word x.1)) x y) (pairs l) ops -> Forall2 sent_as ops.*1 os ->
  Forall2 (became mid cached) l (with_ops (answered l ops) os) /\
  forallb (fun s => negb (r_type s =? RETRY)) (answered l ops) = true /\
  s_op <$> with_ops (answered l ops) os = os /\ length ops = length l.
Proof.
  induction l as [|s l IH]; intros ops os Hl Hb Hs Ho.
  { apply Forall2_nil_inv_l in Hs as ->. apply Forall2_nil_inv_l in Ho as ->. by split_and!. }
  unfold pairs in *. rewrite fmap_cons in Hb, Hs. apply Forall_cons in Hl as [Hsl Hl]. apply Forall_cons in Hb as [Hbs Hb].
  apply Forall2_cons_inv_l in Hs as (y & ops' & Hy & Hs & ->). rewrite fmap_cons in Ho.
  apply Forall2_cons_inv_l in Ho as (o & os' & Hyo & Ho & ->). destruct (IH ops' os' Hl Hb Hs Ho) as (H1 & H2 & H3 & H4).
  destruct (served_became mid cached s y o Hsl Hbs Hy Hyo) as [Hbe Hr].
  unfold answered, with_ops in *. cbn [zip_with length drop app fmap list_fmap forallb s_resp s_home s_op] in *. split_and!.
  - by constructor.
  - unfold r_type at 1. cbn [s_resp]. rewrite (proj2 (Z.eqb_neq _ _) Hr). exact H2.
  - by f_equal.
  - by f_equal.
Qed.

(** A request stays a read or a write of its key. *)
Lemma served_requests (cached : Z -> Prop) l : forall ops os,
  Forall2 (fun x y => lin_served (cached (key_word x.1)) x y) (pairs l) ops -> Forall2 sent_as ops.*1 os ->
  requests (with_ops (answered l ops) os) = requests l.
Proof.
  induction l as [|s l IH]; intros ops os Hs Ho.
  { apply Forall2_nil_inv_l in Hs as ->. apply Forall2_nil_inv_l in Ho as ->. done. }
  unfold pairs in *. rewrite fmap_cons in Hs. apply Forall2_cons_inv_l in Hs as (y & ops' & Hy & Hs & ->).
  rewrite fmap_cons in Ho. apply Forall2_cons_inv_l in Ho as (o & os' & Hyo & Ho & ->). specialize (IH ops' os' Hs Ho).
  unfold answered, with_ops, requests in *. cbn [zip_with length drop app fmap list_fmap s_resp s_home s_op] in *.
  rewrite !bind_cons. f_equal; [|exact IH]. clear IH.
  assert (E1 : forall r h, expand_slot (mkSlot y.1 r h) = expand_slot s).
  { intros r h. unfold expand_slot. cbn [s_op].
    inversion Hy as [op r0 H E1 E2|op r0 r' H1 H2 E1 E2|op r0 st r' H1 H2 H3 H4 E1 E2|op r0 r' H1 H2 H3 E1 E2
      |op r0 op' r' H1 H2 H3 H4 H6 H5 E1 E2|op r0 H1 H2 E1 E2]; subst; cbn [fst]; try done.
    by rewrite H3, H2, H6. }
  destruct Hyo as [->|(Hb & Hi & _ & Hk)]; [apply E1|]. rewrite <- (E1 y.2 (s_home s)). unfold expand_slot, is_brc in *. cbn [s_op].
  by rewrite Hb, Hi, Hk.
Qed.

(** *** The pointers before and after the pass *)
Lemma start_pointer mid (cached : Z -> Prop) trace f l st k :
  0 <= k < HOTTEST_KEYS_TO_TRACK -> fill_inv trace f -> fill_i f = length (slots f) -> tagged (hot_keys f) (slots f) ->
  Forall2 (became mid cached) (slots f) l ->
  (forall c, c ∈ trace -> key_id c < HOTTEST_KEYS_TO_TRACK -> cached (cmd_word c)) ->
  hottest st = hot_keys f -> pointer trace k 0 l st.
Proof.
  intros Hk Hi Hall Htag Hb Hc Eh. destruct (Z.eq_dec (hot_keys f k) 0) as [E0|Hne]; [apply pt_unset; by rewrite Eh|].
  destruct (fi_track _ _ Hi k Hk Hne) as (p & s & Hp & Hpi & Hs & Hg & (c & Hct & Hck & Hcw) & Hlater).
  destruct (Forall2_lookup_l _ _ _ _ _ Hb Hs) as (s' & Hs' & (_ & Hkw & Hget)).
  destruct (Htag k p s Hk Hp Hs) as [Htr Hu].
  destruct (Hget Hg) as (Hg' & Htr' & Hr); [rewrite <- Hcw; apply Hc; [done|lia]|done|].
  apply (pt_ahead _ _ _ _ _ p s'); [by rewrite Eh|done| |done|].
  - split_and!; [done|congruence|]. exists c. by rewrite Hkw.
  - apply Forall_lookup_2. intros q s2 Hs2. rewrite lookup_drop in Hs2.
    destruct (Forall2_lookup_r _ _ _ _ _ Hb Hs2) as (s1 & Hs1 & (_ & Hkw1 & _)). unfold other_key. rewrite Hkw, Hkw1.
    apply (Hlater (S p + q)%nat); [|done]. split; [lia|]. rewrite Hall. by apply lookup_lt_Some in Hs1.
Qed.

Lemma end_pointer trace n st :
  (forall k, 0 <= k < HOTTEST_KEYS_TO_TRACK -> pointer trace k n [] st) ->
  tracking trace (hottest st) (ColdRequests.next st) (next_op_i st) /\ tagged (hottest st) (ColdRequests.next st).
Proof.
  intros H. split.
  - intros k Hk Hne. destruct (H k Hk) as [H0|p s Hp Hs|p s Hp Hlt Hs (Hg & _ & Hc) Hu Hq _]; [done|done|].
    exists p, s. split_and!; try done.
  - intros k p s Hk Hp Hs. destruct (H k Hk) as [H0|p' s' Hp' Hs'|p' s' Hp' Hlt Hs' (Hg & Htr & Hc) Hu Hq _]; [lia|done|].
    assert (p' = p) as -> by lia. rewrite Hs in Hs'. injection Hs' as <-. done.
Qed.

(** *** The batches *)
Lemma waiting_filled mid s : lin_waiting mid s -> lin_filled mid s.
Proof. intros (H1 & H2 & H3). split; [done|]. split; [done|by left]. Qed.

Lemma refilled_slots mid sent n next l :
  Forall2 copied_to (filter is_brc sent) (filter is_brc (s_op <$> take n next)) ->
  filter is_brc (s_op <$> l) = filter is_brc (s_op <$> take n next) -> Forall (lin_filled mid) l ->
  Z.of_nat (length l) <= CACHE_BATCH_SIZE -> refilled sent (pairs l).
Proof.
  intros Hc E Hl Hlen. split.
  - rewrite pairs_fst, E. exact Hc.
  - apply Forall_fmap. eapply Forall_impl; [exact Hl|]. intros s. apply (lin_filled_request mid).
  - unfold pairs. by rewrite length_fmap.
Qed.

(** The refill stops at a read that cannot be merged. *)
Definition loop_overflows (mid lid bpc : Z) (trace : list trace_command) (la : latency_flags) (lp : lin_loop) : Prop :=
  exists n, merge_overflows mid lid 1 bpc trace
    (fill_start 1 (lp_trace_iter lp) (lp_next_op_i lp) (lp_next lp) (lp_hot lp) la) n.

(** The requests that wait, and what becomes of them and of the commands read in
    an iteration: retired, queued for other machines, or waiting. *)
Definition loop_requests (lp : lin_loop) : list (Z * bool) := requests (take (lp_next_op_i lp) (lp_next lp)).

Definition loop_accounts (trace : list trace_command) (lp lp' : lin_loop) (queues : client_ctx) : Prop :=
  exists m, lp_trace_iter lp' = Nat.iter m (next_iter trace) (lp_trace_iter lp) /\
    loop_requests lp ++ (cmd_request <$> commands trace (lp_trace_iter lp) m) ≡ₚ
    requests (hit_slots (lp_ops lp') queues) ++ requests (sent_slots (lp_ops lp') queues) ++ loop_requests lp'.

Section fill.
Context (mid lid bpc : Z) (trace : list trace_command) (Htr : trace_for mid trace).
Context (sent : list cache_op) (lp : lin_loop) (Hlp : loop_ok mid trace sent lp).

Lemma loop_carried : refilled sent (pairs (take (lp_next_op_i lp) (lp_next lp))).
Proof using Hlp.
  destruct Hlp as [_ _ H2 _ _ _ _ _ H7 _ _ H10]. apply (refilled_slots mid _ (lp_next_op_i lp) (lp_next lp)); try done.
  - apply Forall_lookup_2. intros p s Hs. apply lookup_take_Some in Hs as [Hs Hp]. apply waiting_filled. by apply (H7 p).
  - rewrite length_take. lia.
Qed.

Lemma loop_fill la :
  let r := fill_batch mid lid 1 bpc trace (lp_trace_iter lp) (lp_next_op_i lp) (lp_next lp) (lp_hot lp) la in
  (exists f, r = Done f /\ fill_inv trace f /\ fill_i f = length (slots f) /\ length (slots f) = length (lp_next lp) /\
     tagged (hot_keys f) (slots f) /\ Forall (lin_filled mid) (slots f) /\ refilled sent (pairs (slots f)) /\
     exists m, trace_iter f = Nat.iter m (next_iter trace) (lp_trace_iter lp) /\
       loop_requests lp ++ (cmd_request <$> commands trace (lp_trace_iter lp) m) ≡ₚ requests (slots f)) \/
  (r = AssertFailed /\ loop_overflows mid lid bpc trace la lp).
Proof using Htr Hlp.
  destruct Hlp as [H0 H1 H2 H3 H4 H5 H6 H6' H7 H8 H9 H10]. pose proof (tf_ok _ _ Htr) as Ht.
  assert (Hcar : forallb carried_ok (take (lp_next_op_i lp) (lp_next lp)) = true).
  { apply forallb_forall. intros s Hs%list_elem_of_In. apply list_elem_of_lookup in Hs as [p Hs].
    apply lookup_take_Some in Hs as [Hs Hp]. apply (lin_waiting_carried mid). by apply (H7 p). }
  destruct (fill_batch_ok mid lid 1 bpc trace (lp_trace_iter lp) (lp_next_op_i lp) (lp_next lp) (lp_hot lp) la)
    as (n & [(f & E & Hfd)|[E Hov]]); try done; [by right| |right; split; [done|by exists n]].
  set (st0 := fill_start 1 _ _ _ _ _) in Hfd. assert (E1 : trace_iter st0 = lp_trace_iter lp) by done.
  assert (E2 : fill_i st0 = lp_next_op_i lp) by done. assert (E3 : slots st0 = lp_next lp) by done. clearbody st0.
  left. exists f. pose proof (filled_all _ _ _ _ Ht Hfd) as Hall. pose proof (fd_inv _ _ _ _ Hfd) as Hi.
  pose proof (fi_len _ _ Hi) as Hl. assert (El : length (slots f) = length (lp_next lp)) by lia.
  assert (Hsl : Forall (lin_filled mid) (slots f)).
  { apply (lin_filled_slots mid trace st0 f n); rewrite ?E1, ?E2, ?E3; done. }
  split_and!; try done.
  - unfold fill_batch in E. rewrite Hcar in E. cbn [c_assert obind] in E.
    eapply (fill_loop_tagged mid lid bpc trace Ht); [|exact E|exact H9]. apply fill_start_inv; try done. by right.
  - apply (refilled_slots mid _ (lp_next_op_i lp) (lp_next lp)); try done; [|lia].
    rewrite <- E2, <- E3. apply (filled_brc trace st0 f n); rewrite ?E2, ?E3; done.
  - exists n. split; [by rewrite (fd_it _ _ _ _ Hfd), E1|]. apply on_key_perm. intros w.
    pose proof (fd_reqs _ _ _ _ Hfd w) as Hw. rewrite Hall, firstn_all, E1, E2, E3 in Hw. by rewrite Hw, on_key_app.
Qed.
End fill.

(** *** The pass keeps the invariant *)
Lemma pass_loop_ok mid gid trace (cached : Z -> Prop) f l os nx th l' fs ps0 ps la h w :
  is_u32 gid -> fill_inv trace f -> fill_i f = length (slots f) -> tagged (hot_keys f) (slots f) ->
  (forall c, c ∈ trace -> key_id c < HOTTEST_KEYS_TO_TRACK -> cached (cmd_word c)) ->
  Forall2 (became mid cached) (slots f) l -> s_op <$> l = os -> Forall op_fits os ->
  Z.of_nat (length nx) = CACHE_BATCH_SIZE -> Forall (fun s => op_fits (s_op s)) nx ->
  Z.of_nat (length th) = CACHE_BATCH_SIZE -> Forall (fun s => op_fits (s_op s)) th ->
  ColdRequests.next ps0 = nx -> next_op_i ps0 = 0%nat -> hottest ps0 = hot_keys f ->
  pass_rel LINEARIZABILITY gid 0 l fs l' ps0 ps ->
  loop_ok mid trace os (mkLoop l' (ColdRequests.next ps) th (next_op_i ps) (trace_iter f) (hottest ps) la h w).
Proof.
  intros Hg Hi Hall Htag Hc Hb Eos Hos Hnl Hnf Htl Htf En En0 Eh Hpass.
  pose proof (fi_len _ _ Hi) as Hfl. pose proof (Forall2_length _ _ _ Hb) as Hl.
  assert (Ha : Forall (lin_answered mid) l).
  { apply Forall_lookup_2. intros p s' Hs'. destruct (Forall2_lookup_r _ _ _ _ _ Hb Hs') as (s & _ & (H & _)). exact H. }
  assert (Hlf : Forall (fun s => op_fits (s_op s)) l) by (rewrite <- Eos, Forall_fmap in Hos; exact Hos).
  rewrite <- En in Hnl, Hnf.
  destruct (pass_keeps_fits _ _ _ _ _ _ _ _ Hg Hpass Hlf Hnf) as (Hl'f & Hnf' & Hnl').
  destruct (pass_length _ _ _ _ _ _ _ _ Hpass) as [_ Hl'].
  destruct (pass_carried _ _ _ _ _ _ _ _ Hpass) as (Hcn & _ & _). pose proof (carried_length fs l') as Hcl.
  destruct (pass_brc mid gid 0 l fs l' ps0 ps Hg Hpass Ha Hlf Hnf) as (new & Enew & Hbrc); [lia|].
  rewrite En0 in Enew. cbn [take app] in Enew.
  destruct (end_pointer trace (0 + length l) ps) as [Htrk Htg].
  { intros k Hk. apply (pass_pointer trace k Hk gid 0 l fs l' ps0 ps Hpass); [lia|lia|done|].
    by apply (start_pointer mid cached trace f). }
  split; cbn [lp_trace_iter lp_ops lp_next lp_third lp_next_op_i lp_hot]; try done; try lia.
  - apply Hi.
  - eapply (pass_lin_waiting mid gid l fs l' ps0 ps); try done. lia.
  - rewrite Enew, <- Eos. exact Hbrc.
Qed.

Section in_cluster.
Context (C0 : Z -> option lin_config) (HC0 : forall k c, C0 k = Some c -> lin_inv_ok c).
Context (s : cluster) (F : Z -> Z -> option entry) (HI : cluster_inv C0 s F).
Context (g m : Z) (Hg : g ∈ client_ids) (Hm : m ∈ machines) (gid bpc : Z) (Hgid : is_u32 gid).
Context (trace : list trace_command) (Htr : trace_for m trace).
Context (Hhot : forall c, c ∈ trace -> key_id c < HOTTEST_KEYS_TO_TRACK -> is_Some (C0 (cmd_word c))).
Context (lp : lin_loop) (Hlp : loop_ok m trace (g_ops (groups s g) m) lp).

(** An iteration, whatever the queues hold. *)
Lemma iteration_ok arr1 arr2 sw queues :
  let old rm := Z.of_nat (length (batch queues rm)) in
  let r := lin_iteration m g gid bpc trace arr1 arr2 sw queues (caches s m) (thread_of (groups s g) m) lp in
  (exists batch kv' t' lp' q' out, refilled (g_ops (groups s g) m) batch /\
     lin_round m batch arr1 arr2 (caches s m) (thread_of (groups s g) m) = Done (kv', t', out) /\
     r = Done (kv', t', lp', q', out) /\
     (Forall op_fits (t_ops t') -> loop_ok m trace (t_ops t') lp') /\
     ((forall rm, Packets.batch queues rm = []) -> loop_accounts trace lp lp' q') /\
     (forall rm, rm ∈ machines -> old rm <= Z.of_nat (length (Packets.batch q' rm)) <= old rm + KVS_BATCH)) \/
  (r = AssertFailed /\ (loop_overflows m g bpc trace (report_hot_write sw (lp_lat lp)) lp \/ queue_full old)).
Proof using HC0 HI Hg Hm Hgid Htr Hhot Hlp.
  intros old. destruct (swap_ops_ok (lp_ops lp) (lp_next lp) (lp_third lp)) as (nx & th & Esw & Hsw).
  destruct (loop_fill m g bpc trace Htr _ lp Hlp (report_hot_write sw (lp_lat lp)))
    as [(f & Ef & Hi & Hall & Hlen & Htag & Hsl & Hrf & n & Hn & Hreq)|[Ef Hbad]].
  - destruct (cluster_completes C0 HC0 s F g m _ arr1 arr2 HI Hg Hm Hrf) as (kv' & t' & out & E).
    destruct (lin_round_inv _ _ _ _ _ _ _ _ _ E)
      as (p & ups & ops & invs & kv1 & kv2 & count1 & count2 & q & b & bc & ak & fc & cq & Hrun & Eres).
    destruct (cluster_served C0 HC0 s F g m _ _ _ _ _ _ _ _ _ _ _ _ _ _ _ _ _ _ HI Hg Hm Hrf Hrun) as [Hserved Hbrc].
    destruct (batch_became m (fun k => is_Some (C0 k)) (slots f) ops (bc_ops bc) Hsl Hbrc Hserved) as (Hbe & Hre & Eos & Hol).
    { exact (broadcasts_sent_as _ _ _ _ _ _ _ _ (rr_bcast _ _ _ _ _ _ _ _ _ _ _ _ _ _ _ _ _ _ _ _ _ Hrun)). }
    destruct (iteration_eq m g gid bpc trace arr1 arr2 sw queues _ _ lp nx th f p ups ops invs kv1 kv2 kv' count1 count2 q b bc ak fc cq
      Esw Ef Hall Hol Hrun Hre) as [la Eit].
    assert (Hslots : Forall (slot_ok LINEARIZABILITY m g) (with_ops (answered (slots f) ops) (bc_ops bc))).
    { apply Forall_lookup_2. intros i x Hx. destruct (Forall2_lookup_r _ _ _ _ _ Hbe Hx) as (y & _ & (H & _)). by apply lin_answered_ok. }
    destruct (cold_pass_cases LINEARIZABILITY m g gid (with_ops (answered (slots f) ops) (bc_ops bc))
      (mkPass nx 0 (lp_hits lp) (hot_keys f) la 0 0 (fun _ => 0) (lp_for_each_worker lp) queues) Hslots ltac:(done))
      as [(fs & l' & ps & Ep & Hpass & Hcap)|[Ep Hfull]].
    2:{ right. rewrite Eit, Ep. split; [done|]. by right. }
    left. rewrite Ep in Eit. cbn [obind] in Eit. injection Eres as -> ->.
    eexists _, kv', _, _, _, _. split; [exact Hrf|]. split; [exact E|]. split; [exact Eit|].
    cbn [round_result fst t_ops].
    assert (Hnx : Z.of_nat (length nx) = CACHE_BATCH_SIZE /\ Forall (fun s => op_fits (s_op s)) nx /\
                  Z.of_nat (length th) = CACHE_BATCH_SIZE /\ Forall (fun s => op_fits (s_op s)) th).
    { destruct Hsw as [[-> ->]|[-> ->]]; split_and!; apply Hlp. }
    destruct Hnx as (N1 & N2 & N3 & N4). split; [|split; [|exact Hcap]].
    2:{ intros Hq. exists n. split; [exact Hn|]. rewrite Hreq, <- (served_requests (fun k => is_Some (C0 k)) (slots f) ops (bc_ops bc) Hserved).
        - unfold loop_requests. cbn [lp_ops lp_next lp_next_op_i]. apply (pass_accounts LINEARIZABILITY m g gid _ fs l' _ ps Hpass); try done.
          cbn [ColdRequests.next]. rewrite <- (Forall2_length _ _ _ Hbe), Hlen. pose proof (lo_next _ _ _ _ Hlp). lia.
        - exact (broadcasts_sent_as _ _ _ _ _ _ _ _ (rr_bcast _ _ _ _ _ _ _ _ _ _ _ _ _ _ _ _ _ _ _ _ _ Hrun)). }
    intros Hf. eapply (pass_loop_ok m gid trace (fun k => is_Some (C0 k)) f _ (bc_ops bc) nx th l' fs _ ps _ _ _ Hgid Hi Hall Htag Hhot Hbe Eos Hf N1 N2 N3 N4);
      [..|exact Hpass]; done.
  - right. split; [|by left].
    destruct (cluster_completes C0 HC0 s F g m _ arr1 arr2 HI Hg Hm (loop_carried m trace _ lp Hlp)) as (kv' & t' & out & E).
    destruct (lin_round_inv _ _ _ _ _ _ _ _ _ E)
      as (p & ups & ops & invs & kv1 & kv2 & count1 & count2 & q & b & bc & ak & fc & cq & [R1 R2 R3 R4 _ _ _ _ _ _] & _).
    unfold lin_iteration. rewrite Esw, R1. cbn [obind]. rewrite (proj2 (Z.leb_le _ _) R2). cbn [c_assert obind].
    rewrite R3. cbn [obind]. rewrite R4. cbn [obind]. unfold batch_from_trace_to_cache. by rewrite Ef.
Qed.
End in_cluster.
