(* ===== verification/LinSystem.v ===== *)
(** * The LIN clients of all machines, from their traces

    Every client thread of every machine runs the loop of [LinLoop] on its own
    trace; a step is an iteration of one thread or an event of the network.  The
    clients run rounds of [LinClients] only: all its results hold for them.
    The queues for remote requests have any contents at every iteration; with
    the posts of the messages the iteration is in [LinComplete]. *)
From stdpp Require Import relations.
From S2P Require Import Prelude Config Optik Layout City Mica MicaLog Cache CacheSpec Network.
From S2P Require Import Packets ColdRequests Trace ClientLoop ClientRound.
From S2P Require Import ScProtocol LinSpec LinProtocol Flow FlowSpec FlowRound FlowSystem LinRound LinContent LinServe LinTrack LinClients LinLoop.

(** ** The system *)
Definition clt_gid (m g : Z) : Z := m * CLIENTS_PER_MACHINE + g.

(** The loops by machine and local id. *)
Record clients_state := mkClients { cs_cluster : cluster; cs_loops : Z -> Z -> lin_loop }.

(** [setup_ops]: the arrays of operations are zeroed, all responses are [EMPTY];
    [mem] is what the allocated memory holds.  Array [b] of the three. *)
Definition zero_op : cache_op := mkOp (mkMeta 0 0 0 0 0) 0 0 0 0 0 (replicate max_value_len 0).

Definition setup_ops (mem : nat -> slot) (b : nat) : list slot :=
  (fun i => mkSlot zero_op (set_type EMPTY (s_resp (mem i))) (s_home (mem i)))
    <$> seq (b * Z.to_nat CACHE_BATCH_SIZE) (Z.to_nat CACHE_BATCH_SIZE).

(** What [run_client] starts with: nothing carried over. *)
Definition loop_start (mem : nat -> slot) : lin_loop :=
  mkLoop (setup_ops mem 0) (setup_ops mem 1) (setup_ops mem 2) 0 0 (fun _ => 0) (mkLat NO_REQ 0) 0 (fun _ => 0).

Section system.
Context (traces : Z -> Z -> list trace_command).

Definition set_loop (m g : Z) (lp : lin_loop) (loops : Z -> Z -> lin_loop) : Z -> Z -> lin_loop :=
  fupd loops m (fupd (loops m) g lp).

Inductive clients_step (s : clients_state) : clients_state -> Prop :=
| clients_iteration g m bpc arr1 arr2 seen_write queues kv' t' lp' queues' out :
    g ∈ client_ids -> m ∈ machines ->
    lin_iteration m g (clt_gid m g) bpc (traces m g) arr1 arr2 seen_write queues (caches (cs_cluster s) m)
      (thread_of (groups (cs_cluster s) g) m) (cs_loops s m g) = Done (kv', t', lp', queues', out) ->
    Forall versions_left (t_ops t') ->
    clients_step s (mkClients
      (mkCluster (fupd (caches (cs_cluster s)) m kv')
         (fupd (groups (cs_cluster s)) g (after_round (groups (cs_cluster s) g) m t' out)))
      (set_loop m g lp' (cs_loops s)))
| clients_network g s' :
    g ∈ client_ids -> net_step (g_sys (groups (cs_cluster s) g)) s' ->
    clients_step s (mkClients
      (mkCluster (caches (cs_cluster s)) (fupd (groups (cs_cluster s)) g (set_sys s' (groups (cs_cluster s) g))))
      (cs_loops s)).

Definition clients_start (kv : Z -> mica_kv) (fresh : Z -> cache_op) (fresh_invs : list cache_op)
    (junk : nat -> mica_resp) (mem : Z -> Z -> nat -> slot) : clients_state :=
  mkClients (cluster_start kv fresh fresh_invs junk) (fun m g => loop_start (mem m g)).

Definition clients_reach kv fresh fresh_invs junk mem : clients_state -> Prop :=
  rtc clients_step (clients_start kv fresh fresh_invs junk mem).

(** The caches are populated alike, memory is typed, and each trace is one of
    this machine's clients, whose most popular keys are cached. *)
Record clients_ready (kv : Z -> mica_kv) (fresh : Z -> cache_op) (fresh_invs : list cache_op)
    (F0 : Z -> option entry) : Prop := {
  cr_cluster : cluster_ready kv fresh fresh_invs F0;
  cr_trace : forall m g, m ∈ machines -> g ∈ client_ids -> trace_for m (traces m g) /\ traces m g <> [];
  cr_hot : forall m g c, m ∈ machines -> g ∈ client_ids -> c ∈ traces m g ->
    key_id c < HOTTEST_KEYS_TO_TRACK -> is_Some (F0 (cmd_word c))
}.

(** ** The invariant *)
Definition loops_ok (s : clients_state) : Prop :=
  forall m g, m ∈ machines -> g ∈ client_ids ->
    loop_ok m (traces m g) (g_ops (groups (cs_cluster s) g) m) (cs_loops s m g).

Lemma setup_ops_ok mem b :
  Z.of_nat (length (setup_ops mem b)) = CACHE_BATCH_SIZE /\ Forall (fun s => op_fits (s_op s)) (setup_ops mem b).
Proof using.
  unfold setup_ops. split; [by rewrite length_fmap, length_seq|]. apply Forall_fmap, Forall_true. intros i.
  split; try done. by apply Forall_replicate.
Qed.

Lemma loop_start_ok m trace mem : trace <> [] -> loop_ok m trace [] (loop_start mem).
Proof using.
  intros Ht. pose proof (setup_ops_ok mem) as Hb. split; cbn [loop_start lp_trace_iter lp_ops lp_next lp_third lp_next_op_i lp_hot]; try apply Hb.
  - destruct trace; [done|simpl; lia].
  - lia.
  - intros p s Hp. lia.
  - intros k _ H. done.
  - intros k p s _ Hp. lia.
  - rewrite take_0. constructor.
Qed.

Lemma gid_u32 m g : m ∈ machines -> g ∈ client_ids -> is_u32 (clt_gid m g).
Proof using.
  intros Hm%machines_spec Hg%elem_of_seqZ. unfold clt_gid, is_u32, MACHINE_NUM, CLIENTS_PER_MACHINE in *. lia.
Qed.

Section invariant.
Context (kv : Z -> mica_kv) (fresh : Z -> cache_op) (fresh_invs : list cache_op) (junk : nat -> mica_resp).
Context (mem : Z -> Z -> nat -> slot) (F0 : Z -> option entry) (Hrd : clients_ready kv fresh fresh_invs F0).

Lemma hot_cached m g c : m ∈ machines -> g ∈ client_ids -> c ∈ traces m g ->
  key_id c < HOTTEST_KEYS_TO_TRACK -> is_Some (start_configs F0 (cmd_word c)).
Proof using Hrd.
  intros Hm Hg Hc Hk. destruct (cr_hot _ _ _ _ Hrd m g c Hm Hg Hc Hk) as [e He]. unfold start_configs. rewrite He. by eexists.
Qed.

(** An iteration of a thread is a round of [LinClients], and keeps the loops. *)
Lemma clients_step_ok s s' F :
  cluster_inv (start_configs F0) (cs_cluster s) F -> loops_ok s -> clients_step s s' ->
  cluster_step (cs_cluster s) (cs_cluster s') /\ loops_ok s' /\
  exists F', cluster_inv (start_configs F0) (cs_cluster s') F'.
Proof using Hrd.
  intros HI Hlo Hst. pose proof (start_configs_ok _ _ _ _ (cr_cluster _ _ _ _ Hrd)) as HC.
  enough (H : cluster_step (cs_cluster s) (cs_cluster s') /\
    ((exists F', cluster_inv (start_configs F0) (cs_cluster s') F') -> loops_ok s')).
  { destruct H as [H1 H2]. pose proof (cluster_step_inv _ HC _ _ F HI H1) as H3. split_and!; [done|by apply H2|done]. }
  destruct Hst as [g m bpc arr1 arr2 sw qs kv' t' lp' qs' out Hg Hm E Hv|g s1 Hg Hn]; cbn [cs_cluster].
  - destruct (iteration_ok (start_configs F0) HC (cs_cluster s) F HI g m Hg Hm (clt_gid m g) bpc (gid_u32 m g Hm Hg) (traces m g)
      (proj1 (cr_trace _ _ _ _ Hrd m g Hm Hg)) (fun c => hot_cached m g c Hm Hg) (cs_loops s m g) (Hlo m g Hm Hg) arr1 arr2 sw qs)
      as [(b & kv1 & t1 & lp1 & q1 & out1 & Hrf & Er & E1 & Hok & _)|[E1 _]]; [|congruence].
    rewrite E in E1. injection E1 as <- <- <- <- <-. split; [by eapply cluster_round|].
    intros [F' [_ I2 _ _]] m' g' Hm' Hg'. cbn [cs_cluster cs_loops groups] in *. unfold set_loop. unfold fupd at 1.
    destruct (Z.eqb_spec g' g) as [->|Hne].
    + cbn [after_round g_ops]. unfold fupd. destruct (Z.eqb_spec m' m) as [->|]; [|by apply Hlo]. rewrite Z.eqb_refl. apply Hok.
      destruct (I2 g Hg) as [_ G2 _ _]. specialize (G2 m Hm). rewrite fupd_eq in G2. cbn [after_round g_ops] in G2. by rewrite fupd_eq in G2.
    + unfold fupd. destruct (m' =? m) eqn:Em; [|by apply Hlo]. apply Z.eqb_eq in Em as ->.
      rewrite (proj2 (Z.eqb_neq g' g) Hne). by apply Hlo.
  - split; [by apply cluster_network|]. intros _ m' g' Hm' Hg'. cbn [cs_cluster cs_loops groups].
    unfold fupd. destruct (Z.eqb_spec g' g) as [->|]; by apply Hlo.
Qed.

Lemma clients_reach_ok s : clients_reach kv fresh fresh_invs junk mem s ->
  cluster_reach kv fresh fresh_invs junk (cs_cluster s) /\ loops_ok s /\
  exists F, cluster_inv (start_configs F0) (cs_cluster s) F.
Proof using Hrd.
  intros H. apply (rtc_ind_r (fun s => cluster_reach kv fresh fresh_invs junk (cs_cluster s) /\ loops_ok s /\
    exists F, cluster_inv (start_configs F0) (cs_cluster s) F) _) with (3 := H).
  - split; [apply rtc_refl|]. split; [|eexists; by apply cluster_start_inv, (cr_cluster _ _ _ _ Hrd)].
    intros m g Hm Hg. apply loop_start_ok. by apply (cr_trace _ _ _ _ Hrd).
  - intros s1 s2 _ Hs (Hr & Hl & F & HI). destruct (clients_step_ok s1 s2 F HI Hl Hs) as (H1 & H2 & H3).
    split_and!; [by eapply rtc_r|done|done].
Qed.

(** *** What becomes of the commands of one thread *)

(** A run of all clients, with the requests thread [g] of machine [m] retired
    and the ones it queued for other machines. *)
Inductive clients_log (m g : Z) : clients_state -> list slot -> list slot -> clients_state -> Prop :=
| clog_nil s : clients_log m g s [] [] s
| clog_own s bpc arr1 arr2 seen_write queues kv' t' lp' queues' out hits sent s' :
    (forall rm, batch queues rm = []) ->
    lin_iteration m g (clt_gid m g) bpc (traces m g) arr1 arr2 seen_write queues (caches (cs_cluster s) m)
      (thread_of (groups (cs_cluster s) g) m) (cs_loops s m g) = Done (kv', t', lp', queues', out) ->
    Forall versions_left (t_ops t') ->
    clients_log m g (mkClients
      (mkCluster (fupd (caches (cs_cluster s)) m kv')
         (fupd (groups (cs_cluster s)) g (after_round (groups (cs_cluster s) g) m t' out)))
      (set_loop m g lp' (cs_loops s))) hits sent s' ->
    clients_log m g s (hit_slots (lp_ops lp') queues' ++ hits) (sent_slots (lp_ops lp') queues' ++ sent) s'
| clog_other s s1 hits sent s' :
    clients_step s s1 -> cs_loops s1 m g = cs_loops s m g -> clients_log m g s1 hits sent s' ->
    clients_log m g s hits sent s'.

Lemma clients_account m g s hits sent s' :
  m ∈ machines -> g ∈ client_ids -> clients_log m g s hits sent s' ->
  forall F, cluster_inv (start_configs F0) (cs_cluster s) F -> loops_ok s ->
  exists n, lp_trace_iter (cs_loops s' m g) = Nat.iter n (next_iter (traces m g)) (lp_trace_iter (cs_loops s m g)) /\
    loop_requests (cs_loops s m g) ++ (cmd_request <$> commands (traces m g) (lp_trace_iter (cs_loops s m g)) n) ≡ₚ
    requests hits ++ requests sent ++ loop_requests (cs_loops s' m g).
Proof using Hrd.
  intros Hm Hg. induction 1 as [s|s bpc arr1 arr2 sw qs kv' t' lp' qs' out hits sent s' Hq E Hv _ IH|s s1 hits sent s' Hst El _ IH]; intros F HI Hlo.
  { exists 0%nat. split; [done|]. by rewrite app_nil_r. }
  2:{ destruct (clients_step_ok s s1 F HI Hlo Hst) as (_ & Hlo1 & F1 & HI1). destruct (IH F1 HI1 Hlo1) as (n & H1 & H2).
      rewrite El in H1, H2. by exists n. }
  assert (Hst : clients_step s _) by exact (clients_iteration s g m bpc arr1 arr2 sw qs kv' t' lp' qs' out Hg Hm E Hv).
  destruct (clients_step_ok s _ F HI Hlo Hst) as (_ & Hlo1 & F1 & HI1).
  destruct (IH F1 HI1 Hlo1) as (n2 & Hi2 & Hacc2). clear IH. cbn [cs_loops] in Hi2, Hacc2. unfold set_loop in Hi2, Hacc2.
  rewrite !fupd_eq in Hi2, Hacc2.
  destruct (iteration_ok (start_configs F0) (start_configs_ok _ _ _ _ (cr_cluster _ _ _ _ Hrd)) (cs_cluster s) F HI g m Hg Hm
    (clt_gid m g) bpc (gid_u32 m g Hm Hg) (traces m g) (proj1 (cr_trace _ _ _ _ Hrd m g Hm Hg))
    (fun c => hot_cached m g c Hm Hg) (cs_loops s m g) (Hlo m g Hm Hg) arr1 arr2 sw qs)
    as [(b & kv1 & t1 & lp1 & q1 & out1 & _ & _ & E1 & _ & Hacc & _)|[E1 _]]; [|congruence].
  rewrite E in E1. injection E1 as <- <- <- <- <-. destruct (Hacc Hq) as (n1 & Hi1 & Hacc1).
  exists (n1 + n2)%nat. split; [by rewrite Hi2, Hi1, iter_add|].
  eapply accounts_add; [exact Hacc1|]. by rewrite <- Hi1.
Qed.
End invariant.
End system.

(** ** The clients run rounds of the protocol *)

(** C1: the loops of the LIN clients implement the system of [LinClients].  In
    every state that the client threads of all machines reach from their traces,
    the caches, buffers and wires are a reachable state of [LinClients], so every
    guarantee shown there holds; and in every thread the requests left for the
    next round are exactly of the kinds that are not finished - misses not yet
    sent, reads and writes that wait, writes whose invalidation was not sent -
    and every pointer to a hot read names a read of its key. *)
Theorem lin_loops_refine traces kv fresh fresh_invs junk mem F0 s :
  clients_ready traces kv fresh fresh_invs F0 -> clients_reach traces kv fresh fresh_invs junk mem s ->
  cluster_reach kv fresh fresh_invs junk (cs_cluster s) /\
  forall m g, m ∈ machines -> g ∈ client_ids ->
    let lp := cs_loops s m g in
    (forall p x, (p < lp_next_op_i lp)%nat -> lp_next lp !! p = Some x -> lin_waiting m x) /\
    tracking (traces m g) (lp_hot lp) (lp_next lp) (lp_next_op_i lp).
Proof.
  intros Hrd Hr. destruct (clients_reach_ok traces kv fresh fresh_invs junk mem F0 Hrd s Hr) as (H1 & H2 & _).
  split; [done|]. intros m g Hm Hg. destruct (H2 m g Hm Hg). done.
Qed.


(** ** Example: the clients read and write one cached key and read a cold one *)
Definition demo_traces (m g : Z) : list trace_command :=
  let h := (m + 1) mod MACHINE_NUM in
  [mkCmd HOT_READ h 0 3 demo_key; mkCmd HOT_WRITE h 0 3 demo_key; mkCmd REMOTE_READ h 0 300000 (0, 2000)].
Definition demo_mem (m g : Z) (i : nat) : slot := empty_slot.

Lemma demo_trace_cmd m g c : m ∈ machines -> c ∈ demo_traces m g ->
  cmd_ok c /\ home_machine_id c ∈ machines /\ home_machine_id c <> m /\
  ((key_id c = 3 /\ cmd_word c = demo_key.2) \/ (key_id c = 300000 /\ cmd_word c = 2000)).
Proof.
  intros Hm%machines_spec Hc. assert (Hh : (m + 1) mod MACHINE_NUM ∈ machines /\ (m + 1) mod MACHINE_NUM <> m).
  { change MACHINE_NUM with 4 in *. split; [apply machines_spec; change MACHINE_NUM with 4|];
      assert (m = 0 \/ m = 1 \/ m = 2 \/ m = 3) as [->|[->|[->| ->]]] by lia; vm_compute; done || (split; [discriminate|done]). }
  unfold demo_traces in Hc. rewrite !elem_of_cons, elem_of_nil in Hc. pose proof demo_key_u64 as Hk.
  destruct Hc as [->|[->|[->|[]]]]; (split; [split; unfold is_u32, is_u64 in *; simpl in *; first [done|lia]|]);
    cbn [home_machine_id]; split_and!; try apply Hh; (by left) || (by right).
Qed.

Lemma demo_clients_ready :
  clients_ready demo_traces (fun _ => demo_cache) demo_memory demo_invs (cache_view demo_cache).
Proof.
  split; [exact demo_ready| |].
  - intros m g Hm _. split; [|done]. split; [|intros c Hc; by destruct (demo_trace_cmd m g c Hm Hc) as (_ & ? & ? & _)].
    split; [apply Forall_forall; intros c Hc; by apply (demo_trace_cmd m g c Hm)|].
    intros c1 c2 H1 H2. destruct (demo_trace_cmd m g c1 Hm H1) as (_ & _ & _ & K1).
    destruct (demo_trace_cmd m g c2 Hm H2) as (_ & _ & _ & K2).
    assert (Hd : demo_key.2 <> 2000) by (vm_compute; discriminate).
    destruct K1 as [[-> ->]|[-> ->]], K2 as [[-> ->]|[-> ->]]; (split; intros H; [|]); try done; congruence.
  - intros m g c Hm _ Hc Hk. destruct (demo_trace_cmd m g c Hm Hc) as (_ & _ & _ & [[_ ->]|[E _]]).
    + vm_compute. by eexists.
    + rewrite E in Hk. unfold HOTTEST_KEYS_TO_TRACK in Hk. lia.
Qed.

(** The iteration of thread [g] of machine [m], no credits arriving. *)
Definition clients_run (g m : Z) (s : clients_state) : clients_state :=
  match lin_iteration m g (clt_gid m g) 0 (demo_traces m g) [] [] false idle_ctx (caches (cs_cluster s) m)
          (thread_of (groups (cs_cluster s) g) m) (cs_loops s m g) with
  | Done (kv', t', lp', _, out) =>
      mkClients (mkCluster (fupd (caches (cs_cluster s)) m kv')
                   (fupd (groups (cs_cluster s)) g (after_round (groups (cs_cluster s) g) m t' out)))
        (set_loop m g lp' (cs_loops s))
  | _ => s
  end.

Definition demo_clients : clients_state :=
  clients_start (fun _ => demo_cache) demo_memory demo_invs demo_junk demo_mem.
Definition demo_ran : clients_state := clients_run 0 0 demo_clients.

Lemma clients_run_reach g m s :
  g ∈ client_ids -> m ∈ machines ->
  match lin_iteration m g (clt_gid m g) 0 (demo_traces m g) [] [] false idle_ctx (caches (cs_cluster s) m)
          (thread_of (groups (cs_cluster s) g) m) (cs_loops s m g) with
  | Done (_, t', _, _, _) => forallb versions_leftb (t_ops t') | _ => true end = true ->
  rtc (clients_step demo_traces) s (clients_run g m s).
Proof.
  intros Hg Hm Hv. unfold clients_run.
  destruct (lin_iteration _ _ _ _ _ _ _ _ _ _ _ _) as [[[[[kv' t'] lp'] q'] out]| |] eqn:E; [|apply rtc_refl..].
  eapply rtc_once, clients_iteration; [done|done|exact E|].
  apply Forall_forall. intros op Hop. apply versions_left_spec. by apply (proj1 (forallb_forall _ _) Hv), list_elem_of_In.
Qed.

Lemma demo_ran_reach : clients_reach demo_traces (fun _ => demo_cache) demo_memory demo_invs demo_junk demo_mem demo_ran.
Proof. apply clients_run_reach; [by apply elem_of_seqZ|by apply machines_spec|]. vm_compute. reflexivity. Qed.

(** After one iteration 329 of the 600 requests wait for the next round; the
    first write is on its way to three machines. *)
Lemma lin_loops_refine_witness :
  (lp_next_op_i (cs_loops demo_ran 0 0) = 329%nat /\ length (cluster_msgs (cs_cluster demo_ran)) = 3%nat) /\
  cluster_reach (fun _ => demo_cache) demo_memory demo_invs demo_junk (cs_cluster demo_ran) /\
  forall m g, m ∈ machines -> g ∈ client_ids ->
    let lp := cs_loops demo_ran m g in
    (forall p x, (p < lp_next_op_i lp)%nat -> lp_next lp !! p = Some x -> lin_waiting m x) /\
    tracking (demo_traces m g) (lp_hot lp) (lp_next lp) (lp_next_op_i lp).
Proof.
  split; [split; vm_compute; reflexivity|].
  exact (lin_loops_refine demo_traces (fun _ => demo_cache) demo_memory demo_invs demo_junk demo_mem (cache_view demo_cache) demo_ran
    demo_clients_ready demo_ran_reach).
Defined.

(** What this iteration retired and queued. *)
Lemma clients_run_log g m s n h k :
  match lin_iteration m g (clt_gid m g) 0 (demo_traces m g) [] [] false idle_ctx (caches (cs_cluster s) m)
          (thread_of (groups (cs_cluster s) g) m) (cs_loops s m g) with
  | Done (_, t', lp', q', _) =>
      (forallb versions_leftb (t_ops t'), length (hit_slots (lp_ops lp') q'), length (sent_slots (lp_ops lp') q'), lp_next_op_i lp')
  | _ => (false, 0%nat, 0%nat, 0%nat) end = (true, h, k, n) ->
  exists hits sent, clients_log demo_traces m g s hits sent (clients_run g m s) /\ length hits = h /\ length sent = k.
Proof.
  unfold clients_run. destruct (lin_iteration _ _ _ _ _ _ _ _ _ _ _ _) as [[[[[kv' t'] lp'] q'] out]| |] eqn:E; [|done..].
  intros [= Hv Hh Hk Hn]. eexists _, _. split; [|split].
  - eapply clog_own; [|exact E| |apply clog_nil]; [done|].
    apply Forall_forall. intros op Hop. apply versions_left_spec. by apply (proj1 (forallb_forall _ _) Hv), list_elem_of_In.
  - by rewrite app_nil_r.
  - by rewrite app_nil_r.
Qed.

