(* ===== verification/LinComplete.v ===== *)
(** * Whole iterations of the LIN clients, with their sends (src/ccKVS/client-lin.c)

    [LinLoop] and [LinSystem] run the loop of a client without the network card.
    Here an iteration has its posts too, in the order of the code: receives for
    the answers to remote requests are posted ([refill_recvs], [Remotes]), the
    coherence part and the pass over the batch run ([lin_iteration]), the
    broadcasts, acknowledgements and credit messages of the round go through the
    send queues with their selective signaling ([Signaling]), and
    [poll_and_send_remotes] waits for the answers to the previous batch and posts
    the new one.  The queues the pass appends remote requests to are arbitrary:
    client-lin.c passes no context to [handle_cold_requests] and has no code that
    empties one.

    The polls and posts of a round are run after it; they depend on the round
    only through its numbers of messages, and the round does not depend on them. *)
From stdpp Require Import relations.
From S2P Require Import Prelude Config Optik Layout City Mica MicaLog Cache CacheSpec Network.
From S2P Require Import Packets ColdRequests Trace ClientLoop ClientRound.
From S2P Require Import ScProtocol LinSpec LinProtocol Flow FlowSpec FlowRound FlowSystem LinRound LinContent LinServe LinTrack LinClients LinLoop LinSystem.
From S2P Require Import Signaling Remotes.

(** ** The iteration *)

(** What a thread keeps for its posts; [p_prev] is [wr_i] of the last iteration. *)
Record posts := mkPosts { p_sends : sends_state; p_prev : Z; p_remotes : remotes }.

(** Requests in the queues for the other machines. *)
Definition queued_requests (c : client_ctx) : Z :=
  foldr (fun rm n => Z.of_nat (length (batch c rm)) + n) 0 machines.

(** Broadcasts, acknowledgements and credit messages of a round. *)
Definition round_counts (t t' : thread) (out : sends) : nat * nat * nat :=
  (Z.to_nat (c_br_tx (t_client t') - c_br_tx (t_client t)),
   Z.to_nat (c_ack_tx (t_client t') - c_ack_tx (t_client t)), length (credit_msgs out)).

Definition whole_iteration (m g gid bpc : Z) (trace : list trace_command) (arr1 arr2 : list nat) (seen_write : bool)
    (queues : client_ctx) (kv : mica_kv) (t : thread) (lp : lin_loop) (ps : posts)
    : outcome (mica_kv * thread * lin_loop * client_ctx * sends * posts) :=
  let* rem := refill_recvs (p_prev ps) (p_remotes ps) in
  let* (kv', t', lp', queues', out) := lin_iteration m g gid bpc trace arr1 arr2 seen_write queues kv t lp in
  let* sn := signal_round LIN_CLIENT_SEND_BR_Q_DEPTH BROADCAST_SS_BATCH (round_counts t t' out) (p_sends ps) in
  let wr_i := queued_requests queues' - queued_requests queues in
  let* rem := poll_and_send_remotes (p_prev ps) (p_prev ps) wr_i wr_i rem in
  Done (kv', t', lp', queues', out, mkPosts sn wr_i rem).

(** ** The system *)
Record lin_state := mkLin { ls_clients : clients_state; ls_posts : Z -> Z -> posts }.

Definition set_posts (m g : Z) (ps : posts) (all : Z -> Z -> posts) : Z -> Z -> posts :=
  fupd all m (fupd (all m) g ps).

(** An answer to a remote request of a thread arrives. *)
Definition answer_arrives (ps : posts) : posts := mkPosts (p_sends ps) (p_prev ps) (Remotes.arrive (p_remotes ps)).

(** Before the loop: the receives are preposted. *)
Definition posts_start : posts := mkPosts sends_start 0 (rl_st remote_start).

Section system.
Context (traces : Z -> Z -> list trace_command).

Definition thread_iteration (s : lin_state) (m g bpc : Z) (arr1 arr2 : list nat) (seen_write : bool) (queues : client_ctx)
    : outcome (mica_kv * thread * lin_loop * client_ctx * sends * posts) :=
  let cl := cs_cluster (ls_clients s) in
  whole_iteration m g (clt_gid m g) bpc (traces m g) arr1 arr2 seen_write queues (caches cl m)
    (thread_of (groups cl g) m) (cs_loops (ls_clients s) m g) (ls_posts s m g).

Inductive loops_step (s : lin_state) : lin_state -> Prop :=
| lin_iterates g m bpc arr1 arr2 seen_write queues kv' t' lp' queues' out ps' :
    g ∈ client_ids -> m ∈ machines ->
    thread_iteration s m g bpc arr1 arr2 seen_write queues = Done (kv', t', lp', queues', out, ps') ->
    Forall versions_left (t_ops t') ->
    loops_step s (mkLin
      (mkClients
        (mkCluster (fupd (caches (cs_cluster (ls_clients s))) m kv')
           (fupd (groups (cs_cluster (ls_clients s))) g (after_round (groups (cs_cluster (ls_clients s)) g) m t' out)))
        (set_loop m g lp' (cs_loops (ls_clients s))))
      (set_posts m g ps' (ls_posts s)))
| lin_network g s' :
    g ∈ client_ids -> net_step (g_sys (groups (cs_cluster (ls_clients s)) g)) s' ->
    loops_step s (mkLin
      (mkClients
        (mkCluster (caches (cs_cluster (ls_clients s)))
           (fupd (groups (cs_cluster (ls_clients s))) g (set_sys s' (groups (cs_cluster (ls_clients s)) g))))
        (cs_loops (ls_clients s)))
      (ls_posts s))
| lin_answer m g :
    m ∈ machines -> g ∈ client_ids -> 0 < in_flight (p_remotes (ls_posts s m g)) ->
    loops_step s (mkLin (ls_clients s) (set_posts m g (answer_arrives (ls_posts s m g)) (ls_posts s))).

Definition loops_reach kv fresh fresh_invs junk mem : lin_state -> Prop :=
  rtc loops_step (mkLin (clients_start kv fresh fresh_invs junk mem) (fun _ _ => posts_start)).

(** ** Numbers of messages of a round *)
Lemma send_ack_tx m st l :
  let st' := foldl (fun st i => send_ack m i st) st l in
  sent_ack_tx st <= sent_ack_tx st' <= sent_ack_tx st + Z.of_nat (length l).
Proof using.
  revert st. induction l as [|i l IH]; intros st; cbn [foldl length]; [lia|]. specialize (IH (send_ack m i st)). cbn zeta in IH.
  enough (H : sent_ack_tx st <= sent_ack_tx (send_ack m i st) <= sent_ack_tx st + 1) by lia. clear.
  unfold send_ack. destruct (_ !! i); [|lia]. destruct (negb _); [lia|].
  destruct (if _ =? 0 then _ else _) as [arr lg]. destruct (_ =? 0); cbn [sent_ack_tx]; lia.
Qed.

Lemma send_acks_tx m b count lg arr tx ak :
  send_acks m b count lg arr tx = Done ak -> sent_ack_tx ak <= tx + BCAST_TO_CACHE_BATCH.
Proof using.
  unfold send_acks. pose proof (length_seq (Z.to_nat BCAST_TO_CACHE_BATCH) 0) as Hl.
  generalize dependent (seq 0 (Z.to_nat BCAST_TO_CACHE_BATCH)). intros l Hl E.
  apply obind_Done_inv in E as ([] & _ & E). apply obind_Done_inv in E as ([] & _ & E).
  injection E as E. subst ak. cbn [sent_ack_tx].
  pose proof (send_ack_tx m (mkAcks b count lg arr tx 0 []) l) as H. cbn zeta in H. cbn [sent_ack_tx] in H.
  change BCAST_TO_CACHE_BATCH with 500 in *. lia.
Qed.

Lemma forge_credits_length m count s cq fc cq' :
  forge_credits_LIN m count s cq = Done (fc, cq') -> Z.of_nat (length (credit_wr fc)) <= CREDIT_SS_BATCH_.
Proof using.
  unfold forge_credits_LIN. intros E. apply obind_Done_inv in E as (st & E & E1). apply obind_Done_inv in E1 as (x & _ & [= <- _]).
  assert (H0 : Z.of_nat (length (credit_wr (mkFc s []))) <= CREDIT_SS_BATCH_) by (vm_compute; discriminate).
  revert E H0. generalize (mkFc s []) as st0. induction (seqZ 0 MACHINE_NUM) as [|rm rms IH]; intros st0 E H0; cbn [forge_credits_loop] in E.
  { by injection E as <-. }
  apply obind_Done_inv in E as (st1 & E1 & E). apply (IH st1 E). clear IH E. revert st0 E1 H0.
  induction (seqZ 0 (fc_message_count count rm)) as [|i l IH]; intros st0 E1 H0; cbn [forge_credits_to] in E1.
  { by injection E1 as <-. }
  apply obind_Done_inv in E1 as (st2 & E2 & E1). apply (IH st2 E1). unfold forge_credit in E2.
  destruct (_ || _ || _) in E2; [|by injection E2 as <-].
  apply obind_Done_inv in E2 as ([] & E3 & E2). injection E2 as <-. cbn [credit_wr].
  unfold c_assert in E3. destruct (Z.leb_spec (Z.of_nat (length (credit_wr st0 ++ [(rm, m + fc_channel count rm i * MACHINE_NUM)])))
    CREDIT_SS_BATCH_); [done|discriminate E3].
Qed.

Lemma round_counts_ok m b arr1 arr2 kv t kv' t' out :
  lin_round m b arr1 arr2 kv t = Done (kv', t', out) -> round_sizes (round_counts t t' out).
Proof using.
  intros E. destruct (lin_round_inv _ _ _ _ _ _ _ _ _ E)
    as (p & ups & ops & invs & kv1 & kv2 & count1 & count2 & q & ib & bc & ak & fc & cq & [R1 R2 R3 R4 R5 R6 R7 R8 R9 R10] & Er).
  injection Er as -> ->. split; unfold round_counts; cbn [fst snd t_client c_ack_tx credit_msgs].
  - assert (H : sent_ack_tx ak <= c_ack_tx (t_client t) + BCAST_TO_CACHE_BATCH).
    { destruct (0 <? inv_size ib).
      - by eapply send_acks_tx.
      - injection R9 as <-. cbn [sent_ack_tx]. change BCAST_TO_CACHE_BATCH with 500. lia. }
    change BCAST_TO_CACHE_BATCH with 500 in *. lia.
  - by eapply forge_credits_length.
Qed.

(** ** The invariant *)
Definition posts_ok (ps : posts) : Prop :=
  sends_inv BROADCAST_SS_BATCH (p_sends ps) /\ remotes_inv (mkRl Top (p_prev ps) (p_remotes ps)).

Lemma posts_start_ok : posts_ok posts_start.
Proof using. split; [by apply sends_start_inv|exact remote_start_inv]. Qed.

Lemma refill_ok prev st :
  remotes_inv (mkRl Top prev st) -> exists st', refill_recvs prev st = Done st' /\ remotes_inv (mkRl Sending prev st') /\
    answers st' = answers st /\ in_flight st' = in_flight st.
Proof using.
  intros H. destruct (remote_step_inv _ _ H (remote_refill (mkRl Top prev st) _ eq_refl eq_refl)) as (s' & E & H').
  cbn [rl_prev rl_st] in E. apply obind_Done_inv in E as (st' & E & E'). injection E' as <-. exists st'. split; [done|]. split; [done|].
  unfold refill_recvs, post_receives in E. destruct (0 <? prev); [|by injection E as <-].
  apply obind_Done_inv in E as ([] & _ & E). apply obind_Done_inv in E as ([] & _ & E). by injection E as <-.
Qed.

(** [poll_and_send_remotes] posts the batch, or waits for answers on their way. *)
Lemma poll_and_send_ok prev n st :
  remotes_inv (mkRl Sending prev st) -> 0 <= n <= WINDOW_SIZE ->
  (exists st', poll_and_send_remotes prev prev n n st = Done st' /\ remotes_inv (mkRl Top n st')) \/
  (poll_and_send_remotes prev prev n n st = Spin /\ answers st < prev).
Proof using.
  intros H Hn. pose proof H as [H1 H2 _ H4 _]. cbn [rl_prev rl_st] in *.
  destruct (Z.lt_ge_cases (answers st) prev) as [Hlt|Hge].
  { right. split; [|done]. unfold poll_and_send_remotes. by rewrite poll_remotes_waits by lia. }
  left. assert (E : exists st', poll_and_send_remotes prev prev n n st = Done st').
  { unfold poll_and_send_remotes. rewrite poll_remotes_ok by lia. cbn [obind]. rewrite send_remotes_ok by done. by eexists. }
  destruct E as [st' E]. exists st'. split; [done|].
  destruct (remote_step_inv _ _ H (remote_send (mkRl Sending prev st) n (Done st') eq_refl Hn E ltac:(done))) as (s' & [= <-] & H').
  exact H'.
Qed.

Lemma queue_growth c c' :
  (forall rm, rm ∈ machines -> Z.of_nat (length (batch c rm)) <= Z.of_nat (length (batch c' rm))
     <= Z.of_nat (length (batch c rm)) + KVS_BATCH) ->
  0 <= queued_requests c' - queued_requests c <= WINDOW_SIZE.
Proof using.
  intros H. assert (Hs : forall rms, (forall rm, rm ∈ rms -> rm ∈ machines) ->
    0 <= foldr (fun rm n => Z.of_nat (length (batch c' rm)) + n) 0 rms - foldr (fun rm n => Z.of_nat (length (batch c rm)) + n) 0 rms
      <= KVS_BATCH * Z.of_nat (length rms)).
  { induction rms as [|rm rms IH]; intros Hin; [simpl; lia|]. cbn [foldr length].
    specialize (H rm (Hin rm ltac:(by left))). specialize (IH (fun x Hx => Hin x ltac:(by right))).
    change KVS_BATCH with 100 in *. lia. }
  specialize (Hs machines (fun _ Hx => Hx)). change (KVS_BATCH * Z.of_nat (length machines)) with 400 in Hs.
  unfold queued_requests. change WINDOW_SIZE with 512. lia.
Qed.

Section invariant.
Context (kv : Z -> mica_kv) (fresh : Z -> cache_op) (fresh_invs : list cache_op) (junk : nat -> mica_resp).
Context (mem : Z -> Z -> nat -> slot) (F0 : Z -> option entry) (Hrd : clients_ready traces kv fresh fresh_invs F0).

Definition lin_state_ok (s : lin_state) : Prop :=
  clients_reach traces kv fresh fresh_invs junk mem (ls_clients s) /\
  forall m g, m ∈ machines -> g ∈ client_ids -> posts_ok (ls_posts s m g).

(** The ways an iteration can end. *)
Lemma thread_iteration_ok s m g bpc arr1 arr2 sw queues :
  lin_state_ok s -> m ∈ machines -> g ∈ client_ids ->
  let old rm := Z.of_nat (length (batch queues rm)) in
  let lp := cs_loops (ls_clients s) m g in
  let t := thread_of (groups (cs_cluster (ls_clients s)) g) m in
  let ps := ls_posts s m g in
  let run := lin_iteration m g (clt_gid m g) bpc (traces m g) arr1 arr2 sw queues (caches (cs_cluster (ls_clients s)) m) t lp in
  let r := thread_iteration s m g bpc arr1 arr2 sw queues in
  (exists kv' t' lp' queues' out ps', r = Done (kv', t', lp', queues', out, ps') /\
     run = Done (kv', t', lp', queues', out) /\ posts_ok ps') \/
  (r = AssertFailed /\ (loop_overflows m g bpc (traces m g) (report_hot_write sw (lp_lat lp)) lp \/ queue_full old \/
     exists kv' t' lp' queues' out, run = Done (kv', t', lp', queues', out) /\
       LIN_CLIENT_SEND_BR_Q_DEPTH < Z.of_nat (length (st_coh (p_sends ps)) + round_wrs (round_counts t t' out)))) \/
  (r = Spin /\ answers (p_remotes ps) + in_flight (p_remotes ps) = p_prev ps /\ 0 < in_flight (p_remotes ps)).
Proof using Hrd.
  intros [Hr Hps] Hm Hg old lp t ps run r. destruct (Hps m g Hm Hg) as [Hsn Hrem]. fold ps in Hsn, Hrem.
  destruct (clients_reach_ok traces kv fresh fresh_invs junk mem F0 Hrd _ Hr) as (_ & Hl & F & HI).
  destruct (refill_ok _ _ Hrem) as (rem & Er & Hrem' & Ea & Ef).
  assert (Ert : r = let* (kv', t', lp', queues', out) := run in
    let* sn := signal_round LIN_CLIENT_SEND_BR_Q_DEPTH BROADCAST_SS_BATCH (round_counts t t' out) (p_sends ps) in
    let wr_i := queued_requests queues' - queued_requests queues in
    let* rem := poll_and_send_remotes (p_prev ps) (p_prev ps) wr_i wr_i rem in
    Done (kv', t', lp', queues', out, mkPosts sn wr_i rem)).
  { unfold r, thread_iteration, whole_iteration. fold ps. by rewrite Er. }
  destruct (iteration_ok _ (start_configs_ok _ _ _ _ (cr_cluster _ _ _ _ _ Hrd)) (cs_cluster (ls_clients s)) F HI g m Hg Hm (clt_gid m g) bpc
    (gid_u32 m g Hm Hg) (traces m g) (proj1 (cr_trace _ _ _ _ _ Hrd m g Hm Hg))
    (fun c => hot_cached traces kv fresh fresh_invs F0 Hrd m g c Hm Hg) lp (Hl m g Hm Hg) arr1 arr2 sw queues)
    as [(b & kv' & t' & lp' & q' & out & _ & Elr & E & _ & _ & Hgrow)|[E Hbad]]; fold t lp run in E.
  2:{ right. left. rewrite Ert, E. split; [done|]. destruct Hbad; [by left|right; by left]. }
  rewrite E in Ert. cbn [obind] in Ert.
  destruct (signal_round_ok LIN_CLIENT_SEND_BR_Q_DEPTH BROADCAST_SS_BATCH (round_counts t t' out) (p_sends ps))
    as [(sn & Es & Hsn' & _)|[Es Hfull]]; [done|by eapply round_counts_ok|done| |].
  2:{ right. left. rewrite Ert, Es. split; [done|]. do 2 right. by exists kv', t', lp', q', out. }
  rewrite Es in Ert. cbn [obind] in Ert. pose proof (queue_growth queues q' Hgrow) as Hn.
  destruct (poll_and_send_ok (p_prev ps) _ rem Hrem' Hn) as [(rem' & Ep & Hrem2)|[Ep Hwait]]; rewrite Ep in Ert; cbn [obind] in Ert.
  - left. exists kv', t', lp', q', out. eexists. split; [exact Ert|]. split; [done|]. by split.
  - right. right. split; [done|]. destruct Hrem as [_ Ha _ _ _]. cbn [rl_prev rl_st] in Ha. rewrite Ea in Hwait. lia.
Qed.

Lemma loops_step_inv s s' : lin_state_ok s -> loops_step s s' -> lin_state_ok s'.
Proof using Hrd.
  intros Hi Hs. pose proof Hi as [Hr Hps].
  destruct Hs as [g m bpc arr1 arr2 sw qs kv' t' lp' qs' out ps' Hg Hm E Hv|g s1 Hg Hn|m g Hm Hg Hfly]; (split; [|intros m' g' Hm' Hg']).
  - cbn [ls_clients]. destruct (thread_iteration_ok s m g bpc arr1 arr2 sw qs Hi Hm Hg)
      as [(kv1 & t1 & lp1 & q1 & out1 & ps1 & E1 & Erun & _)|[[E1 _]|[E1 _]]]; rewrite E in E1; try discriminate E1.
    injection E1 as <- <- <- <- <- <-. eapply rtc_r; [exact Hr|]. by eapply clients_iteration.
  - cbn [ls_posts]. destruct (thread_iteration_ok s m g bpc arr1 arr2 sw qs Hi Hm Hg)
      as [(kv1 & t1 & lp1 & q1 & out1 & ps1 & E1 & _ & Hok)|[[E1 _]|[E1 _]]]; rewrite E in E1; try discriminate E1.
    injection E1 as <- <- <- <- <- <-. unfold set_posts, fupd. destruct (Z.eqb_spec m' m) as [->|]; [|by apply Hps].
    destruct (Z.eqb_spec g' g) as [->|]; [exact Hok|by apply Hps].
  - cbn [ls_clients]. eapply rtc_r; [exact Hr|]. by apply clients_network.
  - by apply Hps.
  - exact Hr.
  - cbn [ls_posts]. unfold set_posts, fupd. destruct (Z.eqb_spec m' m) as [->|]; [|by apply Hps].
    destruct (Z.eqb_spec g' g) as [->|]; [|by apply Hps]. destruct (Hps m g Hm Hg) as [H1 H2]. split; [exact H1|].
    by destruct (remote_step_inv _ _ H2 (remote_arrive (mkRl Top _ _) Hfly)) as (s1 & [= <-] & H3).
Qed.

Lemma loops_reach_inv s : loops_reach kv fresh fresh_invs junk mem s -> lin_state_ok s.
Proof using Hrd.
  intros H. apply (rtc_ind_r lin_state_ok _) with (3 := H); [|intros s1 s2 _ Hs Hi; by eapply loops_step_inv].
  split; [apply rtc_refl|]. intros m g _ _. exact posts_start_ok.
Qed.
End invariant.
End system.


(** ** Example: the second iteration of a thread, its 100 answers received *)
Definition demo_lin_start : lin_state := mkLin demo_clients (fun _ _ => posts_start).

Definition iterate (m g : Z) (s : lin_state) : lin_state :=
  match thread_iteration demo_traces s m g 0 [] [] false idle_ctx with
  | Done (kv', t', lp', _, out, ps') =>
      mkLin (mkClients (mkCluster (fupd (caches (cs_cluster (ls_clients s))) m kv')
               (fupd (groups (cs_cluster (ls_clients s))) g (after_round (groups (cs_cluster (ls_clients s)) g) m t' out)))
               (set_loop m g lp' (cs_loops (ls_clients s))))
        (set_posts m g ps' (ls_posts s))
  | _ => s
  end.

Definition demo_lin : lin_state := iterate 0 0 demo_lin_start.

Lemma iterate_reach m g s :
  m ∈ machines -> g ∈ client_ids ->
  match thread_iteration demo_traces s m g 0 [] [] false idle_ctx with
  | Done (_, t', _, _, _, _) => forallb versions_leftb (t_ops t') | _ => true end = true ->
  rtc (loops_step demo_traces) s (iterate m g s).
Proof.
  intros Hm Hg Hv. unfold iterate.
  destruct (thread_iteration _ _ _ _ _ _ _ _ _) as [[[[[[kv' t'] lp'] q'] out] ps']| |] eqn:E; [|apply rtc_refl..].
  eapply rtc_once, lin_iterates; [done|done|exact E|].
  apply Forall_forall. intros op Hop. apply versions_left_spec. by apply (proj1 (forallb_forall _ _) Hv), list_elem_of_In.
Qed.

Lemma demo_lin_reach : loops_reach demo_traces (fun _ => demo_cache) demo_memory demo_invs demo_junk demo_mem demo_lin.
Proof. apply iterate_reach; [by apply machines_spec|by apply elem_of_seqZ|]. vm_compute. reflexivity. Qed.

