(* ===== verification/Latency.v ===== *)
(** * Measuring latencies (include/ccKVS/cache.h, inline_util.h, src/ccKVS/stats.c)

    Client 0 of machine 0 measures one request at a time: a flag says what kind
    of request is being measured, a clock reading is kept from the moment the
    request entered the batch, and the event that ends the request adds the
    microseconds since then to a histogram of its kind.  The other files keep
    the flag and the position of the measured request; this file adds the
    clock, the key of a measured hot write, the local request being polled and
    the histograms ([meter]), and translates every function that touches them.

    The specification [watch] reads the same calls with their clock readings,
    says what the open measurement waits for, and keeps the list of the ended
    ones; the meter waits for the same thing, its histograms count exactly
    those measurements, and the report printed at the end of a run lists them.
    A second theorem shows what the samples of remote requests are: the answer
    that ends the measurement belongs to a packet sent before the measured
    request.

    A negative index into a histogram is [AssertFailed]. *)
From stdpp Require Import relations.
From S2P Require Import Prelude Config Optik Layout City Mica MicaLog Cache CacheSpec Network Packets ColdRequests Trace.
From S2P Require Import ClientLoop LinLoop.

(** ** Clock readings *)
Record timespec := mkTime { tv_sec : Z; tv_nsec : Z }.

Definition nanos (t : timespec) : Z := tv_sec t * 1000000000 + tv_nsec t.

(** Conversion to [int]. *)
Definition s32 (z : Z) : Z := (z + 2 ^ 31) mod 2 ^ 32 - 2 ^ 31.

(** [int useconds = (end.tv_sec - start->tv_sec) * 1000000 +
    (end.tv_nsec - start->tv_nsec) / 1000] *)
Definition useconds (start fin : timespec) : Z :=
  s32 ((tv_sec fin - tv_sec start) * 1000000 + Z.quot (tv_nsec fin - tv_nsec start) 1000).

(** ** Histograms *)
Record latency_counters := mkCounters {
  remote_reqs : list Z;
  local_reqs : list Z;
  hot_reads : list Z;
  hot_writes : list Z;
  total_measurements : Z
}.

Definition bucket_index (us : Z) : Z :=
  if MAX_LATENCY <? us then LATENCY_BUCKETS else Z.quot us (MAX_LATENCY / LATENCY_BUCKETS).

Definition bump_bucket (us : Z) (h : list Z) : outcome (list Z) :=
  let i := bucket_index us in
  match h !! Z.to_nat i with
  | Some n => if 0 <=? i then Done (<[Z.to_nat i := u32 (n + 1)]> h) else AssertFailed
  | None => AssertFailed
  end.

Definition bookkeep_latency (us : Z) (rt : req_type) (lc : latency_counters) : outcome latency_counters :=
  let '(mkCounters rr lr hr hw n) := lc in
  match rt with
  | REMOTE_REQ => let* h := bump_bucket us rr in Done (mkCounters h lr hr hw (n + 1))
  | LOCAL_REQ => let* h := bump_bucket us lr in Done (mkCounters rr h hr hw (n + 1))
  | HOT_READ_REQ => let* h := bump_bucket us hr in Done (mkCounters rr lr h hw (n + 1))
  | HOT_WRITE_REQ => let* h := bump_bucket us hw in Done (mkCounters rr lr hr h (n + 1))
  | _ => AssertFailed
  end.

(** ** The state of a measurement *)

(** [struct cache_key]. *)
Record cache_key := mkKey { k_meta : cache_meta; k_bkt : Z; k_server : Z; k_tag : Z }.
Definition key_of (o : cache_op) : cache_key := mkKey (meta o) (bkt o) (server o) (tag o).

Definition keys_are_equal (a b : cache_key) : bool :=
  (k_bkt a =? k_bkt b) && (k_server a =? k_server b) && (k_tag a =? k_tag b).
Definition keys_and_meta_are_equal (a b : cache_key) : bool :=
  keys_are_equal a b && (version (k_meta a) =? version (k_meta b)).

(** [struct local_latency]; the pointer is the index of a flag in
    [local_recv_flag]. *)
Record local_latency := mkLocal {
  measured_local_region : Z;
  local_latency_start_polling : Z;
  flag_to_poll : option (Z * Z * Z)
}.

(** [latency_info], [start], [local_measure] and [latency_count]. *)
Record meter := mkMeter {
  mt_flags : latency_flags;
  key_to_measure : cache_key;
  mt_start : timespec;
  local_measure : local_latency;
  latency_count : latency_counters
}.

Definition mt_flag (mt : meter) : req_type := measured_req_flag (mt_flags mt).
Definition set_flags (l : latency_flags) (mt : meter) : meter :=
  mkMeter l (key_to_measure mt) (mt_start mt) (local_measure mt) (latency_count mt).
Definition set_flag (f : req_type) (mt : meter) : meter :=
  set_flags (mkLat f (last_measured_op_i (mt_flags mt))) mt.

(** What the code does when a measurement ends at [now]: the microseconds are
    checked against [least], counted as [rt], and the flag is reset. *)
Definition report (now : timespec) (least : Z) (rt : req_type) (mt : meter) : outcome meter :=
  let us := useconds (mt_start mt) now in
  let* _ := c_assert (least <=? us) in
  let* lc := bookkeep_latency us rt (latency_count mt) in
  Done (mkMeter (mkLat NO_REQ (last_measured_op_i (mt_flags mt))) (key_to_measure mt) (mt_start mt)
          (local_measure mt) lc).

Section meter.
Context (machine_id thread_id isSC batches_per_client : Z).

(** [start_measurement]. *)
Definition start_measurement_at (now : timespec) (cmd : trace_command) (i : nat) (o : cache_op) (mt : meter)
    : outcome (cache_op * meter) :=
  let* _ := c_assert (state (meta o) =? 0) in
  if is_no_req (mt_flag mt) && (K_32 <? batches_per_client) && (thread_id =? 0) && (machine_id =? 0) then
    let f := measured_as machine_id isSC cmd (mt_flag mt) in
    let mt := mkMeter (mkLat f i) (key_to_measure mt) now (local_measure mt) (latency_count mt) in
    let* _ := c_assert (negb (is_no_req f)) in
    Done (if is_remote_req f then set_meta (set_state 1 (meta o)) o else o, mt)
  else Done (o, mt).

(** [hot_request_bookkeeping_for_latency_measurements]. *)
Definition hot_request_bookkeeping_at (now : timespec) (l : list slot) (mt : meter) : outcome meter :=
  let i := last_measured_op_i (mt_flags mt) in
  let t := default EMPTY (r_type <$> (l !! i)) in
  match mt_flag mt with
  | HOT_READ_REQ =>
      if (t =? CACHE_GET_SUCCESS) || (t =? CACHE_PUT_SUCCESS) then report now 0 HOT_READ_REQ mt else Done mt
  | HOT_WRITE_REQ =>
      if isSC =? 0 then
        if (t =? CACHE_GET_SUCCESS) || (t =? CACHE_PUT_SUCCESS) then report now 0 HOT_WRITE_REQ mt else Done mt
      else Done mt
  | HOT_WRITE_REQ_BEFORE_SAVING_KEY =>
      if (isSC =? 1) && (t =? CACHE_PUT_SUCCESS) then
        Done (mkMeter (mkLat HOT_WRITE_REQ i) (default (key_to_measure mt) ((fun s => key_of (s_op s)) <$> (l !! i)))
                (mt_start mt) (local_measure mt) (latency_count mt))
      else if (isSC =? 1) && (t =? CACHE_PUT_FAIL) then Done (set_flag NO_REQ mt) else Done mt
  | _ => Done mt
  end.

(** [report_latency_of_hot_write]: the update broadcast for the measured write
    ends it, an update of the key with a higher version cancels it. *)
Definition report_latency_of_hot_write (now : timespec) (u : cache_op) (mt : meter) : outcome meter :=
  if keys_and_meta_are_equal (key_of u) (key_to_measure mt) then report now 1 HOT_WRITE_REQ mt
  else if keys_are_equal (key_of u) (key_to_measure mt) then
    if version (k_meta (key_to_measure mt)) <? version (meta u) then Done (set_flag NO_REQ mt) else Done mt
  else Done mt.

Definition is_hot_write_req (f : req_type) : bool := match f with HOT_WRITE_REQ => true | _ => false end.
Definition is_local_req (f : req_type) : bool := match f with LOCAL_REQ => true | _ => false end.

(** The loop of [updates_and_acks_bookkeeping], as far as it concerns the
    measurement.  At most one of its steps reads the clock for a report. *)
Fixpoint report_hot_writes (now : timespec) (ups : list (cache_op * mica_resp)) (mt : meter) : outcome meter :=
  match ups with
  | [] => Done mt
  | (u, r) :: ups =>
      let* mt :=
        if negb (opcode u =? CACHE_OP_UPD) && (resp_type r =? CACHE_LAST_ACK_SUCCESS) &&
           (MEASURE_LATENCY =? 1) && is_hot_write_req (mt_flag mt)
        then report_latency_of_hot_write now u mt else Done mt in
      report_hot_writes now ups mt
  end.

(** [report_remote_latency]: the first completion ends the measurement, as the
    comparison with [REMOTE_LATENCY_MARK] is commented out. *)
Definition report_remote_latency (now : timespec) (prev_rem_req_i : Z) (mt : meter) : outcome meter :=
  if 0 <? prev_rem_req_i then report now 1 REMOTE_REQ mt else Done mt.

(** The use of it in [poll_and_send_remotes]. *)
Definition remotes_polled (now : timespec) (previous_wr_i prev_rem_req_i : Z) (mt : meter) : outcome meter :=
  if (ENABLE_MULTI_BATCHES =? 0) && (0 <? previous_wr_i) && (MEASURE_LATENCY =? 1) && is_remote_req (mt_flag mt)
  then report_remote_latency now prev_rem_req_i mt else Done mt.

(** [receive_response] of the SC client. *)
Definition receive_response_at (now : timespec) (rm_id : Z) (c : client_ctx) (mt : meter)
    : outcome (client_ctx * meter) :=
  let* mt :=
    if (MEASURE_LATENCY =? 1) && is_remote_req (mt_flag mt) && (thread_id =? 0) && (machine_id =? 0)
    then report now 1 REMOTE_REQ mt else Done mt in
  Done (receive_response rm_id c, mt).

(** The two places of [issue_locals] where a measured local request is noted:
    the region it goes to, and the flag to poll once the region is [full]. *)
Definition issue_marks (op_i : nat) (loc_region : Z) (full : bool) (flag : Z * Z * Z) (mt : meter) : meter :=
  let lm := local_measure mt in
  let lm := if (MEASURE_LATENCY =? 1) && is_local_req (mt_flag mt) &&
               bool_decide (op_i = last_measured_op_i (mt_flags mt))
            then mkLocal loc_region (local_latency_start_polling lm) (flag_to_poll lm) else lm in
  let lm := if full && (MEASURE_LATENCY =? 1) && is_local_req (mt_flag mt) && (measured_local_region lm =? loc_region)
            then mkLocal (measured_local_region lm) 1 (Some flag) else lm in
  mkMeter (mt_flags mt) (key_to_measure mt) (mt_start mt) lm (latency_count mt).

(** [poll_local_req_for_latency_measurement]; [recv_flag] is the array
    [local_recv_flag]. *)
Definition poll_local_req (now : timespec) (recv_flag : Z * Z * Z -> Z) (mt : meter) : outcome meter :=
  let lm := local_measure mt in
  if (MEASURE_LATENCY =? 1) && is_local_req (mt_flag mt) && (local_latency_start_polling lm =? 1) then
    match flag_to_poll lm with
    | None => AssertFailed
    | Some p =>
        if recv_flag p =? 0 then
          let* mt := report now 1 LOCAL_REQ mt in
          Done (mkMeter (mt_flags mt) (key_to_measure mt) (mt_start mt) (mkLocal (-1) 0 None) (latency_count mt))
        else Done mt
    end
  else Done mt.

(** ** Runs: the functions in any order, each with its clock reading *)
Inductive event :=
| EStart (cmd : trace_command) (i : nat) (o : cache_op)
| ECache (l : list slot)
| ECopy (op_i n : nat)
| EUpdates (ups : list (cache_op * mica_resp))
| ERemotes (previous_wr_i prev_rem_req_i : Z)
| EAnswer (rm_id : Z) (c : client_ctx)
| EIssue (op_i : nat) (loc_region : Z) (full : bool) (flag : Z * Z * Z)
| ELocal (recv_flag : Z * Z * Z -> Z).

Definition measure (e : timespec * event) (mt : meter) : outcome meter :=
  match e.2 with
  | EStart cmd i o => let* (_, mt) := start_measurement_at e.1 cmd i o mt in Done mt
  | ECache l => hot_request_bookkeeping_at e.1 l mt
  | ECopy op_i n => Done (set_flags (follow_latency op_i n (mt_flags mt)) mt)
  | EUpdates ups => report_hot_writes e.1 ups mt
  | ERemotes pw pr => remotes_polled e.1 pw pr mt
  | EAnswer rm c => let* (_, mt) := receive_response_at e.1 rm c mt in Done mt
  | EIssue op_i loc full flag => Done (issue_marks op_i loc full flag mt)
  | ELocal recv_flag => poll_local_req e.1 recv_flag mt
  end.

Fixpoint measure_all (es : list (timespec * event)) (mt : meter) : outcome meter :=
  match es with
  | [] => Done mt
  | e :: es => let* mt := measure e mt in measure_all es mt
  end.
End meter.

(** ** The report at the end of a run ([print_latency_stats])

    The lines of one series: label and count ([%d] of an unsigned counter). *)
Definition report_series (h : list Z) : list (Z * Z) :=
  ((fun i => (Z.of_nat i * (MAX_LATENCY / LATENCY_BUCKETS), s32 (nth i h 0))) <$> seq 0 (Z.to_nat LATENCY_BUCKETS))
  ++ [(-1, s32 (nth (Z.to_nat LATENCY_BUCKETS) h 0))].

Definition print_latency_stats (lc : latency_counters) : list (req_type * list (Z * Z)) :=
  [(REMOTE_REQ, report_series (remote_reqs lc)); (LOCAL_REQ, report_series (local_reqs lc));
   (HOT_READ_REQ, report_series (hot_reads lc)); (HOT_WRITE_REQ, report_series (hot_writes lc))].

(** ** Specification: the measurements of a run

    [watch] reads the events of a run and says which measurement is open, what
    it waits for, and which measurements have ended, from when to when. *)
Inductive series := Remote | Local | HotRead | HotWrite.
#[export] Instance series_eq_dec : EqDecision series.
Proof. solve_decision. Defined.

(** What an open measurement waits for: a hit in the slot of a hot read or
    write, the last acknowledgement of a write with its key and version, an
    answer, or the flag of the region a local request was put into. *)
Inductive awaiting :=
| ForRead (i : nat)
| ForWrite (i : nat)
| ForAcks (k : cache_key)
| ForAnswer
| ForLocal (i : nat) (region : option Z) (poll : option (Z * Z * Z)).

Record sample := mkSample { sm_series : series; sm_from : timespec; sm_to : timespec }.
Record monitor := mkMon { opened : option (awaiting * timespec); samples : list sample }.

(** Whole microseconds: rounded down, or up when the nanoseconds within the
    second went back. *)
Definition elapsed (t t' : timespec) : Z :=
  let d := nanos t' - nanos t in
  if tv_nsec t' <? tv_nsec t then (d + 999) / 1000 else d / 1000.
Definition duration (x : sample) : Z := elapsed (sm_from x) (sm_to x).

(** A request of the trace, in slot [i]. *)
Definition started (cmd : trace_command) (i : nat) : option awaiting :=
  let o := tc_opcode cmd in
  if o =? HOT_READ then Some (ForRead i) else if o =? HOT_WRITE then Some (ForWrite i)
  else if IS_LOCAL o then Some (ForLocal i None None) else if IS_REMOTE o then Some ForAnswer else None.

Inductive verdict := Waits (a : awaiting) | Ends (s : series) | Cancelled.

Definition type_at (l : list slot) (i : nat) : Z := default EMPTY (r_type <$> (l !! i)).
Definition hit_at (l : list slot) (i : nat) : bool :=
  (type_at l i =? CACHE_GET_SUCCESS) || (type_at l i =? CACHE_PUT_SUCCESS).

(** The last acknowledgement of a write of key [k], of its version or later. *)
Definition acknowledges (k : cache_key) (x : cache_op * mica_resp) : bool :=
  negb (opcode x.1 =? CACHE_OP_UPD) && (resp_type x.2 =? CACHE_LAST_ACK_SUCCESS) &&
  keys_are_equal (key_of x.1) k && (version (k_meta k) <=? version (meta x.1)).

Section watch.
Context (machine_id thread_id isSC batches_per_client : Z).

Definition served_by (e : event) (a : awaiting) : verdict :=
  match a, e with
  | ForRead i, ECache l => if hit_at l i then Ends HotRead else Waits a
  | ForRead i, ECopy op_i n => Waits (ForRead (if bool_decide (op_i = i) then n else i))
  | ForWrite i, ECache l =>
      if isSC =? 0 then if hit_at l i then Ends HotWrite else Waits a
      else match l !! i with
           | Some s => if r_type s =? CACHE_PUT_SUCCESS then Waits (ForAcks (key_of (s_op s)))
                       else if r_type s =? CACHE_PUT_FAIL then Cancelled else Waits a
           | None => Waits a
           end
  | ForWrite i, ECopy op_i n => Waits (ForWrite (if (isSC =? 1) && bool_decide (op_i = i) then n else i))
  | ForAcks k, EUpdates ups =>
      match List.find (acknowledges k) ups with
      | Some x => if version (meta x.1) =? version (k_meta k) then Ends HotWrite else Cancelled
      | None => Waits a
      end
  | ForAnswer, ERemotes previous_wr_i prev_rem_req_i =>
      if (0 <? previous_wr_i) && (0 <? prev_rem_req_i) then Ends Remote else Waits a
  | ForAnswer, EAnswer _ _ => Ends Remote
  | ForLocal i r p, ECopy op_i n => Waits (ForLocal (if bool_decide (op_i = i) then n else i) r p)
  | ForLocal i r p, EIssue op_i loc full flag =>
      let r := if bool_decide (op_i = i) then Some loc else r in
      Waits (ForLocal i r (if full && bool_decide (r = Some loc) then Some flag else p))
  | ForLocal i r p, ELocal recv_flag =>
      match p with Some p => if recv_flag p =? 0 then Ends Local else Waits a | None => Waits a end
  | _, _ => Waits a
  end.

Definition watch (e : timespec * event) (m : monitor) : monitor :=
  match opened m with
  | None =>
      match e.2 with
      | EStart cmd i _ =>
          if (K_32 <? batches_per_client) && (thread_id =? 0) && (machine_id =? 0)
          then mkMon ((fun a => (a, e.1)) <$> started cmd i) (samples m) else m
      | _ => m
      end
  | Some (a, t) =>
      match served_by e.2 a with
      | Waits a => mkMon (Some (a, t)) (samples m)
      | Ends s => mkMon None (mkSample s t e.1 :: samples m)
      | Cancelled => mkMon None (samples m)
      end
  end.

Fixpoint watch_all (es : list (timespec * event)) (m : monitor) : monitor :=
  match es with [] => m | e :: es => watch_all es (watch e m) end.

(** The shortest duration the assertions accept. *)
Definition least_of (s : series) : Z :=
  match s with HotRead => 0 | HotWrite => if isSC =? 0 then 0 else 1 | Remote | Local => 1 end.
Definition long_enough (x : sample) : bool := least_of (sm_series x) <=? duration x.

(** A request enters the batch with a known opcode and its state cleared; local
    regions are not negative; acknowledgements are only in the LIN client. *)
Definition event_ok (e : event) : Prop :=
  match e with
  | EStart cmd i o => state (meta o) = 0 /\ started cmd i <> None
  | EUpdates _ => isSC = 1
  | EIssue _ loc _ _ => 0 <= loc
  | _ => True
  end.
End watch.

Definition counter (s : series) (lc : latency_counters) : list Z :=
  match s with Remote => remote_reqs lc | Local => local_reqs lc | HotRead => hot_reads lc | HotWrite => hot_writes lc end.

(** Bucket [i] is for two microseconds, the last one for 400 and more. *)
Definition in_bucket (i : nat) (us : Z) : bool :=
  if Z.of_nat i <? 200 then (2 * Z.of_nat i <=? us) && (us <? 2 * Z.of_nat i + 2) else 400 <=? us.

Definition sampled (s : series) (i : nat) (l : list sample) : Z :=
  Z.of_nat (length (filter (fun x => sm_series x = s /\ in_bucket i (duration x) = true) l)).

(** [h] counts bucket by bucket what [n] says on top of [h0]. *)
Definition counts (h0 h : list Z) (n : nat -> Z) : Prop :=
  length h = 201%nat /\ forall i x, h !! i = Some x -> exists x0, h0 !! i = Some x0 /\ x = u32 (x0 + n i).

(** The meter waits for [a] since [t]. *)
Definition idle_local : local_latency := mkLocal (-1) 0 None.
Definition waits_for (isSC : Z) (mt : meter) (a : awaiting) : Prop :=
  let i := last_measured_op_i (mt_flags mt) in
  match a with
  | ForRead j => mt_flag mt = HOT_READ_REQ /\ i = j /\ local_measure mt = idle_local
  | ForWrite j => mt_flag mt = (if isSC =? 0 then HOT_WRITE_REQ else HOT_WRITE_REQ_BEFORE_SAVING_KEY) /\ i = j /\
                  local_measure mt = idle_local
  | ForAcks k => isSC <> 0 /\ mt_flag mt = HOT_WRITE_REQ /\ key_to_measure mt = k /\ local_measure mt = idle_local
  | ForAnswer => mt_flag mt = REMOTE_REQ /\ local_measure mt = idle_local
  | ForLocal j r p => mt_flag mt = LOCAL_REQ /\ i = j /\
      local_measure mt = mkLocal (default (-1) r) (if decide (p = None) then 0 else 1) p /\ (forall loc, r = Some loc -> 0 <= loc)
  end.
Definition open_as (isSC : Z) (mt : meter) (o : option (awaiting * timespec)) : Prop :=
  match o with
  | None => mt_flag mt = NO_REQ /\ local_measure mt = idle_local
  | Some (a, t) => waits_for isSC mt a /\ mt_start mt = t
  end.

(** The meter [mt] shows what the monitor [m] saw since the counters were [lc0]. *)
Record shows (isSC : Z) (lc0 : latency_counters) (mt : meter) (m : monitor) : Prop := {
  sh_open : open_as isSC mt (opened m);
  sh_counts : forall s, counts (counter s lc0) (counter s (latency_count mt)) (fun i => sampled s i (samples m));
  sh_total : total_measurements (latency_count mt) = total_measurements lc0 + Z.of_nat (length (samples m))
}.

(** ** Arithmetic of the clock and of the buckets *)

(** Readings less than 2147 seconds apart fit an [int] of microseconds. *)
Definition in_range (t t' : timespec) : Prop := Z.abs (nanos t' - nanos t) <= 2147000000000.

Lemma s32_small z : - 2 ^ 31 <= z < 2 ^ 31 -> s32 z = z.
Proof. intros H. unfold s32. rewrite Z.mod_small; lia. Qed.

Lemma useconds_elapsed t t' : in_range t t' -> useconds t t' = elapsed t t'.
Proof.
  unfold in_range, useconds, elapsed, nanos. intros H. rewrite s32_small.
  - zcase; [|rewrite Z.quot_div_nonneg by lia; Z.div_mod_to_equations; lia].
    rewrite <- (Z.opp_involutive (tv_nsec t' - tv_nsec t)), Z.quot_opp_l, Z.quot_div_nonneg by lia.
    Z.div_mod_to_equations; lia.
  - pose proof (Z.quot_rem' (tv_nsec t' - tv_nsec t) 1000) as Hq.
    pose proof (Z.rem_bound_abs (tv_nsec t' - tv_nsec t) 1000) as Hr. lia.
Qed.

Lemma bucket_index_spec us : 0 <= us ->
  exists i, bucket_index us = Z.of_nat i /\ (i < 201)%nat /\ forall j, (j < 201)%nat -> in_bucket j us = bool_decide (j = i).
Proof.
  intros Hu. unfold bucket_index, in_bucket, MAX_LATENCY, LATENCY_BUCKETS. change (400 / 200) with 2.
  rewrite Z.quot_div_nonneg by lia.
  exists (Z.to_nat (if 400 <? us then 200 else us / 2)).
  assert (0 <= us / 2) by (apply Z.div_pos; lia).
  repeat split; [zcase; lia|zcase; [|assert (us / 2 < 201) by (apply Z.div_lt_upper_bound; lia)]; lia|].
  intros j Hj. destruct (Z.ltb_spec (Z.of_nat j) 200); destruct (Z.ltb_spec 400 us); repeat zcase;
    case_bool_decide; Z.div_mod_to_equations; (reflexivity || lia).
Qed.

(** ** Counting a sample *)
Lemma sampled_cons s i x l :
  sampled s i (x :: l) =
  (if bool_decide (sm_series x = s) && in_bucket i (duration x) then 1 else 0) + sampled s i l.
Proof.
  unfold sampled. rewrite filter_cons. destruct (decide _) as [[-> ->]|Hn].
  - rewrite bool_decide_true by done. cbn [andb length]. lia.
  - destruct (bool_decide (sm_series x = s) && in_bucket i (duration x)) eqn:E; [|done]. apply andb_prop in E as [E1 E2].
    apply bool_decide_eq_true in E1. tauto.
Qed.

Lemma u32_succ x n : u32 (u32 x + n) = u32 (x + n).
Proof. unfold u32. apply Zplus_mod_idemp_l. Qed.

Lemma counts_ext h0 h n n' : (forall i, (i < 201)%nat -> n i = n' i) -> counts h0 h n -> counts h0 h n'.
Proof.
  intros He [Hl H]. split; [done|]. intros i x E. rewrite <- He; [by apply H|].
  apply lookup_lt_Some in E. lia.
Qed.

Lemma bump_bucket_counts us h0 h n : 0 <= us -> counts h0 h n ->
  exists h', bump_bucket us h = Done h' /\
    counts h0 h' (fun i => (if in_bucket i us then 1 else 0) + n i).
Proof.
  intros Hu [Hl H]. destruct (bucket_index_spec us Hu) as (i & Hi & Hi2 & Hb).
  unfold bump_bucket. rewrite Hi, Nat2Z.id.
  destruct (lookup_lt_is_Some_2 h i ltac:(lia)) as [x Hx]. rewrite Hx, (proj2 (Z.leb_le _ _)) by lia.
  eexists. split; [done|]. split; [by rewrite length_insert|]. intros j y Hy.
  assert (Hj : (j < 201)%nat) by (apply lookup_lt_Some in Hy; rewrite length_insert in Hy; lia).
  rewrite (Hb j Hj). case_bool_decide as Hji.
  - subst j. rewrite list_lookup_insert_eq in Hy by lia. injection Hy as <-.
    destruct (H i x Hx) as (x0 & E0 & ->). exists x0. split; [done|]. rewrite u32_succ. f_equal. lia.
  - rewrite list_lookup_insert_ne in Hy by done. destruct (H j y Hy) as (x0 & E0 & ->). eauto.
Qed.

(** The kinds of requests that have a histogram. *)
Definition series_of (f : req_type) : option series :=
  match f with
  | HOT_WRITE_REQ => Some HotWrite
  | HOT_READ_REQ => Some HotRead
  | LOCAL_REQ => Some Local
  | REMOTE_REQ => Some Remote
  | _ => None
  end.

Lemma bookkeep_counts rt x lc0 lc l :
  0 <= duration x -> series_of rt = Some (sm_series x) ->
  (forall s, counts (counter s lc0) (counter s lc) (fun i => sampled s i l)) ->
  exists lc', bookkeep_latency (duration x) rt lc = Done lc' /\
    (forall s', counts (counter s' lc0) (counter s' lc') (fun i => sampled s' i (x :: l))) /\
    total_measurements lc' = total_measurements lc + 1.
Proof.
  intros Hu Hs H.
  assert (Hsame : forall s', s' <> sm_series x ->
    counts (counter s' lc0) (counter s' lc) (fun i => sampled s' i (x :: l))).
  { intros s' Hne. eapply counts_ext, H. intros i _. rewrite sampled_cons, bool_decide_false by done. done. }
  destruct (bump_bucket_counts (duration x) _ _ _ Hu (H (sm_series x))) as (h' & E & Hc).
  assert (Hnew : counts (counter (sm_series x) lc0) h' (fun i => sampled (sm_series x) i (x :: l))).
  { eapply counts_ext, Hc. intros i _. rewrite sampled_cons, bool_decide_true by done. done. }
  destruct lc as [rr lr hr hw n].
  destruct rt; try discriminate; injection Hs as Hs; rewrite <- Hs in *;
    cbn [counter bookkeep_latency remote_reqs local_reqs hot_reads hot_writes] in *;
    rewrite E; cbn [obind]; (eexists; split; [reflexivity|]; split; [|done]);
    intros []; try done; by apply Hsame.
Qed.

(** ** The functions follow the monitor *)
Definition in_window (t0 t : timespec) : Prop := nanos t0 <= nanos t <= nanos t0 + 2147000000000.

Lemma window_range t0 t t' : in_window t0 t -> in_window t0 t' -> in_range t t'.
Proof. unfold in_window, in_range. lia. Qed.

Lemma report_flag now least rt mt mt' : report now least rt mt = Done mt' -> mt_flag mt' = NO_REQ.
Proof. unfold report. intros E. by inv_done E. Qed.

Section follow.
Context (machine_id thread_id isSC bpc : Z) (lc0 : latency_counters) (t0 : timespec).
Context (HisSC : isSC = 0 \/ isSC = 1).

(** A measurement is only opened by client 0 of machine 0, in the window. *)
Definition tracks (mt : meter) (m : monitor) : Prop :=
  shows isSC lc0 mt m /\
  forall a t, opened m = Some (a, t) -> in_window t0 t /\ thread_id = 0 /\ machine_id = 0.

(** The meter goes where the monitor went, unless it ended a measurement that
    was too short. *)
Definition follows (r : outcome meter) (m m' : monitor) : Prop :=
  (exists mt', r = Done mt' /\ tracks mt' m' /\ (samples m' = samples m \/
     exists x, samples m' = x :: samples m /\ long_enough isSC x = true)) \/
  (r = AssertFailed /\ exists x, samples m' = x :: samples m /\ long_enough isSC x = false).

(** A step that ends no measurement. *)
Lemma quiet_follows mt m mt' o :
  tracks mt m -> latency_count mt' = latency_count mt -> open_as isSC mt' o ->
  (forall a t, o = Some (a, t) -> in_window t0 t /\ thread_id = 0 /\ machine_id = 0) ->
  follows (Done mt') m (mkMon o (samples m)).
Proof.
  intros [[H1 H2 H3] _] Hc Ho Hw. left. exists mt'. split; [done|]. split; [|by left].
  split; [|done]. split; [done|by rewrite Hc|by rewrite Hc].
Qed.

Lemma still_follows mt m : tracks mt m -> follows (Done mt) m m.
Proof. intros H. left. exists mt. split; [done|]. split; [done|by left]. Qed.

(** A step that ends one: [report], then perhaps a change of what is not
    counted. *)
Lemma report_follows now rt mt a t l s (f : meter -> meter) :
  tracks mt (mkMon (Some (a, t)) l) -> in_window t0 now -> series_of rt = Some s ->
  (forall mt', latency_count (f mt') = latency_count mt' /\ mt_flag (f mt') = mt_flag mt' /\
     (local_measure mt' = local_measure mt -> local_measure (f mt') = idle_local)) ->
  follows (let* mt := report now (least_of isSC s) rt mt in Done (f mt)) (mkMon (Some (a, t)) l)
    (mkMon None (mkSample s t now :: l)).
Proof.
  intros [[[H0 H1] H2 H3] Hw] Hnow Hs Hf. destruct (Hw a t eq_refl) as (Ht & _).
  simpl in *. unfold report. rewrite H1, (useconds_elapsed t now) by by eapply window_range.
  change (elapsed t now) with (duration (mkSample s t now)).
  destruct (least_of isSC s <=? duration (mkSample s t now)) eqn:El; cbn [c_assert obind].
  2:{ right. split; [done|]. eexists. split; [done|exact El]. }
  assert (Hd : 0 <= duration (mkSample s t now)).
  { apply Z.leb_le in El. unfold least_of in El. destruct s; try lia. by destruct (isSC =? 0); lia. }
  destruct (bookkeep_counts rt (mkSample s t now) lc0 (latency_count mt) l Hd Hs H2) as (lc' & E & Hc & Hn).
  rewrite E. cbn [obind]. left. eexists. split; [reflexivity|]. split; [|right; eexists; by split].
  split; [|done]. destruct (Hf (mkMeter (mkLat NO_REQ (last_measured_op_i (mt_flags mt))) (key_to_measure mt) t
    (local_measure mt) lc')) as (F1 & F2 & F3).
  split; [split; [by rewrite F2|by apply F3]|by rewrite F1|rewrite F1; simpl; lia].
Qed.

Lemma report_id now least rt mt : report now least rt mt = (let* mt := report now least rt mt in Done mt).
Proof. by destruct (report now least rt mt). Qed.

(** Ending it with [report] alone. *)
Lemma ends_follows now rt mt a t l s :
  tracks mt (mkMon (Some (a, t)) l) -> in_window t0 now -> series_of rt = Some s -> local_measure mt = idle_local ->
  follows (report now (least_of isSC s) rt mt) (mkMon (Some (a, t)) l) (mkMon None (mkSample s t now :: l)).
Proof.
  intros H Hnow Hs Hl. rewrite report_id. apply (report_follows _ _ _ _ _ _ _ (fun x => x)); try done.
  intros mt'. split_and!; [done|done|]. by intros ->.
Qed.

(** Waiting for something else. *)
Lemma waits_follows mt a t l mt' a' :
  tracks mt (mkMon (Some (a, t)) l) -> latency_count mt' = latency_count mt -> mt_start mt' = mt_start mt ->
  waits_for isSC mt' a' -> follows (Done mt') (mkMon (Some (a, t)) l) (mkMon (Some (a', t)) l).
Proof.
  intros H Hc Hs Ha. pose proof H as [[[_ H1] _ _] Hw]. eapply (quiet_follows _ (mkMon (Some (a, t)) l)); [done|done| |].
  - split; [done|by rewrite Hs].
  - intros a1 t1 [= <- <-]. by apply (Hw a).
Qed.

Lemma cancelled_follows mt a t l mt' :
  tracks mt (mkMon (Some (a, t)) l) -> latency_count mt' = latency_count mt -> mt_flag mt' = NO_REQ ->
  local_measure mt' = idle_local -> follows (Done mt') (mkMon (Some (a, t)) l) (mkMon None l).
Proof. intros H Hc Hf Hl. by eapply (quiet_follows _ (mkMon (Some (a, t)) l)). Qed.

Lemma meter_eta mt : mkMeter (mt_flags mt) (key_to_measure mt) (mt_start mt) (local_measure mt) (latency_count mt) = mt.
Proof. by destruct mt. Qed.

Lemma start_follows now cmd i o mt m :
  tracks mt m -> in_window t0 now -> event_ok isSC (EStart cmd i o) ->
  follows (let* (_, mt) := start_measurement_at machine_id thread_id isSC bpc now cmd i o mt in Done mt) m
    (watch machine_id thread_id isSC bpc (now, EStart cmd i o) m).
Proof.
  intros H Hnow [Ho Hk]. unfold start_measurement_at, watch. rewrite Ho. cbn [Z.eqb c_assert obind fst snd].
  destruct m as [[[a t]|] l]; cbn [opened samples].
  { assert (Hf : is_no_req (mt_flag mt) = false).
    { destruct H as [[[Ha _] _ _] _]. destruct a; simpl in Ha; destruct_and?; repeat case_match; simplify_eq; congruence || by
        match goal with E : mt_flag mt = _ |- _ => rewrite E end. }
    rewrite Hf. cbn [andb obind]. destruct a; by apply still_follows. }
  pose proof H as [[[Hf Hl] _ _] _]. rewrite Hf. cbn [is_no_req andb]. rewrite <- !andb_assoc.
  destruct (_ && _) eqn:Hg; cbn [obind]; [|by apply still_follows].
  apply andb_prop in Hg as [_ Hg]. apply andb_prop in Hg as [H0%Z.eqb_eq H1%Z.eqb_eq].
  assert (Hm : exists a, started cmd i = Some a /\
    negb (is_no_req (measured_as machine_id isSC cmd NO_REQ)) = true /\
    waits_for isSC (mkMeter (mkLat (measured_as machine_id isSC cmd NO_REQ) i) (key_to_measure mt) now
      (local_measure mt) (latency_count mt)) a).
  { unfold started, measured_as in *. change (DISABLE_CACHE =? 0) with true. cbn iota. rewrite Hl. unfold waits_for, mt_flag.
    cbn [mt_flags measured_req_flag last_measured_op_i local_measure].
    destruct (Z.eqb_spec (tc_opcode cmd) HOT_READ) as [E|]; [rewrite E; by eexists|].
    destruct (Z.eqb_spec (tc_opcode cmd) HOT_WRITE) as [E|]; [eexists; split; [done|]; by destruct HisSC as [-> | ->]|].
    destruct (IS_LOCAL (tc_opcode cmd)); [by eexists|]. destruct (IS_REMOTE (tc_opcode cmd)); [by eexists|done]. }
  destruct Hm as (a & Ea & Hn & Ha). rewrite Ea, Hn. cbn [c_assert obind fmap option_fmap option_map].
  eapply quiet_follows; [done|done|by split|]. by intros ? ? [= <- <-].
Qed.

Lemma cache_follows now l mt m :
  tracks mt m -> in_window t0 now ->
  follows (hot_request_bookkeeping_at isSC now l mt) m (watch machine_id thread_id isSC bpc (now, ECache l) m).
Proof.
  intros H Hnow. pose proof H as [[Ho _ _] _]. unfold hot_request_bookkeeping_at, watch.
  fold (type_at l (last_measured_op_i (mt_flags mt))). fold (hit_at l (last_measured_op_i (mt_flags mt))).
  destruct m as [[[[i|i|k| |i r p] t]|] sm]; simpl in Ho; cbn [opened samples served_by fst snd].
  - destruct Ho as [(Hf & -> & Hl) _]. rewrite Hf. destruct (hit_at l i); [|by apply still_follows].
    by apply (ends_follows now HOT_READ_REQ mt (ForRead i) t sm HotRead).
  - destruct Ho as [(Hf & Hi & Hl) _]. rewrite Hf. destruct HisSC as [Hsc|Hsc]; rewrite Hsc in *; cbn [Z.eqb andb].
    + rewrite Hi. destruct (hit_at l i); [|by apply still_follows].
      replace 0 with (least_of isSC HotWrite) by (unfold least_of; by rewrite Hsc).
      by apply (ends_follows now HOT_WRITE_REQ mt (ForWrite i) t sm HotWrite).
    + rewrite Hi. unfold type_at. destruct (l !! i) as [s|] eqn:Es; simpl; [|by apply still_follows].
      destruct (r_type s =? CACHE_PUT_SUCCESS); [|destruct (r_type s =? CACHE_PUT_FAIL); [|by apply still_follows]].
      * eapply waits_follows; [done|done|done|]. split_and!; try done. by rewrite Hsc.
      * by eapply cancelled_follows.
  - destruct Ho as [(Hs & Hf & _) _]. rewrite Hf. destruct (Z.eqb_spec isSC 0); [done|by apply still_follows].
  - destruct Ho as [(Hf & _) _]. rewrite Hf. by apply still_follows.
  - destruct Ho as [(Hf & _) _]. rewrite Hf. destruct p; by apply still_follows.
  - destruct Ho as [Hf _]. rewrite Hf. by apply still_follows.
Qed.

Lemma report_hot_writes_none now ups mt : mt_flag mt <> HOT_WRITE_REQ -> report_hot_writes now ups mt = Done mt.
Proof.
  intros Hf. assert (E : is_hot_write_req (mt_flag mt) = false) by by destruct (mt_flag mt).
  induction ups as [|[u r] ups IH]; [done|]. simpl. rewrite E, !andb_false_r. exact IH.
Qed.

(** After a report the other acknowledgements change nothing. *)
Lemma report_then_none now least rt mt ups :
  (let* mt := report now least rt mt in report_hot_writes now ups mt) = report now least rt mt.
Proof.
  destruct (report now least rt mt) as [mt'| |] eqn:E; [|done..]. simpl. apply report_hot_writes_none.
  by rewrite (report_flag _ _ _ _ _ E).
Qed.

Lemma acks_follow now ups mt k t l :
  tracks mt (mkMon (Some (ForAcks k, t)) l) -> in_window t0 now -> isSC = 1 ->
  follows (report_hot_writes now ups mt) (mkMon (Some (ForAcks k, t)) l)
    (watch machine_id thread_id isSC bpc (now, EUpdates ups) (mkMon (Some (ForAcks k, t)) l)).
Proof.
  intros H Hnow Hsc. unfold watch. cbn [opened served_by fst snd samples].
  pose proof H as [[[(_ & Hf & Hk & Hl) Ht] _ _] _].
  induction ups as [|[u r] ups IH]; [by apply still_follows|]. cbn [report_hot_writes List.find].
  rewrite Hf. cbn [is_hot_write_req]. rewrite andb_true_r. change (MEASURE_LATENCY =? 1) with true. rewrite andb_true_r.
  unfold acknowledges at 1. cbn [fst snd].
  destruct (negb (opcode u =? CACHE_OP_UPD) && (resp_type r =? CACHE_LAST_ACK_SUCCESS)); cbn [andb obind]; [|exact IH].
  unfold report_latency_of_hot_write, keys_and_meta_are_equal. rewrite Hk.
  destruct (keys_are_equal (key_of u) k); cbn [andb obind]; [|exact IH]. cbn [key_of k_meta].
  destruct (Z.eqb_spec (version (meta u)) (version (k_meta k))) as [Ev|Hv]; cbn [obind].
  - rewrite report_then_none, Ev, Z.leb_refl. cbn [fst]. rewrite Ev, Z.eqb_refl.
    replace 1 with (least_of isSC HotWrite) by (unfold least_of; by rewrite Hsc).
    by apply (ends_follows now HOT_WRITE_REQ mt (ForAcks k) t l HotWrite).
  - destruct (Z.ltb_spec (version (k_meta k)) (version (meta u))) as [Hlt|Hge]; cbn [obind].
    + rewrite (proj2 (Z.leb_le _ _)) by lia. cbn [fst].
      rewrite (proj2 (Z.eqb_neq _ _)) by done. rewrite report_hot_writes_none by done.
      eapply cancelled_follows; done.
    + rewrite (proj2 (Z.leb_gt _ _)) by lia. exact IH.
Qed.

Lemma updates_follow now ups mt m :
  tracks mt m -> in_window t0 now -> isSC = 1 ->
  follows (report_hot_writes now ups mt) m (watch machine_id thread_id isSC bpc (now, EUpdates ups) m).
Proof.
  intros H Hnow Hsc. pose proof H as [[Ho _ _] _].
  destruct m as [[[[i|i|k| |i r p] t]|] sm]; simpl in Ho.
  3: by apply acks_follow.
  all: rewrite report_hot_writes_none; [by apply still_follows|].
  all: destruct_and?; match goal with E : mt_flag _ = _ |- _ => rewrite E end; try done. by rewrite Hsc.
Qed.

Lemma copy_follows now op_i n mt m :
  tracks mt m ->
  follows (Done (set_flags (follow_latency op_i n (mt_flags mt)) mt)) m
    (watch machine_id thread_id isSC bpc (now, ECopy op_i n) m).
Proof.
  intros H. pose proof H as [[Ho _ _] _]. unfold follow_latency, watch. change (MEASURE_LATENCY =? 1) with true.
  cbn [andb]. fold (mt_flag mt).
  assert (Hsame : set_flags (mt_flags mt) mt = mt) by apply meter_eta.
  destruct m as [[[[i|i|k| |i r p] t]|] sm]; simpl in Ho; cbn [opened samples served_by fst snd].
  - destruct Ho as [(Hf & Hi & Hl) _]. rewrite Hf, Hi, andb_true_r.
    case_bool_decide; (eapply waits_follows; [done|done|done|]; by split_and!).
  - destruct Ho as [(Hf & Hi & Hl) _]. rewrite Hf, Hi. destruct HisSC as [Hsc|Hsc]; rewrite Hsc in *; cbn [Z.eqb andb].
    + rewrite andb_false_r, Hsame. by apply still_follows.
    + rewrite andb_true_r. case_bool_decide; (eapply waits_follows; [done|done|done|]; split_and!; try done; by rewrite Hsc).
  - destruct Ho as [(_ & Hf & _) _]. rewrite Hf, andb_false_r, Hsame. by apply still_follows.
  - destruct Ho as [(Hf & _) _]. rewrite Hf, andb_false_r, Hsame. by apply still_follows.
  - destruct Ho as [(Hf & Hi & Hl & Hr) _]. rewrite Hf, Hi, andb_true_r.
    case_bool_decide; (eapply waits_follows; [done|done|done|]; by split_and!).
  - destruct Ho as [Hf _]. rewrite Hf, andb_false_r, Hsame. by apply still_follows.
Qed.

Lemma region_is (r : option Z) loc : 0 <= loc -> (default (-1) r =? loc) = bool_decide (r = Some loc).
Proof.
  intros H. destruct r as [x|].
  - change (default (-1) (Some x)) with x. destruct (Z.eqb_spec x loc); case_bool_decide; congruence.
  - change (default (-1) None) with (-1). destruct (Z.eqb_spec (-1) loc); [lia|by rewrite bool_decide_false].
Qed.

Lemma issue_follows now op_i loc full flag mt m :
  tracks mt m -> 0 <= loc ->
  follows (Done (issue_marks op_i loc full flag mt)) m
    (watch machine_id thread_id isSC bpc (now, EIssue op_i loc full flag) m).
Proof.
  intros H Hloc. pose proof H as [[Ho _ _] _].
  assert (Hno : mt_flag mt <> LOCAL_REQ -> issue_marks op_i loc full flag mt = mt).
  { intros Hf. unfold issue_marks. change (MEASURE_LATENCY =? 1) with true.
    assert (is_local_req (mt_flag mt) = false) as -> by by destruct (mt_flag mt).
    rewrite !andb_false_r. cbn [andb]. apply meter_eta. }
  destruct m as [[[[i|i|k| |i r p] t]|] sm]; simpl in Ho.
  5:{ clear Hno. destruct Ho as [(Hf & Hi & Hl & Hr) _]. unfold watch. cbn [opened samples served_by fst snd].
      eapply waits_follows; [done|done|done|]. unfold issue_marks. change (MEASURE_LATENCY =? 1) with true.
      rewrite Hf, Hi, Hl. cbn [is_local_req andb]. rewrite !andb_true_r. split_and!; [done|done| |].
      - cbn [local_measure]. set (r' := if bool_decide (op_i = i) then Some loc else r).
        replace (if bool_decide (op_i = i) then mkLocal _ _ _ else _)
          with (mkLocal (default (-1) r') (if decide (p = None) then 0 else 1) p)
          by (unfold r'; by destruct (bool_decide (op_i = i))).
        cbn [measured_local_region]. rewrite region_is by done. by destruct (full && bool_decide (r' = Some loc)).
      - intros x. case_bool_decide; [by intros [= <-]|apply Hr]. }
  all: rewrite Hno; [by apply still_follows|]; destruct_and?;
    match goal with E : mt_flag _ = _ |- _ => rewrite E end; try done; by destruct (isSC =? 0).
Qed.

Lemma remote_report_follows now mt m (b : bool) :
  tracks mt m -> in_window t0 now ->
  follows (if b && is_remote_req (mt_flag mt) then report now 1 REMOTE_REQ mt else Done mt) m
    (match opened m with
     | Some (ForAnswer, t) => if b then mkMon None (mkSample Remote t now :: samples m) else m
     | _ => m
     end).
Proof.
  intros H Hnow. pose proof H as [[Ho _ _] _].
  destruct m as [[[[i|i|k| |i r p] t]|] sm]; simpl in Ho; cbn [opened samples].
  4:{ destruct Ho as [(Hf & Hl) _]. rewrite Hf. cbn [is_remote_req]. rewrite andb_true_r. destruct b; [|by apply still_follows].
      by apply (ends_follows now REMOTE_REQ mt ForAnswer t sm Remote). }
  all: assert (is_remote_req (mt_flag mt) = false) as ->; [|rewrite andb_false_r; by apply still_follows].
  all: destruct_and?; match goal with E : mt_flag _ = _ |- _ => rewrite E end; try done; by destruct (isSC =? 0).
Qed.

Lemma remotes_follow now pw pr mt m :
  tracks mt m -> in_window t0 now ->
  follows (remotes_polled now pw pr mt) m (watch machine_id thread_id isSC bpc (now, ERemotes pw pr) m).
Proof.
  intros H Hnow.
  assert (E : remotes_polled now pw pr mt
              = if ((0 <? pw) && (0 <? pr)) && is_remote_req (mt_flag mt) then report now 1 REMOTE_REQ mt else Done mt).
  { unfold remotes_polled, report_remote_latency. change (ENABLE_MULTI_BATCHES =? 0) with true.
    change (MEASURE_LATENCY =? 1) with true. by destruct (0 <? pw), (0 <? pr), (is_remote_req (mt_flag mt)). }
  rewrite E. pose proof (remote_report_follows now mt m ((0 <? pw) && (0 <? pr)) H Hnow) as Hr.
  destruct m as [[[[i|i|k| |i r p] t]|] sm]; try exact Hr. cbn [opened samples] in Hr.
  unfold watch. cbn [opened served_by fst snd samples]. by destruct ((0 <? pw) && (0 <? pr)).
Qed.

Lemma answer_follows now rm c mt m :
  tracks mt m -> in_window t0 now ->
  follows (let* (_, mt) := receive_response_at machine_id thread_id now rm c mt in Done mt) m
    (watch machine_id thread_id isSC bpc (now, EAnswer rm c) m).
Proof.
  intros H Hnow. unfold receive_response_at. change (MEASURE_LATENCY =? 1) with true. cbn [andb].
  pose proof (remote_report_follows now mt m ((thread_id =? 0) && (machine_id =? 0)) H Hnow) as Hr.
  rewrite <- andb_assoc, andb_comm.
  assert (Ex : forall o : outcome meter,
    (let* (_, mt) := (let* mt := o in Done (receive_response rm c, mt)) in Done mt) = o) by by intros [].
  rewrite Ex. destruct m as [[[[i|i|k| |i r p] t]|] sm]; try exact Hr. cbn [opened samples] in Hr.
  destruct (proj2 H ForAnswer t eq_refl) as (_ & Et & Em). rewrite Et, Em in *. exact Hr.
Qed.

Lemma local_follows now flags mt m :
  tracks mt m -> in_window t0 now ->
  follows (poll_local_req now flags mt) m (watch machine_id thread_id isSC bpc (now, ELocal flags) m).
Proof.
  intros H Hnow. pose proof H as [[Ho _ _] _].
  assert (Hno : mt_flag mt <> LOCAL_REQ -> poll_local_req now flags mt = Done mt).
  { intros Hf. unfold poll_local_req. change (MEASURE_LATENCY =? 1) with true.
    assert (is_local_req (mt_flag mt) = false) as -> by by destruct (mt_flag mt). done. }
  destruct m as [[[[i|i|k| |i r p] t]|] sm]; simpl in Ho.
  5:{ clear Hno. destruct Ho as [(Hf & Hi & Hl & Hr) _]. unfold watch, poll_local_req. cbn [opened samples served_by fst snd].
      change (MEASURE_LATENCY =? 1) with true. rewrite Hf, Hl. cbn [is_local_req andb local_latency_start_polling flag_to_poll].
      destruct p as [p|]; simpl; [|by apply still_follows].
      destruct (flags p =? 0); [|by apply still_follows].
      by apply (report_follows now LOCAL_REQ mt (ForLocal i r (Some p)) t sm Local
        (fun mt => mkMeter (mt_flags mt) (key_to_measure mt) (mt_start mt) (mkLocal (-1) 0 None) (latency_count mt))). }
  all: rewrite Hno; [by apply still_follows|]; destruct_and?;
    match goal with E : mt_flag _ = _ |- _ => rewrite E end; try done; by destruct (isSC =? 0).
Qed.

Lemma measure_follows e mt m :
  tracks mt m -> in_window t0 e.1 -> event_ok isSC e.2 ->
  follows (measure machine_id thread_id isSC bpc e mt) m (watch machine_id thread_id isSC bpc e m).
Proof.
  intros H Hnow He. destruct e as [now []]; cbn [fst snd measure] in *.
  - by apply start_follows.
  - by apply cache_follows.
  - by apply copy_follows.
  - by apply updates_follow.
  - by apply remotes_follow.
  - by apply answer_follows.
  - by apply issue_follows.
  - by apply local_follows.
Qed.

Lemma watch_grows es m : exists l, samples (watch_all machine_id thread_id isSC bpc es m) = l ++ samples m.
Proof.
  revert m. induction es as [|e es IH]; intros m; [by exists []|]. cbn [watch_all].
  destruct (IH (watch machine_id thread_id isSC bpc e m)) as [l ->].
  assert (H : exists l', samples (watch machine_id thread_id isSC bpc e m) = l' ++ samples m).
  { unfold watch. destruct (opened m) as [[a t]|].
    - destruct (served_by isSC e.2 a) as [| s |]; [by exists []|by exists [mkSample s t e.1]|by exists []].
    - destruct e.2; try (by exists []). destruct (_ && _); by exists []. }
  destruct H as [l' ->]. exists (l ++ l'). by rewrite app_assoc.
Qed.

Lemma measure_all_follows es mt m :
  tracks mt m -> Forall (fun e => in_window t0 e.1 /\ event_ok isSC e.2) es -> forallb (long_enough isSC) (samples m) = true ->
  let m' := watch_all machine_id thread_id isSC bpc es m in
  if forallb (long_enough isSC) (samples m')
  then exists mt', measure_all machine_id thread_id isSC bpc es mt = Done mt' /\ tracks mt' m'
  else measure_all machine_id thread_id isSC bpc es mt = AssertFailed.
Proof.
  revert mt m. induction es as [|e es IH]; intros mt m H He Hl; cbn [watch_all measure_all].
  { rewrite Hl. by eexists. }
  apply Forall_cons in He as [[Hw He] Hes].
  destruct (measure_follows e mt m H Hw He) as [(mt' & E & Ht & Hs)|(E & x & Hx & Hb)]; rewrite E; cbn [obind].
  - apply IH; [done|done|]. destruct Hs as [-> |(x & -> & Hx)]; [done|]. simpl. by rewrite Hx.
  - destruct (watch_grows es (watch machine_id thread_id isSC bpc e m)) as [l ->].
    rewrite Hx, forallb_app. cbn [forallb]. by rewrite Hb, andb_false_r.
Qed.
End follow.

(** ** The printed report *)

(** Four histograms of 201 32-bit counters. *)
Definition counters_ok (lc : latency_counters) : Prop :=
  forall s, length (counter s lc) = 201%nat /\ Forall is_u32 (counter s lc).

Lemma counters_start lc : counters_ok lc -> forall s, counts (counter s lc) (counter s lc) (fun i => sampled s i []).
Proof.
  intros H s. destruct (H s) as [Hl Hf]. split; [done|]. intros i x E. exists x. split; [done|].
  change (sampled s i []) with 0. rewrite Z.add_0_r, u32_small; [done|]. by eapply Forall_lookup_1 in E.
Qed.

(** The lines of a series as they should be. *)
Definition lines (s : series) (l : list sample) : list (Z * Z) :=
  ((fun i => (2 * Z.of_nat i, sampled s i l)) <$> seq 0 200) ++ [(-1, sampled s 200 l)].

Definition full_report (l : list sample) : list (req_type * list (Z * Z)) :=
  [(REMOTE_REQ, lines Remote l); (LOCAL_REQ, lines Local l);
   (HOT_READ_REQ, lines HotRead l); (HOT_WRITE_REQ, lines HotWrite l)].

Definition zeroed (lc : latency_counters) : Prop := forall s, counter s lc = replicate 201 0.

Lemma sampled_bound s i l : 0 <= sampled s i l <= Z.of_nat (length l).
Proof. unfold sampled. pose proof (length_filter (fun x => sm_series x = s /\ in_bucket i (duration x) = true) l). lia. Qed.

Lemma report_series_lines s h l :
  counts (replicate 201 0) h (fun i => sampled s i l) -> Z.of_nat (length l) < 2 ^ 31 -> report_series h = lines s l.
Proof.
  intros [Hl H] Hb.
  assert (Hn : forall i, (i < 201)%nat -> s32 (nth i h 0) = sampled s i l).
  { intros i Hi. destruct (lookup_lt_is_Some_2 h i ltac:(lia)) as [x Hx].
    rewrite (nth_lookup_Some _ _ _ _ Hx). destruct (H i x Hx) as (x0 & E0 & ->).
    apply lookup_replicate in E0 as [-> _]. pose proof (sampled_bound s i l).
    rewrite Z.add_0_l, u32_small, s32_small; [done|lia|unfold is_u32; lia]. }
  unfold report_series, lines. f_equal.
  - apply list_fmap_ext. intros j i Hi. apply lookup_seq in Hi as [-> Hj]. simpl in Hj |- *.
    change (MAX_LATENCY / LATENCY_BUCKETS) with 2. change (Z.to_nat LATENCY_BUCKETS) with 200%nat in Hj.
    rewrite Hn by lia. f_equal. lia.
  - f_equal. f_equal. apply Hn. simpl. lia.
Qed.

Lemma shows_report isSC lc0 mt m :
  zeroed lc0 -> shows isSC lc0 mt m -> Z.of_nat (length (samples m)) < 2 ^ 31 ->
  print_latency_stats (latency_count mt) = full_report (samples m).
Proof.
  intros Hz [_ H _] Hb. unfold print_latency_stats, full_report.
  assert (E : forall s, report_series (counter s (latency_count mt)) = lines s (samples m)).
  { intros s. apply report_series_lines; [|done]. rewrite <- (Hz s). apply H. }
  by rewrite <- !E.
Qed.

Lemma zeroed_ok lc : zeroed lc -> counters_ok lc.
Proof. intros H s. rewrite (H s). split; [done|]. apply Forall_replicate. done. Qed.

(** C26: the latency histograms count what was measured.  For any sequence of
    calls whose clock readings lie within 2147 seconds, [watch] says which
    measurements were open and which ended, from which reading to which.  If
    every one lasted as long as the assertions demand (no less than zero for a
    hit of the SC client, a microsecond for the others), the code completes, is
    waiting for what [watch] is waiting for since the same reading, every
    counter has grown by the number of measurements of its kind whose whole
    microseconds fall into it (the last one by those of 400 and more), and the
    total by all; otherwise an assertion fails.  If the counters were zero, the
    printed report lists those numbers. *)
Theorem latency_refines machine_id thread_id isSC bpc t0 es mt :
  isSC = 0 \/ isSC = 1 -> counters_ok (latency_count mt) -> mt_flag mt = NO_REQ -> local_measure mt = idle_local ->
  Forall (fun e => in_window t0 e.1 /\ event_ok isSC e.2) es ->
  let m := watch_all machine_id thread_id isSC bpc es (mkMon None []) in
  if forallb (long_enough isSC) (samples m)
  then exists mt', measure_all machine_id thread_id isSC bpc es mt = Done mt' /\ shows isSC (latency_count mt) mt' m /\
    (zeroed (latency_count mt) -> Z.of_nat (length (samples m)) < 2 ^ 31 ->
     print_latency_stats (latency_count mt') = full_report (samples m))
  else measure_all machine_id thread_id isSC bpc es mt = AssertFailed.
Proof.
  intros Hsc Hc Hf Hl Hw m.
  assert (H0 : tracks machine_id thread_id isSC (latency_count mt) t0 mt (mkMon None [])).
  { split; [|done]. split; [done|by apply counters_start|simpl; lia]. }
  pose proof (measure_all_follows machine_id thread_id isSC bpc _ t0 Hsc es mt _ H0 Hw eq_refl) as H.
  cbv zeta in H. fold m in H. destruct (forallb _ _); [|exact H]. destruct H as (mt' & E & [Hs _]).
  exists mt'. split_and!; [done|done|]. intros Hz Hb. by eapply shows_report.
Qed.

(** ** Which answer ends the measurement of a remote request *)

(** [respond] of [ClientLoop] with the clock and the meter, on client 0 of
    machine 0. *)
Inductive respond_at (st : client_ctx * meter) : client_ctx * meter -> Prop :=
| respond_at_cache rm : rm ∈ machines -> cache_bufferused st.1 rm = 1 -> respond_at st (cache_response rm st.1, st.2)
| respond_at_data now rm st' :
    rm ∈ machines -> bufferused st.1 rm = 1 -> receive_response_at 0 0 now rm st.1 st.2 = Done st' -> respond_at st st'.

(** The wait of an iteration that follows one with cold requests. *)
Definition awaited_at (st st' : client_ctx * meter) : Prop :=
  rtc respond_at st st' /\ ~ 0 < reqs_in_transit st'.1.

Lemma receive_response_at_ctx now rm c mt st' :
  receive_response_at 0 0 now rm c mt = Done st' -> st'.1 = receive_response rm c.
Proof. unfold receive_response_at. intros E. by inv_done E. Qed.

(** Forgetting the meter gives the answers of [ClientLoop]. *)
Lemma respond_at_respond st st' : respond_at st st' -> respond st.1 st'.1.
Proof.
  intros [rm Hrm Hu|now rm st1 Hrm Hu E]; [by constructor|].
  rewrite (receive_response_at_ctx _ _ _ _ _ E). by constructor.
Qed.

Lemma awaited_at_awaited st st' : awaited_at st st' -> awaited 1 st.1 st'.1.
Proof.
  intros [H Hi]. split; [|done]. clear Hi. induction H as [|x y z Hs _ IH]; [done|].
  eapply rtc_l; [by apply respond_at_respond|done].
Qed.

(** What the answers of a wait leave alone: the requests queued for sending. *)
Lemma responds_batch c c' : rtc respond c c' -> batch c' = batch c /\ cbatch c' = cbatch c.
Proof. induction 1 as [|x y z Hs _ [IH1 IH2]]; [done|]. rewrite IH1, IH2. by destruct Hs. Qed.

Lemma report_total now least rt mt mt' : report now least rt mt = Done mt' ->
  total_measurements (latency_count mt') = total_measurements (latency_count mt) + 1.
Proof.
  unfold report, bookkeep_latency. intros E. inv_done E. simpl. destruct (latency_count mt), rt; by inv_done E1.
Qed.

Section foreign.
Context (c0 : client_ctx) (mt0 : meter) (rm0 : Z) (Hflag : mt_flag mt0 = REMOTE_REQ).

(** Before the first answer to a data packet, and after it. *)
Definition waiting_or_ended (st : client_ctx * meter) : Prop :=
  (bufferused st.1 rm0 = 1 /\ st.2 = mt0) \/
  (mt_flag st.2 = NO_REQ /\
   total_measurements (latency_count st.2) = total_measurements (latency_count mt0) + 1).

Lemma respond_at_ends st st' : respond_at st st' -> waiting_or_ended st -> waiting_or_ended st'.
Proof.
  intros [rm Hrm Hu|now rm st1 Hrm Hu E] Hw; [exact Hw|]. unfold receive_response_at in E.
  apply obind_Done_inv in E as (mt1 & E1 & E). injection E as <-. right. simpl.
  destruct Hw as [[_ Hm]|[Hf Ht]].
  - rewrite Hm, Hflag in E1. cbn [is_remote_req andb] in E1. change ((MEASURE_LATENCY =? 1)) with true in E1. simpl in E1.
    split; [by eapply report_flag|by eapply report_total].
  - rewrite Hf in E1. change ((MEASURE_LATENCY =? 1)) with true in E1. simpl in E1. by injection E1 as <-.
Qed.

Lemma responds_at_end st st' : rtc respond_at st st' -> waiting_or_ended st -> waiting_or_ended st'.
Proof. induction 1; [done|]. intros Hw. eauto using respond_at_ends. Qed.
End foreign.

(** C39: a remote latency is measured with an answer to an older packet.  When
    the measurement of a remote request has started and a packet sent in an
    earlier iteration is still unanswered, the wait before the sending ends
    the measurement and counts it, although every request queued in this
    iteration (the measured one among them) is still unsent. *)
Theorem remote_latency_foreign c mt c' mt' rm :
  transit_ok c -> rm ∈ machines -> bufferused c rm = 1 -> mt_flag mt = REMOTE_REQ ->
  awaited_at (c, mt) (c', mt') ->
  mt_flag mt' = NO_REQ /\
  total_measurements (latency_count mt') = total_measurements (latency_count mt) + 1 /\
  batch c' = batch c /\ forall d, d ∈ machines -> bufferused c' d = 0.
Proof.
  intros Hc Hrm Hu Hf Ha. pose proof (awaited_at_awaited _ _ Ha) as [Hr Hi]. destruct Ha as [Hra _].
  pose proof (idle_free c' (responds_ok _ _ Hc Hr) Hi) as Hfree.
  destruct (responds_at_end mt rm Hf _ _ Hra) as [[Hb _]|[H1 H2]]; [by left| |].
  - simpl in Hb. destruct (Hfree rm Hrm). lia.
  - split_and!; [done|done|by apply (responds_batch c c')|intros d Hd; by apply Hfree].
Qed.

(** ** The flag of the loops is the flag of the meter *)
Definition emap {A B} (f : A -> B) (o : outcome A) : outcome B :=
  match o with Done a => Done (f a) | AssertFailed => AssertFailed | Spin => Spin end.

Lemma start_measurement_erases mid tid isSC bpc now cmd i o mt :
  emap (fun x => (x.1, mt_flags x.2)) (start_measurement_at mid tid isSC bpc now cmd i o mt) =
  start_measurement mid tid isSC bpc cmd i o (mt_flags mt).
Proof.
  unfold start_measurement_at, start_measurement, mt_flag. destruct (state (meta o) =? 0); [|done].
  cbn [c_assert obind]. destruct (_ && _); [|done]. by destruct (is_no_req _).
Qed.

Lemma report_erases now least rt mt mt' :
  report now least rt mt = Done mt' -> mt_flags mt' = mkLat NO_REQ (last_measured_op_i (mt_flags mt)).
Proof. unfold report. intros E. by inv_done E. Qed.

Lemma hot_request_bookkeeping_erases isSC now l mt mt' :
  hot_request_bookkeeping_at isSC now l mt = Done mt' -> mt_flags mt' = hot_request_bookkeeping isSC (mt_flags mt) l.
Proof.
  unfold hot_request_bookkeeping_at, hot_request_bookkeeping, mt_flag.
  destruct (measured_req_flag (mt_flags mt)); intros E; repeat case_match; simplify_eq/=; try done;
    by apply report_erases in E.
Qed.

Lemma report_hot_writes_erases now ups mt mt' :
  report_hot_writes now ups mt = Done mt' -> exists seen, mt_flags mt' = report_hot_write seen (mt_flags mt).
Proof.
  intros E. assert (Hk : mt_flags mt' = mt_flags mt \/
    (mt_flag mt = HOT_WRITE_REQ /\ mt_flags mt' = mkLat NO_REQ (last_measured_op_i (mt_flags mt)))).
  2:{ destruct Hk as [->|[Hf ->]]; [exists false|exists true]; unfold report_hot_write, mt_flag in *; [|by rewrite Hf].
      by destruct (measured_req_flag _). }
  revert mt E. induction ups as [|[u r] ups IH]; intros mt E; simpl in E; [injection E as <-; by left|].
  apply obind_Done_inv in E as (mt1 & E1 & E).
  assert (H1 : mt_flags mt1 = mt_flags mt \/
    (mt_flag mt = HOT_WRITE_REQ /\ mt_flags mt1 = mkLat NO_REQ (last_measured_op_i (mt_flags mt)))).
  { destruct (_ && _) eqn:Hg; [|injection E1 as <-; by left]. apply andb_prop in Hg as [_ Hg].
    assert (Hf : mt_flag mt = HOT_WRITE_REQ) by by destruct (mt_flag mt).
    unfold report_latency_of_hot_write in E1. repeat case_match; simplify_eq; try (by left); right; split; try done.
    by apply report_erases in E1. }
  specialize (IH _ E). unfold mt_flag in *. destruct H1 as [H1|[Hf H1]].
  - rewrite <- H1. exact IH.
  - rewrite H1 in IH. simpl in IH. right. split; [done|]. by destruct IH as [->|[]].
Qed.

(** ** Concrete instances *)
Definition zero_counters : latency_counters :=
  mkCounters (replicate 201 0) (replicate 201 0) (replicate 201 0) (replicate 201 0) 0.

Lemma zero_counters_ok : counters_ok zero_counters.
Proof. apply zeroed_ok. by intros []. Qed.

Definition idle_meter : meter :=
  mkMeter (mkLat NO_REQ 0) (mkKey (mkMeta 0 0 0 0 0) 0 0 0) (mkTime 0 0) (mkLocal (-1) 0 None) zero_counters.

(** A remote read is measured from 100 s + 999999900 ns; the answer to an older
    packet comes 5.2 microseconds later. *)
Definition demo_start : timespec := mkTime 100 999999900.
Definition demo_end : timespec := mkTime 101 5100.
Definition demo_cmd : trace_command := mkCmd REMOTE_READ 1 0 7 (0, 0).
Definition demo_meter : meter :=
  done_or (measure 0 0 0 40000 (demo_start, EStart demo_cmd 3 demo_op) idle_meter) idle_meter.
Definition waiting_ctx : client_ctx :=
  mkCtx [] 0 (fun _ => 0) (fun _ => [(3%nat, 17)]) (fupd (fun _ => 0) 1 1) 1.
Definition ended_meter : meter :=
  done_or (measure 0 0 0 40000 (demo_end, EAnswer 1 waiting_ctx) demo_meter) idle_meter.

Lemma latency_refines_witness :
  let m := mkMon None [mkSample Remote demo_start demo_end] in
  exists mt', measure_all 0 0 0 40000 [(demo_start, EStart demo_cmd 3 demo_op); (demo_end, EAnswer 1 waiting_ctx)] idle_meter
      = Done mt' /\
    shows 0 zero_counters mt' m /\
    (zeroed zero_counters -> Z.of_nat (length (samples m)) < 2 ^ 31 ->
     print_latency_stats (latency_count mt') = full_report (samples m)).
Proof.
  apply (latency_refines 0 0 0 40000 demo_start
    [(demo_start, EStart demo_cmd 3 demo_op); (demo_end, EAnswer 1 waiting_ctx)] idle_meter).
  - left. reflexivity.
  - apply zero_counters_ok.
  - reflexivity.
  - reflexivity.
  - apply Forall_cons_2; [|apply Forall_cons_2; [|apply Forall_nil_2]];
      (split; [split; vm_compute; discriminate|]); [split; [reflexivity|vm_compute; discriminate]|exact I].
Defined.

(** The sample is 6 microseconds: the difference of the nanoseconds is negative
    and its quotient rounds up. *)
Example demo_sample :
  useconds demo_start demo_end = 6 /\ hot_reads (latency_count ended_meter) = replicate 201 0 /\
  remote_reqs (latency_count ended_meter) !! 3%nat = Some 1.
Proof. vm_compute. done. Qed.

Lemma remote_latency_foreign_witness :
  mt_flag ended_meter = NO_REQ /\
  total_measurements (latency_count ended_meter) = total_measurements (latency_count demo_meter) + 1 /\
  batch (receive_response 1 waiting_ctx) = batch waiting_ctx /\
  forall d, d ∈ machines -> bufferused (receive_response 1 waiting_ctx) d = 0.
Proof.
  apply (remote_latency_foreign waiting_ctx demo_meter (receive_response 1 waiting_ctx) ended_meter 1).
  - split; [intros rm; left; reflexivity|intros rm; unfold waiting_ctx, fupd; simpl; destruct (rm =? 1); auto|reflexivity].
  - apply machines_spec. unfold MACHINE_NUM. lia.
  - reflexivity.
  - reflexivity.
  - split; [|simpl; lia]. apply rtc_once. apply (respond_at_data _ demo_end 1).
    + apply machines_spec. unfold MACHINE_NUM. lia.
    + reflexivity.
    + unfold receive_response_at. cbn [fst snd].
      replace (if _ && _ then report demo_end 1 REMOTE_REQ demo_meter else Done demo_meter) with (Done ended_meter)
        by (vm_compute; reflexivity). reflexivity.
Defined.
