(* ===== verification/Locals.v ===== *)
(** * Local requests through shared memory (inline_util.h, worker.c)

    A request whose key lives on the client's own machine does not travel: the
    client copies it into an array it shares with a worker
    ([local_req_region]).  Every pair of a worker and a client has a window of
    66 slots cut into three regions of 22; the client fills slots in a circle
    and raises a flag when a region is full, the worker sweeps over the flags,
    executes the requests of a flagged region and lowers the flag.

    The configuration switches local requests off ([DISABLE_LOCALS] is 1, and
    [issue_locals] then fails an assertion), so the switch is a parameter here.
    The threads interleave between requests.  Every issued request is executed
    exactly once and never overwritten before; but the order of the requests of
    a client is not kept. *)
From stdpp Require Import functions.
From S2P Require Import Prelude Config Optik Layout City Mica MicaLog Cache CacheSpec Network Packets ColdRequests Trace.
From S2P Require Import ClientLoop LinLoop Latency.

(** [local_req_region] and [local_recv_flag] (worker, client, region). *)
Record shared := mkShared { req_region : Z -> cache_op; recv_flag : Z * Z * Z -> Z }.

(** [memcpy(local_req_region + offset, ops + op_i, size_of_op)] *)
Definition copy_local (dst src : cache_op) : cache_op :=
  if opcode src =? CACHE_OP_PUT then recv_put_req dst src else recv_get_req dst src.

Definition loc_region_of (offset : Z) : Z := u8 (offset mod LOCAL_WINDOW / LOCAL_REGION_SIZE).

Definition region_full (ws : Z) : bool := ws mod LOCAL_REGION_SIZE =? LOCAL_REGION_SIZE - 1.

(** What [issue_locals] does to the shared memory and to [ws[wn]]; [None] when
    the region is still with the worker. *)
Definition issue_request (wn cid ws : Z) (op : cache_op) (sh : shared) : outcome (option (shared * Z)) :=
  let offset := OFFSET wn cid ws in
  let r := loc_region_of offset in
  if recv_flag sh (wn, cid, r) =? 0 then
    let op := copy_local (req_region sh offset) op in
    let* _ := c_assert ((opcode op =? MICA_OP_GET) || (opcode op =? MICA_OP_PUT)) in
    Done (Some (mkShared (<[offset := op]> (req_region sh))
                  (if region_full ws then <[(wn, cid, r) := 1]> (recv_flag sh) else recv_flag sh),
                HRD_MOD_ADD ws LOCAL_WINDOW))
  else Done None.

Section issue.
Context (disable_locals local_client_id local_worker_id : Z).

(** The worker a local request goes to. *)
Definition local_worker (wn worker_id : Z) : Z * Z :=
  let rm_id := worker_id / WORKERS_PER_MACHINE in
  if (ENABLE_WORKERS_CRCW =? 1) && (disable_locals =? 0) && (ENABLE_LOCAL_WORKERS_ =? 1)
  then (local_worker_id, rm_id * WORKERS_PER_MACHINE + local_worker_id)
  else if (ENABLE_WORKERS_CRCW =? 1) && (ENABLE_STATIC_LOCAL_ALLOCATION =? 1)
  then let wn := local_client_id mod WORKERS_PER_MACHINE in (wn, rm_id * WORKERS_PER_MACHINE + wn)
  else (wn, worker_id).

(** [issue_locals]; [n] is [c_stats[local_client_id].locals_per_client]. *)
Definition issue_locals (wn worker_id : Z) (op_i : nat) (s : slot) (st : pass_state) (ws : Z -> Z)
    (sh : shared) (mt : meter) (n : Z)
    : outcome (slot * pass_state * (Z -> Z) * shared * meter * Z) :=
  let '(wn, worker_id) := local_worker wn worker_id in
  let* _ := c_assert (negb ((disable_locals =? 1) && (ENABLE_ASSERTIONS =? 1))) in
  let r := loc_region_of (OFFSET wn local_client_id (ws wn)) in
  let* issued := issue_request wn local_client_id (ws wn) (s_op s) sh in
  match issued with
  | Some (sh', ws') =>
      let mt := issue_marks op_i r (region_full (ws wn)) (wn, local_client_id, r) mt in
      let out := if ws wn =? 0 then 1 else u8 (outstanding st worker_id + 1) in
      let st := mkPass (next st) (next_op_i st) (hits st) (hottest st) (latency st) (rem_req_i st) (wr_i st)
                  (fupd (outstanding st) worker_id out)
                  (fupd (for_each_worker st) worker_id (for_each_worker st worker_id + 1)) (ctx st) in
      Done (set_r_type EMPTY s, st, fupd ws wn ws', sh', mt, n + 1)
  | None =>
      let* st := copy_op_to_next_op op_i s st in Done (s, st, ws, sh, mt, n)
  end.
End issue.

(** ** The worker *)

(** The slots of region [i] of client [clt_i] in the array of worker [wn]. *)
Definition region_slots (wn clt_i i : Z) : list Z :=
  (fun k => OFFSET wn clt_i (i * LOCAL_REGION_SIZE + k)) <$> seqZ 0 LOCAL_REGION_SIZE.

#[local] Arguments region_slots : simpl never.

Definition put_back (slots : list Z) (ops : list cache_op) (region : Z -> cache_op) : Z -> cache_op :=
  foldl (fun f x => <[x.1 := x.2]> f) region (zip slots ops).

(** The body of the loops of [serve_local_reqs]. *)
Definition serve_region (machine_id wn clt_i i : Z) (sh : shared) (kv : mica_kv) (kv_lock : cache_meta) (n : Z)
    : outcome (shared * mica_kv * cache_meta * Z) :=
  if recv_flag sh (wn, clt_i, i) =? 0 then Done (sh, kv, kv_lock, n)
  else
    let slots := region_slots wn clt_i i in
    let* (kv, kv_lock, res) := mica_batch_op_crcw machine_id kv kv_lock (req_region sh <$> slots) in
    let* _ := c_assert (recv_flag sh (wn, clt_i, i) =? 1) in
    Done (mkShared (put_back slots res.*1 (req_region sh)) (<[(wn, clt_i, i) := 0]> (recv_flag sh)),
          kv, kv_lock, n + LOCAL_REGION_SIZE).

Fixpoint serve_loop (machine_id wn : Z) (l : list (Z * Z)) (sh : shared) (kv : mica_kv) (kv_lock : cache_meta) (n : Z)
    : outcome (shared * mica_kv * cache_meta * Z) :=
  match l with
  | [] => Done (sh, kv, kv_lock, n)
  | (clt_i, i) :: l =>
      let* (sh, kv, kv_lock, n) := serve_region machine_id wn clt_i i sh kv kv_lock n in
      serve_loop machine_id wn l sh kv kv_lock n
  end.

(** Clients in the outer loop, regions in the inner one. *)
Definition sweep : list (Z * Z) :=
  clt_i ← seqZ 0 CLIENTS_PER_MACHINE; (fun i => (clt_i, i)) <$> seqZ 0 LOCAL_REGIONS.

(** [serve_local_reqs]; [n] is [w_stats[wrkr_lid].locals_per_worker]. *)
Definition serve_local_reqs (machine_id wrkr_lid : Z) (sh : shared) (kv : mica_kv) (kv_lock : cache_meta) (n : Z)
    : outcome (shared * mica_kv * cache_meta * Z) :=
  serve_loop machine_id wrkr_lid sweep sh kv kv_lock n.

(** ** All clients and workers of a machine *)

(** A worker inside [KVS_BATCH_OP]: the region, the next request, and the places
    of the remaining requests in the store. *)
Record serving := mkServing { sv_clt : Z; sv_reg : Z; sv_next : Z; sv_todo : list (option Z) }.

Record local_state := mkLocals {
  ls_shared : shared;
  ls_ws : Z * Z -> Z;
  ls_kv : mica_kv;
  ls_lock : cache_meta;
  ls_worker : Z -> option serving
}.

(** Client [cid] issues [op] to worker [wn]; worker [wn] finds the flag of a
    region and looks up its keys, executes the next request, lowers the flag. *)
Inductive local_action :=
| Issue (wn cid : Z) (op : cache_op)
| Begin (wn cid r : Z)
| Execute (wn : Z)
| Finish (wn : Z).

(** What a request asks for. *)
Definition asked (o : cache_op) : Z * Z * list Z :=
  (key_word o, opcode o, if opcode o =? CACHE_OP_PUT then val_len o :: take 32 (value o) else []).

Inductive local_event :=
| Issued (wn cid : Z) (a : Z * Z * list Z)
| Served (wn cid : Z) (a : Z * Z * list Z) (r : mica_resp).

Definition thread_ok (wn cid : Z) : bool :=
  (0 <=? wn) && (wn <? WORKERS_PER_MACHINE) && (0 <=? cid) && (cid <? CLIENTS_PER_MACHINE).

Definition local_step (machine_id : Z) (a : local_action) (st : local_state)
    : option (outcome (list local_event * local_state)) :=
  let '(mkLocals sh ws kv lk wk) := st in
  match a with
  | Issue wn cid op =>
      if thread_ok wn cid && bool_decide (length (value op) = max_value_len) then
        Some (
          let* issued := issue_request wn cid (ws (wn, cid)) op sh in
          match issued with
          | Some (sh, n) => Done ([Issued wn cid (asked op)], mkLocals sh (<[(wn, cid) := n]> ws) kv lk wk)
          | None => Done ([], st)
          end)
      else None
  | Begin wn cid r =>
      match wk wn with
      | None =>
          if thread_ok wn cid && (0 <=? r) && (r <? LOCAL_REGIONS) && negb (recv_flag sh (wn, cid, r) =? 0) then
            Some (Done ([], mkLocals sh ws kv lk
              (<[wn := Some (mkServing cid r 0 (kv_ptr kv <$> (req_region sh <$> region_slots wn cid r)))]> wk)))
          else None
      | Some _ => None
      end
  | Execute wn =>
      match wk wn with
      | Some (mkServing cid r k (p :: todo)) =>
          let off := OFFSET wn cid (r * LOCAL_REGION_SIZE + k) in
          Some (
            let* (kv, lk, op, resp) := crcw_exec_one machine_id kv lk (req_region sh off) p in
            Done ([Served wn cid (asked (req_region sh off)) resp],
                  mkLocals (mkShared (<[off := op]> (req_region sh)) (recv_flag sh)) ws kv lk
                    (<[wn := Some (mkServing cid r (k + 1) todo)]> wk)))
      | _ => None
      end
  | Finish wn =>
      match wk wn with
      | Some (mkServing cid r _ []) =>
          Some (
            let* _ := c_assert (recv_flag sh (wn, cid, r) =? 1) in
            Done ([], mkLocals (mkShared (req_region sh) (<[(wn, cid, r) := 0]> (recv_flag sh))) ws kv lk
                        (<[wn := None]> wk)))
      | _ => None
      end
  end.

(** No flag raised, every window at its start (main.c). *)
Definition local_start (region : Z -> cache_op) (kv : mica_kv) (lk : cache_meta) : local_state :=
  mkLocals (mkShared region (fun _ => 0)) (fun _ => 0) kv lk (fun _ => None).

Inductive local_runs (machine_id : Z) : local_state -> list local_event -> local_state -> Prop :=
| local_nil st : local_runs machine_id st [] st
| local_snoc st es st1 a e st2 :
    local_runs machine_id st es st1 -> local_step machine_id a st1 = Some (Done (e, st2)) ->
    local_runs machine_id st (es ++ e) st2.

(** ** What is waiting in a window *)

(** The positions of region [r] that hold requests not yet executed: those the
    client has filled, or those the worker has not reached. *)
Definition region_idx (ws flag served r : Z) : list Z :=
  if flag =? 0 then if ws / 22 =? r then seqZ (22 * r) (ws - 22 * r) else []
  else seqZ (22 * r + served) (22 - served).

Definition served_of (wk : option serving) (cid r : Z) : Z :=
  match wk with
  | Some sv => if (sv_clt sv =? cid) && (sv_reg sv =? r) then sv_next sv else 0
  | None => 0
  end.

Definition region_waiting (st : local_state) (wn cid r : Z) : list Z :=
  region_idx (ls_ws st (wn, cid)) (recv_flag (ls_shared st) (wn, cid, r)) (served_of (ls_worker st wn) cid r) r.

Definition waiting (st : local_state) (wn cid : Z) : list (Z * Z * list Z) :=
  (fun k => asked (req_region (ls_shared st) (OFFSET wn cid k)))
    <$> mjoin ((region_waiting st wn cid) <$> [0; 1; 2]).

Definition issued_by (wn cid : Z) (es : list local_event) : list (Z * Z * list Z) :=
  omap (fun e => match e with
                 | Issued w c a => if bool_decide (w = wn /\ c = cid) then Some a else None
                 | _ => None end) es.

Definition served_by (wn cid : Z) (es : list local_event) : list (Z * Z * list Z) :=
  omap (fun e => match e with
                 | Served w c a _ => if bool_decide (w = wn /\ c = cid) then Some a else None
                 | _ => None end) es.

Definition in_machine (wn cid : Z) : Prop := 0 <= wn < 20 /\ 0 <= cid < 20.

Record window_ok (ws : Z) (flag : Z -> Z) : Prop := {
  wo_ws : 0 <= ws < 66;
  wo_flag : forall r, flag r = 0 \/ flag r = 1;
  wo_with_worker : flag (ws / 22) = 1 -> ws mod 22 = 0
}.

Definition serving_ok (flag : Z * Z * Z -> Z) (wn : Z) (sv : serving) : Prop :=
  in_machine wn (sv_clt sv) /\ 0 <= sv_reg sv < 3 /\ flag (wn, sv_clt sv, sv_reg sv) = 1 /\
  0 <= sv_next sv /\ sv_next sv + Z.of_nat (length (sv_todo sv)) = 22.

Record locals_ok (st : local_state) : Prop := {
  lo_window : forall wn cid, in_machine wn cid ->
    window_ok (ls_ws st (wn, cid)) (fun r => recv_flag (ls_shared st) (wn, cid, r));
  lo_worker : forall wn sv, ls_worker st wn = Some sv -> serving_ok (recv_flag (ls_shared st)) wn sv
}.

(** ** Facts about the window *)
Lemma thread_ok_spec wn cid : thread_ok wn cid = true <-> in_machine wn cid.
Proof.
  unfold thread_ok, in_machine. rewrite !andb_true_iff, !Z.leb_le, !Z.ltb_lt.
  unfold WORKERS_PER_MACHINE, CLIENTS_PER_MACHINE. lia.
Qed.

Lemma OFFSET_eq wn cid k : OFFSET wn cid k = 1320 * wn + 66 * cid + k.
Proof. unfold OFFSET, CLIENTS_PER_MACHINE, LOCAL_WINDOW. lia. Qed.

Lemma OFFSET_inj wn cid k wn' cid' k' :
  in_machine wn cid -> in_machine wn' cid' -> 0 <= k < 66 -> 0 <= k' < 66 ->
  OFFSET wn cid k = OFFSET wn' cid' k' -> wn = wn' /\ cid = cid' /\ k = k'.
Proof. unfold in_machine. rewrite !OFFSET_eq. lia. Qed.

Lemma loc_region_OFFSET wn cid ws : in_machine wn cid -> 0 <= ws < 66 -> loc_region_of (OFFSET wn cid ws) = ws / 22.
Proof.
  intros Hm Hw. unfold loc_region_of. change LOCAL_WINDOW with 66. change LOCAL_REGION_SIZE with 22.
  replace (OFFSET wn cid ws) with (ws + (20 * wn + cid) * 66) by (rewrite OFFSET_eq; lia).
  rewrite Z_mod_plus_full, (Z.mod_small ws) by lia. apply u8_small. unfold is_u8. Z.div_mod_to_equations. lia.
Qed.

Lemma asked_copy dst src : length (value src) = max_value_len -> asked (copy_local dst src) = asked src.
Proof.
  intros Hl. unfold asked, copy_local. destruct (Z.eqb_spec (opcode src) CACHE_OP_PUT) as [E|E]; simpl.
  - rewrite E. simpl. change (Z.to_nat HERD_VALUE_SIZE) with 32%nat.
    rewrite take_app_le, take_take; [done|]. rewrite length_take, Hl. done.
  - by rewrite (proj2 (Z.eqb_neq _ _) E).
Qed.

Lemma opcode_copy dst src : opcode (copy_local dst src) = opcode src.
Proof. unfold copy_local. by destruct (_ =? _). Qed.

Lemma region_idx_range ws flag served r k :
  0 <= ws < 66 -> 0 <= r < 3 -> 0 <= served <= 22 -> k ∈ region_idx ws flag served r -> 22 * r <= k < 22 * r + 22.
Proof.
  intros Hw Hr Hs. unfold region_idx. repeat zcase; rewrite ?elem_of_seqZ; [|by intros ?%elem_of_nil|lia].
  subst. Z.div_mod_to_equations. lia.
Qed.

(** Issuing appends the position to its region and leaves the others alone. *)
Lemma region_idx_issue ws flag (served : Z -> Z) r :
  window_ok ws flag -> flag (ws / 22) = 0 -> 0 <= r < 3 -> served r = 0 \/ flag r = 1 ->
  let flag' := if region_full ws then fun x => if x =? ws / 22 then 1 else flag x else flag in
  region_idx (HRD_MOD_ADD ws 66) (flag' r) (served r) r =
  region_idx ws (flag r) (served r) r ++ (if r =? ws / 22 then [ws] else []).
Proof.
  intros [Hw Hf Hc] H0 Hr Hs. unfold region_full, HRD_MOD_ADD. change LOCAL_REGION_SIZE with 22. cbv zeta.
  destruct (Z.eqb_spec r (ws / 22)) as [->|Hne].
  - unfold region_idx. rewrite H0, Z.eqb_refl. change (0 =? 0) with true. cbv iota.
    destruct Hs as [Hs|Hs]; [|congruence].
    destruct (Z.eqb_spec (ws mod 22) (22 - 1)) as [Hm|Hm].
    + rewrite Z.eqb_refl, Hs. change (1 =? 0) with false. cbv iota. rewrite Z.add_0_r.
      replace (22 - 0) with ((ws - 22 * (ws / 22)) + 1) by (Z.div_mod_to_equations; lia).
      rewrite seqZ_snoc by (Z.div_mod_to_equations; lia). f_equal. f_equal. lia.
    + rewrite H0. change (0 =? 0) with true. cbv iota.
      rewrite (proj2 (Z.eqb_neq (ws + 1) 66)) by (Z.div_mod_to_equations; lia).
      rewrite (proj2 (Z.eqb_eq ((ws + 1) / 22) (ws / 22))) by (Z.div_mod_to_equations; lia).
      replace (ws + 1 - 22 * (ws / 22)) with ((ws - 22 * (ws / 22)) + 1) by lia.
      rewrite seqZ_snoc by (Z.div_mod_to_equations; lia). rewrite ?Z.eqb_refl. f_equal. f_equal. lia.
  - rewrite app_nil_r. unfold region_idx.
    replace ((if ws mod 22 =? 22 - 1 then fun x => if x =? ws / 22 then 1 else flag x else flag) r) with (flag r)
      by (destruct (ws mod 22 =? 22 - 1); [rewrite (proj2 (Z.eqb_neq r (ws / 22)) Hne)|]; done).
    destruct (flag r =? 0); [|done]. rewrite (proj2 (Z.eqb_neq (ws / 22) r)) by done.
    destruct (Z.eqb_spec (ws + 1) 66) as [E|E].
    + destruct (Z.eqb_spec (0 / 22) r) as [E0|]; [|done]. rewrite <- E0. done.
    + destruct (Z.eqb_spec ((ws + 1) / 22) r) as [Er|]; [|done].
      replace (ws + 1 - 22 * r) with 0; [done|]. Z.div_mod_to_equations. lia.
Qed.

Lemma regions_snoc (f f' : Z -> list Z) r x :
  0 <= r < 3 -> f' r = f r ++ [x] -> (forall r', 0 <= r' < 3 -> r' <> r -> f' r' = f r') ->
  mjoin (f' <$> [0; 1; 2]) ≡ₚ mjoin (f <$> [0; 1; 2]) ++ [x].
Proof.
  intros Hr He Ho. simpl. rewrite !app_nil_r.
  assert (r = 0 \/ r = 1 \/ r = 2) as [-> |[-> | ->]] by lia; rewrite He;
    rewrite ?(Ho 0), ?(Ho 1), ?(Ho 2) by lia; solve_Permutation.
Qed.

Lemma regions_cons (f f' : Z -> list Z) r x :
  0 <= r < 3 -> f r = x :: f' r -> (forall r', 0 <= r' < 3 -> r' <> r -> f' r' = f r') ->
  mjoin (f <$> [0; 1; 2]) ≡ₚ x :: mjoin (f' <$> [0; 1; 2]).
Proof.
  intros Hr He Ho. simpl. rewrite !app_nil_r.
  assert (r = 0 \/ r = 1 \/ r = 2) as [-> |[-> | ->]] by lia; rewrite He;
    rewrite ?(Ho 0), ?(Ho 1), ?(Ho 2) by lia; solve_Permutation.
Qed.

Lemma regions_ext (f f' : Z -> list Z) :
  (forall r, 0 <= r < 3 -> f' r = f r) -> mjoin (f' <$> [0; 1; 2]) = mjoin (f <$> [0; 1; 2]).
Proof. intros H. simpl. by rewrite !H by lia. Qed.

Lemma elem_of_regions (f : Z -> list Z) k :
  k ∈ mjoin (f <$> [0; 1; 2]) -> exists r, 0 <= r < 3 /\ k ∈ f r.
Proof.
  intros H. apply list_elem_of_join in H as (l & Hk & Hl). apply list_elem_of_fmap in Hl as (r & -> & Hr).
  exists r. split; [|done]. rewrite !elem_of_cons in Hr. destruct Hr as [-> |[-> |[-> | []%elem_of_nil]]]; lia.
Qed.

Section step.
Context (st : local_state) (Hst : locals_ok st).

Lemma served_range wn cid r : 0 <= served_of (ls_worker st wn) cid r <= 22.
Proof.
  unfold served_of. destruct (ls_worker st wn) as [sv|] eqn:E; [|lia].
  destruct (lo_worker st Hst wn sv E) as (_ & _ & _ & ? & ?). destruct (_ && _); lia.
Qed.

(** A region that is not with the worker has nothing served. *)
Lemma served_unflagged wn cid r :
  served_of (ls_worker st wn) cid r = 0 \/ recv_flag (ls_shared st) (wn, cid, r) = 1.
Proof.
  unfold served_of. destruct (ls_worker st wn) as [sv|] eqn:E; [|by left].
  destruct (lo_worker st Hst wn sv E) as (_ & _ & Hf & _).
  destruct (Z.eqb_spec (sv_clt sv) cid), (Z.eqb_spec (sv_reg sv) r); subst; auto.
Qed.

Lemma waiting_range wn cid k :
  in_machine wn cid -> k ∈ mjoin (region_waiting st wn cid <$> [0; 1; 2]) ->
  0 <= k < 66 /\ k ∈ region_waiting st wn cid (k / 22).
Proof.
  intros Hm H. apply elem_of_regions in H as (r & Hr & Hk).
  destruct (lo_window st Hst wn cid Hm) as [Hw _ _].
  pose proof (region_idx_range _ _ _ _ _ Hw Hr (served_range wn cid r) Hk) as Hb.
  replace (k / 22) with r by (Z.div_mod_to_equations; lia). split; [lia|done].
Qed.

(** Steps that touch neither the window nor its slots. *)
Lemma waiting_same st' wn cid :
  in_machine wn cid ->
  (forall r, 0 <= r < 3 -> region_waiting st' wn cid r = region_waiting st wn cid r) ->
  (forall k, 0 <= k < 66 -> k ∈ region_waiting st wn cid (k / 22) ->
     asked (req_region (ls_shared st') (OFFSET wn cid k)) = asked (req_region (ls_shared st) (OFFSET wn cid k))) ->
  waiting st' wn cid = waiting st wn cid.
Proof.
  intros Hm Hr Ha. unfold waiting. rewrite (regions_ext _ _ Hr).
  apply list_fmap_ext. intros i k Hk. apply list_elem_of_lookup_2 in Hk.
  destruct (waiting_range wn cid k Hm Hk). by apply Ha.
Qed.

Lemma issue_waiting wn cid op sh' ws' :
  in_machine wn cid -> length (value op) = max_value_len ->
  issue_request wn cid (ls_ws st (wn, cid)) op (ls_shared st) = Done (Some (sh', ws')) ->
  let st' := mkLocals sh' (<[(wn, cid) := ws']> (ls_ws st)) (ls_kv st) (ls_lock st) (ls_worker st) in
  waiting st' wn cid ≡ₚ waiting st wn cid ++ [asked op] /\
  forall wn' cid', in_machine wn' cid' -> (wn', cid') <> (wn, cid) -> waiting st' wn' cid' = waiting st wn' cid'.
Proof.
  intros Hm Hl E st'. pose proof (lo_window st Hst wn cid Hm) as Hwin. set (ws := ls_ws st (wn, cid)) in *.
  unfold issue_request in E. rewrite (loc_region_OFFSET wn cid ws Hm (wo_ws _ _ Hwin)) in E.
  destruct (Z.eqb_spec (recv_flag (ls_shared st) (wn, cid, ws / 22)) 0) as [H0|]; [|done].
  apply obind_Done_inv in E as ([] & _ & E). injection E as <- <-. split.
  - assert (Hw : mjoin (region_waiting st' wn cid <$> [0; 1; 2]) ≡ₚ
                 mjoin (region_waiting st wn cid <$> [0; 1; 2]) ++ [ws]).
    { apply (regions_snoc _ _ (ws / 22)); [destruct (wo_ws _ _ Hwin); Z.div_mod_to_equations; lia| |].
      - pose proof (region_idx_issue ws _ (served_of (ls_worker st wn) cid) (ws / 22) Hwin H0) as Hi.
        cbv zeta in Hi. rewrite Z.eqb_refl in Hi. unfold region_waiting, st'. simpl. rewrite fn_lookup_insert.
        fold ws. rewrite <- Hi; [|destruct (wo_ws _ _ Hwin); Z.div_mod_to_equations; lia|apply served_unflagged].
        f_equal. destruct (region_full ws); [|done]. by rewrite fn_lookup_insert, Z.eqb_refl.
      - intros r Hr Hne.
        pose proof (region_idx_issue ws _ (served_of (ls_worker st wn) cid) r Hwin H0 Hr (served_unflagged _ _ _)) as Hi.
        cbv zeta in Hi. rewrite (proj2 (Z.eqb_neq _ _) Hne), app_nil_r in Hi. fold ws in Hi.
        unfold region_waiting, st'. simpl. rewrite fn_lookup_insert. fold ws. rewrite <- Hi. f_equal.
        destruct (region_full ws); [|done].
        rewrite fn_lookup_insert_ne by congruence. by rewrite (proj2 (Z.eqb_neq _ _) Hne). }
    unfold waiting. rewrite Hw, fmap_app. f_equiv.
    + apply Permutation_refl'. apply list_fmap_ext. intros i k Hk. apply list_elem_of_lookup_2 in Hk.
      destruct (waiting_range wn cid k Hm Hk) as [Hkr Hk2]. f_equal. simpl. apply fn_lookup_insert_ne.
      intros Heq. destruct (OFFSET_inj _ _ _ _ _ _ Hm Hm (wo_ws _ _ Hwin) Hkr Heq) as (_ & _ & <-).
      unfold region_waiting in Hk2. fold ws in Hk2. rewrite H0 in Hk2. unfold region_idx in Hk2.
      change (0 =? 0) with true in Hk2. rewrite Z.eqb_refl in Hk2. cbv iota in Hk2. apply elem_of_seqZ in Hk2. lia.
    + simpl. by rewrite fn_lookup_insert, asked_copy.
  - intros wn' cid' Hm' Hne. apply waiting_same; [done| |].
    + intros r Hr. unfold region_waiting, st'. simpl. rewrite fn_lookup_insert_ne by congruence. f_equal.
      destruct (region_full ws); [|done]. by rewrite fn_lookup_insert_ne by congruence.
    + intros k Hk _. f_equal. simpl. apply fn_lookup_insert_ne. intros Heq.
      destruct (OFFSET_inj _ _ _ _ _ _ Hm Hm' (wo_ws _ _ Hwin) Hk Heq) as (<- & <- & _). done.
Qed.

Lemma issue_ok wn cid op sh' ws' :
  in_machine wn cid ->
  issue_request wn cid (ls_ws st (wn, cid)) op (ls_shared st) = Done (Some (sh', ws')) ->
  locals_ok (mkLocals sh' (<[(wn, cid) := ws']> (ls_ws st)) (ls_kv st) (ls_lock st) (ls_worker st)).
Proof.
  intros Hm E. pose proof (lo_window st Hst wn cid Hm) as Hwin. set (ws := ls_ws st (wn, cid)) in *.
  unfold issue_request in E. rewrite (loc_region_OFFSET wn cid ws Hm (wo_ws _ _ Hwin)) in E.
  destruct (Z.eqb_spec (recv_flag (ls_shared st) (wn, cid, ws / 22)) 0) as [H0|]; [|done].
  apply obind_Done_inv in E as ([] & _ & E). injection E as <- <-.
  destruct Hwin as [Hw Hf Hc]. split; simpl.
  - intros wn' cid' Hm'. destruct (decide ((wn', cid') = (wn, cid))) as [[= -> ->]|Hne].
    + rewrite fn_lookup_insert. unfold HRD_MOD_ADD, region_full. change LOCAL_WINDOW with 66. change LOCAL_REGION_SIZE with 22.
      split; [zcase; lia| |].
      * intros r. destruct (_ =? 22 - 1); [|apply Hf].
        destruct (decide (r = ws / 22)) as [-> |Hr]; [rewrite fn_lookup_insert; by right|].
        rewrite fn_lookup_insert_ne by congruence. apply Hf.
      * destruct (Z.eqb_spec (ws + 1) 66) as [|H66]; [done|].
        destruct (Z.eqb_spec (ws mod 22) (22 - 1)) as [|Hmid]; [intros _; Z.div_mod_to_equations; lia|].
        replace ((ws + 1) / 22) with (ws / 22) by (Z.div_mod_to_equations; lia). congruence.
    + rewrite fn_lookup_insert_ne by congruence. destruct (lo_window st Hst wn' cid' Hm') as [Hw' Hf' Hc'].
      destruct (region_full ws); [|done]. split; [done| |]; intros; rewrite fn_lookup_insert_ne in * by congruence; auto.
  - intros wn' sv Hsv. destruct (lo_worker st Hst wn' sv Hsv) as (H1 & H2 & H3 & H4).
    split; [done|]. split; [done|]. split; [|done]. destruct (region_full ws); [|done]. destruct (decide ((wn', sv_clt sv, sv_reg sv) = (wn, cid, ws / 22))) as [-> |Hne].
    + by rewrite fn_lookup_insert.
    + by rewrite fn_lookup_insert_ne by congruence.
Qed.

(** A worker starts on a region: nothing of it is executed yet. *)
Lemma begin_ok wn cid r ptrs :
  in_machine wn cid -> 0 <= r < 3 -> ls_worker st wn = None -> recv_flag (ls_shared st) (wn, cid, r) <> 0 ->
  length ptrs = 22%nat ->
  let st' := mkLocals (ls_shared st) (ls_ws st) (ls_kv st) (ls_lock st) (<[wn := Some (mkServing cid r 0 ptrs)]> (ls_worker st)) in
  locals_ok st' /\ forall wn' cid', in_machine wn' cid' -> waiting st' wn' cid' = waiting st wn' cid'.
Proof.
  intros Hm Hr Hn Hf Hp st'. split.
  - split; [apply Hst|]. intros wn' sv Hsv. simpl in Hsv. destruct (decide (wn' = wn)) as [-> |Hne].
    + rewrite fn_lookup_insert in Hsv. injection Hsv as <-. split; [done|]. split; [done|]. split; [|simpl; lia]. simpl.
      destruct (wo_flag _ _ (lo_window st Hst wn cid Hm) r); [congruence|done].
    + rewrite fn_lookup_insert_ne in Hsv by done. by apply (lo_worker st Hst).
  - intros wn' cid' Hm'. apply waiting_same; [done| |done]. intros r' Hr'. unfold region_waiting, st'. simpl. f_equal.
    destruct (decide (wn' = wn)) as [-> |Hne]; [|by rewrite fn_lookup_insert_ne].
    rewrite fn_lookup_insert, Hn. simpl. by destruct (_ && _).
Qed.

(** The next request is executed. *)
Lemma execute_ok wn cid r k p todo op kv lk :
  ls_worker st wn = Some (mkServing cid r k (p :: todo)) ->
  let off := OFFSET wn cid (r * LOCAL_REGION_SIZE + k) in
  let st' := mkLocals (mkShared (<[off := op]> (req_region (ls_shared st))) (recv_flag (ls_shared st))) (ls_ws st) kv lk
               (<[wn := Some (mkServing cid r (k + 1) todo)]> (ls_worker st)) in
  locals_ok st' /\ in_machine wn cid /\
  waiting st wn cid ≡ₚ asked (req_region (ls_shared st) off) :: waiting st' wn cid /\
  forall wn' cid', in_machine wn' cid' -> (wn', cid') <> (wn, cid) -> waiting st' wn' cid' = waiting st wn' cid'.
Proof.
  intros Hsv off st'. destruct (lo_worker st Hst wn _ Hsv) as (Hm & Hr & Hf & Hk & Hlen). simpl in *.
  change LOCAL_REGION_SIZE with 22 in off. pose proof (lo_window st Hst wn cid Hm) as Hwin.
  assert (Hrest : forall r', region_waiting st' wn cid r' =
            if r' =? r then seqZ (22 * r + k + 1) (22 - k - 1) else region_waiting st wn cid r').
  { intros r'. unfold region_waiting, st', region_idx. simpl. rewrite fn_lookup_insert, Hsv. simpl. rewrite Z.eqb_refl. simpl.
    destruct (Z.eqb_spec r' r) as [-> |Hne].
    - rewrite Hf, Z.eqb_refl. change (1 =? 0) with false. cbv iota. f_equal; lia.
    - by rewrite (proj2 (Z.eqb_neq r r')) by done. }
  assert (Hlive : region_waiting st wn cid r = (22 * r + k) :: seqZ (22 * r + k + 1) (22 - k - 1)).
  { unfold region_waiting, region_idx. rewrite Hf, Hsv. simpl. rewrite !Z.eqb_refl. simpl.
    rewrite seqZ_cons by lia. f_equal. }
  split; [|split; [done|split]].
  - split; [apply Hst|]. intros wn' sv Hsv'. simpl in Hsv'. destruct (decide (wn' = wn)) as [-> |Hne].
    + rewrite fn_lookup_insert in Hsv'. injection Hsv' as <-. split; [done|]. split; [done|]. split; [done|]. simpl. lia.
    + rewrite fn_lookup_insert_ne in Hsv' by done. by apply (lo_worker st Hst).
  - unfold waiting. rewrite (regions_cons (region_waiting st wn cid) (region_waiting st' wn cid) r (22 * r + k) Hr).
    2:{ by rewrite Hrest, Z.eqb_refl. }
    2:{ intros r' _ Hne. by rewrite Hrest, (proj2 (Z.eqb_neq _ _) Hne). }
    rewrite fmap_cons. f_equiv; [unfold off; do 3 f_equal; lia|].
    apply Permutation_refl', list_fmap_ext. intros i x Hx. apply list_elem_of_lookup_2 in Hx.
    apply elem_of_regions in Hx as (r' & Hr' & Hx). f_equal. symmetry. simpl. apply fn_lookup_insert_ne.
    assert (Hxr : 0 <= x < 66 /\ x <> r * 22 + k).
    { rewrite Hrest in Hx. destruct (Z.eqb_spec r' r) as [-> |Hne]; [apply elem_of_seqZ in Hx; lia|].
      pose proof (region_idx_range _ _ _ _ _ (wo_ws _ _ Hwin) Hr' (served_range wn cid r') Hx). lia. }
    intros Heq. destruct (OFFSET_inj wn cid (r * 22 + k) wn cid x Hm Hm) as (_ & _ & ?); [lia|lia|done|lia].
  - intros wn' cid' Hm' Hne. apply waiting_same; [done| |].
    + intros r' Hr'. unfold region_waiting, st'. simpl. f_equal.
      destruct (decide (wn' = wn)) as [-> |Hne']; [|by rewrite fn_lookup_insert_ne].
      rewrite fn_lookup_insert, Hsv. simpl. by rewrite (proj2 (Z.eqb_neq cid cid')) by congruence.
    + intros x Hx _. f_equal. simpl. apply fn_lookup_insert_ne. intros Heq.
      destruct (OFFSET_inj wn cid (r * 22 + k) wn' cid' x Hm Hm') as (<- & <- & _); [lia|done|done|done].
Qed.

(** The flag goes down after the last request. *)
Lemma finish_ok wn cid r k :
  ls_worker st wn = Some (mkServing cid r k []) ->
  let st' := mkLocals (mkShared (req_region (ls_shared st)) (<[(wn, cid, r) := 0]> (recv_flag (ls_shared st)))) (ls_ws st)
               (ls_kv st) (ls_lock st) (<[wn := None]> (ls_worker st)) in
  recv_flag (ls_shared st) (wn, cid, r) = 1 /\ locals_ok st' /\
  forall wn' cid', in_machine wn' cid' -> waiting st' wn' cid' = waiting st wn' cid'.
Proof.
  intros Hsv st'. destruct (lo_worker st Hst wn _ Hsv) as (Hm & Hr & Hf & Hk & Hlen). simpl in *.
  split_and!; [done| |].
  - split.
    + intros wn' cid' Hm'. destruct (lo_window st Hst wn' cid' Hm') as [Hw Hfl Hc]. split; [done| |]; simpl.
      * intros r'. destruct (decide ((wn', cid', r') = (wn, cid, r))) as [[= -> -> ->]|Hne];
          [rewrite fn_lookup_insert; by left|by rewrite fn_lookup_insert_ne by congruence].
      * destruct (decide ((wn', cid', ls_ws st (wn', cid') / 22) = (wn, cid, r))) as [Heq|Hne].
        -- by rewrite Heq, fn_lookup_insert.
        -- by rewrite fn_lookup_insert_ne by congruence.
    + intros wn' sv Hsv'. simpl in Hsv'. destruct (decide (wn' = wn)) as [-> |Hne];
        [by rewrite fn_lookup_insert in Hsv'|]. rewrite fn_lookup_insert_ne in Hsv' by done.
      destruct (lo_worker st Hst wn' sv Hsv') as (H1 & H2 & H3 & H4).
      split; [done|]. split; [done|]. split; [|done]. simpl. rewrite fn_lookup_insert_ne by congruence. done.
  - intros wn' cid' Hm'. apply waiting_same; [done| |done]. intros r' Hr'. unfold region_waiting, st'. simpl.
    destruct (decide ((wn', cid', r') = (wn, cid, r))) as [[= -> -> ->]|Hne].
    + rewrite !fn_lookup_insert, Hsv, Hf. simpl. rewrite !Z.eqb_refl. unfold region_idx. simpl.
      replace (22 - k) with 0 by lia. simpl. destruct (Z.eqb_spec (ls_ws st (wn, cid) / 22) r) as [Hws|]; [|done].
      destruct (lo_window st Hst wn cid Hm') as [_ _ Hc]. rewrite Hws in Hc. specialize (Hc Hf).
      replace (ls_ws st (wn, cid) - 22 * r) with 0; [done|]. Z.div_mod_to_equations. lia.
    + rewrite fn_lookup_insert_ne by congruence. f_equal. destruct (decide (wn' = wn)) as [-> |Hw];
        [|by rewrite fn_lookup_insert_ne]. rewrite fn_lookup_insert, Hsv. simpl.
      destruct (Z.eqb_spec cid cid'), (Z.eqb_spec r r'); subst; done.
Qed.
End step.

(** ** Exactly once *)
Lemma local_step_ok mid a st e st' :
  locals_ok st -> local_step mid a st = Some (Done (e, st')) ->
  locals_ok st' /\ forall wn cid, in_machine wn cid ->
    served_by wn cid e ++ waiting st' wn cid ≡ₚ waiting st wn cid ++ issued_by wn cid e.
Proof.
  intros Hst E. destruct st as [sh ws kv lk wk]. destruct a as [wn cid op|wn cid r|wn|wn]; cbn [local_step] in E.
  - destruct (thread_ok wn cid && _) eqn:Hg; [|done]. apply andb_prop in Hg as [Ht%thread_ok_spec Hl%bool_decide_eq_true].
    injection E as E. apply obind_Done_inv in E as ([[sh' n]|] & E1 & E); injection E as <- <-.
    2:{ split; [done|]. intros. by rewrite app_nil_r. }
    split; [by apply (issue_ok _ Hst wn cid op)|]. destruct (issue_waiting _ Hst wn cid op sh' n Ht Hl E1) as [H1 H2].
    intros wn' cid' Hm'. simpl. case_bool_decide as Hb.
    + destruct Hb as [-> ->]. simpl. exact H1.
    + simpl. rewrite app_nil_r. simpl in H2. rewrite H2; [done|done|]. intros [= -> ->]. tauto.
  - destruct (wk wn) eqn:Hw; [done|]. destruct (thread_ok wn cid && _ && _ && _) eqn:Hg; [|done].
    rewrite !andb_true_iff, thread_ok_spec, Z.leb_le, Z.ltb_lt, negb_true_iff, Z.eqb_neq in Hg.
    destruct Hg as [[[Ht Hr1] Hr2] Hf]. injection E as <- <-. change LOCAL_REGIONS with 3 in Hr2.
    destruct (begin_ok _ Hst wn cid r (kv_ptr kv <$> (req_region sh <$> region_slots wn cid r)) Ht ltac:(done) Hw Hf) as [H1 H2].
    { unfold region_slots. by rewrite !length_fmap, length_seqZ. }
    split; [done|]. intros wn' cid' Hm'. simpl in H2 |- *. by rewrite app_nil_r, H2.
  - destruct (wk wn) as [[cid r k [|p todo]]|] eqn:Hw; [done| |done]. injection E as E.
    apply obind_Done_inv in E as ([[[kv' lk'] op] resp] & _ & E). injection E as <- <-.
    destruct (execute_ok _ Hst wn cid r k p todo op kv' lk' Hw) as (H1 & Hm & H2 & H3). split; [done|].
    intros wn' cid' Hm'. simpl. rewrite app_nil_r. case_bool_decide as Hb.
    + destruct Hb as [<- <-]. simpl. symmetry. exact H2.
    + simpl. simpl in H3. rewrite H3; [done|done|]. intros [= -> ->]. tauto.
  - destruct (wk wn) as [[cid r k [|]]|] eqn:Hw; [|done|done]. injection E as E.
    apply obind_Done_inv in E as (? & _ & E). injection E as <- <-.
    destruct (finish_ok _ Hst wn cid r k Hw) as (_ & H1 & H2). split; [done|].
    intros wn' cid' Hm'. simpl in H2 |- *. by rewrite app_nil_r, H2.
Qed.

Lemma local_start_ok region kv lk : locals_ok (local_start region kv lk).
Proof. split; [|done]. intros wn cid _. split; simpl; [lia|by left|done]. Qed.

Lemma served_by_app wn cid e1 e2 : served_by wn cid (e1 ++ e2) = served_by wn cid e1 ++ served_by wn cid e2.
Proof. apply omap_app. Qed.
Lemma issued_by_app wn cid e1 e2 : issued_by wn cid (e1 ++ e2) = issued_by wn cid e1 ++ issued_by wn cid e2.
Proof. apply omap_app. Qed.

Lemma local_runs_ok mid st es st' :
  local_runs mid st es st' -> locals_ok st ->
  locals_ok st' /\ forall wn cid, in_machine wn cid ->
    served_by wn cid es ++ waiting st' wn cid ≡ₚ waiting st wn cid ++ issued_by wn cid es.
Proof.
  induction 1 as [|st es st1 a e st2 _ IH E]; intros Hst; [split; [done|]; intros; by rewrite app_nil_r|].
  destruct (IH Hst) as [H1 Hp1]. destruct (local_step_ok _ _ _ _ _ H1 E) as [H2 Hp2]. split; [done|].
  intros wn cid Hm. rewrite served_by_app, issued_by_app. specialize (Hp1 wn cid Hm). specialize (Hp2 wn cid Hm).
  rewrite <- app_assoc, Hp2, app_assoc, Hp1. by rewrite app_assoc.
Qed.

Lemma length_region_idx ws flag served r :
  0 <= ws < 66 -> 0 <= r < 3 -> 0 <= served <= 22 -> (length (region_idx ws flag served r) <= 22)%nat.
Proof.
  intros Hw Hr Hs. unfold region_idx. repeat zcase; rewrite ?length_seqZ; [|cbn [length]; lia|lia].
  Z.div_mod_to_equations. lia.
Qed.

Lemma length_waiting st wn cid : locals_ok st -> in_machine wn cid -> (length (waiting st wn cid) <= 66)%nat.
Proof.
  intros Hst Hm. unfold waiting. rewrite length_fmap. simpl. rewrite !length_app. simpl.
  pose proof (fun r Hr => length_region_idx _ (recv_flag (ls_shared st) (wn, cid, r)) _ r
    (wo_ws _ _ (lo_window st Hst wn cid Hm)) Hr (served_range st Hst wn cid r)) as H.
  pose proof (H 0 ltac:(lia)). pose proof (H 1 ltac:(lia)). pose proof (H 2 ltac:(lia)). unfold region_waiting. lia.
Qed.

(** A client never writes into a region that a worker is executing. *)
Lemma issue_isolated mid st wn cid op e st' w sv j :
  locals_ok st -> local_step mid (Issue wn cid op) st = Some (Done (e, st')) ->
  ls_worker st w = Some sv -> 0 <= j < 22 ->
  let off := OFFSET w (sv_clt sv) (22 * sv_reg sv + j) in
  req_region (ls_shared st') off = req_region (ls_shared st) off.
Proof.
  intros Hst E Hsv Hj off. destruct (lo_worker st Hst w sv Hsv) as (Hm & Hr & Hf & _).
  destruct st as [sh ws kv lk wk]. cbn [local_step] in E. simpl in *.
  destruct (thread_ok wn cid && _) eqn:Hg; [|done]. apply andb_prop in Hg as [Ht%thread_ok_spec _].
  injection E as E. apply obind_Done_inv in E as ([[sh' n]|] & E1 & E); injection E as <- <-; [|done].
  pose proof (lo_window _ Hst wn cid Ht) as [Hw _ _]. simpl in Hw. unfold issue_request in E1.
  rewrite (loc_region_OFFSET _ _ _ Ht Hw) in E1. destruct (Z.eqb_spec (recv_flag sh (wn, cid, ws (wn, cid) / 22)) 0) as [H0|]; [|done].
  apply obind_Done_inv in E1 as (? & _ & E1). injection E1 as <- <-. simpl. apply fn_lookup_insert_ne. intros Heq.
  assert (Hk : 0 <= 22 * sv_reg sv + j < 66) by lia.
  destruct (OFFSET_inj _ _ _ _ _ _ Ht Hm Hw Hk Heq) as (-> & -> & Hws).
  replace (ws (w, sv_clt sv) / 22) with (sv_reg sv) in H0 by (rewrite Hws; Z.div_mod_to_equations; lia). congruence.
Qed.

(** C19: local requests are executed exactly once.  However the clients and
    workers of a machine interleave, the requests a worker has executed for a
    client together with those waiting in their window are, as a bag, the
    requests the client issued; at most 66 wait; a client never overwrites a
    region a worker is executing, and the flag a worker lowers was raised. *)
Theorem locals_exactly_once mid region kv lk es st :
  local_runs mid (local_start region kv lk) es st ->
  (forall wn cid, in_machine wn cid ->
     served_by wn cid es ++ waiting st wn cid ≡ₚ issued_by wn cid es /\ (length (waiting st wn cid) <= 66)%nat) /\
  (forall wn cid op e st' w sv j,
     local_step mid (Issue wn cid op) st = Some (Done (e, st')) -> ls_worker st w = Some sv -> 0 <= j < 22 ->
     let off := OFFSET w (sv_clt sv) (22 * sv_reg sv + j) in
     req_region (ls_shared st') off = req_region (ls_shared st) off) /\
  (forall wn, local_step mid (Finish wn) st <> Some AssertFailed).
Proof.
  intros Hr. destruct (local_runs_ok _ _ _ _ Hr (local_start_ok region kv lk)) as [Hst Hp]. split; [|split].
  - intros wn cid Hm. split; [|by apply length_waiting]. rewrite (Hp wn cid Hm). done.
  - intros. by eapply issue_isolated.
  - intros wn E. destruct st as [sh ws kv' lk' wk]. simpl in E.
    destruct (wk wn) as [[cid r k [|]]|] eqn:Hw; try done.
    destruct (finish_ok _ Hst wn cid r k Hw) as (Hf & _). simpl in Hf. rewrite Hf in E. done.
Qed.

(** ** The sweep of a worker as steps *)
Lemma local_runs_trans mid st1 es1 st2 es2 st3 :
  local_runs mid st1 es1 st2 -> local_runs mid st2 es2 st3 -> local_runs mid st1 (es1 ++ es2) st3.
Proof.
  intros H1 H2. induction H2 as [|st es st' a e st2 _ IH E]; [by rewrite app_nil_r|].
  rewrite app_assoc. eapply local_snoc; [by apply IH|done].
Qed.

Lemma local_runs_once mid a st e st' :
  local_step mid a st = Some (Done (e, st')) -> local_runs mid st e st'.
Proof. intros E. change e with ([] ++ e). eapply local_snoc; [constructor|done]. Qed.

(** The requests of a region in the order of their slots, with their answers. *)
Definition serves (wn cid : Z) (ops : list cache_op) (res : list (cache_op * mica_resp)) : list local_event :=
  zip_with (fun o x => Served wn cid (asked o) x.2) ops res.

Definition slots_from (wn cid r k : Z) (n : nat) : list Z :=
  (fun i => OFFSET wn cid (r * 22 + k + Z.of_nat i)) <$> seq 0 n.

Lemma slots_from_S wn cid r k n :
  slots_from wn cid r k (S n) = OFFSET wn cid (r * 22 + k) :: slots_from wn cid r (k + 1) n.
Proof.
  unfold slots_from. rewrite <- cons_seq, fmap_cons. f_equal; [f_equal; lia|].
  rewrite <- fmap_S_seq, <- list_fmap_compose. apply list_fmap_ext. intros i x _. simpl. f_equal. lia.
Qed.

Lemma slots_from_later wn cid r k n : OFFSET wn cid (r * 22 + k) ∉ slots_from wn cid r (k + 1) n.
Proof. unfold slots_from. rewrite list_elem_of_fmap. intros (i & E & _). rewrite !OFFSET_eq in E. lia. Qed.

Lemma region_slots_from wn cid r : region_slots wn cid r = slots_from wn cid r 0 22.
Proof.
  unfold region_slots, slots_from. change (seqZ 0 LOCAL_REGION_SIZE) with (Z.of_nat <$> seq 0 22).
  rewrite <- list_fmap_compose. apply list_fmap_ext. intros i x _. simpl. f_equal. change LOCAL_REGION_SIZE with 22. lia.
Qed.

(** Executing one by one is executing the batch: a request only changes its own slot. *)
Lemma execute_runs mid wn cid r todo k sh ws kv lk wk kv' lk' res :
  let slots := slots_from wn cid r k (length todo) in
  wk wn = Some (mkServing cid r k todo) ->
  crcw_exec mid kv lk (zip (req_region sh <$> slots) todo) = Done (kv', lk', res) ->
  exists wk', wk' wn = Some (mkServing cid r (k + Z.of_nat (length todo)) []) /\
    local_runs mid (mkLocals sh ws kv lk wk) (serves wn cid (req_region sh <$> slots) res)
      (mkLocals (mkShared (put_back slots res.*1 (req_region sh)) (recv_flag sh)) ws kv' lk' wk').
Proof.
  revert k sh kv lk wk res. induction todo as [|p todo IH]; intros k sh kv lk wk res slots Hw E.
  - injection E as <- <- <-. exists wk. rewrite Z.add_0_r. split; [done|]. destruct sh. constructor.
  - unfold slots in *. cbn [length] in *. rewrite slots_from_S in *. rewrite fmap_cons in *. cbn [zip zip_with] in E.
    cbn [crcw_exec] in E. apply obind_Done_inv in E as ([[[kv1 lk1] op] resp] & E1 & E).
    apply obind_Done_inv in E as ([[kv2 lk2] rest] & E2 & E). injection E as <- <- <-.
    set (off := OFFSET wn cid (r * 22 + k)) in *.
    set (sh1 := mkShared (<[off := op]> (req_region sh)) (recv_flag sh)).
    assert (Hsame : req_region sh1 <$> slots_from wn cid r (k + 1) (length todo) =
                    req_region sh <$> slots_from wn cid r (k + 1) (length todo)).
    { apply list_fmap_ext. intros i x Hx. simpl. apply fn_lookup_insert_ne. intros <-.
      apply list_elem_of_lookup_2 in Hx. by apply slots_from_later in Hx. }
    rewrite <- Hsame in E2.
    destruct (IH (k + 1) sh1 kv1 lk1 (<[wn := Some (mkServing cid r (k + 1) todo)]> wk) rest) as (wk' & Hw' & Hr);
      [apply fn_lookup_insert|done|].
    exists wk'. split; [rewrite Hw'; do 2 f_equal; lia|].
    cbn [serves zip_with]. rewrite <- Hsame.
    eapply (local_runs_trans _ _ [_]); [|exact Hr].
    apply (local_runs_once _ (Execute wn)). cbn [local_step]. rewrite Hw. change LOCAL_REGION_SIZE with 22.
    fold off. rewrite E1. done.
Qed.

Lemma crcw_exec_length mid kv lk l kv' lk' res :
  crcw_exec mid kv lk l = Done (kv', lk', res) -> length res = length l.
Proof.
  revert kv lk res. induction l as [|[op p] l IH]; intros kv lk res E; cbn [crcw_exec] in E; [by injection E as <- <- <-|].
  apply obind_Done_inv in E as ([[[kv1 lk1] o] r] & _ & E). apply obind_Done_inv in E as ([[kv2 lk2] rest] & E2 & E).
  injection E as <- <- <-. simpl. f_equal. by eapply IH.
Qed.

Lemma zip_kv_ptr kv l : (fun op => (op, kv_ptr kv op)) <$> l = zip l (kv_ptr kv <$> l).
Proof. induction l as [|x l IH]; [done|]. rewrite !fmap_cons. simpl. by rewrite IH. Qed.

(** The requests a sweep finds for a client: by the number of the region. *)
Definition swept (sh : shared) (wn cid : Z) (x : Z * Z) : list (Z * Z * list Z) :=
  if (x.1 =? cid) && negb (recv_flag sh (wn, cid, x.2) =? 0)
  then asked <$> (req_region sh <$> region_slots wn cid x.2) else [].

Lemma serves_by wn cid ops res cid' :
  length res = length ops ->
  served_by wn cid' (serves wn cid ops res) = if cid =? cid' then asked <$> ops else [].
Proof.
  unfold serves. revert res. induction ops as [|o ops IH]; intros [|x res] Hl; try done; [by destruct (_ =? _)|].
  simpl. specialize (IH res ltac:(simpl in Hl; lia)). destruct (Z.eqb_spec cid cid') as [-> |Hne].
  - rewrite bool_decide_true by done. simpl. by f_equal.
  - rewrite bool_decide_false by tauto. done.
Qed.

Lemma serve_region_runs mid wn cid r sh ws kv lk wk n sh' kv' lk' n' :
  in_machine wn cid -> 0 <= r < 3 -> wk wn = None ->
  serve_region mid wn cid r sh kv lk n = Done (sh', kv', lk', n') ->
  exists es wk', wk' wn = None /\ local_runs mid (mkLocals sh ws kv lk wk) es (mkLocals sh' ws kv' lk' wk') /\
    forall cid', served_by wn cid' es = swept sh wn cid' (cid, r).
Proof.
  intros Hm Hr Hn E. unfold serve_region in E. destruct (Z.eqb_spec (recv_flag sh (wn, cid, r)) 0) as [H0|H0].
  { injection E as <- <- <- <-. exists [], wk. split; [done|]. split; [constructor|]. intros cid'. unfold swept. simpl.
    destruct (Z.eqb_spec cid cid') as [<- |]; [by rewrite H0|done]. }
  apply obind_Done_inv in E as ([[kv1 lk1] res] & E1 & E). apply obind_Done_inv in E as ([] & Ea & E).
  injection E as <- <- <- <-. unfold mica_batch_op_crcw in E1. rewrite zip_kv_ptr, region_slots_from in E1.
  set (ops := req_region sh <$> slots_from wn cid r 0 22) in *.
  set (wk1 := <[wn := Some (mkServing cid r 0 (kv_ptr kv <$> ops))]> wk).
  assert (Hlen : length (kv_ptr kv <$> ops) = 22%nat) by done.
  destruct (execute_runs mid wn cid r (kv_ptr kv <$> ops) 0 sh ws kv lk wk1 kv1 lk1 res) as (wk2 & Hw2 & Hrun);
    [apply fn_lookup_insert|by rewrite Hlen|].
  rewrite Hlen in Hrun, Hw2. exists (serves wn cid ops res), (<[wn := None]> wk2).
  split; [apply fn_lookup_insert|]. split; [|intros cid'].
  - change (serves wn cid ops res) with ([] ++ serves wn cid ops res).
    rewrite <- (app_nil_r (serves wn cid ops res)).
    eapply local_runs_trans; [|eapply local_runs_trans; [exact Hrun|]].
    + apply (local_runs_once _ (Begin wn cid r)). cbn [local_step]. rewrite Hn.
      rewrite (proj2 (thread_ok_spec wn cid) Hm), (proj2 (Z.leb_le 0 r)), (proj2 (Z.ltb_lt r LOCAL_REGIONS)),
        (proj2 (Z.eqb_neq _ _) H0) by (unfold LOCAL_REGIONS; lia). cbn [andb negb]. rewrite region_slots_from. done.
    + apply (local_runs_once _ (Finish wn)). cbn [local_step]. rewrite Hw2. cbn [recv_flag req_region]. rewrite Ea.
      rewrite region_slots_from. done.
  - rewrite serves_by by (apply crcw_exec_length in E1; rewrite E1, length_zip, !length_fmap, Nat.min_id; done).
    unfold swept. cbn [fst snd]. destruct (Z.eqb_spec cid cid') as [<- |]; [|done].
    rewrite (proj2 (Z.eqb_neq _ _) H0), region_slots_from. done.
Qed.

(** What serving a region leaves alone. *)
Lemma put_back_other slots ops region a : a ∉ slots -> put_back slots ops region a = region a.
Proof.
  unfold put_back. revert ops region. induction slots as [|x slots IH]; intros [|o ops] region Ha; try done. simpl.
  apply not_elem_of_cons in Ha as [Hne Ha]. rewrite IH by done. apply fn_lookup_insert_ne. congruence.
Qed.

Lemma serve_region_frame mid wn cid r sh kv lk n sh' kv' lk' n' cid' r' :
  in_machine wn cid -> in_machine wn cid' -> 0 <= r < 3 -> 0 <= r' < 3 -> (cid', r') <> (cid, r) ->
  serve_region mid wn cid r sh kv lk n = Done (sh', kv', lk', n') ->
  recv_flag sh' (wn, cid', r') = recv_flag sh (wn, cid', r') /\
  req_region sh' <$> region_slots wn cid' r' = req_region sh <$> region_slots wn cid' r'.
Proof.
  intros Hm Hm' Hr Hr' Hne E. unfold serve_region in E. destruct (_ =? 0); [by injection E as <- <- <- <-|].
  apply obind_Done_inv in E as ([[kv1 lk1] res] & _ & E). apply obind_Done_inv in E as ([] & _ & E).
  injection E as <- <- <- <-. cbn [recv_flag req_region]. split; [by rewrite fn_lookup_insert_ne by congruence|].
  apply list_fmap_ext. intros i x Hx. apply list_elem_of_lookup_2 in Hx. apply put_back_other.
  rewrite region_slots_from in *. unfold slots_from in *. rewrite list_elem_of_fmap in *.
  destruct Hx as (j & -> & Hj). intros (k & Ek & Hk). apply elem_of_seq in Hj, Hk.
  destruct (OFFSET_inj wn cid' (r' * 22 + 0 + Z.of_nat j) wn cid (r * 22 + 0 + Z.of_nat k) Hm' Hm ltac:(lia) ltac:(lia) Ek)
    as (_ & -> & ?). apply Hne. f_equal. lia.
Qed.

Lemma serve_loop_runs mid wn l sh ws kv lk wk n sh' kv' lk' n' :
  NoDup l -> (forall x, x ∈ l -> in_machine wn x.1 /\ 0 <= x.2 < 3) -> wk wn = None ->
  serve_loop mid wn l sh kv lk n = Done (sh', kv', lk', n') ->
  exists es wk', wk' wn = None /\ local_runs mid (mkLocals sh ws kv lk wk) es (mkLocals sh' ws kv' lk' wk') /\
    forall cid, served_by wn cid es = mjoin (swept sh wn cid <$> l).
Proof.
  revert sh kv lk wk n. induction l as [|[c r] l IH]; intros sh kv lk wk n Hnd Hl Hw E; simpl in E.
  { injection E as <- <- <- <-. exists [], wk. split_and!; [done|constructor|done]. }
  apply NoDup_cons in Hnd as [Hx Hnd]. apply obind_Done_inv in E as ([[[sh1 kv1] lk1] n1] & E1 & E).
  destruct (Hl (c, r) ltac:(left)) as [Hm Hr].
  destruct (serve_region_runs mid wn c r sh ws kv lk wk n sh1 kv1 lk1 n1 Hm Hr Hw E1) as (es1 & wk1 & Hw1 & R1 & S1).
  destruct (IH sh1 kv1 lk1 wk1 n1 Hnd ltac:(intros x Hx'; apply Hl; by right) Hw1 E) as (es2 & wk2 & Hw2 & R2 & S2).
  exists (es1 ++ es2), wk2. split; [done|]. split; [by eapply local_runs_trans|].
  intros cid. rewrite served_by_app, S1, S2, fmap_cons. simpl. f_equal. f_equal. apply list_fmap_ext.
  intros i [c' r'] Hi. apply list_elem_of_lookup_2 in Hi. destruct (Hl (c', r') ltac:(by right)) as [Hm' Hr'].
  unfold swept. cbn [fst snd] in *. destruct (Z.eqb_spec c' cid) as [-> |]; [|done].
  destruct (serve_region_frame mid wn c r sh kv lk n sh1 kv1 lk1 n1 cid r') as [Hf Ha]; try done; [congruence|].
  by rewrite Hf, Ha.
Qed.

Lemma sweep_clients : NoDup sweep /\ forall x, x ∈ sweep -> 0 <= x.1 < 20 /\ 0 <= x.2 < 3.
Proof.
  split; [by apply (bool_decide_unpack _); vm_compute|]. apply Forall_forall. apply (bool_decide_unpack _). by vm_compute.
Qed.

Lemma sweep_client cid : 0 <= cid < 20 -> filter (fun x => x.1 = cid) sweep = [(cid, 0); (cid, 1); (cid, 2)].
Proof.
  intros Hc. assert (H : Forall (fun c => filter (fun x => x.1 = c) sweep = [(c, 0); (c, 1); (c, 2)]) (seqZ 0 20))
    by (apply (bool_decide_unpack _); by vm_compute).
  rewrite Forall_forall in H. apply H, elem_of_seqZ. lia.
Qed.

Lemma swept_filter sh wn cid l : mjoin (swept sh wn cid <$> l) = mjoin (swept sh wn cid <$> filter (fun x => x.1 = cid) l).
Proof.
  induction l as [|x l IH]; [done|]. rewrite fmap_cons, filter_cons. simpl. destruct (decide (x.1 = cid)) as [He|He].
  - rewrite fmap_cons. simpl. by rewrite IH.
  - unfold swept at 1. by rewrite (proj2 (Z.eqb_neq _ _) He).
Qed.

(** A sweep executes, for every client, the flagged regions in the order of
    their numbers. *)
Lemma serve_local_reqs_runs mid wn sh ws kv lk wk n sh' kv' lk' n' :
  0 <= wn < 20 -> wk wn = None -> serve_local_reqs mid wn sh kv lk n = Done (sh', kv', lk', n') ->
  exists es wk', wk' wn = None /\ local_runs mid (mkLocals sh ws kv lk wk) es (mkLocals sh' ws kv' lk' wk') /\
    forall cid, 0 <= cid < 20 -> served_by wn cid es = mjoin ((fun r => swept sh wn cid (cid, r)) <$> [0; 1; 2]).
Proof.
  intros Hwn Hw E. destruct sweep_clients as [Hnd Hc].
  destruct (serve_loop_runs mid wn sweep sh ws kv lk wk n sh' kv' lk' n' Hnd) as (es & wk' & H1 & H2 & H3);
    [|done|done|].
  { intros x Hx. destruct (Hc x Hx). done. }
  exists es, wk'. split_and!; [done|done|]. intros cid Hcid. by rewrite H3, swept_filter, sweep_client.
Qed.

(** Running a list of steps. *)
Fixpoint run_locals (mid : Z) (l : list local_action) (st : local_state) : option (list local_event * local_state) :=
  match l with
  | [] => Some ([], st)
  | a :: l =>
      match local_step mid a st with
      | Some (Done (e, st)) =>
          match run_locals mid l st with Some (es, st) => Some (e ++ es, st) | None => None end
      | _ => None
      end
  end.

Lemma run_locals_runs mid l st es st' : run_locals mid l st = Some (es, st') -> local_runs mid st es st'.
Proof.
  revert st es. induction l as [|a l IH]; intros st es E; simpl in E; [injection E as <- <-; constructor|].
  destruct (local_step mid a st) as [[[e st1]| |]|] eqn:Ea; try done.
  destruct (run_locals mid l st1) as [[es1 st2]|] eqn:El; [|done]. injection E as <- <-.
  eapply local_runs_trans; [by eapply local_runs_once|by apply IH].
Qed.

(** ** The order of a client's requests is not kept

    Client 0 fills region 0, which its worker serves; then it fills regions 1
    and 2 and region 0 again before the worker's next sweep.  Its write is the
    first request of region 1, its read of the same key the first of the new
    region 0. *)
Definition other_get : cache_op := mkOp (mkMeta 0 0 0 0 0) 9 9 9 CACHE_OP_GET 0 (replicate 46 0).
Definition fill_rest : list local_action := replicate 21 (Issue 0 0 other_get).

Definition overtaking : list local_action :=
  (Issue 0 0 other_get :: fill_rest) ++ [Begin 0 0 0] ++ replicate 22 (Execute 0) ++ [Finish 0]
  ++ (Issue 0 0 demo_cput :: fill_rest) ++ (Issue 0 0 other_get :: fill_rest) ++ (Issue 0 0 demo_cget :: fill_rest).

Definition overtaking_start : local_state := local_start (fun _ => other_get) demo_cache (mkMeta 0 0 0 0 0).

(** C40: a client's read can be executed before its earlier write to the same
    key.  There is a reachable state in which the client issued the write
    before the read, and the worker's next sweep executes the read first. *)
Theorem local_order_lost :
  exists es st es' st' n,
    local_runs 0 overtaking_start es st /\ local_runs 0 st es' st' /\
    serve_local_reqs 0 0 (ls_shared st) (ls_kv st) (ls_lock st) 0 = Done (ls_shared st', ls_kv st', ls_lock st', n) /\
    issued_by 0 0 es !! 22%nat = Some (asked demo_cput) /\ issued_by 0 0 es !! 66%nat = Some (asked demo_cget) /\
    served_by 0 0 es = replicate 22 (asked other_get) /\
    served_by 0 0 es' !! 0%nat = Some (asked demo_cget) /\ served_by 0 0 es' !! 22%nat = Some (asked demo_cput).
Proof.
  assert (H : (fun x => (issued_by 0 0 x.1 !! 22%nat, issued_by 0 0 x.1 !! 66%nat, served_by 0 0 x.1,
                 mjoin ((fun r => swept (ls_shared x.2) 0 0 (0, r)) <$> [0; 1; 2]) !! 0%nat,
                 mjoin ((fun r => swept (ls_shared x.2) 0 0 (0, r)) <$> [0; 1; 2]) !! 22%nat,
                 match ls_worker x.2 0 with None => true | _ => false end,
                 match serve_local_reqs 0 0 (ls_shared x.2) (ls_kv x.2) (ls_lock x.2) 0 with Done _ => true | _ => false end))
              <$> run_locals 0 overtaking overtaking_start
            = Some (Some (asked demo_cput), Some (asked demo_cget), replicate 22 (asked other_get),
                    Some (asked demo_cget), Some (asked demo_cput), true, true)) by (vm_compute; reflexivity).
  destruct (run_locals 0 overtaking overtaking_start) as [[es st]|] eqn:E; [|discriminate H].
  cbn [fmap option_fmap option_map fst snd] in H. injection H as H1 H2 H3 H4 H5 H6 H7.
  destruct (serve_local_reqs _ _ _ _ _ _) as [[[[sh' kv'] lk'] n']| |] eqn:Es; try discriminate H7.
  destruct st as [sh ws kv lk wk]. cbn [ls_shared ls_kv ls_lock ls_worker] in *.
  destruct (serve_local_reqs_runs 0 0 sh ws kv lk wk 0 sh' kv' lk' n') as (es' & wk' & _ & Hr & Hs);
    [lia|destruct (wk 0); [discriminate H6|reflexivity]|exact Es|].
  exists es, (mkLocals sh ws kv lk wk), es', (mkLocals sh' ws kv' lk' wk'), n'.
  pose proof (Hs 0 ltac:(lia)) as Hs0. cbn [ls_shared ls_kv ls_lock].
  split; [exact (run_locals_runs _ _ _ _ _ E)|]. split; [exact Hr|]. split; [exact Es|]. split; [exact H1|].
  split; [exact H2|]. split; [exact H3|]. rewrite Hs0. split; [exact H4|exact H5].
Qed.

Lemma overtaking_ends : exists es st, run_locals 0 overtaking overtaking_start = Some (es, st) /\
  length (issued_by 0 0 es) = 88%nat /\ length (served_by 0 0 es) = 22%nat.
Proof.
  assert (H : (fun x => (length (issued_by 0 0 x.1), length (served_by 0 0 x.1))) <$> run_locals 0 overtaking overtaking_start
            = Some (88%nat, 22%nat)) by (vm_compute; reflexivity).
  destruct (run_locals 0 overtaking overtaking_start) as [[es st]|] eqn:E; [|discriminate H].
  injection H as H1 H2. exists es, st. split; [reflexivity|]. split; [exact H1|exact H2].
Qed.

Lemma locals_exactly_once_witness :
  exists es st, local_runs 0 overtaking_start es st /\ length (issued_by 0 0 es) = 88%nat /\
    length (served_by 0 0 es) = 22%nat /\ served_by 0 0 es ++ waiting st 0 0 ≡ₚ issued_by 0 0 es.
Proof.
  destruct overtaking_ends as (es & st & E & H1 & H2). exists es, st. pose proof (run_locals_runs _ _ _ _ _ E) as Hr.
  split; [exact Hr|]. split; [exact H1|]. split; [exact H2|].
  apply (proj1 (locals_exactly_once 0 (fun _ => other_get) demo_cache (mkMeta 0 0 0 0 0) es st Hr) 0 0).
  unfold in_machine. lia.
Defined.
