(* ===== verification/Startup.v ===== *)
(** * Start-up (src/ccKVS/main.c, src/ccKVS/util.c)

    The consistency checks of the configuration that [main] asserts before it
    starts the threads, the assignment of threads to cores, and the helper
    [pow2roundup] the checks use. *)
From S2P Require Import Prelude Config.

(** ** Sizes of the structures (include/mica/mica.h, include/ccKVS/cache.h) *)
Definition sizeof_mica_op : Z := sizeof_mica_key + 1 + 1 + MICA_MAX_VALUE.
Definition sizeof_ud_req : Z := GRH_SIZE + sizeof_mica_op.
Definition sizeof_wrkr_ud_req : Z := GRH_SIZE + sizeof_mica_op + EXTRA_WORKER_REQ_BYTES.
Definition sizeof_extended_cache_op : Z :=
  sizeof_mica_key + 1 + 1 + (MICA_MAX_VALUE + EXTRA_WORKER_REQ_BYTES).

(** [if (c) assert(b)] *)
Definition assert_if (c b : bool) : outcome unit := if c then c_assert b else Done tt.

(** ** The assertions of [main], in order *)
Definition queue_checks : outcome unit :=
  let* _ := c_assert ((ENABLE_MULTI_BATCHES =? 0) || (MAX_OUTSTANDING_REQS <? CLIENT_SEND_REM_Q_DEPTH)) in
  let* _ := c_assert (WORKER_MAX_BATCH <? WORKER_SEND_Q_DEPTH) in
  let* _ := assert_if (DISABLE_CACHE =? 0) (SC_MAX_CREDIT_RECVS <? SC_CLIENT_RECV_CR_Q_DEPTH) in
  let* _ := assert_if (DISABLE_CACHE =? 0) (MAX_CREDIT_RECVS <? LIN_CLIENT_RECV_CR_Q_DEPTH) in
  let* _ := assert_if (DISABLE_CACHE =? 0) (SC_MAX_COH_RECEIVES <? SC_CLIENT_RECV_BR_Q_DEPTH) in
  let* _ := assert_if (DISABLE_CACHE =? 0) (LIN_MAX_COH_RECEIVES <? LIN_CLIENT_RECV_BR_Q_DEPTH) in
  let* _ := c_assert (CLIENT_UD_QPS =? 3) in
  let* _ := c_assert (WINDOW_SIZE <? CLIENT_RECV_REM_Q_DEPTH) in
  let* _ := c_assert ((ENABLE_MULTI_BATCHES =? 0) || (MAX_OUTSTANDING_REQS <? CLIENT_RECV_REM_Q_DEPTH)) in
  c_assert (0 <? SC_MAX_CREDIT_WRS).

Definition batch_checks : outcome unit :=
  let* _ := c_assert (LOCAL_WINDOW <=? MICA_MAX_BATCH_SIZE) in
  let* _ := c_assert (WORKER_MAX_BATCH <=? MICA_MAX_BATCH_SIZE) in
  let* _ := assert_if ((0 <? WRITE_RATIO) && (DISABLE_CACHE =? 0)) (BCAST_TO_CACHE_BATCH <=? CACHE_BATCH_SIZE) in
  let* _ := c_assert (SC_CREDITS mod SC_CREDIT_DIVIDER =? 0) in
  let* _ := c_assert (CREDITS_FOR_EACH_CLIENT mod LIN_CREDIT_DIVIDER =? 0) in
  let* _ := c_assert (MAX_COH_MESSAGES <? K_64) in
  let* _ := c_assert (SESSIONS_PER_CLIENT * CLIENTS_PER_MACHINE <=? 255) in
  let* _ := c_assert (WS_PER_WORKER <? 256) in
  let* _ := c_assert (LOCAL_WINDOW mod LOCAL_REGIONS =? 0) in
  let* _ := c_assert (LOCAL_REGIONS <=? 64) in
  let* _ := assert_if (ENABLE_LOCAL_WORKERS =? 1) ((0 <? LOCAL_WORKERS) && (LOCAL_WORKERS <? WORKERS_PER_MACHINE)) in
  let* _ := c_assert (WORKER_NUM_UD_QPS <=? CLIENTS_PER_MACHINE) in
  c_assert (MAX_BCAST_BATCH <? BROADCAST_SS_BATCH).

Definition size_checks : outcome unit :=
  let* _ := c_assert (HERD_PUT_REQ_SIZE <? sizeof_mica_op) in
  let* _ := c_assert (sizeof_ud_req =? UD_REQ_SIZE) in
  let* _ := c_assert (sizeof_mica_op =? MICA_OP_SIZE) in
  let* _ := c_assert (sizeof_mica_key =? KEY_SIZE) in
  let* _ := c_assert (sizeof_extended_cache_op <=? sizeof_wrkr_ud_req - GRH_SIZE) in
  let* _ := assert_if (WORKER_HYPERTHREADING =? 1) (WORKERS_PER_MACHINE <=? VIRTUAL_CORES_PER_SOCKET) in
  let* _ := c_assert (0 <=? EXTRA_WORKER_REQ_BYTES) in
  let* _ := c_assert (WORKER_REQ_SIZE <=? sizeof_wrkr_ud_req) in
  let* _ := c_assert (BASE_VALUE_SIZE mod pow2roundup SHIFT_BITS =? 0) in
  let* _ := assert_if ((ENABLE_COALESCING =? 1) && (DESIRED_COALESCING_FACTOR <? MAX_COALESCE_PER_MACH))
              (ENABLE_WORKER_COALESCING =? 0) in
  assert_if (CLIENT_ENABLE_INLINING =? 1) (MAX_COALESCE_PER_MACH * HERD_GET_REQ_SIZE + 1 <=? MAXIMUM_INLINE_SIZE).

Definition startup_checks (machine_id : Z) : outcome unit :=
  let* _ := queue_checks in
  let* _ := batch_checks in
  let* _ := size_checks in
  c_assert ((machine_id <? MACHINE_NUM) && (0 <=? machine_id)).

(** ** Threads and cores *)
Definition pin_worker (w_id : Z) : outcome Z :=
  let w_core := PHYSICAL_CORE_DISTANCE * w_id in
  let w_core :=
    if TOTAL_CORES_ <? w_core then
      if WORKER_HYPERTHREADING =? 1
      then PHYSICAL_CORE_DISTANCE * (w_id - PHYSICAL_CORES_PER_SOCKET) + 2
      else (w_id - PHYSICAL_CORES_PER_SOCKET) * PHYSICAL_CORE_DISTANCE + 1
    else w_core in
  let* _ := c_assert ((0 <=? w_core) && (w_core <? TOTAL_CORES)) in
  Done w_core.

Definition pin_client (c_id : Z) : outcome Z :=
  let c_core :=
    if (WORKER_HYPERTHREADING =? 0) || (WORKERS_PER_MACHINE <? PHYSICAL_CORES_PER_SOCKET) then
      let c_core := if c_id <? WORKERS_PER_MACHINE then PHYSICAL_CORE_DISTANCE * c_id + 2
                    else WORKERS_PER_MACHINE * 2 + c_id * 2 in
      if TOTAL_CORES_ <? c_core then c_core - TOTAL_CORES_ else c_core
    else
      let c_core := (WORKERS_PER_MACHINE - PHYSICAL_CORES_PER_SOCKET) * 4 + 2 + 4 * c_id in
      let c_core := if TOTAL_CORES_ <? c_core then c_core - (TOTAL_CORES_ + 2) else c_core in
      if TOTAL_CORES_ <? c_core then c_core - (TOTAL_CORES_ - 1) else c_core in
  let* _ := c_assert ((0 <=? c_core) && (c_core <? TOTAL_CORES)) in
  Done c_core.

(** The core of worker thread [i] ([inl]) or client thread [i] ([inr]). *)
Definition core_of (t : Z + Z) : outcome Z :=
  match t with inl w => pin_worker w | inr c => pin_client c end.

Definition threads : list (Z + Z) :=
  (inl <$> seqZ 0 WORKERS_PER_MACHINE) ++ (inr <$> seqZ 0 CLIENTS_PER_MACHINE).

(** Every machine of the deployment passes its own start-up checks, and the
    threads get cores of their own: no assertion of the pinning fails and no
    two of the 40 worker and client threads share a core. *)
Theorem startup_ok :
  (forall machine_id, 0 <= machine_id < MACHINE_NUM -> startup_checks machine_id = Done tt) /\
  (exists cores, core_of <$> threads = Done <$> cores /\ NoDup cores /\
     forall c, c ∈ cores <-> 0 <= c < TOTAL_CORES).
Proof.
  split.
  - intros mid Hm. change MACHINE_NUM with 4 in Hm.
    assert (Hc : mid = 0 \/ mid = 1 \/ mid = 2 \/ mid = 3) by lia.
    destruct Hc as [-> |[-> |[-> | ->]]]; vm_compute; reflexivity.
  - exists ((fun t => done_or (core_of t) (-1)) <$> threads). split; [vm_compute; reflexivity|].
    assert (Hperm : ((fun t => done_or (core_of t) (-1)) <$> threads) ≡ₚ seqZ 0 TOTAL_CORES).
    { apply (bool_decide_unpack _). vm_compute. exact I. }
    split; [rewrite Hperm; apply NoDup_seqZ|]. intros c. rewrite Hperm, elem_of_seqZ. lia.
Qed.

(** ** Rounding up to a power of two *)

(** Bit [i] of the smeared word is the disjunction of the bits [i] to
    [i + n - 1] of the original. *)
Definition smeared (n x y : Z) : Prop :=
  forall i, 0 <= i -> Z.testbit y i = true <-> exists k, 0 <= k < n /\ Z.testbit x (i + k) = true.

Lemma smeared_one x : smeared 1 x x.
Proof.
  intros i Hi. split.
  - intros H. exists 0. by rewrite Z.add_0_r.
  - intros (k & Hk & H). by replace (i + k) with i in H by lia.
Qed.

(** One step doubles the window. *)
Lemma smeared_double n x y : 0 <= n -> smeared n x y -> smeared (2 * n) x (Z.lor y (Z.shiftr y n)).
Proof.
  intros Hn Hs i Hi. rewrite Z.lor_spec, Z.shiftr_spec, orb_true_iff, (Hs i), (Hs (i + n)) by lia.
  split.
  - intros [(k & Hk & H)|(k & Hk & H)]; [exists k; split; [lia|done]|].
    exists (n + k). split; [lia|]. by rewrite Z.add_assoc.
  - intros (k & Hk & H). destruct (Z.lt_ge_cases k n); [left; exists k; split; [lia|done]|].
    right. exists (k - n). split; [lia|]. by replace (i + n + (k - n)) with (i + k) by lia.
Qed.

(** A 32-bit word smeared over 32 bits is a block of ones up to its top bit. *)
Lemma smeared_ones x y :
  0 < x < 2 ^ 32 -> 0 <= y -> smeared 32 x y -> y = Z.ones (Z.log2 x + 1).
Proof.
  intros Hx Hy Hs. assert (Hl : 0 <= Z.log2 x < 32).
  { split; [apply Z.log2_nonneg|]. apply Z.log2_lt_pow2; lia. }
  apply Z.bits_inj'. intros i Hi. apply Bool.eq_true_iff_eq. rewrite (Hs i Hi). split.
  - intros (k & Hk & H). destruct (Z.lt_ge_cases (Z.log2 x) (i + k)) as [Hlt|Hge].
    + rewrite Z.bits_above_log2 in H by lia. done.
    + rewrite Z.ones_spec_low by lia. done.
  - intros H. destruct (Z.lt_ge_cases (Z.log2 x) i) as [Hlt|Hge].
    + rewrite Z.ones_spec_high in H by lia. done.
    + exists (Z.log2 x - i). split; [lia|]. replace (i + (Z.log2 x - i)) with (Z.log2 x) by lia.
      apply Z.bit_log2. lia.
Qed.

(** [pow2roundup] rounds up to a power of two: for 1 <= x <= 2^31 the
    result is the least power of two that is at least x (and 1 for 0). *)
Theorem pow2roundup_least x :
  0 <= x <= 2 ^ 31 ->
  exists k, 0 <= k /\ pow2roundup x = 2 ^ k /\ x <= 2 ^ k /\ (1 < x -> 2 ^ k < 2 * x).
Proof.
  intros Hx. unfold pow2roundup. destruct (Z.eqb_spec x 0) as [->|Hx0]; [by exists 0|].
  rewrite (u32_small (x - 1)) by (unfold is_u32; lia).
  destruct (Z.eq_dec x 1) as [->|Hx1]; [by exists 0|].
  set (x0 := x - 1). set (y1 := Z.lor x0 (Z.shiftr x0 1)). set (y2 := Z.lor y1 (Z.shiftr y1 2)).
  set (y3 := Z.lor y2 (Z.shiftr y2 4)). set (y4 := Z.lor y3 (Z.shiftr y3 8)).
  set (y5 := Z.lor y4 (Z.shiftr y4 16)).
  assert (Hpos : forall z n, 0 <= z -> 0 <= Z.lor z (Z.shiftr z n)).
  { intros z n Hz. apply Z.lor_nonneg. split; [done|]. by apply Z.shiftr_nonneg. }
  assert (E : y5 = Z.ones (Z.log2 x0 + 1)).
  { apply smeared_ones; [unfold x0; lia|unfold y5, y4, y3, y2, y1, x0; repeat apply Hpos; lia|].
    apply (smeared_double 16); [lia|]. apply (smeared_double 8); [lia|].
    apply (smeared_double 4); [lia|]. apply (smeared_double 2); [lia|].
    apply (smeared_double 1); [lia|]. apply smeared_one. }
  pose proof (Z.log2_spec x0 ltac:(unfold x0; lia)) as [Hl1 Hl2].
  assert (Hl : 0 <= Z.log2 x0 < 31).
  { split; [apply Z.log2_nonneg|]. apply Z.log2_lt_pow2; unfold x0; lia. }
  exists (Z.log2 x0 + 1). rewrite E, Z.ones_equiv.
  replace (Z.pred (2 ^ (Z.log2 x0 + 1)) + 1) with (2 ^ (Z.log2 x0 + 1)) by lia.
  rewrite Z.pow_add_r in * by lia. unfold Z.succ in Hl2. rewrite Z.pow_add_r in Hl2 by lia.
  rewrite u32_small.
  - unfold x0 in *. lia.
  - pose proof (Z.pow_lt_mono_r 2 (Z.log2 x0) 31 ltac:(lia) ltac:(lia) ltac:(lia)). unfold is_u32. lia.
Qed.

Lemma pow2roundup_least_witness :
  exists k, 0 <= k /\ pow2roundup 1000 = 2 ^ k /\ 1000 <= 2 ^ k /\ (1 < 1000 -> 2 ^ k < 2 * 1000).
Proof. apply (pow2roundup_least 1000). lia. Defined.
