(* ===== verification/CacheStats.v ===== *)
(** * Cache statistics (src/ccKVS/cache.c)

    The counters every thread keeps about its cache operations
    ([struct cache_meta_stats], 64-bit counters taken as unbounded), and their
    aggregation.  The batch functions call [update_cache_stats] when
    [ENABLE_CACHE_STATS] is 1 (it is 0 in the configuration).  Also the counts of
    one batch that [window_stats] of src/ccKVS/stats.c prints. *)
From S2P Require Import Prelude Config Optik Layout City Mica.

(** The fields of [struct cache_meta_stats]. *)
Inductive stat :=
| num_get_success | num_put_success | num_upd_success | num_inv_success | num_ack_success
| num_get_stall | num_put_stall | num_upd_fail | num_inv_fail | num_ack_fail
| num_get_miss | num_put_miss | num_unserved_get_miss | num_unserved_put_miss.

#[export] Instance stat_eq_dec : EqDecision stat.
Proof. solve_decision. Defined.

Definition cache_meta_stats : Type := stat -> Z.

Definition bump (f : stat) (n : Z) (m : cache_meta_stats) : cache_meta_stats :=
  fun g => if bool_decide (g = f) then m g + n else m g.

(** The counter a response goes to. *)
Definition stat_of (op : cache_op) (r : mica_resp) : outcome stat :=
  let t := resp_type r in
  if t =? CACHE_GET_SUCCESS then Done num_get_success
  else if t =? CACHE_PUT_SUCCESS then Done num_put_success
  else if t =? CACHE_UPD_SUCCESS then Done num_upd_success
  else if t =? CACHE_INV_SUCCESS then Done num_inv_success
  else if (t =? CACHE_ACK_SUCCESS) || (t =? CACHE_LAST_ACK_SUCCESS) then Done num_ack_success
  else if t =? CACHE_MISS then
    if opcode op =? CACHE_OP_GET then Done num_get_miss
    else if opcode op =? CACHE_OP_PUT then Done num_put_miss else AssertFailed
  else if t =? CACHE_GET_STALL then Done num_get_stall
  else if t =? CACHE_PUT_STALL then Done num_put_stall
  else if t =? CACHE_UPD_FAIL then Done num_upd_fail
  else if t =? CACHE_INV_FAIL then Done num_inv_fail
  else if t =? CACHE_ACK_FAIL then Done num_ack_fail
  else if t =? UNSERVED_CACHE_MISS then
    if opcode op =? CACHE_OP_GET then Done num_unserved_get_miss
    else if opcode op =? CACHE_OP_PUT then Done num_unserved_put_miss else AssertFailed
  else AssertFailed.

Fixpoint count_responses (l : list (cache_op * mica_resp)) (m : cache_meta_stats)
    : outcome cache_meta_stats :=
  match l with
  | [] => Done m
  | (op, r) :: l =>
      let* f := stat_of op r in
      count_responses l (bump f 1 m)
  end.

Definition update_cache_stats (l : list (cache_op * mica_resp)) (stalled_brcs : Z)
    (m : cache_meta_stats) : outcome cache_meta_stats :=
  let* m := count_responses l m in
  Done (bump num_put_success (- stalled_brcs) m).

(** ** Aggregation over the threads *)
Record extended_cache_meta_stats := mkExt {
  num_hit : Z;
  num_miss : Z;
  num_stall : Z;
  num_coherence_fail : Z;
  num_coherence_success : Z;
  metadata : cache_meta_stats
}.

Definition cache_meta_reset : cache_meta_stats := fun _ => 0.
Definition extended_cache_meta_reset : extended_cache_meta_stats := mkExt 0 0 0 0 0 cache_meta_reset.

Definition cache_meta_aggregate (threads : list cache_meta_stats) (a : extended_cache_meta_stats)
    : extended_cache_meta_stats :=
  let m := foldl (fun acc t => fun f => acc f + t f) (metadata a) threads in
  mkExt (m num_get_success + m num_put_success) (m num_get_miss + m num_put_miss)
    (m num_get_stall + m num_put_stall)
    (m num_upd_fail + m num_inv_fail + m num_ack_fail)
    (m num_upd_success + m num_inv_success + m num_ack_success) m.

(** [print_cache_stats] computes its figures from a fresh aggregation. *)
Definition aggregated (threads : list cache_meta_stats) : extended_cache_meta_stats :=
  cache_meta_aggregate threads extended_cache_meta_reset.

(** ** Totals *)
Definition total (m : cache_meta_stats) : Z :=
  m num_get_success + m num_put_success + m num_upd_success + m num_inv_success + m num_ack_success +
  m num_get_stall + m num_put_stall + m num_upd_fail + m num_inv_fail + m num_ack_fail +
  m num_get_miss + m num_put_miss + m num_unserved_get_miss + m num_unserved_put_miss.

Lemma total_bump f n m : total (bump f n m) = total m + n.
Proof.
  assert (Hb : forall g, bump f n m g = if bool_decide (g = f) then m g + n else m g) by done.
  unfold total. rewrite !Hb.
  destruct f; repeat first [rewrite bool_decide_true by done | rewrite bool_decide_false by done]; lia.
Qed.

Lemma count_total l m m' : count_responses l m = Done m' -> total m' = total m + Z.of_nat (length l).
Proof.
  revert m. induction l as [|[op r] l IH]; intros m E; cbn [count_responses] in E.
  { injection E as <-. simpl. lia. }
  apply obind_Done_inv in E as (f & _ & E). rewrite (IH _ E), total_bump. cbn [length]. lia.
Qed.

(** The responses the counters know. *)
Definition countable (x : cache_op * mica_resp) : bool :=
  let t := resp_type x.2 in
  let rw := (opcode x.1 =? CACHE_OP_GET) || (opcode x.1 =? CACHE_OP_PUT) in
  (t =? CACHE_GET_SUCCESS) || (t =? CACHE_PUT_SUCCESS) || (t =? CACHE_UPD_SUCCESS) ||
  (t =? CACHE_INV_SUCCESS) || (t =? CACHE_ACK_SUCCESS) || (t =? CACHE_LAST_ACK_SUCCESS) ||
  ((t =? CACHE_MISS) && rw) || (t =? CACHE_GET_STALL) || (t =? CACHE_PUT_STALL) ||
  (t =? CACHE_UPD_FAIL) || (t =? CACHE_INV_FAIL) || (t =? CACHE_ACK_FAIL) ||
  ((t =? UNSERVED_CACHE_MISS) && rw).

Lemma stat_of_countable op r :
  if countable (op, r) then exists f, stat_of op r = Done f else stat_of op r = AssertFailed.
Proof.
  unfold countable, stat_of. cbn [fst snd].
  destruct (resp_type r =? CACHE_GET_SUCCESS); [by eexists|].
  destruct (resp_type r =? CACHE_PUT_SUCCESS); [by eexists|].
  destruct (resp_type r =? CACHE_UPD_SUCCESS); [by eexists|].
  destruct (resp_type r =? CACHE_INV_SUCCESS); [by eexists|].
  destruct (resp_type r =? CACHE_ACK_SUCCESS); [by eexists|].
  destruct (resp_type r =? CACHE_LAST_ACK_SUCCESS); [by eexists|].
  destruct (Z.eqb_spec (resp_type r) CACHE_MISS) as [->|_].
  { by destruct (opcode op =? CACHE_OP_GET), (opcode op =? CACHE_OP_PUT); cbn; eauto. }
  destruct (resp_type r =? CACHE_GET_STALL); [by eexists|].
  destruct (resp_type r =? CACHE_PUT_STALL); [by eexists|].
  destruct (resp_type r =? CACHE_UPD_FAIL); [by eexists|].
  destruct (resp_type r =? CACHE_INV_FAIL); [by eexists|].
  destruct (resp_type r =? CACHE_ACK_FAIL); [by eexists|].
  by destruct (resp_type r =? UNSERVED_CACHE_MISS), (opcode op =? CACHE_OP_GET),
    (opcode op =? CACHE_OP_PUT); cbn; eauto.
Qed.

Lemma foldl_add (l : list cache_meta_stats) m f :
  foldl (fun acc t => fun g => acc g + t g) m l f = m f + foldr (fun t n => t f + n) 0 l.
Proof.
  revert m. induction l as [|t l IH]; intros m; [simpl; lia|]. simpl. rewrite IH. lia.
Qed.

Lemma foldr_sum2 (l : list cache_meta_stats) (f g h : cache_meta_stats -> Z) :
  (forall t, h t = f t + g t) ->
  foldr (fun t n => h t + n) 0 l = foldr (fun t n => f t + n) 0 l + foldr (fun t n => g t + n) 0 l.
Proof. intros H. induction l as [|t l IH]; [done|]. simpl. rewrite IH, H. lia. Qed.

(** Counting is complete: [update_cache_stats] completes exactly when every
    response of the batch is one it knows (a rejected write, [CACHE_PUT_FAIL],
    is not and fails its assertion), and then the counters together grow by the
    number of operations less the stalled broadcasts; a fresh aggregation holds
    for each counter the sum over the threads. *)
Theorem stats_complete l stalled m threads :
  (if forallb countable l
   then exists m', update_cache_stats l stalled m = Done m' /\
          total m' = total m + Z.of_nat (length l) - stalled
   else update_cache_stats l stalled m = AssertFailed) /\
  (forall f, metadata (aggregated threads) f = foldr (fun t n => t f + n) 0 threads) /\
  num_hit (aggregated threads) = foldr (fun t n => t num_get_success + t num_put_success + n) 0 threads.
Proof.
  split; [|split].
  - assert (Hc : if forallb countable l then exists m', count_responses l m = Done m'
                 else count_responses l m = AssertFailed).
    { revert m. induction l as [|[op r] l IH]; intros m; [by exists m|]. cbn [forallb count_responses].
      pose proof (stat_of_countable op r) as Hs. destruct (countable (op, r)); cbn [andb].
      - destruct Hs as [f ->]. apply IH.
      - by rewrite Hs. }
    unfold update_cache_stats. destruct (forallb countable l); [|by rewrite Hc].
    destruct Hc as [m1 E]. rewrite E. cbn [obind]. eexists. split; [reflexivity|].
    rewrite total_bump, (count_total _ _ _ E). lia.
  - intros f. unfold aggregated, cache_meta_aggregate. cbn [metadata]. by rewrite foldl_add.
  - unfold aggregated, cache_meta_aggregate. cbn [num_hit metadata]. rewrite !foldl_add.
    symmetry. apply (foldr_sum2 threads (fun t => t num_get_success) (fun t => t num_put_success)). done.
Qed.

(** ** The statistics of one batch ([window_stats]) *)
Definition FIRST_N_HOT_IN_WINDOW : Z := 10.

Record window_counts := mkWin {
  win_hot_reads : Z -> Z;
  win_hot_writes : Z -> Z;
  window_hot_reads : Z;
  window_hot_writes : Z;
  window_nor_reads : Z;
  window_nor_writes : Z
}.

(** The inner loop: the request is counted for every one of the hottest keys it
    equals. *)
Definition count_hot_keys (keys : list uint128) (op : cache_op) (w : window_counts) : window_counts :=
  foldl (fun w x =>
    if key_word op =? key_word (set_op_key x.2 op) then
      if opcode op =? CACHE_OP_PUT
      then mkWin (win_hot_reads w) (fupd (win_hot_writes w) x.1 (win_hot_writes w x.1 + 1)) (window_hot_reads w)
             (window_hot_writes w) (window_nor_reads w) (window_nor_writes w)
      else mkWin (fupd (win_hot_reads w) x.1 (win_hot_reads w x.1 + 1)) (win_hot_writes w) (window_hot_reads w)
             (window_hot_writes w) (window_nor_reads w) (window_nor_writes w)
    else w) w (imap (fun j k => (Z.of_nat j, k)) keys).

(** The switch on the response. *)
Definition count_response (op : cache_op) (r : mica_resp) (w : window_counts) : outcome window_counts :=
  let '(mkWin hr hw a b c d) := w in
  let t := resp_type r in
  if (t =? CACHE_GET_SUCCESS) || (t =? CACHE_GET_STALL) then Done (mkWin hr hw (a + 1) b c d)
  else if (t =? CACHE_PUT_SUCCESS) || (t =? CACHE_PUT_STALL) then Done (mkWin hr hw a (b + 1) c d)
  else if t =? CACHE_MISS then
    if opcode op =? CACHE_OP_GET then Done (mkWin hr hw a b (c + 1) d)
    else if opcode op =? CACHE_OP_PUT then Done (mkWin hr hw a b c (d + 1)) else AssertFailed
  else Done w.

Fixpoint window_loop (keys : list uint128) (l : list (cache_op * mica_resp)) (w : window_counts) : outcome window_counts :=
  match l with
  | [] => Done w
  | (op, r) :: l => let* w := count_response op r (count_hot_keys keys op w) in window_loop keys l w
  end.

(** What is printed for a batch. *)
Definition window_stats (l : list (cache_op * mica_resp)) : outcome window_counts :=
  let* keys := gen_keys_loop (Z.to_nat FIRST_N_HOT_IN_WINDOW) 0 in
  window_loop keys l (mkWin (fun _ => 0) (fun _ => 0) 0 0 0 0).

Definition window_total (w : window_counts) : Z :=
  window_hot_reads w + window_hot_writes w + window_nor_reads w + window_nor_writes w.

(** Responses that go to one of the four totals. *)
Definition in_window_totals (x : cache_op * mica_resp) : bool :=
  let t := resp_type x.2 in
  (t =? CACHE_GET_SUCCESS) || (t =? CACHE_GET_STALL) || (t =? CACHE_PUT_SUCCESS) || (t =? CACHE_PUT_STALL) || (t =? CACHE_MISS).

Lemma count_hot_keys_total keys op w : window_total (count_hot_keys keys op w) = window_total w.
Proof.
  unfold count_hot_keys. generalize (imap (fun j k => (Z.of_nat j, k)) keys) as l. intros l. revert w.
  induction l as [|x l IH]; intros w; [done|]. simpl. rewrite IH. by repeat case_match.
Qed.

Lemma count_response_total op r w w' :
  count_response op r w = Done w' -> window_total w' = window_total w + zb (in_window_totals (op, r)).
Proof.
  unfold count_response, in_window_totals, window_total. destruct w. cbn [snd].
  destruct (resp_type r =? CACHE_GET_SUCCESS), (resp_type r =? CACHE_GET_STALL), (resp_type r =? CACHE_PUT_SUCCESS),
    (resp_type r =? CACHE_PUT_STALL), (resp_type r =? CACHE_MISS); cbn [orb zb]; intros E; repeat case_match; inv_done E;
    simplify_eq; simpl; lia.
Qed.

(** Every request of the batch with a counted response is in exactly one total. *)
Theorem window_stats_total l w :
  window_stats l = Done w -> window_total w = Z.of_nat (length (filter (fun x => in_window_totals x = true) l)).
Proof.
  unfold window_stats. intros E. apply obind_Done_inv in E as (keys & _ & E).
  assert (H : forall l w w', window_loop keys l w = Done w' ->
    window_total w' = window_total w + Z.of_nat (length (filter (fun x => in_window_totals x = true) l))).
  { clear. induction l as [|[op r] l IH]; intros w w' E; cbn [window_loop] in E; [injection E as <-; simpl; lia|].
    apply obind_Done_inv in E as (w1 & E1 & E). apply count_response_total in E1. rewrite count_hot_keys_total in E1.
    rewrite (IH _ _ E), E1, filter_cons. destruct (decide (in_window_totals (op, r) = true)) as [Hd|Hd].
    - rewrite Hd. cbn [zb length]. lia.
    - apply not_true_is_false in Hd. rewrite Hd. cbn [zb]. lia. }
  apply H in E. rewrite E. unfold window_total at 1. simpl. lia.
Qed.
